(** * Syzygy tablebase probing in Cfish: a model of [src/tbprobe.c]

    The probing code sits between two collaborators that are not part of
    [tbprobe.c]: the chess engine (positions, move generation, do/undo of
    moves: [position.h], [movegen.h], [types.h]) and the table decoder
    ([tbcore.c]: registry, indexer, decompression).  Both are interfaces
    here, [Engine] and [TBCore]; every function of [tbprobe.c] is a
    definition over them, written in state-passing style:

    - the cell behind [int *success] and the table registry are the state
      [St], threaded through every probe;
    - a C [return] from inside a loop is the [Return] case of [Flow];
    - [do_move] / [undo_move] pairs are balanced, so probing a child is a
      call on [do_move pos m] and the parent keeps [pos];
    - move lists produced into the shared buffer are lists: a child writes
      behind its parent's [endMoves], so a parent's list is never clobbered;
    - [int] values are [Z]: a quantity is a table byte shifted by a few
      units, far from the 32-bit limits, but for the root value, which can
      be [INT32_MAX]: where it is added to, the wrap-around is written
      out ([to_int]).                                                       *)

From Stdlib Require Import Ascii.
From stdpp Require Import base numbers list option.
Local Open Scope Z_scope.

(** ** Engine types *)

Definition Move := Z.
Definition Square := Z.
Definition Bitboard := Z.
Definition Key := Z.
Definition Value := Z.

Inductive MoveType := NORMAL | PROMOTION | ENPASSANT | CASTLING.

Definition MoveType_eqb (a b : MoveType) : bool :=
  match a, b with
  | NORMAL, NORMAL | PROMOTION, PROMOTION
  | ENPASSANT, ENPASSANT | CASTLING, CASTLING => true
  | _, _ => false
  end.

(** Colours and piece types as [tbprobe.c] numbers them: piece codes are
    "1 = white pawn, ..., 14 = black king", colour [pc >> 3], type [pc & 7]. *)
Definition WHITE : Z := 0.
Definition BLACK : Z := 1.
Definition PAWN : Z := 1.
Definition KING : Z := 6.

Definition INT32_MAX : Z := 2147483647.

(** The part of [struct Stack] that [tbprobe.c] reads through [st - k]. *)
Record Stack := mkStack { Stack_key : Key; pliesFromNull : Z }.

Record ExtMove := mkExtMove { move : Move; value : Z }.

(** The engine, as [tbprobe.c] consumes it. [pos_st p] is the state stack
    seen from [pos->st] downwards: [st], [st - 1], [st - 2], ... *)
Class Engine : Type := {
  Pos : Type;
  pieces : Pos -> Bitboard;
  pieces_cp : Pos -> Z -> Z -> Bitboard;
  piece_on : Pos -> Square -> Z;
  pos_stm : Pos -> Z;
  pos_checkers : Pos -> Bitboard;
  pos_rule50_count : Pos -> Z;
  pos_material_key : Pos -> Key;
  pos_st : Pos -> list Stack;
  type_of_m : Move -> MoveType;
  from_sq : Move -> Square;
  to_sq : Move -> Square;
  type_of_p : Z -> Z;
  generate_captures : Pos -> list Move;
  generate_evasions : Pos -> list Move;
  generate_non_evasions : Pos -> list Move;
  generate_quiets : Pos -> list Move;
  generate_legal : Pos -> list Move;
  is_legal : Pos -> Move -> bool;
  do_move : Pos -> Move -> Pos;
  VALUE_DRAW : Value;
  VALUE_MATE : Value;
  MAX_PLY : Z;
  PawnValueEg : Value;
}.

(** ** Probe state *)

Record St (T : Type) : Type := mkSt { tb : T; success : Z }.
Arguments mkSt {T} _ _.
Arguments tb {T} _.
Arguments success {T} _.

Definition set_success {T : Type} (s : Z) (st : St T) : St T :=
  mkSt (tb st) s.

(** The two table readers. Their bodies are in [tbprobe.c]; module
    [Syzygy] below gives the one of [probe_wdl_table] over [tbcore.c]. *)
Class Tablebase (E : Engine) : Type := {
  TB : Type;
  probe_wdl_table : Pos -> St TB -> Z * St TB;
  probe_dtz_table : Pos -> Z -> St TB -> Z * St TB;
}.

Inductive Flow (R A : Type) : Type :=
  | Return (r : R)
  | Continue (a : A).
Arguments Return {R A} _.
Arguments Continue {R A} _.

Definition popcount (b : Bitboard) : nat :=
  length (filter (fun i => Z.testbit b i = true) (seqZ 0 64)).

Definition wdl_to_dtz : list Z := [-1; -101; 0; 101; 1].

(** [wdl_to_dtz[i]]; the C array has five cells, a read outside them is
    undefined and reads 0 here. *)
Definition wdl_to_dtz_at (i : Z) : Z :=
  if i <? 0 then 0 else nth (Z.to_nat i) wdl_to_dtz 0.

Section Probe.
Context {E : Engine} {T : Tablebase E}.

(** [is_capture] of [position.h]. *)
Definition is_capture (pos : Pos) (m : Move) : bool :=
  (negb (piece_on pos (to_sq m) =? 0) && negb (MoveType_eqb (type_of_m m) CASTLING))
  || MoveType_eqb (type_of_m m) ENPASSANT.

Definition moved_piece (pos : Pos) (m : Move) : Z := piece_on pos (from_sq m).

Definition underprom_caps (pos : Pos) (m : Move) : list Move :=
  if MoveType_eqb (type_of_m m) PROMOTION && negb (piece_on pos (to_sq m) =? 0)
  then [m - Z.shiftl 1 12; m - Z.shiftl 2 12; m - Z.shiftl 3 12]
  else [].

(** The extra moves are appended behind [end]; the scan covers the
    original list only. *)
Definition add_underprom_caps (pos : Pos) (ms : list Move) : list Move :=
  ms ++ flat_map (underprom_caps pos) ms.

(** The list both [probe_ab] and [TB_probe_wdl] iterate over. *)
Definition capture_moves (pos : Pos) : list Move :=
  if pos_checkers pos =? 0
  then add_underprom_caps pos (generate_captures pos)
  else generate_evasions pos.

(** The list [TB_probe_dtz] iterates over. *)
Definition all_moves (pos : Pos) : list Move :=
  if pos_checkers pos =? 0
  then generate_non_evasions pos
  else generate_evasions pos.

(** ** [probe_ab]
    The loop of lines 321-338; [rec] is [probe_ab] itself, called on the
    position after a capture. *)
Fixpoint ab_captures (rec : Pos -> Z -> Z -> St TB -> option (Z * St TB))
  (pos : Pos) (ms : list Move) (alpha beta : Z) (st : St TB)
  : option (Z * St TB) :=
  match ms with
  | [] =>
    let '(v, st1) := probe_wdl_table pos st in
    Some (if alpha >=? v then alpha else v, st1)
  | m :: ms' =>
    if negb (is_capture pos m) || negb (is_legal pos m)
    then ab_captures rec pos ms' alpha beta st
    else
      match rec (do_move pos m) (- beta) (- alpha) st with
      | None => None
      | Some (r, st1) =>
        let v := - r in
        if success st1 =? 0 then Some (0, st1)
        else if v >? alpha then
               if v >=? beta then Some (v, st1)
               else ab_captures rec pos ms' v beta st1
             else ab_captures rec pos ms' alpha beta st1
      end
  end.

(** Every recursive call is on a position after a capture; [fuel] bounds
    the depth of captures. *)
Fixpoint probe_ab_fuel (fuel : nat) (pos : Pos) (alpha beta : Z) (st : St TB)
  : option (Z * St TB) :=
  match fuel with
  | O => None
  | S fuel' =>
    ab_captures (probe_ab_fuel fuel') pos (capture_moves pos) alpha beta st
  end.

(** A capture removes a piece, so the number of pieces bounds the depth. *)
Definition probe_ab (pos : Pos) (alpha beta : Z) (st : St TB) : option (Z * St TB) :=
  probe_ab_fuel (S (popcount (pieces pos))) pos alpha beta st.

(** ** [TB_probe_wdl] *)

(** The capture loop, lines 378-396: [Return] is a [return] from inside it,
    [Continue (best_cap, best_ep)] is falling out of it. *)
Fixpoint wdl_captures (pos : Pos) (ms : list Move) (best_cap best_ep : Z)
  (st : St TB) : option (Flow Z (Z * Z) * St TB) :=
  match ms with
  | [] => Some (Continue (best_cap, best_ep), st)
  | m :: ms' =>
    if negb (is_capture pos m) || negb (is_legal pos m)
    then wdl_captures pos ms' best_cap best_ep st
    else
      match probe_ab (do_move pos m) (-2) (- best_cap) st with
      | None => None
      | Some (r, st1) =>
        let v := - r in
        if success st1 =? 0 then Some (Return 0, st1)
        else if v >? best_cap then
               if v =? 2 then Some (Return 2, set_success 2 st1)
               else if negb (MoveType_eqb (type_of_m m) ENPASSANT)
                    then wdl_captures pos ms' v best_ep st1
                    else if v >? best_ep
                         then wdl_captures pos ms' best_cap v st1
                         else wdl_captures pos ms' best_cap best_ep st1
             else wdl_captures pos ms' best_cap best_ep st1
      end
  end.

(** Lines 428-444: is the position without its ep captures stalemate?
    The first loop runs over the capture list and stops at a legal move
    that is not an ep capture; the quiet moves are generated and scanned
    only if it found none and the side to move is not in check. *)
Definition no_move_but_ep (pos : Pos) (ms : list Move) : bool :=
  if existsb (fun m => negb (MoveType_eqb (type_of_m m) ENPASSANT) && is_legal pos m) ms
  then false
  else if pos_checkers pos =? 0
       then negb (existsb (is_legal pos) (generate_quiets pos))
       else true.

(** Lines 418-449, entered with [best_cap] already holding a folded
    [best_ep]. *)
Definition wdl_after_ep (pos : Pos) (ms : list Move) (best_cap best_ep v : Z)
  (st : St TB) : Z * St TB :=
  if best_cap >=? v
  then (best_cap, set_success (1 + (if best_cap >? 0 then 1 else 0)) st)
  else if (best_ep >? -3) && (v =? 0) && no_move_but_ep pos ms
       then (best_ep, set_success 2 st)
       else (v, st).

(** Lines 398-449. *)
Definition wdl_resolve (pos : Pos) (ms : list Move) (best_cap best_ep : Z)
  (st : St TB) : Z * St TB :=
  let '(v, st1) := probe_wdl_table pos st in
  if success st1 =? 0 then (0, st1)
  else if best_ep >? best_cap then
         if best_ep >? v then (best_ep, set_success 2 st1)
         else wdl_after_ep pos ms best_ep best_ep v st1
       else wdl_after_ep pos ms best_cap best_ep v st1.

Definition TB_probe_wdl (pos : Pos) (st : St TB) : option (Z * St TB) :=
  let ms := capture_moves pos in
  match wdl_captures pos ms (-3) (-3) (set_success 1 st) with
  | None => None
  | Some (Return r, st1) => Some (r, st1)
  | Some (Continue (best_cap, best_ep), st1) =>
    Some (wdl_resolve pos ms best_cap best_ep st1)
  end.

(** ** [TB_probe_dtz] *)

(** Lines 509-520: the search for a winning pawn move. *)
Fixpoint dtz_pawn_moves (pos : Pos) (wdl : Z) (ms : list Move) (st : St TB)
  : option (Flow Z unit * St TB) :=
  match ms with
  | [] => Some (Continue (), st)
  | m :: ms' =>
    if negb (type_of_p (moved_piece pos m) =? PAWN) || is_capture pos m
       || negb (is_legal pos m)
    then dtz_pawn_moves pos wdl ms' st
    else
      match TB_probe_wdl (do_move pos m) st with
      | None => None
      | Some (r, st1) =>
        let v := - r in
        if success st1 =? 0 then Some (Return 0, st1)
        else if v =? wdl then Some (Return (wdl_to_dtz_at (wdl + 2)), st1)
        else dtz_pawn_moves pos wdl ms' st1
      end
  end.

(** Line 556: the moves the second loop of [TB_probe_dtz] passes over. *)
Definition dtz_skips (pos : Pos) (m : Move) : bool :=
  is_capture pos m || (type_of_p (moved_piece pos m) =? PAWN)
  || negb (is_legal pos m).

Definition dtz_better (wdl v best : Z) : Z :=
  if wdl >? 0
  then (if (v >? 0) && (v + 1 <? best) then v + 1 else best)
  else (if v - 1 <? best then v - 1 else best).

(** Lines 551-571: the loop over the moves of pieces that are not
    captures; [rec] is [TB_probe_dtz] itself. *)
Fixpoint dtz_moves (rec : Pos -> St TB -> option (Z * St TB))
  (pos : Pos) (wdl : Z) (ms : list Move) (best : Z) (st : St TB)
  : option (Z * St TB) :=
  match ms with
  | [] => Some (best, st)
  | m :: ms' =>
    if dtz_skips pos m then dtz_moves rec pos wdl ms' best st
    else
      match rec (do_move pos m) st with
      | None => None
      | Some (r, st1) =>
        let v := - r in
        if success st1 =? 0 then Some (0, st1)
        else dtz_moves rec pos wdl ms' (dtz_better wdl v best) st1
      end
  end.

(** Lines 499-521, run only for [wdl > 0]. *)
Definition dtz_pawn_search (pos : Pos) (wdl : Z) (st : St TB)
  : option (Flow Z unit * St TB) :=
  if wdl >? 0 then dtz_pawn_moves pos wdl (all_moves pos) st
  else Some (Continue (), st).

Fixpoint TB_probe_dtz (fuel : nat) (pos : Pos) (st : St TB) : option (Z * St TB) :=
  match fuel with
  | O => None
  | S fuel' =>
    match TB_probe_wdl pos st with
    | None => None
    | Some (wdl, st1) =>
      if success st1 =? 0 then Some (0, st1)
      else if wdl =? 0 then Some (0, st1)
      else if success st1 =? 2 then Some (wdl_to_dtz_at (wdl + 2), st1)
      else
        match dtz_pawn_search pos wdl st1 with
        | None => None
        | Some (Return r, st2) => Some (r, st2)
        | Some (Continue _, st2) =>
          let '(dtz, st3) := probe_dtz_table pos wdl st2 in
          if success st3 >=? 0
          then Some (wdl_to_dtz_at (wdl + 2) + (if wdl >? 0 then dtz else - dtz), st3)
          else
            dtz_moves (TB_probe_dtz fuel') pos wdl (all_moves pos)
              (if wdl >? 0 then INT32_MAX else wdl_to_dtz_at (wdl + 2)) st3
        end
    end
  end.

(** ** Colour mirrors *)

(** Modelled from the spec: the reflection of the board that
    [mirror = 0x38] performs on a square, on a bitboard: rank [r] goes to
    rank [7 - r]. *)
Definition flip_vertical (b : Bitboard) : Bitboard :=
  fold_left
    (fun acc r => Z.lor acc (Z.shiftl (Z.land (Z.shiftr b (8 * r)) 255) (8 * (7 - r))))
    [0; 1; 2; 3; 4; 5; 6; 7] 0.

(** Modelled from the spec: [mirror_colors] is not a function of the
    sources. It swaps the colours ([cmirror = 8] toggles the colour bit of
    a piece code) and reflects the board vertically; the side to move
    changes with the colours, as the position is the same game seen from
    the other side. [color_mirrored p q] says that [q] is the mirror of
    [p]. *)
Definition color_mirrored (p q : Pos) : bool :=
  (pos_stm q =? Z.lxor (pos_stm p) 1)
  && forallb
       (fun c =>
          forallb (fun pt => pieces_cp q c pt =? flip_vertical (pieces_cp p (Z.lxor c 1) pt))
                  [1; 2; 3; 4; 5; 6])
       [0; 1].

(** Every move a probe of [pos] can look at. *)
Definition probed_moves (pos : Pos) : list Move :=
  capture_moves pos ++ generate_quiets pos ++ all_moves pos.

(** [R] relates positions to their colour mirrors, [mm] moves to the
    mirrored moves, and the engine respects both: a side is to move,
    bitboards have 64 bits, mirrored positions have mirrored move lists,
    a mirrored move is of the same kind and as legal, and leads to the
    mirrored position. Move generation is not part of [tbprobe.c]; this
    is what the probes need of it. *)
Record MirrorSim (R : Pos -> Pos -> Prop) (mm : Move -> Move) : Prop := {
  sim_mirrored : forall p q, R p q -> color_mirrored p q = true;
  sim_stm : forall p q, R p q -> pos_stm p = WHITE \/ pos_stm p = BLACK;
  sim_boards : forall p q c pt, R p q -> In c [0; 1] -> In pt [1; 2; 3; 4; 5; 6] ->
    0 <= pieces_cp p c pt < 2 ^ 64;
  sim_pieces : forall p q, R p q -> popcount (pieces q) = popcount (pieces p);
  sim_captures : forall p q, R p q -> capture_moves q = mm <$> capture_moves p;
  sim_quiets : forall p q, R p q ->
    (pos_checkers q =? 0) = (pos_checkers p =? 0)
    /\ generate_quiets q = mm <$> generate_quiets p;
  sim_all : forall p q, R p q -> all_moves q = mm <$> all_moves p;
  sim_move : forall p q m, R p q -> In m (probed_moves p) ->
    type_of_m (mm m) = type_of_m m
    /\ is_capture q (mm m) = is_capture p m
    /\ is_legal q (mm m) = is_legal p m
    /\ type_of_p (moved_piece q (mm m)) = type_of_p (moved_piece p m)
    /\ (is_legal p m = true -> R (do_move p m) (do_move q (mm m)));
}.

(** The computation [fq] follows [fp] where [fp] succeeds: from a state
    whose registry satisfies [I], whenever [fp] returns with
    [success <> 0], [fq] returns the same value in the same state, and
    the registry still satisfies [I]. *)
Definition follows {A : Type} (I : TB -> Prop)
  (fq fp : St TB -> option (A * St TB)) : Prop :=
  forall st r st', I (tb st) ->
    fp st = Some (r, st') -> success st' <> 0 ->
    fq st = Some (r, st') /\ I (tb st').

(** ** [has_repeated]
    [sts] is [st], [st - 1], ...  For the state [st] in front the inner
    loop compares [st - 4], [st - 6], ... while the running offset stays
    below or at [pliesFromNull]; then the scan moves on to [st - 1].  A
    well-formed stack ends in a state with [pliesFromNull < 4]; reading
    below the stack's first cell is undefined in C, and such a cell never
    matches here. *)
Fixpoint has_repeated_from (sts : list Stack) : bool :=
  match sts with
  | [] => false
  | st :: older =>
    let e := pliesFromNull st in
    if e <? 4 then false
    else if existsb
              (fun j : nat =>
                 match older !! (3 + 2 * j)%nat with
                 | Some stp => Stack_key stp =? Stack_key st
                 | None => false
                 end)
              (seq 0 (Z.to_nat (e / 2 - 1)))
         then true
         else has_repeated_from older
  end.

Definition has_repeated (pos : Pos) : bool := has_repeated_from (pos_st pos).

(** ** Root probing *)

Definition wdl_to_Value (i : Z) : Value :=
  if i <? 0 then 0
  else nth (Z.to_nat i)
         [- VALUE_MATE + MAX_PLY + 1; VALUE_DRAW - 2; VALUE_DRAW;
          VALUE_DRAW + 2; VALUE_MATE - MAX_PLY - 1] 0.

(** What a root probe hands back: the return value, the array segment
    [rm[0 .. num)] it was given (values and possibly moves rewritten),
    [*num_moves], and [*score] when it was written. *)
Record RootProbe := mkRootProbe {
  ret : Z;
  rm_out : list ExtMove;
  num_moves : nat;
  score : option Value;
}.

(** Lines 619-635: the value of one root move. *)
Definition root_move_dtz (fuel : nat) (pos : Pos) (dtz : Z) (m : Move) (st : St TB)
  : option (Z * St TB) :=
  let pos' := do_move pos m in
  if negb (pos_checkers pos' =? 0) && (dtz >? 0)
     && bool_decide (generate_legal pos' = [])
  then Some (1, st)
  else if negb (pos_rule50_count pos' =? 0) then
         match TB_probe_dtz fuel pos' st with
         | None => None
         | Some (r, st1) =>
           let v := - r in
           Some (if v >? 0 then v + 1 else if v <? 0 then v - 1 else v, st1)
         end
       else
         match TB_probe_wdl pos' st with
         | None => None
         | Some (r, st1) => Some (wdl_to_dtz_at (- r + 2), st1)
         end.

(** Lines 618-639. The boolean is [false] when the loop left through
    [if (!success) return 0]; the list is the array segment at that time. *)
Fixpoint root_moves_dtz (fuel : nat) (pos : Pos) (dtz : Z) (rm : list ExtMove)
  (st : St TB) : option (bool * list ExtMove * St TB) :=
  match rm with
  | [] => Some (true, [], st)
  | e :: rm' =>
    match root_move_dtz fuel pos dtz (move e) st with
    | None => None
    | Some (v, st1) =>
      if success st1 =? 0 then Some (false, e :: rm', st1)
      else
        match root_moves_dtz fuel pos dtz rm' st1 with
        | None => None
        | Some (ok, rm'', st2) => Some (ok, mkExtMove (move e) v :: rm'', st2)
        end
    end
  end.

(** [for (i = 0; i < num; i++) if (keep(rm[i].value)) rm[j++].move = rm[i].move;]
    run for [n] more rounds from [i], [j]. *)
Fixpoint keep_moves (keep : Z -> bool) (n i j : nat) (rm : list ExtMove)
  : list ExtMove * nat :=
  match n with
  | O => (rm, j)
  | S n' =>
    match rm !! i with
    | None => (rm, j)
    | Some e =>
      if keep (value e)
      then keep_moves keep n' (S i) (S j)
             (alter (fun x => mkExtMove (move e) (value x)) j rm)
      else keep_moves keep n' (S i) j rm
    end
  end.

(** The [int] a sum or a negation is stored as: two's complement
    wrap-around into [-2^31, 2^31). *)
Definition to_int (z : Z) : Z := (z + 2 ^ 31) mod 2 ^ 32 - 2 ^ 31.

(** Lines 641-661. [dtz] can be as large as [INT32_MAX], the start value
    of [best] that line 571 of [TB_probe_dtz] returns when no move
    improves it, so the sums of lines 648 and 650 are taken as [int]. The
    differences of lines 659 and 661 are formed only for [|dtz| <= 100]. *)
Definition root_score (dtz cnt50 : Z) : Value :=
  let wdl :=
    if dtz >? 0 then (if to_int (dtz + cnt50) <=? 100 then 2 else 1)
    else if dtz <? 0 then (if to_int (to_int (- dtz) + cnt50) <=? 100 then -2 else -1)
    else 0 in
  if (wdl =? 1) && (dtz <=? 100)
  then Z.quot ((200 - dtz - cnt50) * PawnValueEg) 200
  else if (wdl =? -1) && (dtz >=? -100)
       then - Z.quot ((200 + dtz - cnt50) * PawnValueEg) 200
       else wdl_to_Value (wdl + 2).

(** Lines 666-671. *)
Definition best_winning (rm : list ExtMove) : Z :=
  fold_left (fun best e => if (value e >? 0) && (value e <? best) then value e else best)
            rm 65535.

(** Lines 676-681. *)
Definition max_dtz_allowed (pos : Pos) (best cnt50 : Z) : Z :=
  if negb (has_repeated pos) && (best + cnt50 <=? 99) then 99 - cnt50 else best.

(** Lines 690-693. *)
Definition best_losing (rm : list ExtMove) : Z :=
  fold_left (fun best e => if best <? value e then value e else best) rm 0.

(** Lines 664-711. *)
Definition root_filter (pos : Pos) (dtz cnt50 : Z) (rm : list ExtMove)
  : list ExtMove * nat :=
  let num := length rm in
  if dtz >? 0 then
    let best := best_winning rm in
    let mx := max_dtz_allowed pos best cnt50 in
    keep_moves (fun v => (v >? 0) && (v <=? mx)) num 0 0 rm
  else if dtz <? 0 then
    let best := best_losing rm in
    if - best * 2 + cnt50 <? 100 then (rm, num)
    else keep_moves (fun v => v =? best) num 0 0 rm
  else keep_moves (fun v => v =? 0) num 0 0 rm.

Definition TB_root_probe (fuel : nat) (pos : Pos) (rm : list ExtMove) (st : St TB)
  : option (RootProbe * St TB) :=
  match TB_probe_dtz fuel pos st with
  | None => None
  | Some (dtz, st1) =>
    if success st1 =? 0 then Some (mkRootProbe 0 rm (length rm) None, st1)
    else
      match root_moves_dtz fuel pos dtz rm st1 with
      | None => None
      | Some (false, rm1, st2) => Some (mkRootProbe 0 rm1 (length rm) None, st2)
      | Some (true, rm1, st2) =>
        let cnt50 := pos_rule50_count pos in
        let '(rm2, j) := root_filter pos dtz cnt50 rm1 in
        Some (mkRootProbe 1 rm2 j (Some (root_score dtz cnt50)), st2)
      end
  end.

(** Lines 732-740 of [TB_root_probe_wdl]: values and the running [best]. *)
Fixpoint root_moves_wdl (pos : Pos) (rm : list ExtMove) (best : Z) (st : St TB)
  : option (bool * list ExtMove * Z * St TB) :=
  match rm with
  | [] => Some (true, [], best, st)
  | e :: rm' =>
    match TB_probe_wdl (do_move pos (move e)) st with
    | None => None
    | Some (r, st1) =>
      let v := - r in
      if success st1 =? 0 then Some (false, e :: rm', best, st1)
      else
        match root_moves_wdl pos rm' (if v >? best then v else best) st1 with
        | None => None
        | Some (ok, rm'', b, st2) => Some (ok, mkExtMove (move e) v :: rm'', b, st2)
        end
    end
  end.

Definition TB_root_probe_wdl (pos : Pos) (rm : list ExtMove) (st : St TB)
  : option (RootProbe * St TB) :=
  match TB_probe_wdl pos st with
  | None => None
  | Some (wdl, st1) =>
    if success st1 =? 0 then Some (mkRootProbe 0 rm (length rm) None, st1)
    else
      let sc := Some (wdl_to_Value (wdl + 2)) in
      match root_moves_wdl pos rm (-2) st1 with
      | None => None
      | Some (false, rm1, _, st2) => Some (mkRootProbe 0 rm1 (length rm) sc, st2)
      | Some (true, rm1, best, st2) =>
        let '(rm2, j) := keep_moves (fun v => v =? best) (length rm) 0 0 rm1 in
        Some (mkRootProbe 1 rm2 j sc, st2)
      end
  end.

End Probe.

(** * The table readers of [tbprobe.c], over [tbcore.c] *)

Module Syzygy.

(** Modelled from the spec: [tbcore.h] is not part of the sources. A table
    entry has a material key, a readiness flag, a piece count, the
    symmetric flag and a payload: for a pawnless table one block per
    perspective ([bside] 0 and 1) with piece list, norm, factor and
    decompression descriptor; for a table with pawns four file buckets of
    that shape. [has_pawns] is the tag of the payload. *)
Record TBData (PD : Type) : Type := mkTBData {
  data_precomp : Z -> PD;
  data_factor : Z -> list Z;
  data_pieces : Z -> list Z;
  data_norm : Z -> list Z;
}.
Arguments mkTBData {PD} _ _ _ _.
Arguments data_precomp {PD} _ _.
Arguments data_factor {PD} _ _.
Arguments data_pieces {PD} _ _.
Arguments data_norm {PD} _ _.

Inductive TBPayload (PD : Type) : Type :=
  | TBEntry_piece (d : TBData PD)
  | TBEntry_pawn (file : Z -> TBData PD).
Arguments TBEntry_piece {PD} _.
Arguments TBEntry_pawn {PD} _.

Record TBEntry (PD : Type) : Type := mkTBEntry {
  entry_key : Key;
  entry_ready : bool;
  entry_num : nat;
  entry_symmetric : bool;
  entry_payload : TBPayload PD;
}.
Arguments mkTBEntry {PD} _ _ _ _ _.
Arguments entry_key {PD} _.
Arguments entry_ready {PD} _.
Arguments entry_num {PD} _.
Arguments entry_symmetric {PD} _.
Arguments entry_payload {PD} _.

(** Modelled from the spec: a DTZ entry has the shape of a WDL entry with
    one block per table or file, a [flags] byte per block, and the byte
    table [map] with its offsets [map_idx]. *)
Record DTZData (PD : Type) : Type := mkDTZData {
  dtz_precomp : PD;
  dtz_factor : list Z;
  dtz_pieces : list Z;
  dtz_norm : list Z;
}.
Arguments mkDTZData {PD} _ _ _ _.
Arguments dtz_precomp {PD} _.
Arguments dtz_factor {PD} _.
Arguments dtz_pieces {PD} _.
Arguments dtz_norm {PD} _.

Inductive DTZPayload (PD : Type) : Type :=
  | DTZEntry_piece (d : DTZData PD) (flags : Z) (map_idx : Z -> Z)
  | DTZEntry_pawn (file : Z -> DTZData PD) (flags : Z -> Z) (map_idx : Z -> Z -> Z).
Arguments DTZEntry_piece {PD} _ _ _.
Arguments DTZEntry_pawn {PD} _ _ _.

Record DTZEntry (PD : Type) : Type := mkDTZEntry {
  dtz_key : Key;
  dtz_num : nat;
  dtz_symmetric : bool;
  dtz_map : Z -> Z;
  dtz_payload : DTZPayload PD;
}.
Arguments mkDTZEntry {PD} _ _ _ _ _.
Arguments dtz_key {PD} _.
Arguments dtz_num {PD} _.
Arguments dtz_symmetric {PD} _.
Arguments dtz_map {PD} _.
Arguments dtz_payload {PD} _.

(** A slot of a [TB_hash] bucket; [hash_ptr] points into the entry store. *)
Record TBHashEntry := mkTBHashEntry { hash_key : Key; hash_ptr : nat }.

(** A cell of the DTZ cache; [None] is the NULL entry. *)
Record DTZTableEntry (PD : Type) : Type := mkDTZTableEntry {
  key1 : Key;
  key2 : Key;
  entry : option (DTZEntry PD);
}.
Arguments mkDTZTableEntry {PD} _ _ _.
Arguments key1 {PD} _.
Arguments key2 {PD} _.
Arguments entry {PD} _.

(** The registry: the buckets of [TB_hash], the store the slots point
    into, and the array [DTZ_table]. *)
Record Registry (PD : Type) : Type := mkRegistry {
  TB_hash : Z -> list TBHashEntry;
  TB_store : nat -> TBEntry PD;
  DTZ_table : list (DTZTableEntry PD);
}.
Arguments mkRegistry {PD} _ _ _.
Arguments TB_hash {PD} _ _.
Arguments TB_store {PD} _ _.
Arguments DTZ_table {PD} _.

(** The entry pointer handed to the indexer: a WDL entry, or a DTZ entry
    cast to the type of a WDL entry. *)
Inductive EntryPtr (PD : Type) : Type :=
  | wdl_entry (e : TBEntry PD)
  | dtz_entry (e : DTZEntry PD).
Arguments wdl_entry {PD} _.
Arguments dtz_entry {PD} _.

(** What [tbprobe.c] takes from [tbcore.c]. [pawn_file], [encode_piece]
    and [encode_pawn] get the entry and the square array [p] by pointer;
    [pawn_file] may reorder [p] before the rest is filled in, so it hands
    it back. *)
Class TBCore : Type := {
  PairsData : Type;
  TBHASHBITS : Z;
  HSHMAX : nat;
  DTZ_ENTRIES : nat;
  pchr : Z -> Ascii.ascii;
  mat_key : Z -> Key;
  wdl_to_map : Z -> Z;
  pa_flags : Z -> Z;
  init_table_wdl : TBEntry PairsData -> list Ascii.ascii -> option (TBEntry PairsData);
  load_dtz_table :
    Registry PairsData -> list Ascii.ascii -> Key -> Key -> DTZTableEntry PairsData;
  pawn_file : EntryPtr PairsData -> list Z -> Z * list Z;
  encode_piece : EntryPtr PairsData -> list Z -> list Z -> list Z -> Z;
  encode_pawn : EntryPtr PairsData -> list Z -> list Z -> list Z -> Z;
  decompress_pairs : PairsData -> Z -> Z;
}.

Section Readers.
Context {E : Engine} {C : TBCore}.

Definition two64 : Z := 2 ^ 64.

(** [prt_str]: "KQPvKRP", with the white pieces first unless [mirror]. *)
Definition prt_side (pos : Pos) (color : Z) : list Ascii.ascii :=
  flat_map (fun pt => repeat (pchr (6 - pt)) (popcount (pieces_cp pos color pt)))
           [6; 5; 4; 3; 2; 1].

Definition prt_str (pos : Pos) (mirror : bool) : list Ascii.ascii :=
  let color := if negb mirror then WHITE else BLACK in
  prt_side pos color ++ ["v"%char] ++ prt_side pos (Z.lxor color 1).

(** [calc_key], a sum in 64 bits. *)
Definition calc_key (pos : Pos) (mirror : bool) : Key :=
  let color := if negb mirror then WHITE else BLACK in
  let side (c off : Z) :=
    fold_left (fun k pt => (k + mat_key (pt + off) * Z.of_nat (popcount (pieces_cp pos c pt)))
                           mod two64)
              [1; 2; 3; 4; 5; 6] in
  side (Z.lxor color 1) 8 (side color 0 0).

(** [for (i = 0; i < HSHMAX; i++) if (ptr2[i].key == key) break;] *)
Fixpoint find_slot (n i : nat) (ptr2 : list TBHashEntry) (key : Key)
  : option (nat * TBHashEntry) :=
  match n with
  | O => None
  | S n' =>
    match ptr2 !! i with
    | None => None
    | Some h => if hash_key h =? key then Some (i, h) else find_slot n' (S i) ptr2 key
    end
  end.

Definition bucket (reg : Registry PairsData) (key : Key) : list TBHashEntry :=
  TB_hash reg (Z.shiftr key (64 - TBHASHBITS)).

(** Lines 117-131 (and 217-231): [(bside, mirror, cmirror)]. *)
Definition probe_side (ptr_key : Key) (symmetric : bool) (key : Key) (stm : Z)
  : Z * Z * Z :=
  if negb symmetric then
    if negb (key =? ptr_key)
    then ((if stm =? WHITE then 1 else 0), 56, 8)
    else ((if negb (stm =? WHITE) then 1 else 0), 0, 0)
  else (0, (if stm =? WHITE then 0 else 56), (if stm =? WHITE then 0 else 8)).

Definition lsb (b : Bitboard) : Square := Z.log2 (Z.land b (- b)).

Definition pop_lsb (b : Bitboard) : Square * Bitboard := (lsb b, Z.land b (b - 1)).

(** [do { p[i++] = pop_lsb(&bb) ^ mirror; } while (bb);] *)
Fixpoint pop_squares (fuel : nat) (bb : Bitboard) (mirror : Z) : list Z :=
  match fuel with
  | O => []
  | S fuel' =>
    let '(s, bb') := pop_lsb bb in
    Z.lxor s mirror :: (if bb' =? 0 then [] else pop_squares fuel' bb' mirror)
  end.

(** [for (; i < num;) { bb = pieces_cp(...pc[i]...); do ... while (bb); }]
    with [i] the number of squares in [p]. *)
Fixpoint fill_squares (fuel : nat) (pos : Pos) (pc : list Z) (cmirror mirror : Z)
  (num : nat) (p : list Z) : list Z :=
  match fuel with
  | O => p
  | S fuel' =>
    let i := length p in
    if (i <? num)%nat then
      let code := nth i pc 0 in
      let bb := pieces_cp pos (Z.shiftr (Z.lxor code cmirror) 3) (Z.land code 7) in
      fill_squares fuel' pos pc cmirror mirror num (p ++ pop_squares 64 bb mirror)
    else p
  end.

(** Lines 136-168 of [probe_wdl_table]: the stored byte minus 2. The
    squares of a pawnless table are not reflected ([mirror] plays no part
    in lines 139-144). *)
Definition wdl_lookup (pos : Pos) (ptr : TBEntry PairsData) (bside mirror cmirror : Z)
  : Z :=
  let res :=
    match entry_payload ptr with
    | TBEntry_piece d =>
      let p := fill_squares (entry_num ptr) pos (data_pieces d bside) cmirror 0
                            (entry_num ptr) [] in
      let idx := encode_piece (wdl_entry ptr) (data_norm d bside) p (data_factor d bside) in
      decompress_pairs (data_precomp d bside) idx
    | TBEntry_pawn file =>
      let k := Z.lxor (nth 0 (data_pieces (file 0) 0) 0) cmirror in
      let bb := pieces_cp pos (Z.shiftr k 3) (Z.land k 7) in
      let '(f, p0) := pawn_file (wdl_entry ptr) (pop_squares 64 bb mirror) in
      let d := file f in
      let p := fill_squares (entry_num ptr) pos (data_pieces d bside) cmirror mirror
                            (entry_num ptr) p0 in
      let idx := encode_pawn (wdl_entry ptr) (data_norm d bside) p (data_factor d bside) in
      decompress_pairs (data_precomp d bside) idx
    end in
  res - 2.

Definition set_store (reg : Registry PairsData) (ptr : nat) (e : TBEntry PairsData)
  : Registry PairsData :=
  mkRegistry (TB_hash reg)
             (fun q => if (q =? ptr)%nat then e else TB_store reg q)
             (DTZ_table reg).

(** [ptr2[i].key = 0ULL] in the bucket of [key]. *)
Definition clear_slot (reg : Registry PairsData) (key : Key) (i : nat)
  : Registry PairsData :=
  let b := Z.shiftr key (64 - TBHASHBITS) in
  mkRegistry (fun b' => if b' =? b
                        then alter (fun h => mkTBHashEntry 0 (hash_ptr h)) i (TB_hash reg b')
                        else TB_hash reg b')
             (TB_store reg) (DTZ_table reg).

(** [probe_wdl_table]. One thread: the two loads of [ready] read the
    same flag. *)
Definition probe_wdl_table (pos : Pos) (st : St (Registry PairsData))
  : Z * St (Registry PairsData) :=
  let key := pos_material_key pos in
  if key =? 2 then (0, st)
  else
    match find_slot HSHMAX 0 (bucket (tb st) key) key with
    | None => (0, set_success 0 st)
    | Some (i, h) =>
      let ptr := TB_store (tb st) (hash_ptr h) in
      let loaded :=
        if negb (entry_ready ptr) then
          match init_table_wdl ptr (prt_str pos (negb (entry_key ptr =? key))) with
          | None => None
          | Some ptr' =>
            Some (mkTBEntry (entry_key ptr') true (entry_num ptr')
                            (entry_symmetric ptr') (entry_payload ptr'))
          end
        else Some ptr in
      match loaded with
      | None => (0, mkSt (clear_slot (tb st) key i) 0)
      | Some ptr =>
        let '(bside, mirror, cmirror) :=
          probe_side (entry_key ptr) (entry_symmetric ptr) key (pos_stm pos) in
        (wdl_lookup pos ptr bside mirror cmirror,
         mkSt (set_store (tb st) (hash_ptr h) ptr) (success st))
      end
    end.

(** Lines 183-209 of [probe_dtz_table]: bring the table of [key] to the
    front of [DTZ_table]; [None] is the exit at lines 195-198. *)
Fixpoint find_dtz (n i : nat) (tbl : list (DTZTableEntry PairsData)) (key : Key)
  : option nat :=
  match n with
  | O => None
  | S n' =>
    match tbl !! i with
    | None => None
    | Some t => if (key1 t =? key) || (key2 t =? key) then Some i
                else find_dtz n' (S i) tbl key
    end
  end.

Definition dtz_to_front (pos : Pos) (key : Key) (reg : Registry PairsData)
  : option (Registry PairsData) :=
  let tbl := DTZ_table reg in
  match tbl !! 0%nat with
  | None => Some reg
  | Some t0 =>
    if negb (key1 t0 =? key) && negb (key2 t0 =? key) then
      match find_dtz (DTZ_ENTRIES - 1) 1 tbl key with
      | Some i =>
        match tbl !! i with
        | Some ti =>
          Some (mkRegistry (TB_hash reg) (TB_store reg)
                           (ti :: take i tbl ++ drop (S i) tbl))
        | None => Some reg
        end
      | None =>
        match find_slot HSHMAX 0 (bucket reg key) key with
        | None => None
        | Some (_, h) =>
          let ptr := TB_store reg (hash_ptr h) in
          let mirror := negb (entry_key ptr =? key) in
          let str := prt_str pos mirror in
          let shifted := mkRegistry (TB_hash reg) (TB_store reg)
                                    (t0 :: take (DTZ_ENTRIES - 1) tbl) in
          let t := load_dtz_table shifted str (calc_key pos mirror)
                                  (calc_key pos (negb mirror)) in
          Some (mkRegistry (TB_hash reg) (TB_store reg)
                           (t :: take (DTZ_ENTRIES - 1) tbl))
        end
      end
    else Some reg
  end.

(** Lines 249-253 (and 278-282): remap, then double. *)
Definition dtz_adjust (ptr : DTZEntry PairsData) (flags : Z) (map_idx : Z -> Z)
  (wdl res : Z) : Z :=
  let res := if negb (Z.land flags 2 =? 0)
             then dtz_map ptr (map_idx (wdl_to_map (wdl + 2)) + res)
             else res in
  if (Z.land flags (pa_flags (wdl + 2)) =? 0) || negb (Z.land wdl 1 =? 0)
  then res * 2
  else res.

Definition probe_dtz_table (pos : Pos) (wdl : Z) (st : St (Registry PairsData))
  : Z * St (Registry PairsData) :=
  let key := pos_material_key pos in
  match dtz_to_front pos key (tb st) with
  | None => (0, set_success 0 st)
  | Some reg =>
    match DTZ_table reg !! 0%nat with
    | None | Some (mkDTZTableEntry _ _ None) => (0, mkSt reg 0)
    | Some (mkDTZTableEntry _ _ (Some ptr)) =>
      let '(bside, mirror, cmirror) :=
        probe_side (dtz_key ptr) (dtz_symmetric ptr) key (pos_stm pos) in
      match dtz_payload ptr with
      | DTZEntry_piece d flags map_idx =>
        if negb (Z.land flags 1 =? bside) && negb (dtz_symmetric ptr)
        then (0, mkSt reg (-1))
        else
          let p := fill_squares (dtz_num ptr) pos (dtz_pieces d) cmirror 0
                                (dtz_num ptr) [] in
          let idx := encode_piece (dtz_entry ptr) (dtz_norm d) p (dtz_factor d) in
          let res := decompress_pairs (dtz_precomp d) idx in
          (dtz_adjust ptr flags map_idx wdl res, mkSt reg (success st))
      | DTZEntry_pawn file flags map_idx =>
        let k := Z.lxor (nth 0 (dtz_pieces (file 0)) 0) cmirror in
        let bb := pieces_cp pos (Z.shiftr k 3) (Z.land k 7) in
        let '(f, p0) := pawn_file (dtz_entry ptr) (pop_squares 64 bb mirror) in
        if negb (Z.land (flags f) 1 =? bside)
        then (0, mkSt reg (-1))
        else
          let d := file f in
          let p := fill_squares (dtz_num ptr) pos (dtz_pieces d) cmirror mirror
                                (dtz_num ptr) p0 in
          let idx := encode_pawn (dtz_entry ptr) (dtz_norm d) p (dtz_factor d) in
          let res := decompress_pairs (dtz_precomp d) idx in
          (dtz_adjust ptr (flags f) (map_idx f) wdl res, mkSt reg (success st))
      end
    end
  end.

End Readers.

End Syzygy.

(** The readers of [tbprobe.c] as the [Tablebase] of the probes. *)
#[export] Instance syzygy_tablebase (E : Engine) (C : Syzygy.TBCore) : Tablebase E := {
  TB := Syzygy.Registry Syzygy.PairsData;
  probe_wdl_table := Syzygy.probe_wdl_table;
  probe_dtz_table := Syzygy.probe_dtz_table;
}.

(** * A finite engine: game trees

    A node is a position together with what the engine answers on it:
    the board, the generated move lists, the legal moves and the position
    after each move. Moves are encoded as the engine does: bits 0-5 the
    target square, bits 6-11 the origin, bits 14-15 the move type. *)

Module Tree.

Inductive WDL := Loss | BlessedLoss | Draw | CursedWin | Win.

Definition wdl_value (w : WDL) : Z :=
  match w with
  | Loss => -2 | BlessedLoss => -1 | Draw => 0 | CursedWin => 1 | Win => 2
  end.

(** What the DTZ table of a node answers: nothing (no table), the wrong
    perspective, or a stored distance. *)
Inductive DTZ := DTZ_absent | DTZ_other_side | DTZ_stored (d : Z).

#[local] Set Warnings "-register-all".

Inductive Node : Type := mkNode {
  node_id : Z;
  node_board : list (Square * Z);
  node_stm : Z;
  node_checkers : Bitboard;
  node_rule50 : Z;
  node_material_key : Key;
  node_st : list Stack;
  node_captures : list Move;
  node_evasions : list Move;
  node_non_evasions : list Move;
  node_quiets : list Move;
  node_legal : list Move;
  node_children : list (Move * Node);
  node_wdl : option WDL;
  node_dtz : DTZ;
}.

Definition board_at (b : list (Square * Z)) (s : Square) : Z :=
  match find (fun c => fst c =? s) b with
  | Some c => snd c
  | None => 0
  end.

Definition board_bb (b : list (Square * Z)) (keep : Z -> bool) : Bitboard :=
  fold_left (fun bb c => if keep (snd c) then Z.lor bb (Z.shiftl 1 (fst c)) else bb) b 0.

Definition child (n : Node) (m : Move) : Node :=
  match find (fun c => fst c =? m) (node_children n) with
  | Some c => snd c
  | None => n
  end.

Definition move_type (m : Move) : MoveType :=
  match Z.land (Z.shiftr m 14) 3 with
  | 0 => NORMAL
  | 1 => PROMOTION
  | 2 => ENPASSANT
  | _ => CASTLING
  end.

#[export] Instance engine : Engine := {
  Pos := Node;
  pieces n := board_bb (node_board n) (fun _ => true);
  pieces_cp n c pt := board_bb (node_board n) (fun pc => pc =? 8 * c + pt);
  piece_on n := board_at (node_board n);
  pos_stm := node_stm;
  pos_checkers := node_checkers;
  pos_rule50_count := node_rule50;
  pos_material_key := node_material_key;
  pos_st := node_st;
  type_of_m := move_type;
  from_sq m := Z.land (Z.shiftr m 6) 63;
  to_sq m := Z.land m 63;
  type_of_p pc := Z.land pc 7;
  generate_captures := node_captures;
  generate_evasions := node_evasions;
  generate_non_evasions := node_non_evasions;
  generate_quiets := node_quiets;
  generate_legal := node_legal;
  is_legal n m := existsb (Z.eqb m) (node_legal n);
  do_move := child;
  VALUE_DRAW := 0;
  VALUE_MATE := 32000;
  MAX_PLY := 128;
  PawnValueEg := 258;
}.

(** Tables that answer what the node says and keep a log of the reads. *)
Inductive Read := ReadWDL (id : Z) | ReadDTZ (id : Z).

Definition read_wdl (n : Node) (st : St (list Read)) : Z * St (list Read) :=
  let log := tb st ++ [ReadWDL (node_id n)] in
  match node_wdl n with
  | Some w => (wdl_value w, mkSt log (success st))
  | None => (0, mkSt log 0)
  end.

Definition read_dtz (n : Node) (wdl : Z) (st : St (list Read)) : Z * St (list Read) :=
  let log := tb st ++ [ReadDTZ (node_id n)] in
  match node_dtz n with
  | DTZ_stored d => (d, mkSt log (success st))
  | DTZ_absent => (0, mkSt log 0)
  | DTZ_other_side => (0, mkSt log (-1))
  end.

#[export] Instance tables : Tablebase engine := {
  TB := list Read;
  probe_wdl_table := read_wdl;
  probe_dtz_table := read_dtz;
}.

(** A second DTZ reader, which finds no table anywhere. *)
Definition no_dtz (n : Node) (wdl : Z) (st : St (list Read)) : Z * St (list Read) :=
  (0, mkSt (tb st ++ [ReadDTZ (node_id n)]) 0).

Definition st0 : St (list Read) := mkSt [] 7.

(** A position without moves. *)
Definition leaf (id : Z) (board : list (Square * Z)) (stm checkers rule50 : Z)
  (w : option WDL) (d : DTZ) : Node :=
  mkNode id board stm checkers rule50 0 [] [] [] [] [] [] [] w d.

Definition mv (from to : Square) : Move := Z.lor (Z.shiftl from 6) to.
Definition ep (from to : Square) : Move := Z.lor (Z.shiftl 2 14) (mv from to).

(** ** KQ v KR: the queen takes the rook
    White Kc1, Qd1; Black Kh8, Rd8; White to move. Qxd8+ leaves KQ v K
    with Black in check and lost. *)
Definition after_Qxd8 : Node :=
  mkNode 2 [(2, 6); (59, 5); (63, 14)] BLACK (Z.shiftl 1 59) 0 0 []
         [] [mv 63 54; mv 63 55] [] [] [mv 63 54; mv 63 55] []
         (Some Loss) (DTZ_stored 10).

Definition queen_takes_rook : Node :=
  mkNode 1 [(2, 6); (3, 5); (63, 14); (59, 12)] WHITE 0 3 0 []
         [mv 3 59] [] [mv 3 59; mv 2 1] [mv 2 1] [mv 3 59; mv 2 1]
         [(mv 3 59, after_Qxd8)]
         (Some Win) (DTZ_stored 1).

(** ** An ep capture that is the only way to a cursed win
    White Ke4, Pe5; Black Kc8, Pd5 (just played d7-d5); White to move.
    The table, which knows no ep rights, says draw; exd6 e.p. reaches a
    position stored as a blessed loss for Black. *)
Definition after_exd6 : Node :=
  leaf 4 [(28, 6); (43, 1); (58, 14)] BLACK 0 0 (Some BlessedLoss) DTZ_absent.

Definition ep_only_win : Node :=
  mkNode 3 [(28, 6); (36, 1); (58, 14); (35, 9)] WHITE 0 0 0 []
         [ep 36 43] [] [] [mv 28 27] [ep 36 43; mv 28 27]
         [(ep 36 43, after_exd6)]
         (Some Draw) DTZ_absent.

(** ** Stalemate but for an ep capture
    White Kg6, Ph7 and two pawns; Black Kh8 and a pawn that is blocked
    and can only take en passant; Black to move. Kxh7 is generated and
    illegal. The table, which knows no ep rights, stores the stalemate as
    a draw. In [stalemate_ep_draw] (pawns on b4, c3, c4) the capture leads
    to a drawn position, in [stalemate_ep_loss] (pawns on a4, b3, b4) to a
    lost one. *)
Definition after_ep_draw : Node :=
  leaf 6 [(46, 6); (55, 1); (63, 14); (17, 9); (18, 1)] WHITE 0 0 (Some Draw) DTZ_absent.

Definition stalemate_ep_draw : Node :=
  mkNode 5 [(46, 6); (55, 1); (63, 14); (26, 9); (25, 1); (18, 1)] BLACK 0 0 0 []
         [ep 26 17; mv 63 55] [] [] [mv 63 62] [ep 26 17]
         [(ep 26 17, after_ep_draw)]
         (Some Draw) DTZ_absent.

Definition after_ep_loss : Node :=
  leaf 8 [(46, 6); (55, 1); (63, 14); (16, 9); (17, 1)] WHITE 0 0 (Some Win) DTZ_absent.

Definition stalemate_ep_loss : Node :=
  mkNode 7 [(46, 6); (55, 1); (63, 14); (25, 9); (24, 1); (17, 1)] BLACK 0 0 0 []
         [ep 25 16; mv 63 55] [] [] [mv 63 62] [ep 25 16]
         [(ep 25 16, after_ep_loss)]
         (Some Draw) DTZ_absent.

(** ** Checkmate, with the DTZ table stored for the other side
    White Kg6, Qg7; Black Kh8, to move and mated. *)
Definition mated : Node :=
  leaf 9 [(46, 6); (54, 5); (63, 14)] BLACK (Z.shiftl 1 54) 5 (Some Loss) DTZ_other_side.

(** ** A lost position with the DTZ table stored for the other side
    White Kf6, Qa1; Black Kh8, to move; both king moves lead to positions
    of the stored side, won with distances 3 and 5. *)
Definition after_Kg8 : Node :=
  leaf 14 [(45, 6); (0, 5); (62, 14)] WHITE 0 1 (Some Win) (DTZ_stored 3).

Definition after_Kh7 : Node :=
  leaf 15 [(45, 6); (0, 5); (55, 14)] WHITE 0 1 (Some Win) (DTZ_stored 5).

Definition lost_other_side : Node :=
  mkNode 13 [(45, 6); (0, 5); (63, 14)] BLACK 0 0 0 []
         [] [] [mv 63 62; mv 63 55; mv 63 54] [mv 63 62; mv 63 55; mv 63 54]
         [mv 63 62; mv 63 55]
         [(mv 63 62, after_Kg8); (mv 63 55, after_Kh7)]
         (Some Loss) DTZ_other_side.

(** The positions of this scenario. *)
Definition lost_other_side_tree (n : Node) : Prop :=
  n = lost_other_side \/ n = after_Kg8 \/ n = after_Kh7.

(** ** Two captures, the first into a position without a table
    White Kc1, Qd1; Black Kh8, Rd8, Nh5; White to move. Qxh5+ leaves
    KQ v KR, for which no table is installed; Qxd8+ leaves KQ v KN with
    Black in check and lost. *)
Definition after_Qxh5 : Node :=
  mkNode 10 [(2, 6); (39, 5); (63, 14); (59, 12)] BLACK (Z.shiftl 1 39) 0 0 []
         [] [mv 63 62; mv 63 54] [] [] [mv 63 62; mv 63 54] []
         None DTZ_absent.

Definition after_Qxd8_knight : Node :=
  mkNode 12 [(2, 6); (59, 5); (63, 14); (39, 10)] BLACK (Z.shiftl 1 59) 0 0 []
         [] [mv 63 54; mv 63 55] [] [] [mv 63 54; mv 63 55] []
         (Some Loss) (DTZ_stored 10).

Definition capture_without_table : Node :=
  mkNode 11 [(2, 6); (3, 5); (63, 14); (59, 12); (39, 10)] WHITE 0 3 0 []
         [mv 3 39; mv 3 59] [] [] [] [mv 3 39; mv 3 59]
         [(mv 3 39, after_Qxh5); (mv 3 59, after_Qxd8_knight)]
         (Some Win) (DTZ_stored 1).

(** ** A won root: KQ v K
    White Kf6, Qa1; Black Kh8; White to move, three root moves. After
    Qa7 and Qb1 Black is lost, with stored distances 2 and 6; Qh1+ Kg8
    is modelled as a move into a drawn position. [won_root_repeated] is
    the same position reached a second time. *)
Definition after_Qa7 : Node :=
  leaf 21 [(45, 6); (48, 5); (63, 14)] BLACK 0 1 (Some Loss) (DTZ_stored 2).

Definition after_Qb1 : Node :=
  leaf 22 [(45, 6); (1, 5); (63, 14)] BLACK 0 1 (Some Loss) (DTZ_stored 6).

Definition after_Qh1 : Node :=
  leaf 23 [(45, 6); (7, 5); (63, 14)] BLACK 0 1 (Some Draw) (DTZ_stored 0).

Definition won_root_with (st : list Stack) : Node :=
  mkNode 20 [(45, 6); (0, 5); (63, 14)] WHITE 0 0 0 st
         [] [] [mv 0 48; mv 0 1; mv 0 7] [mv 0 48; mv 0 1; mv 0 7]
         [mv 0 48; mv 0 1; mv 0 7]
         [(mv 0 48, after_Qa7); (mv 0 1, after_Qb1); (mv 0 7, after_Qh1)]
         (Some Win) (DTZ_stored 4).

Definition won_root : Node := won_root_with [mkStack 70 0].

Definition won_root_repeated : Node :=
  won_root_with [mkStack 70 4; mkStack 61 3; mkStack 62 2; mkStack 63 1; mkStack 70 0].

Definition won_root_moves : list ExtMove :=
  [mkExtMove (mv 0 48) 0; mkExtMove (mv 0 1) 0; mkExtMove (mv 0 7) 0].

(** ** A drawn root
    Two moves keep the draw, one moves into a position won for the
    opponent. *)
Definition after_blunder : Node :=
  leaf 31 [(45, 14); (1, 13); (63, 6)] WHITE 0 1 (Some Loss) (DTZ_stored 3).

Definition after_hold_a : Node :=
  leaf 32 [(45, 14); (0, 13); (62, 6)] WHITE 0 1 (Some Draw) (DTZ_stored 0).

Definition after_hold_b : Node :=
  leaf 33 [(45, 14); (0, 13); (55, 6)] WHITE 0 1 (Some Draw) (DTZ_stored 0).

Definition drawn_root : Node :=
  mkNode 30 [(45, 14); (0, 13); (63, 6)] BLACK 0 0 0 [mkStack 80 0]
         [] [] [mv 0 1; mv 63 62; mv 63 55] [mv 0 1; mv 63 62; mv 63 55]
         [mv 0 1; mv 63 62; mv 63 55]
         [(mv 63 62, after_hold_a); (mv 0 1, after_blunder); (mv 63 55, after_hold_b)]
         (Some Draw) (DTZ_stored 0).

Definition drawn_root_moves : list ExtMove :=
  [mkExtMove (mv 63 62) 0; mkExtMove (mv 0 1) 0; mkExtMove (mv 63 55) 0].

(** ** A root one of whose moves leads out of the tables
    White Kf6, Qa1; Black Kh8, Rb8; White to move. After Qa2 the position
    is in the KQ v KR table. After Qb1 Black can take the queen, and no
    KR v K table is installed. *)
Definition after_Rxb1 : Node :=
  leaf 43 [(45, 6); (1, 12); (63, 14)] WHITE 0 0 None DTZ_absent.

Definition after_Qb1_hangs : Node :=
  mkNode 41 [(45, 6); (1, 5); (63, 14); (57, 12)] BLACK 0 1 0 []
         [mv 57 1] [] [mv 57 1; mv 57 58] [mv 57 58] [mv 57 1; mv 57 58]
         [(mv 57 1, after_Rxb1)]
         (Some Draw) (DTZ_stored 0).

Definition after_Qa2 : Node :=
  leaf 42 [(45, 6); (8, 5); (63, 14); (57, 12)] BLACK 0 1 (Some Loss) (DTZ_stored 2).

Definition half_tabled_root : Node :=
  mkNode 40 [(45, 6); (0, 5); (63, 14); (57, 12)] WHITE 0 0 0 [mkStack 90 0]
         [] [] [mv 0 8; mv 0 1] [mv 0 8; mv 0 1] [mv 0 8; mv 0 1]
         [(mv 0 8, after_Qa2); (mv 0 1, after_Qb1_hangs)]
         (Some Win) (DTZ_stored 4).

Definition half_tabled_moves : list ExtMove :=
  [mkExtMove (mv 0 8) 0; mkExtMove (mv 0 1) 0].

(** ** A root without a table *)
Definition untabled_root : Node :=
  leaf 50 [(45, 6); (0, 5); (63, 14); (57, 12)] WHITE 0 0 None DTZ_absent.

End Tree.

(** * A KP v K table and two positions that are colour mirrors *)

Module KPK.

Definition file_to_file : list Z := [0; 1; 2; 3; 3; 2; 1; 0].

(** A stand-in for [tbcore.c]: a descriptor is the stored bytes by index,
    the index is the mixed-radix sum of squares and factors, and every
    table file is there. *)
#[export] Instance core : Syzygy.TBCore := {
  Syzygy.PairsData := Z -> Z;
  Syzygy.TBHASHBITS := 10;
  Syzygy.HSHMAX := 5;
  Syzygy.DTZ_ENTRIES := 3;
  Syzygy.pchr i := nth (Z.to_nat i) ["K"; "Q"; "R"; "B"; "N"; "P"]%char "?"%char;
  Syzygy.mat_key pc := if (pc =? 6) || (pc =? 14) then 1 else 2 ^ (4 + pc);
  Syzygy.wdl_to_map i := nth (Z.to_nat i) [1; 3; 0; 2; 0] 0;
  Syzygy.pa_flags i := nth (Z.to_nat i) [8; 0; 0; 0; 4] 0;
  Syzygy.init_table_wdl e _ := Some e;
  Syzygy.load_dtz_table _ _ k1 k2 := Syzygy.mkDTZTableEntry k1 k2 None;
  Syzygy.pawn_file _ p := (nth (Z.to_nat (Z.land (nth 0 p 0) 7)) file_to_file 0, p);
  Syzygy.encode_piece _ _ p factor :=
    fold_left Z.add (zip_with Z.mul p factor) 0;
  Syzygy.encode_pawn _ _ p factor :=
    fold_left Z.add (zip_with Z.mul p factor) 0;
  Syzygy.decompress_pairs d idx := d idx;
}.

(** The table: pawn, its king, the other king; with the pawn's side to
    move ([bside] 0) every stored position is won, with the lone king to
    move every stored position is lost. *)
Definition kpk_data : Syzygy.TBData (Z -> Z) :=
  Syzygy.mkTBData (fun bside _ => if bside =? 0 then 4 else 0)
                  (fun _ => [1; 64; 4096])
                  (fun _ => [1; 6; 14])
                  (fun _ => [1; 1; 1]).

Definition key_KPvK : Key := 34.
Definition key_KvKP : Key := 8194.

Definition kpk_entry : Syzygy.TBEntry (Z -> Z) :=
  Syzygy.mkTBEntry key_KPvK false 3 false (Syzygy.TBEntry_pawn (fun _ => kpk_data)).

(** The registry after [init_tables]: both keys of the table in the
    bucket of their top bits, the table not yet loaded. *)
Definition registry : Syzygy.Registry (Z -> Z) :=
  Syzygy.mkRegistry
    (fun b => if b =? 0
              then [Syzygy.mkTBHashEntry key_KPvK 0; Syzygy.mkTBHashEntry key_KvKP 0]
              else [])
    (fun _ => kpk_entry)
    [Syzygy.mkDTZTableEntry 0 0 None; Syzygy.mkDTZTableEntry 0 0 None;
     Syzygy.mkDTZTableEntry 0 0 None].

Definition st0 : St (Syzygy.Registry (Z -> Z)) := mkSt registry 7.

(** White Kh1, Ph2; Black Ka3; White to move. No capture, no check. *)
Definition white_pawn : Tree.Node :=
  Tree.mkNode 60 [(7, 6); (15, 1); (16, 14)] WHITE 0 0 key_KPvK []
              [] [] [] [] [] [] None Tree.DTZ_absent.

(** Its mirror: Black Kh8, Ph7; White Ka6; Black to move. *)
Definition black_pawn : Tree.Node :=
  Tree.mkNode 61 [(63, 14); (55, 9); (40, 6)] BLACK 0 0 key_KvKP []
              [] [] [] [] [] [] None Tree.DTZ_absent.

(** Black to move can take the pawn: White Ka1, Pe4; Black Kd5. After
    Kxe4 the kings are alone. *)
Definition bare_kings : Tree.Node :=
  Tree.mkNode 63 [(0, 6); (28, 14)] WHITE 0 0 2 []
              [] [] [] [] [] [] None Tree.DTZ_absent.

Definition king_takes_pawn : Tree.Node :=
  Tree.mkNode 62 [(0, 6); (28, 1); (35, 14)] BLACK 0 0 key_KPvK []
              [Tree.mv 35 28] [] [Tree.mv 35 28; Tree.mv 35 43] [Tree.mv 35 43]
              [Tree.mv 35 28; Tree.mv 35 43]
              [(Tree.mv 35 28, bare_kings)] None Tree.DTZ_absent.

(** The mirrors: Black Ka8, Pe5; White Kd4, to move, and Kxe5. *)
Definition bare_kings_mirror : Tree.Node :=
  Tree.mkNode 65 [(56, 14); (36, 6)] BLACK 0 0 2 []
              [] [] [] [] [] [] None Tree.DTZ_absent.

Definition king_takes_pawn_mirror : Tree.Node :=
  Tree.mkNode 64 [(56, 14); (36, 9); (27, 6)] WHITE 0 0 key_KvKP []
              [Tree.mv 27 36] [] [Tree.mv 27 36; Tree.mv 27 19] [Tree.mv 27 19]
              [Tree.mv 27 36; Tree.mv 27 19]
              [(Tree.mv 27 36, bare_kings_mirror)] None Tree.DTZ_absent.

Inductive mirror_pair : Tree.Node -> Tree.Node -> Prop :=
  | mirror_pawn : mirror_pair white_pawn black_pawn
  | mirror_takes : mirror_pair king_takes_pawn king_takes_pawn_mirror
  | mirror_bare : mirror_pair bare_kings bare_kings_mirror.

(** Reflect both squares of a move. *)
Definition mirror_move (m : Move) : Move := Z.lxor m 3640.

Definition no_dtz : Syzygy.DTZTableEntry (Z -> Z) := Syzygy.mkDTZTableEntry 0 0 None.

(** What the registry looks like at any time: the two slots of the
    table, the table itself (loaded or not), and a DTZ cache that is empty
    or has noted that there is no KP v K DTZ file. *)
Definition registry_ok (reg : Syzygy.Registry (Z -> Z)) : Prop :=
  Syzygy.TB_hash reg 0
    = [Syzygy.mkTBHashEntry key_KPvK 0; Syzygy.mkTBHashEntry key_KvKP 0]
  /\ Syzygy.entry_key (Syzygy.TB_store reg 0) = key_KPvK
  /\ Syzygy.entry_num (Syzygy.TB_store reg 0) = 3%nat
  /\ Syzygy.entry_symmetric (Syzygy.TB_store reg 0) = false
  /\ Syzygy.entry_payload (Syzygy.TB_store reg 0)
     = Syzygy.TBEntry_pawn (fun _ => kpk_data)
  /\ (Syzygy.DTZ_table reg = [no_dtz; no_dtz; no_dtz]
      \/ Syzygy.DTZ_table reg
         = [Syzygy.mkDTZTableEntry key_KPvK key_KvKP None; no_dtz; no_dtz]).

End KPK.

(** * Capture resolution without a window *)

Section Reference.
Context {E : Engine}.

(** Modelled from the spec: the negamax value over legal captures with
    the stored value [tv] as terminal evaluation, computed without a
    window: the best of the stored value and of minus the value after
    each legal capture. [fuel] bounds the depth of captures. *)
Fixpoint capture_value (tv : Pos -> Z) (fuel : nat) (pos : Pos) : Z :=
  match fuel with
  | O => tv pos
  | S fuel' =>
    fold_right
      (fun m best => if is_capture pos m && is_legal pos m
                     then Z.max (- capture_value tv fuel' (do_move pos m)) best
                     else best)
      (tv pos) (capture_moves pos)
  end.

(** Modelled from the spec: the capture-resolved value of a position; a
    capture removes a piece, so the number of pieces bounds the depth. *)
Definition resolved_value (tv : Pos -> Z) (pos : Pos) : Z :=
  capture_value tv (S (popcount (pieces pos))) pos.

(** Modelled from the spec: the best of [b] and of minus the resolved
    value after each legal capture of the list [ms]. *)
Definition best_of (tv : Pos -> Z) (pos : Pos) (b : Z) (ms : list Move) : Z :=
  fold_right (fun m best => if is_capture pos m && is_legal pos m
                            then Z.max (- resolved_value tv (do_move pos m)) best
                            else best) b ms.

(** What an alpha-beta search with window [(alpha, beta)] may answer for a
    position of value [x]: [alpha] when the value is not above it, the
    value itself inside the window, and a lower bound of the value that
    is at least [beta] when the value is not below [beta]. *)
Definition window_result (alpha beta x r : Z) : Prop :=
  (x <= alpha -> r = alpha)
  /\ (alpha < x < beta -> r = x)
  /\ (beta <= x -> beta <= r <= x).

End Reference.

(** * The statistics tables of [movepick.h] *)

(** [HistoryStats], [CounterMoveStats] and [FromToStats] are arrays of
    arrays of [Value], indexed [hs[pc][to]], [cms[pc][to]] and [ft[c][m]]:
    a table is the list of its rows. A cell outside the table is undefined
    in C; here it reads 0 and a write to it changes nothing. *)
Definition Stats := list (list Value).

Definition stat_get (s : Stats) (i j : Z) : Value :=
  if (i <? 0) || (j <? 0) then 0
  else match s !! Z.to_nat i with
       | Some row => default 0 (row !! Z.to_nat j)
       | None => 0
       end.

Definition stat_set (f : Value -> Value) (s : Stats) (i j : Z) : Stats :=
  if (i <? 0) || (j <? 0) then s
  else alter (alter f (Z.to_nat j)) (Z.to_nat i) s.

(** [hs_update]: [/] is the division of C, which truncates towards 0. *)
Definition hs_update (hs : Stats) (pc : Z) (to : Square) (v : Value) : Stats :=
  let w := if v >=? 0 then v else - v in
  if w >=? 324 then hs
  else
    let hs1 := stat_set (fun x => x - Z.quot (x * w) 324) hs pc to in
    stat_set (fun x => x + v * 32) hs1 pc to.

Definition cms_update (cms : Stats) (pc : Z) (to : Square) (v : Value) : Stats :=
  let w := if v >=? 0 then v else - v in
  if w >=? 324 then cms
  else
    let cms1 := stat_set (fun x => x - Z.quot (x * w) 936) cms pc to in
    stat_set (fun x => x + v * 32) cms1 pc to.

Definition ft_update (ft : Stats) (c : Z) (m : Move) (v : Value) : Stats :=
  let w := if v >=? 0 then v else - v in
  if w >=? 324 then ft
  else
    let m := Z.land m 4095 in
    let ft1 := stat_set (fun x => x - Z.quot (x * w) 324) ft c m in
    stat_set (fun x => x + v * 32) ft1 c m.

Definition ft_get (ft : Stats) (c : Z) (m : Move) : Value :=
  stat_get ft c (Z.land m 4095).

(** Every cell of the table is between [- B] and [B]. *)
Definition stats_within (B : Z) (s : Stats) : Prop :=
  Forall (Forall (fun x => - B <= x <= B)) s.

(** * More of [position.h] and [tbprobe.c] *)

Section PositionMore.
Context {E : Engine}.

(** [is_capture_or_promotion] of [position.h]. *)
Definition is_capture_or_promotion (pos : Pos) (m : Move) : bool :=
  if negb (MoveType_eqb (type_of_m m) NORMAL)
  then negb (MoveType_eqb (type_of_m m) CASTLING)
  else negb (piece_on pos (to_sq m) =? 0).

End PositionMore.

Section Keys.
Context {E : Engine} {C : Syzygy.TBCore}.

(** [calc_key_from_pcs]: [pcs] has 16 cells, indexed by piece code; the
    loop runs from [W_PAWN] = 1 to [B_KING] = 14 and sums in 64 bits. *)
Definition calc_key_from_pcs (pcs : list Z) (mirror : bool) : Key :=
  let color := if negb mirror then 0 else 8 in
  fold_left
    (fun key i =>
       (key + Syzygy.mat_key i * nth (Z.to_nat (Z.lxor i color)) pcs 0) mod Syzygy.two64)
    (seqZ 1 14) 0.

(** The array [pcs] of a position, as the comment of [calc_key_from_pcs]
    describes it: [pcs[1 .. 6]] the numbers of white pawns, ..., kings,
    [pcs[9 .. 14]] those of the black ones, and 0 in the other cells. *)
Definition pcs_of_pos (pos : Pos) : list Z :=
  (fun pc => if (Z.land pc 7 =? 0) || (Z.land pc 7 =? 7) then 0
             else Z.of_nat (popcount (pieces_cp pos (Z.shiftr pc 3) (Z.land pc 7))))
    <$> seqZ 0 16.

(** The number of pieces of a colour, kings and pawns included. *)
Definition count_side (pos : Pos) (c : Z) : nat :=
  sum_list ((fun pt => popcount (pieces_cp pos c pt)) <$> [6; 5; 4; 3; 2; 1]).

End Keys.

(** * Registries whose files are gone *)

(** The core [C] with its WDL files gone: [init_table_wdl] fails on every
    entry, everything else is as in [C]. *)
Definition without_files (C : Syzygy.TBCore) : Syzygy.TBCore := {|
  Syzygy.PairsData := @Syzygy.PairsData C;
  Syzygy.TBHASHBITS := @Syzygy.TBHASHBITS C;
  Syzygy.HSHMAX := @Syzygy.HSHMAX C;
  Syzygy.DTZ_ENTRIES := @Syzygy.DTZ_ENTRIES C;
  Syzygy.pchr := @Syzygy.pchr C;
  Syzygy.mat_key := @Syzygy.mat_key C;
  Syzygy.wdl_to_map := @Syzygy.wdl_to_map C;
  Syzygy.pa_flags := @Syzygy.pa_flags C;
  Syzygy.init_table_wdl := fun _ _ => None;
  Syzygy.load_dtz_table := @Syzygy.load_dtz_table C;
  Syzygy.pawn_file := @Syzygy.pawn_file C;
  Syzygy.encode_piece := @Syzygy.encode_piece C;
  Syzygy.encode_pawn := @Syzygy.encode_pawn C;
  Syzygy.decompress_pairs := @Syzygy.decompress_pairs C;
|}.

(** * More game trees *)

Module MoreTrees.
Import Tree.

(** The value the WDL table of a node stores, 0 where there is none. *)
Definition stored_wdl (n : Node) : Z :=
  match node_wdl n with
  | Some w => wdl_value w
  | None => 0
  end.

(** ** An exchange that loses a rook
    White Kg1, Rd1; Black Kg8, Rd8, Nd4; White to move. Rxd4 takes the
    knight, Rxd4 takes back and leaves K v KR. The tables store a draw
    for KR v KRN and for KR v KR, and a loss for the bare king. *)
Definition after_RxR : Node :=
  mkNode 72 [(6, 6); (62, 14); (27, 12)] WHITE 0 0 0 []
         [] [] [mv 6 7] [mv 6 7] [mv 6 7] []
         (Some Loss) (DTZ_stored 20).

Definition after_RxN : Node :=
  mkNode 71 [(6, 6); (27, 4); (62, 14); (59, 12)] BLACK 0 0 0 []
         [mv 59 27] [] [mv 59 27; mv 62 61] [mv 62 61] [mv 59 27; mv 62 61]
         [(mv 59 27, after_RxR)]
         (Some Draw) (DTZ_stored 0).

Definition rook_takes_knight : Node :=
  mkNode 70 [(6, 6); (3, 4); (62, 14); (59, 12); (27, 10)] WHITE 0 0 0 []
         [mv 3 27] [] [mv 3 27; mv 6 7] [mv 6 7] [mv 3 27; mv 6 7]
         [(mv 3 27, after_RxN)]
         (Some Draw) (DTZ_stored 0).

(** The positions of this scenario. *)
Definition exchange_tree (n : Node) : Prop :=
  n = rook_takes_knight \/ n = after_RxN \/ n = after_RxR.

(** ** A pawn move that keeps the win
    White Kd6, Pe6; Black Ke8; White to move. After e7 Black is lost. *)
Definition after_e7 : Node :=
  leaf 81 [(43, 6); (52, 1); (60, 14)] BLACK 0 0 (Some Loss) (DTZ_stored 8).

Definition pawn_keeps_win : Node :=
  mkNode 80 [(43, 6); (44, 1); (60, 14)] WHITE 0 2 0 []
         [] [] [mv 43 42; mv 44 52] [mv 43 42; mv 44 52] [mv 43 42; mv 44 52]
         [(mv 44 52, after_e7)]
         (Some Win) (DTZ_stored 9).

(** ** Mate in one at the root
    White Kg6, Qa7; Black Kh8; White to move. Qg7 mates ([Tree.mated]);
    after Qb7 Black is lost with stored distance 2. *)
Definition after_Qb7 : Node :=
  leaf 91 [(46, 6); (49, 5); (63, 14)] BLACK 0 5 (Some Loss) (DTZ_stored 2).

Definition mate_in_one : Node :=
  mkNode 90 [(46, 6); (48, 5); (63, 14)] WHITE 0 4 0 [mkStack 95 0]
         [] [] [mv 48 54; mv 48 49] [mv 48 54; mv 48 49] [mv 48 54; mv 48 49]
         [(mv 48 54, mated); (mv 48 49, after_Qb7)]
         (Some Win) (DTZ_stored 1).

Definition mate_in_one_moves : list ExtMove :=
  [mkExtMove (mv 48 54) 0; mkExtMove (mv 48 49) 0].

(** The root moves of [Tree.lost_other_side]. *)
Definition lost_root_moves : list ExtMove :=
  [mkExtMove (mv 63 62) 0; mkExtMove (mv 63 55) 0].

(** A queen promotion that captures on f8: type 1 in bits 14-15, piece 3
    in bits 12-13, from e7, to f8. *)
Definition exf8Q : Move :=
  Z.lor (Z.shiftl 1 14) (Z.lor (Z.shiftl 3 12) (mv 52 61)).

(** The queen promotion on e8, which takes nothing. *)
Definition e8Q : Move :=
  Z.lor (Z.shiftl 1 14) (Z.lor (Z.shiftl 3 12) (mv 52 60)).

(** ** A pawn that promotes with or without a capture
    White Kg6, Pe7; Black Kh8, Rf8; White to move. The capture generator
    gives the king's capture-free list its two queen promotions, e8=Q and
    exf8=Q; the board is all that [add_underprom_caps] reads. *)
Definition pawn_promotes : Node :=
  mkNode 100 [(46, 6); (52, 1); (63, 14); (61, 12)] WHITE 0 0 0 []
         [e8Q; exf8Q] [] [e8Q; exf8Q; mv 46 45] [mv 46 45]
         [e8Q; exf8Q; mv 46 45] []
         None DTZ_absent.

End MoreTrees.

(** * Small statistics tables *)

Module StatsExamples.

(** Two rows of three cells, one cell at each bound. *)
Definition hs0 : Stats := [[0; 10368; -10368]; [5; -7; 100]].

Definition cms0 : Stats := [[0; 29952; -29952]; [5; -7; 100]].

(** Two rows of 4096 cells, all 0 but for cell 77 of row 1. *)
Definition ft0 : Stats :=
  [replicate 4096 0; <[77%nat := 1000]> (replicate 4096 0)].

End StatsExamples.

(** * Colour mirrors and the tables

    What the readers of [tbprobe.c] need of [tbcore.c] and of the
    registry to answer alike on a position and its colour mirror. The
    indexers [pawn_file], [encode_piece] and [encode_pawn] and the loaders
    are not part of the sources; the conditions below say of them only
    what does not depend on [tbprobe.c]. *)

(** The squares of the pieces of a bitboard, from a1 up. *)
Definition squares (bb : Bitboard) : list Z :=
  filter (fun i => Z.testbit bb i = true) (seqZ 0 64).

(** The reflection [^ 0x38] of a list of squares. *)
Definition reflect (p : list Z) : list Z := (fun s => Z.lxor s 56) <$> p.

Section MirrorTablesDefs.
Context {E : Engine} {C : Syzygy.TBCore}.

(** The bitboard lines 140, 156 and 260 pop for the piece code [code]. *)
Definition code_bb (pos : Pos) (cmirror code : Z) : Bitboard :=
  pieces_cp pos (Z.shiftr (Z.lxor code cmirror) 3) (Z.land code 7).

(** The piece codes: 1 to 6 and 9 to 14. *)
Definition piece_code (c : Z) : Prop := 0 <= c < 16 /\ 1 <= Z.land c 7 <= 6.

(** One run per code of [codes], as long as the code has pieces on the
    board: "pieces of the same type are guaranteed to be consecutive". *)
Definition piece_runs (pos : Pos) (cmirror : Z) (codes : list Z) : list Z :=
  flat_map (fun c => replicate (popcount (code_bb pos cmirror c)) c) codes.

(** Behind [lead], the piece list [pcs] of a table lists the pieces of
    [pos], each code with as many cells as the board has pieces of it,
    and at least one. *)
Definition lists_pieces (pos : Pos) (cmirror : Z) (lead pcs : list Z) : Prop :=
  exists codes,
    pcs = lead ++ piece_runs pos cmirror codes
    /\ Forall (fun c => piece_code c /\ code_bb pos cmirror c <> 0) codes.

(** The number of cells at the front of [pcs] that hold its first code:
    the leading pawns of a table with pawns. *)
Fixpoint run_length (c : Z) (pcs : list Z) : nat :=
  match pcs with
  | x :: rest => if x =? c then S (run_length c rest) else O
  | [] => O
  end.

Definition lead_pawns (pcs : list Z) : nat := run_length (nth 0 pcs 0) pcs.

(** [l'] lists the squares of each rank in the order [l] does. *)
Definition same_rank_order (l l' : list Z) : Prop :=
  forall r, filter (fun s => Z.shiftr s 3 = r) l' = filter (fun s => Z.shiftr s 3 = r) l.

Definition on_board (p : list Z) : Prop := Forall (fun s => 0 <= s < 64) p.

(** The index of a pawnless table depends neither on the order in which
    the squares of like pieces are listed nor on a reflection of the
    whole board: [Q] lists, piece code by piece code, the reflected
    squares of [P]. *)
Definition piece_index_symmetric (ptr : Syzygy.EntryPtr Syzygy.PairsData)
  (pcs norm factor : list Z) : Prop :=
  forall P Q,
    on_board P -> length P = length pcs -> length Q = length pcs ->
    zip pcs Q ≡ₚ zip pcs (reflect P) ->
    Syzygy.encode_piece ptr norm Q factor = Syzygy.encode_piece ptr norm P factor.

(** The index of a table with pawns does not depend on the order in which
    the squares of like pieces are listed behind the first cell, the
    leading pawn that [pawn_file] has put there. *)
Definition pawn_index_symmetric (ptr : Syzygy.EntryPtr Syzygy.PairsData)
  (pcs norm factor : list Z) : Prop :=
  forall P Q,
    on_board P -> length P = length pcs -> length Q = length pcs ->
    head Q = head P ->
    zip pcs Q ≡ₚ zip pcs P ->
    Syzygy.encode_pawn ptr norm Q factor = Syzygy.encode_pawn ptr norm P factor.

(** [pawn_file] reorders the [n] leading pawns; the file and the pawn it
    puts in front do not depend on the order of the ranks in the list, as
    long as the pawns of one rank come in the same order. *)
Definition pawn_file_symmetric (ptr : Syzygy.EntryPtr Syzygy.PairsData) (n : nat)
  : Prop :=
  forall l l',
    on_board l -> length l = n -> l' ≡ₚ l -> same_rank_order l l' ->
    fst (Syzygy.pawn_file ptr l') = fst (Syzygy.pawn_file ptr l)
    /\ head (snd (Syzygy.pawn_file ptr l')) = head (snd (Syzygy.pawn_file ptr l))
    /\ snd (Syzygy.pawn_file ptr l') ≡ₚ l'
    /\ snd (Syzygy.pawn_file ptr l) ≡ₚ l.

(** The indexers of a WDL table are symmetric. *)
Definition wdl_index_symmetric (e : Syzygy.TBEntry Syzygy.PairsData) : Prop :=
  match Syzygy.entry_payload e with
  | Syzygy.TBEntry_piece d =>
    forall b, piece_index_symmetric (Syzygy.wdl_entry e) (Syzygy.data_pieces d b)
                (Syzygy.data_norm d b) (Syzygy.data_factor d b)
  | Syzygy.TBEntry_pawn file =>
    pawn_file_symmetric (Syzygy.wdl_entry e)
                        (lead_pawns (Syzygy.data_pieces (file 0) 0))
    /\ forall f b, pawn_index_symmetric (Syzygy.wdl_entry e)
                     (Syzygy.data_pieces (file f) b)
                     (Syzygy.data_norm (file f) b) (Syzygy.data_factor (file f) b)
  end.

(** The piece lists of a WDL table are those of the position it is read
    for: as many cells as the table has pieces, and for a table with
    pawns the leading pawns in front of every list. *)
Definition wdl_lists_pieces (pos : Pos) (e : Syzygy.TBEntry Syzygy.PairsData)
  (bside cmirror : Z) : Prop :=
  match Syzygy.entry_payload e with
  | Syzygy.TBEntry_piece d =>
    length (Syzygy.data_pieces d bside) = Syzygy.entry_num e
    /\ lists_pieces pos cmirror [] (Syzygy.data_pieces d bside)
  | Syzygy.TBEntry_pawn file =>
    let c0 := nth 0 (Syzygy.data_pieces (file 0) 0) 0 in
    let n0 := lead_pawns (Syzygy.data_pieces (file 0) 0) in
    piece_code c0
    /\ code_bb pos cmirror c0 <> 0
    /\ popcount (code_bb pos cmirror c0) = n0
    /\ forall f,
         length (Syzygy.data_pieces (file f) bside) = Syzygy.entry_num e
         /\ exists c, lists_pieces pos cmirror (replicate n0 c)
                        (Syzygy.data_pieces (file f) bside)
  end.

(** The same for a DTZ table, which has one piece list per table or file. *)
Definition dtz_index_symmetric (e : Syzygy.DTZEntry Syzygy.PairsData) : Prop :=
  match Syzygy.dtz_payload e with
  | Syzygy.DTZEntry_piece d _ _ =>
    piece_index_symmetric (Syzygy.dtz_entry e) (Syzygy.dtz_pieces d)
      (Syzygy.dtz_norm d) (Syzygy.dtz_factor d)
  | Syzygy.DTZEntry_pawn file _ _ =>
    pawn_file_symmetric (Syzygy.dtz_entry e) (lead_pawns (Syzygy.dtz_pieces (file 0)))
    /\ forall f, pawn_index_symmetric (Syzygy.dtz_entry e)
                   (Syzygy.dtz_pieces (file f))
                   (Syzygy.dtz_norm (file f)) (Syzygy.dtz_factor (file f))
  end.

Definition dtz_lists_pieces (pos : Pos) (e : Syzygy.DTZEntry Syzygy.PairsData)
  (cmirror : Z) : Prop :=
  match Syzygy.dtz_payload e with
  | Syzygy.DTZEntry_piece d _ _ =>
    length (Syzygy.dtz_pieces d) = Syzygy.dtz_num e
    /\ lists_pieces pos cmirror [] (Syzygy.dtz_pieces d)
  | Syzygy.DTZEntry_pawn file _ _ =>
    let c0 := nth 0 (Syzygy.dtz_pieces (file 0)) 0 in
    let n0 := lead_pawns (Syzygy.dtz_pieces (file 0)) in
    piece_code c0
    /\ code_bb pos cmirror c0 <> 0
    /\ popcount (code_bb pos cmirror c0) = n0
    /\ forall f,
         length (Syzygy.dtz_pieces (file f)) = Syzygy.dtz_num e
         /\ exists c, lists_pieces pos cmirror (replicate n0 c)
                        (Syzygy.dtz_pieces (file f))
  end.

(** Lines 98-115 of [probe_wdl_table]: the entry as it is read, loaded on
    first use; [None] when [init_table_wdl] fails. *)
Definition loaded_entry (pos : Pos) (key : Key) (ptr : Syzygy.TBEntry Syzygy.PairsData)
  : option (Syzygy.TBEntry Syzygy.PairsData) :=
  if negb (Syzygy.entry_ready ptr) then
    match Syzygy.init_table_wdl ptr
            (Syzygy.prt_str pos (negb (Syzygy.entry_key ptr =? key))) with
    | None => None
    | Some ptr' =>
      Some (Syzygy.mkTBEntry (Syzygy.entry_key ptr') true (Syzygy.entry_num ptr')
                             (Syzygy.entry_symmetric ptr') (Syzygy.entry_payload ptr'))
    end
  else Some ptr.

(** The two keys of a table and its symmetric flag: a symmetric table
    has one key, another table has two and carries one of them. *)
Definition table_keys (symmetric : bool) (ptr_key k k' : Key) : Prop :=
  if symmetric then k' = k else k' <> k /\ (ptr_key = k \/ ptr_key = k').

(** [R] relates positions to their colour mirrors and [I] is what the
    registry keeps satisfying while tables are loaded on first use.
    - Keys: the material key is the one [calc_key] computes (line 207
      files a table under it), the key 2 is that of the bare kings on
      both sides, and material with one key has one name.
    - [TB_hash]: the two keys of a table are registered for the same
      entry, which knows whether it is symmetric.
    - Tables: a loaded table lists the pieces of the positions it is
      found for, and its indexers are symmetric.
    - [DTZ_table]: a cell serves both keys of its table, and the table
      brought to the front for a position is a table of that position. *)
Record MirrorTables (I : Syzygy.Registry Syzygy.PairsData -> Prop)
  (R : Pos -> Pos -> Prop) : Prop := {
  mt_key : forall p q, R p q ->
    pos_material_key p = Syzygy.calc_key p false
    /\ pos_material_key q = Syzygy.calc_key q false;
  mt_kvk : forall p q, R p q ->
    pos_material_key p = 2 <-> pos_material_key q = 2;
  mt_name : forall p q, R p q ->
    pos_material_key q = pos_material_key p ->
    Syzygy.prt_str p true = Syzygy.prt_str p false;
  mt_slot : forall reg p q i h, I reg -> R p q ->
    Syzygy.find_slot Syzygy.HSHMAX 0 (Syzygy.bucket reg (pos_material_key p))
                     (pos_material_key p) = Some (i, h) ->
    (exists i' h',
        Syzygy.find_slot Syzygy.HSHMAX 0 (Syzygy.bucket reg (pos_material_key q))
                         (pos_material_key q) = Some (i', h')
        /\ Syzygy.hash_ptr h' = Syzygy.hash_ptr h)
    /\ table_keys (Syzygy.entry_symmetric (Syzygy.TB_store reg (Syzygy.hash_ptr h)))
                  (Syzygy.entry_key (Syzygy.TB_store reg (Syzygy.hash_ptr h)))
                  (pos_material_key p) (pos_material_key q);
  mt_loaded : forall reg p q i h e, I reg -> R p q ->
    Syzygy.find_slot Syzygy.HSHMAX 0 (Syzygy.bucket reg (pos_material_key p))
                     (pos_material_key p) = Some (i, h) ->
    loaded_entry p (pos_material_key p) (Syzygy.TB_store reg (Syzygy.hash_ptr h))
      = Some e ->
    I (Syzygy.set_store reg (Syzygy.hash_ptr h) e);
  mt_table : forall reg p q i h, I reg -> R p q ->
    Syzygy.find_slot Syzygy.HSHMAX 0 (Syzygy.bucket reg (pos_material_key p))
                     (pos_material_key p) = Some (i, h) ->
    Syzygy.entry_ready (Syzygy.TB_store reg (Syzygy.hash_ptr h)) = true ->
    let e := Syzygy.TB_store reg (Syzygy.hash_ptr h) in
    let side := Syzygy.probe_side (Syzygy.entry_key e) (Syzygy.entry_symmetric e)
                                  (pos_material_key p) (pos_stm p) in
    wdl_index_symmetric e
    /\ wdl_lists_pieces p e (fst (fst side)) (snd side);
  mt_cache : forall reg p q, I reg -> R p q ->
    Forall (fun t =>
              (Syzygy.key1 t =? pos_material_key q) || (Syzygy.key2 t =? pos_material_key q)
              = (Syzygy.key1 t =? pos_material_key p) || (Syzygy.key2 t =? pos_material_key p))
           (Syzygy.DTZ_table reg);
  mt_front : forall reg p q reg', I reg -> R p q ->
    Syzygy.dtz_to_front p (pos_material_key p) reg = Some reg' -> I reg';
  mt_dtz_table : forall reg p q reg' k1 k2 e, I reg -> R p q ->
    Syzygy.dtz_to_front p (pos_material_key p) reg = Some reg' ->
    Syzygy.DTZ_table reg' !! 0%nat = Some (Syzygy.mkDTZTableEntry k1 k2 (Some e)) ->
    let side := Syzygy.probe_side (Syzygy.dtz_key e) (Syzygy.dtz_symmetric e)
                                  (pos_material_key p) (pos_stm p) in
    table_keys (Syzygy.dtz_symmetric e) (Syzygy.dtz_key e)
               (pos_material_key p) (pos_material_key q)
    /\ dtz_index_symmetric e
    /\ dtz_lists_pieces p e (snd side);
}.

End MirrorTablesDefs.

(** * Facts about the probes *)

Section ProbeFacts.
Context {E : Engine} {T : Tablebase E}.

Lemma success_set_success (s : Z) (st : St TB) : success (set_success s st) = s.
Proof. reflexivity. Qed.

Lemma tb_set_success (s : Z) (st : St TB) : tb (set_success s st) = tb st.
Proof. reflexivity. Qed.

Lemma wdl_to_dtz_values :
  wdl_to_dtz_at (-2 + 2) = -1 /\ wdl_to_dtz_at (-1 + 2) = -101 /\
  wdl_to_dtz_at (0 + 2) = 0 /\
  wdl_to_dtz_at (1 + 2) = 101 /\ wdl_to_dtz_at (2 + 2) = 1.
Proof. repeat split; reflexivity. Qed.

(** One round of the capture loop of [TB_probe_wdl], unfolded. *)
Lemma wdl_captures_cons (pos : Pos) (m : Move) (ms : list Move)
  (best_cap best_ep : Z) (st : St TB) :
  wdl_captures pos (m :: ms) best_cap best_ep st =
    if negb (is_capture pos m) || negb (is_legal pos m)
    then wdl_captures pos ms best_cap best_ep st
    else
      match probe_ab (do_move pos m) (-2) (- best_cap) st with
      | None => None
      | Some (r, st1) =>
        let v := - r in
        if success st1 =? 0 then Some (Return 0, st1)
        else if v >? best_cap then
               if v =? 2 then Some (Return 2, set_success 2 st1)
               else if negb (MoveType_eqb (type_of_m m) ENPASSANT)
                    then wdl_captures pos ms v best_ep st1
                    else if v >? best_ep
                         then wdl_captures pos ms best_cap v st1
                         else wdl_captures pos ms best_cap best_ep st1
             else wdl_captures pos ms best_cap best_ep st1
      end.
Proof. reflexivity. Qed.

(** The loop over [pre ++ post] is the loop over [pre] followed, unless it
    returned, by the loop over [post]. *)
Lemma wdl_captures_app (pos : Pos) (pre post : list Move) :
  forall (best_cap best_ep : Z) (st : St TB),
  wdl_captures pos (pre ++ post) best_cap best_ep st =
    match wdl_captures pos pre best_cap best_ep st with
    | Some (Continue (bc, be), st1) => wdl_captures pos post bc be st1
    | other => other
    end.
Proof.
  induction pre as [|m pre IH]; intros best_cap best_ep st; [reflexivity|].
  rewrite <- app_comm_cons, !wdl_captures_cons.
  destruct (negb (is_capture pos m) || negb (is_legal pos m)); [apply IH|].
  destruct (probe_ab (do_move pos m) (-2) (- best_cap) st) as [[r st1]|]; [|reflexivity].
  cbv zeta.
  destruct (success st1 =? 0); [reflexivity|].
  destruct (- r >? best_cap); [|apply IH].
  destruct (- r =? 2); [reflexivity|].
  destruct (negb (MoveType_eqb (type_of_m m) ENPASSANT)); [apply IH|].
  destruct (- r >? best_ep); apply IH.
Qed.

(** [probe_ab] never returns less than its [alpha]: a failed probe gives
    0 with [success = 0], any other exit gives a value that was compared
    against the running [alpha]. *)
Lemma ab_captures_lower (rec : Pos -> Z -> Z -> St TB -> option (Z * St TB))
  (pos : Pos) (beta r : Z) (st' : St TB) (ms : list Move) :
  forall (alpha : Z) (st : St TB),
  ab_captures rec pos ms alpha beta st = Some (r, st') ->
  alpha <= r \/ (r = 0 /\ success st' = 0).
Proof.
  induction ms as [|m ms IH]; intros alpha st H; simpl in H.
  - destruct (probe_wdl_table pos st) as [v st1].
    injection H as <- <-. destruct (alpha >=? v) eqn:Hc; lia.
  - destruct (negb (is_capture pos m) || negb (is_legal pos m)); [eauto|].
    destruct (rec (do_move pos m) (- beta) (- alpha) st) as [[r1 st1]|];
      [|discriminate].
    cbv zeta in H.
    destruct (success st1 =? 0) eqn:Hs.
    { injection H as <- <-. right. split; [reflexivity|lia]. }
    destruct (- r1 >? alpha) eqn:Hv; [|eauto].
    destruct (- r1 >=? beta).
    { injection H as <- <-. left. lia. }
    apply IH in H. destruct H as [H|H]; [left; lia|right; exact H].
Qed.

Lemma probe_ab_fuel_lower (fuel : nat) (pos : Pos) (alpha beta r : Z)
  (st st' : St TB) :
  probe_ab_fuel fuel pos alpha beta st = Some (r, st') ->
  alpha <= r \/ (r = 0 /\ success st' = 0).
Proof.
  destruct fuel as [|fuel]; [discriminate|]. simpl. apply ab_captures_lower.
Qed.

Lemma probe_ab_upper_minus2 (pos : Pos) (beta r : Z) (st st' : St TB) :
  probe_ab pos (-2) beta st = Some (r, st') -> - r <= 2.
Proof.
  intros H. apply probe_ab_fuel_lower in H. lia.
Qed.

(** The capture loop keeps [best_cap] and [best_ep] at most 1. *)
Lemma wdl_captures_le1 (pos : Pos) (ms : list Move) :
  forall (best_cap best_ep bc be : Z) (st st' : St TB),
  best_cap <= 1 -> best_ep <= 1 ->
  wdl_captures pos ms best_cap best_ep st = Some (Continue (bc, be), st') ->
  bc <= 1 /\ be <= 1.
Proof.
  induction ms as [|m ms IH]; intros best_cap best_ep bc be st st' Hc He H.
  - injection H as <- <- <-. lia.
  - rewrite wdl_captures_cons in H.
    destruct (negb (is_capture pos m) || negb (is_legal pos m)); [eauto|].
    destruct (probe_ab (do_move pos m) (-2) (- best_cap) st) as [[r st1]|] eqn:Hab;
      [|discriminate].
    apply probe_ab_upper_minus2 in Hab. cbv zeta in H.
    destruct (success st1 =? 0); [discriminate|].
    destruct (- r >? best_cap); [|eauto].
    destruct (- r =? 2) eqn:H2; [discriminate|].
    assert (- r <= 1) by lia.
    destruct (negb (MoveType_eqb (type_of_m m) ENPASSANT)); [eauto|].
    destruct (- r >? best_ep); eauto.
Qed.

(** If no move of the list that is not an ep capture is legal, the loop
    leaves [best_cap] as it found it. *)
Lemma wdl_captures_only_ep (pos : Pos) (ms : list Move) :
  forall (best_cap best_ep bc be : Z) (st st' : St TB),
  (forall m, In m ms -> type_of_m m <> ENPASSANT -> is_legal pos m = false) ->
  wdl_captures pos ms best_cap best_ep st = Some (Continue (bc, be), st') ->
  bc = best_cap.
Proof.
  induction ms as [|m ms IH]; intros best_cap best_ep bc be st st' Hill H.
  - injection H as <- <- <-. reflexivity.
  - rewrite wdl_captures_cons in H.
    assert (Hill' : forall m', In m' ms -> type_of_m m' <> ENPASSANT ->
                               is_legal pos m' = false)
      by (intros m' Hin; apply Hill; right; exact Hin).
    destruct (is_legal pos m) eqn:Hleg.
    2:{ rewrite orb_true_r in H. eauto. }
    destruct (negb (is_capture pos m) || negb true); [eauto|].
    destruct (probe_ab (do_move pos m) (-2) (- best_cap) st) as [[r st1]|];
      [|discriminate].
    cbv zeta in H.
    destruct (success st1 =? 0); [discriminate|].
    destruct (- r >? best_cap); [|eauto].
    destruct (- r =? 2); [discriminate|].
    destruct (MoveType_eqb (type_of_m m) ENPASSANT) eqn:Hep; simpl in H.
    + destruct (- r >? best_ep); eauto.
    + exfalso. assert (type_of_m m <> ENPASSANT)
        by (intros Heq; rewrite Heq in Hep; discriminate).
      specialize (Hill m (or_introl eq_refl) H0). congruence.
Qed.

(** [best_cap] and [best_ep] only grow in the capture loop. *)
Lemma wdl_captures_mono (pos : Pos) (ms : list Move) :
  forall (best_cap best_ep bc be : Z) (st st' : St TB),
  wdl_captures pos ms best_cap best_ep st = Some (Continue (bc, be), st') ->
  best_cap <= bc /\ best_ep <= be.
Proof.
  induction ms as [|m ms IH]; intros best_cap best_ep bc be st st' H.
  - injection H as <- <- <-. lia.
  - rewrite wdl_captures_cons in H.
    destruct (negb (is_capture pos m) || negb (is_legal pos m)); [eauto|].
    destruct (probe_ab (do_move pos m) (-2) (- best_cap) st) as [[r st1]|];
      [|discriminate].
    cbv zeta in H.
    destruct (success st1 =? 0); [discriminate|].
    destruct (- r >? best_cap) eqn:Hv; [|eauto].
    destruct (- r =? 2); [discriminate|].
    destruct (negb (MoveType_eqb (type_of_m m) ENPASSANT)).
    { apply IH in H. lia. }
    destruct (- r >? best_ep) eqn:He; apply IH in H; lia.
Qed.

Lemma no_move_but_ep_true (pos : Pos) (ms : list Move) :
  (forall m, In m ms -> type_of_m m <> ENPASSANT -> is_legal pos m = false) ->
  (forall m, In m (generate_quiets pos) -> is_legal pos m = false) ->
  no_move_but_ep pos ms = true.
Proof.
  intros Hc Hq. unfold no_move_but_ep.
  destruct (existsb _ ms) eqn:Hex.
  - apply existsb_exists in Hex. destruct Hex as (m & Hin & Hm).
    apply andb_true_iff in Hm. destruct Hm as [Hne Hleg].
    rewrite Hc in Hleg; [discriminate|exact Hin|].
    intros Heq. rewrite Heq in Hne. discriminate.
  - destruct (pos_checkers pos =? 0); [|reflexivity].
    destruct (existsb (is_legal pos) (generate_quiets pos)) eqn:Hex2; [|reflexivity].
    apply existsb_exists in Hex2. destruct Hex2 as (m & Hin & Hm).
    rewrite Hq in Hm; [discriminate|exact Hin].
Qed.

End ProbeFacts.

(** * The WDL probe: capture resolution and en passant *)

Section WdlClaims.
Context {E : Engine} {T : Tablebase E}.


(** C3. After a capture loop and a table read that both succeeded, with
    [best_ep > best_cap]: if [best_ep > v] the probe returns [best_ep] with
    [success = 2]; otherwise the rest of the function runs with [best_cap]
    replaced by [best_ep], which gives [v] with [success = 1 + (v > 0)]
    when [best_ep = v], and for [best_ep < v] either [best_ep] with
    [success = 2] (the stalemate case, [v = 0]) or the table value. *)
Theorem TB_probe_wdl_ep_reconcile (pos : Pos) (st st1 st2 : St TB)
  (best_cap best_ep v : Z) :
  wdl_captures pos (capture_moves pos) (-3) (-3) (set_success 1 st)
    = Some (Continue (best_cap, best_ep), st1) ->
  probe_wdl_table pos st1 = (v, st2) ->
  success st2 <> 0 ->
  best_ep > best_cap ->
  (best_ep > v -> TB_probe_wdl pos st = Some (best_ep, set_success 2 st2))
  /\ (best_ep <= v ->
      TB_probe_wdl pos st
        = Some (wdl_after_ep pos (capture_moves pos) best_ep best_ep v st2)
      /\ (best_ep = v ->
          TB_probe_wdl pos st
            = Some (v, set_success (1 + (if v >? 0 then 1 else 0)) st2))
      /\ (best_ep < v ->
          TB_probe_wdl pos st
            = Some (if (v =? 0) && no_move_but_ep pos (capture_moves pos)
                    then (best_ep, set_success 2 st2)
                    else (v, st2)))).
Proof.
  intros Hloop Htab Hs Hgt.
  pose proof (wdl_captures_mono _ _ _ _ _ _ _ _ Hloop) as [Hbc _].
  assert (Hw : TB_probe_wdl pos st
               = Some (if best_ep >? v then (best_ep, set_success 2 st2)
                       else wdl_after_ep pos (capture_moves pos) best_ep best_ep v st2)).
  { unfold TB_probe_wdl. rewrite Hloop. unfold wdl_resolve. rewrite Htab.
    replace (success st2 =? 0) with false by (symmetry; apply Z.eqb_neq; exact Hs).
    replace (best_ep >? best_cap) with true by (symmetry; apply Z.gtb_lt; lia).
    reflexivity. }
  split.
  - intros H. rewrite Hw.
    replace (best_ep >? v) with true by (symmetry; apply Z.gtb_lt; lia).
    reflexivity.
  - intros H.
    assert (Hng : (best_ep >? v) = false).
    { destruct (best_ep >? v) eqn:Hc; [|reflexivity]. apply Z.gtb_lt in Hc. lia. }
    rewrite Hw, Hng. split; [reflexivity|]. unfold wdl_after_ep. split.
    + intros ->. replace (v >=? v) with true by (symmetry; apply Z.geb_le; lia).
      reflexivity.
    + intros Hlt.
      assert (Hge : (best_ep >=? v) = false).
      { destruct (best_ep >=? v) eqn:Hc; [|reflexivity]. apply Z.geb_le in Hc. lia. }
      rewrite Hge.
      replace (best_ep >? -3) with true by (symmetry; apply Z.gtb_lt; lia).
      simpl andb. destruct ((v =? 0) && no_move_but_ep pos (capture_moves pos));
        reflexivity.
Qed.

(** C4, as the code has it. In a position with an ep capture
    ([best_ep > -3]), stored value [v = 0], and no legal move that is not
    an ep capture (none in the capture list, none among the quiet moves),
    [TB_probe_wdl] returns [best_ep]; [success] is 2 when [best_ep <> 0],
    and 1 when [best_ep = 0], where the value leaves through the
    [best_cap >= v] branch. *)
Theorem TB_probe_wdl_stalemate_ep (pos : Pos) (st st1 st2 : St TB)
  (best_cap best_ep : Z) :
  wdl_captures pos (capture_moves pos) (-3) (-3) (set_success 1 st)
    = Some (Continue (best_cap, best_ep), st1) ->
  probe_wdl_table pos st1 = (0, st2) ->
  success st2 <> 0 ->
  best_ep > -3 ->
  (forall m, In m (capture_moves pos) -> type_of_m m <> ENPASSANT ->
             is_legal pos m = false) ->
  (forall m, In m (generate_quiets pos) -> is_legal pos m = false) ->
  TB_probe_wdl pos st
    = Some (best_ep, set_success (if best_ep =? 0 then 1 else 2) st2).
Proof.
  intros Hloop Htab Hs Hep Hc Hq.
  pose proof (wdl_captures_only_ep _ _ _ _ _ _ _ _ Hc Hloop) as ->.
  pose proof (no_move_but_ep_true _ _ Hc Hq) as Hstale.
  destruct (TB_probe_wdl_ep_reconcile _ _ _ _ _ _ _ Hloop Htab Hs ltac:(lia))
    as [Hgt Hle].
  destruct (Z.lt_trichotomy best_ep 0) as [Hneg|[Hz|Hpos]].
  - destruct (Hle ltac:(lia)) as (_ & _ & Hlt). rewrite (Hlt Hneg).
    rewrite Hstale. simpl.
    replace (best_ep =? 0) with false by (symmetry; apply Z.eqb_neq; lia).
    reflexivity.
  - subst best_ep. destruct (Hle ltac:(lia)) as (_ & Heq & _).
    rewrite (Heq eq_refl). reflexivity.
  - rewrite (Hgt ltac:(lia)).
    replace (best_ep =? 0) with false by (symmetry; apply Z.eqb_neq; lia).
    reflexivity.
Qed.

End WdlClaims.

(** C2. [TB_probe_dtz] probes WDL first. A WDL value of 0 gives 0; a
    non-zero value with [success = 2] gives [wdl_to_dtz[wdl + 2]], that is
    -1, -101, 101, 1 for wdl = -2, -1, 1, 2. No DTZ table is read: the
    state is the one the WDL probe left, and the result is the same under
    any other DTZ table reader [rd_dtz']. *)
Theorem TB_probe_dtz_draw_or_capture (E : Engine) (TBt : Type)
  (rd_wdl : Pos -> St TBt -> Z * St TBt)
  (rd_dtz rd_dtz' : Pos -> Z -> St TBt -> Z * St TBt)
  (fuel : nat) (pos : Pos) (st st1 : St TBt) (wdl : Z) :
  let T := Build_Tablebase E TBt rd_wdl rd_dtz in
  let T' := Build_Tablebase E TBt rd_wdl rd_dtz' in
  @TB_probe_wdl E T pos st = Some (wdl, st1) ->
  (wdl = 0 ->
     @TB_probe_dtz E T (S fuel) pos st = Some (0, st1)
     /\ @TB_probe_dtz E T' (S fuel) pos st = Some (0, st1))
  /\ (wdl <> 0 -> success st1 = 2 ->
      @TB_probe_dtz E T (S fuel) pos st = Some (wdl_to_dtz_at (wdl + 2), st1)
      /\ @TB_probe_dtz E T' (S fuel) pos st = Some (wdl_to_dtz_at (wdl + 2), st1))
  /\ wdl_to_dtz = [-1; -101; 0; 101; 1]
  /\ wdl_to_dtz_at (-2 + 2) = -1 /\ wdl_to_dtz_at (-1 + 2) = -101
  /\ wdl_to_dtz_at (1 + 2) = 101 /\ wdl_to_dtz_at (2 + 2) = 1.
Proof.
  intros T T' Hw.
  assert (Hw' : @TB_probe_wdl E T' pos st = Some (wdl, st1)) by exact Hw.
  split; [|split; [|repeat split]].
  - intros ->. split; simpl; [rewrite Hw|rewrite Hw'];
      destruct (success st1 =? 0); reflexivity.
  - intros Hne Hs. apply Z.eqb_neq in Hne.
    split; simpl; [rewrite Hw|rewrite Hw']; rewrite Hs, Hne; reflexivity.
Qed.

(** * Root move filtering *)

Section RootFacts.
Context {E : Engine} {T : Tablebase E}.

Lemma alter_move_value (m : Move) (j : nat) (l : list ExtMove) :
  value <$> alter (fun x => mkExtMove m (value x)) j l = value <$> l.
Proof.
  rewrite (list_fmap_alter value _ (fun v => v)).
  - apply list_alter_id. reflexivity.
  - apply Forall_forall. reflexivity.
Qed.

(** The in-place compaction [rm[j++].move = rm[i].move] reads every cell
    before it can be overwritten ([j <= i]): the first [j] moves at the end
    are the moves of the cells whose value passes [keep], in order. The
    values stay where they were. *)
Lemma keep_moves_inv (keep : Z -> bool) (rm : list ExtMove) :
  forall (n i j : nat) (cur rm2 : list ExtMove) (j2 : nat),
  (j <= i)%nat ->
  (i + n = length rm)%nat ->
  length cur = length rm ->
  drop i cur = drop i rm ->
  value <$> cur = value <$> rm ->
  move <$> take j cur = move <$> filter (fun e => keep (value e) = true) (take i rm) ->
  j = length (filter (fun e => keep (value e) = true) (take i rm)) ->
  keep_moves keep n i j cur = (rm2, j2) ->
  length rm2 = length rm
  /\ value <$> rm2 = value <$> rm
  /\ move <$> take j2 rm2 = move <$> filter (fun e => keep (value e) = true) rm
  /\ j2 = length (filter (fun e => keep (value e) = true) rm).
Proof.
  induction n as [|n IH]; intros i j cur rm2 j2 Hji Hin Hlen Hdrop Hval Hmov Hj H.
  - simpl in H. injection H as <- <-.
    rewrite (take_ge rm i) in Hmov, Hj by lia. auto.
  - simpl in H.
    assert (Hi : (i < length rm)%nat) by lia.
    destruct (lookup_lt_is_Some_2 rm i Hi) as [e He].
    assert (Hce : cur !! i = Some e).
    { rewrite <- (Nat.add_0_r i), <- lookup_drop, Hdrop, lookup_drop, Nat.add_0_r.
      exact He. }
    rewrite Hce in H.
    assert (Htk : take (S i) rm = take i rm ++ [e]) by (apply take_S_r; exact He).
    assert (Hdr : drop (S i) cur = drop (S i) rm).
    { pose proof (drop_S _ _ _ He) as H1. pose proof (drop_S _ _ _ Hce) as H2.
      rewrite H1, H2 in Hdrop. injection Hdrop as Hd. exact Hd. }
    destruct (keep (value e)) eqn:Hk.
    + apply IH in H; auto; try lia.
      * rewrite length_alter. exact Hlen.
      * rewrite drop_alter. destruct (decide (S i <= j)%nat); [lia|exact Hdr].
      * rewrite alter_move_value. exact Hval.
      * rewrite Htk, list.filter_app, fmap_app, <- Hmov.
        rewrite filter_cons_True by exact Hk. rewrite filter_nil.
        assert (Hj' : (j < length cur)%nat) by lia.
        destruct (lookup_lt_is_Some_2 cur j Hj') as [x Hx].
        rewrite (take_S_r (alter _ j cur) j (mkExtMove (move e) (value x))).
        2:{ rewrite list_lookup_alter.
            destruct (decide (j = j)); [|congruence]. rewrite Hx. reflexivity. }
        rewrite take_alter. destruct (decide (j < j)%nat); [lia|].
        rewrite fmap_app. reflexivity.
      * rewrite Htk, list.filter_app, length_app, <- Hj.
        rewrite filter_cons_True by exact Hk. rewrite filter_nil. simpl. lia.
    + apply IH in H; auto; try lia.
      * rewrite Htk, list.filter_app, filter_cons_False by (rewrite Hk; discriminate).
        rewrite filter_nil, app_nil_r. exact Hmov.
      * rewrite Htk, list.filter_app, filter_cons_False by (rewrite Hk; discriminate).
        rewrite filter_nil, app_nil_r. exact Hj.
Qed.

Lemma keep_moves_spec (keep : Z -> bool) (rm rm2 : list ExtMove) (j2 : nat) :
  keep_moves keep (length rm) 0 0 rm = (rm2, j2) ->
  length rm2 = length rm
  /\ value <$> rm2 = value <$> rm
  /\ move <$> take j2 rm2 = move <$> filter (fun e => keep (value e) = true) rm
  /\ j2 = length (filter (fun e => keep (value e) = true) rm).
Proof.
  intros H. apply (keep_moves_inv keep rm (length rm) 0 0 rm rm2 j2); auto.
Qed.

(** The probing loop of [TB_root_probe] writes values only. *)
Lemma root_moves_dtz_moves (fuel : nat) (pos : Pos) (dtz : Z) (rm : list ExtMove) :
  forall (st st' : St TB) (ok : bool) (rm1 : list ExtMove),
  root_moves_dtz fuel pos dtz rm st = Some (ok, rm1, st') ->
  move <$> rm1 = move <$> rm /\ length rm1 = length rm.
Proof.
  induction rm as [|e rm IH]; intros st st' ok rm1 H; simpl in H.
  - injection H as <- <- <-. auto.
  - destruct (root_move_dtz fuel pos dtz (move e) st) as [[v st1]|]; [|discriminate].
    destruct (success st1 =? 0).
    { injection H as <- <- <-. auto. }
    destruct (root_moves_dtz fuel pos dtz rm st1) as [[[ok' rm''] st2]|] eqn:Hr;
      [|discriminate].
    injection H as <- <- <-. apply IH in Hr. destruct Hr as [Hm Hl].
    rewrite !fmap_cons, Hm. simpl. rewrite Hl. auto.
Qed.

Lemma root_moves_dtz_app (fuel : nat) (pos : Pos) (dtz : Z) (pre post : list ExtMove) :
  forall (st : St TB),
  root_moves_dtz fuel pos dtz (pre ++ post) st =
    match root_moves_dtz fuel pos dtz pre st with
    | None => None
    | Some (false, pre', st1) => Some (false, pre' ++ post, st1)
    | Some (true, pre', st1) =>
      match root_moves_dtz fuel pos dtz post st1 with
      | None => None
      | Some (ok, post', st2) => Some (ok, pre' ++ post', st2)
      end
    end.
Proof.
  induction pre as [|e pre IH]; intros st.
  - simpl. destruct (root_moves_dtz fuel pos dtz post st) as [[[ok l] s]|]; reflexivity.
  - rewrite <- app_comm_cons. simpl.
    destruct (root_move_dtz fuel pos dtz (move e) st) as [[v st1]|]; [|reflexivity].
    destruct (success st1 =? 0); [reflexivity|].
    rewrite IH.
    destruct (root_moves_dtz fuel pos dtz pre st1) as [[[[|] pre'] st2]|]; try reflexivity.
    destruct (root_moves_dtz fuel pos dtz post st2) as [[[ok l] s]|]; reflexivity.
Qed.

Lemma root_filter_moves (pos : Pos) (dtz cnt50 : Z) (rm rm2 : list ExtMove) (j : nat) :
  root_filter pos dtz cnt50 rm = (rm2, j) ->
  length rm2 = length rm /\ value <$> rm2 = value <$> rm.
Proof.
  unfold root_filter. intros H.
  destruct (dtz >? 0).
  { apply keep_moves_spec in H. tauto. }
  destruct (dtz <? 0).
  - destruct (- best_losing rm * 2 + cnt50 <? 100).
    + injection H as <- <-. auto.
    + apply keep_moves_spec in H. tauto.
  - apply keep_moves_spec in H. tauto.
Qed.

(** [best_winning] is the least positive value below its start 0xffff. *)
Lemma best_winning_fold (rm : list ExtMove) :
  forall (b0 : Z),
  let b := fold_left (fun best e => if (value e >? 0) && (value e <? best)
                                    then value e else best) rm b0 in
  b <= b0
  /\ (forall e, In e rm -> 0 < value e -> b <= value e)
  /\ (b = b0 \/ (0 < b /\ exists e, In e rm /\ value e = b)).
Proof.
  induction rm as [|e rm IH]; intros b0; simpl.
  - split; [lia|]. split; [intros e []|]. left. reflexivity.
  - destruct ((value e >? 0) && (value e <? b0)) eqn:Hc.
    + apply andb_true_iff in Hc. destruct Hc as [H1 H2].
      apply Z.gtb_lt in H1. apply Z.ltb_lt in H2.
      destruct (IH (value e)) as (Hle & Hmin & Hin). cbv zeta in *.
      split; [lia|]. split.
      * intros e' [<-|Hin'] Hp; [exact Hle|auto].
      * right. destruct Hin as [->|[Hp (e' & Hin' & He')]].
        -- split; [lia|]. exists e. auto.
        -- split; [exact Hp|]. exists e'. auto.
    + destruct (IH b0) as (Hle & Hmin & Hin). cbv zeta in *.
      split; [exact Hle|]. split.
      * intros e' [<-|Hin'] Hp; [|auto].
        apply andb_false_iff in Hc. destruct Hc as [Hc|Hc].
        -- destruct (Z.gtb_spec (value e) 0); [discriminate|lia].
        -- apply Z.ltb_ge in Hc. lia.
      * destruct Hin as [->|[Hp (e' & Hin' & He')]]; [left; reflexivity|].
        right. split; [exact Hp|]. exists e'. auto.
Qed.

End RootFacts.

Section RootClaims.
Context {E : Engine} {T : Tablebase E}.

(** C6. With root dtz = 0 and every probe successful, [TB_root_probe]
    returns 1; the first [*num_moves] cells hold, in their original order,
    the moves whose probed value is 0, and [*num_moves] is their number. *)
Theorem TB_root_probe_draw (fuel : nat) (pos : Pos) (rm rm1 : list ExtMove)
  (st st1 st2 : St TB) :
  TB_probe_dtz fuel pos st = Some (0, st1) ->
  success st1 <> 0 ->
  root_moves_dtz fuel pos 0 rm st1 = Some (true, rm1, st2) ->
  exists res,
    TB_root_probe fuel pos rm st = Some (res, st2)
    /\ ret res = 1
    /\ move <$> rm1 = move <$> rm
    /\ move <$> take (num_moves res) (rm_out res)
       = move <$> filter (fun e => value e = 0) rm1
    /\ num_moves res = length (filter (fun e => value e = 0) rm1).
Proof.
  intros Hd Hs Hl. unfold TB_root_probe. rewrite Hd.
  replace (success st1 =? 0) with false by (symmetry; apply Z.eqb_neq; exact Hs).
  rewrite Hl. unfold root_filter. simpl.
  destruct (keep_moves _ _ _ _ _) as [rm2 j] eqn:Hk.
  apply keep_moves_spec in Hk. destruct Hk as (_ & _ & Hm & Hj).
  eexists. split; [reflexivity|]. simpl.
  assert (Hf : filter (fun e => (value e =? 0) = true) rm1
               = filter (fun e => value e = 0) rm1)
    by (apply list_filter_iff; intros e; apply Z.eqb_eq).
  rewrite Hf in Hm, Hj.
  split; [reflexivity|]. split; [|auto].
  apply (root_moves_dtz_moves _ _ _ _ _ _ _ _ Hl).
Qed.

(** C5. With root dtz > 0 and every probe successful (values below the
    start 0xffff of the minimum), [TB_root_probe] returns 1 and keeps
    exactly the moves with [0 < v <= max_dtz_allowed], where, for [best]
    the least positive value, [max_dtz_allowed] is [99 - cnt50] if
    [has_repeated] is false and [best + cnt50 <= 99], and [best]
    otherwise. Without a positive value nothing is kept. *)
Theorem TB_root_probe_winning (fuel : nat) (pos : Pos) (rm rm1 : list ExtMove)
  (st st1 st2 : St TB) (dtz : Z) :
  TB_probe_dtz fuel pos st = Some (dtz, st1) ->
  success st1 <> 0 ->
  dtz > 0 ->
  root_moves_dtz fuel pos dtz rm st1 = Some (true, rm1, st2) ->
  (forall e, In e rm1 -> value e < 65535) ->
  exists res,
    TB_root_probe fuel pos rm st = Some (res, st2)
    /\ ret res = 1
    /\ move <$> rm1 = move <$> rm
    /\ (forall best mda : Z,
          0 < best ->
          (exists e, In e rm1 /\ value e = best) ->
          (forall e, In e rm1 -> 0 < value e -> best <= value e) ->
          (has_repeated pos = false /\ best + pos_rule50_count pos <= 99 ->
           mda = 99 - pos_rule50_count pos) ->
          (~ (has_repeated pos = false /\ best + pos_rule50_count pos <= 99) ->
           mda = best) ->
          move <$> take (num_moves res) (rm_out res)
            = move <$> filter (fun e => 0 < value e /\ value e <= mda) rm1
          /\ num_moves res
             = length (filter (fun e => 0 < value e /\ value e <= mda) rm1))
    /\ ((forall e, In e rm1 -> value e <= 0) -> num_moves res = 0%nat).
Proof.
  intros Hd Hs Hpos Hl Hbound. unfold TB_root_probe. rewrite Hd.
  replace (success st1 =? 0) with false by (symmetry; apply Z.eqb_neq; exact Hs).
  rewrite Hl. unfold root_filter.
  replace (dtz >? 0) with true by (symmetry; apply Z.gtb_lt; lia).
  cbv zeta.
  destruct (keep_moves _ _ _ _ _) as [rm2 j] eqn:Hk.
  apply keep_moves_spec in Hk. destruct Hk as (_ & _ & Hm & Hj).
  eexists. split; [reflexivity|]. simpl.
  split; [reflexivity|].
  split; [apply (root_moves_dtz_moves _ _ _ _ _ _ _ _ Hl)|].
  destruct (best_winning_fold rm1 65535) as (Hle & Hmin & Hin). cbv zeta in *.
  fold (best_winning rm1) in Hle, Hmin, Hin.
  split.
  - intros best mda Hb (e & He & Hev) Hbmin Hrelax Hstrict.
    assert (Hbest : best_winning rm1 = best).
    { destruct Hin as [Heq|[Hp (e' & He' & Hev')]].
      - specialize (Hmin e He ltac:(lia)). specialize (Hbound e He). lia.
      - specialize (Hmin e He ltac:(lia)). specialize (Hbmin e' He' ltac:(lia)). lia. }
    assert (Hmda : max_dtz_allowed pos (best_winning rm1) (pos_rule50_count pos) = mda).
    { rewrite Hbest. unfold max_dtz_allowed.
      destruct (has_repeated pos) eqn:Hrep; simpl.
      - symmetry. apply Hstrict. intros [? _]. discriminate.
      - destruct (best + pos_rule50_count pos <=? 99) eqn:Hc.
        + apply Z.leb_le in Hc. symmetry. apply Hrelax. auto.
        + apply Z.leb_gt in Hc. symmetry. apply Hstrict. intros [_ ?]. lia. }
    rewrite Hmda in Hm, Hj.
    assert (Hf : filter (fun e => ((value e >? 0) && (value e <=? mda)) = true) rm1
                 = filter (fun e => 0 < value e /\ value e <= mda) rm1).
    { apply list_filter_iff. intros x. rewrite andb_true_iff, Z.gtb_lt, Z.leb_le.
      reflexivity. }
    rewrite Hf in Hm, Hj. auto.
  - intros Hnone. rewrite Hj.
    assert (Hf : filter (fun e => ((value e >? 0)
                   && (value e <=? max_dtz_allowed pos (best_winning rm1)
                                     (pos_rule50_count pos))) = true) rm1 = []).
    { generalize (max_dtz_allowed pos (best_winning rm1) (pos_rule50_count pos)).
      intros mx. clear -Hnone. induction rm1 as [|x l IH]; [reflexivity|].
      rewrite filter_cons_False.
      - apply IH. intros e He. apply Hnone. right. exact He.
      - specialize (Hnone x (or_introl eq_refl)).
        rewrite andb_true_iff, Z.gtb_lt. lia. }
    rewrite Hf. reflexivity.
Qed.

(** C7. A failed probe makes [TB_root_probe] return 0 before any move is
    dropped or moved: whenever it returns 0, the moves and [*num_moves]
    are as they were; it returns 0 when the root probe fails, and when the
    probe of any root move fails. *)
Theorem TB_root_probe_failure (fuel : nat) (pos : Pos) (rm : list ExtMove)
  (st : St TB) :
  (forall res st',
     TB_root_probe fuel pos rm st = Some (res, st') ->
     ret res = 0 ->
     move <$> rm_out res = move <$> rm /\ num_moves res = length rm
     /\ length (rm_out res) = length rm)
  /\ (forall dtz st1,
        TB_probe_dtz fuel pos st = Some (dtz, st1) ->
        success st1 = 0 ->
        TB_root_probe fuel pos rm st = Some (mkRootProbe 0 rm (length rm) None, st1))
  /\ (forall dtz st1 pre e post pre' st2 v st3,
        TB_probe_dtz fuel pos st = Some (dtz, st1) ->
        success st1 <> 0 ->
        rm = pre ++ e :: post ->
        root_moves_dtz fuel pos dtz pre st1 = Some (true, pre', st2) ->
        root_move_dtz fuel pos dtz (move e) st2 = Some (v, st3) ->
        success st3 = 0 ->
        TB_root_probe fuel pos rm st
          = Some (mkRootProbe 0 (pre' ++ e :: post) (length rm) None, st3)
        /\ move <$> (pre' ++ e :: post) = move <$> rm).
Proof.
  split; [|split].
  - intros res st'. unfold TB_root_probe.
    destruct (TB_probe_dtz fuel pos st) as [[dtz st1]|]; [|discriminate].
    destruct (success st1 =? 0).
    { intros H _. injection H as <- <-. auto. }
    destruct (root_moves_dtz fuel pos dtz rm st1) as [[[[|] rm1] st2]|] eqn:Hl;
      [|intros H _|discriminate].
    + destruct (root_filter _ _ _ _) as [rm2 j]. intros H Hr.
      injection H as <- <-. discriminate.
    + injection H as <- <-. simpl.
      destruct (root_moves_dtz_moves _ _ _ _ _ _ _ _ Hl). auto.
  - intros dtz st1 Hd Hs. unfold TB_root_probe. rewrite Hd, Hs. reflexivity.
  - intros dtz st1 pre e post pre' st2 v st3 Hd Hs -> Hpre He Hs3.
    assert (Hl : root_moves_dtz fuel pos dtz (pre ++ e :: post) st1
                 = Some (false, pre' ++ e :: post, st3)).
    { rewrite root_moves_dtz_app, Hpre. simpl. rewrite He, Hs3. reflexivity. }
    split.
    + unfold TB_root_probe. rewrite Hd.
      replace (success st1 =? 0) with false by (symmetry; apply Z.eqb_neq; exact Hs).
      rewrite Hl. reflexivity.
    + apply (root_moves_dtz_moves _ _ _ _ _ _ _ _ Hl).
Qed.

End RootClaims.

Section RootWdl.
Context {E : Engine} {T : Tablebase E}.

Lemma wdl_captures_return (pos : Pos) (ms : list Move) :
  forall (best_cap best_ep r : Z) (st st' : St TB),
  wdl_captures pos ms best_cap best_ep st = Some (Return r, st') ->
  (r = 0 /\ success st' = 0) \/ (r = 2 /\ success st' = 2).
Proof.
  induction ms as [|m ms IH]; intros best_cap best_ep r st st' H.
  - discriminate.
  - rewrite wdl_captures_cons in H.
    destruct (negb (is_capture pos m) || negb (is_legal pos m)); [eauto|].
    destruct (probe_ab (do_move pos m) (-2) (- best_cap) st) as [[r1 st1]|];
      [|discriminate].
    cbv zeta in H.
    destruct (success st1 =? 0) eqn:Hs.
    { injection H as <- <-. left. split; [reflexivity|lia]. }
    destruct (- r1 >? best_cap); [|eauto].
    destruct (- r1 =? 2).
    { injection H as <- <-. right. auto. }
    destruct (negb (MoveType_eqb (type_of_m m) ENPASSANT)); [eauto|].
    destruct (- r1 >? best_ep); eauto.
Qed.

(** With WDL tables that store nothing above 2, neither does the probe. *)
Lemma TB_probe_wdl_le2 (pos : Pos) (st st' : St TB) (r : Z) :
  (forall p s, fst (probe_wdl_table p s) <= 2) ->
  TB_probe_wdl pos st = Some (r, st') ->
  r <= 2.
Proof.
  intros Htab. unfold TB_probe_wdl.
  destruct (wdl_captures _ _ _ _ _) as [[[r1|[bc be]] st1]|] eqn:Hl; [| |discriminate].
  - intros H. injection H as <- <-. apply wdl_captures_return in Hl. lia.
  - apply wdl_captures_le1 in Hl; [|lia|lia]. unfold wdl_resolve.
    specialize (Htab pos st1).
    destruct (probe_wdl_table pos st1) as [v st2]. simpl in Htab.
    intros H. injection H as H. apply (f_equal fst) in H. simpl in H. revert H.
    destruct (success st2 =? 0); [simpl; lia|].
    unfold wdl_after_ep.
    destruct (be >? bc).
    + destruct (be >? v); [simpl; lia|].
      destruct (be >=? v); [simpl; lia|].
      destruct ((be >? -3) && (v =? 0) && no_move_but_ep pos (capture_moves pos));
        simpl; lia.
    + destruct (bc >=? v); [simpl; lia|].
      destruct ((be >? -3) && (v =? 0) && no_move_but_ep pos (capture_moves pos));
        simpl; lia.
Qed.

(** The probing loop of [TB_root_probe_wdl]: moves are kept, every value
    is a negated child probe, and [best] is the running maximum. *)
Lemma root_moves_wdl_spec (pos : Pos) (rm : list ExtMove) :
  forall (b0 best : Z) (st st' : St TB) (rm1 : list ExtMove),
  root_moves_wdl pos rm b0 st = Some (true, rm1, best, st') ->
  move <$> rm1 = move <$> rm
  /\ length rm1 = length rm
  /\ b0 <= best
  /\ (forall e, In e rm1 -> value e <= best)
  /\ (best = b0 \/ exists e, In e rm1 /\ value e = best)
  /\ (forall e, In e rm1 ->
        exists s s' r, TB_probe_wdl (do_move pos (move e)) s = Some (r, s')
                       /\ success s' <> 0 /\ value e = - r).
Proof.
  induction rm as [|e rm IH]; intros b0 best st st' rm1 H; simpl in H.
  - injection H as <- <- <-.
    repeat split; try reflexivity; try lia; try (intros e []).
  - destruct (TB_probe_wdl (do_move pos (move e)) st) as [[r st1]|] eqn:Hw;
      [|discriminate].
    cbv zeta in H. destruct (success st1 =? 0) eqn:Hs; [discriminate|].
    destruct (root_moves_wdl pos rm (if - r >? b0 then - r else b0) st1)
      as [[[[ok rm''] b] st2]|] eqn:Hr; [|discriminate].
    injection H as -> <- -> <-.
    apply IH in Hr. destruct Hr as (Hm & Hlen & Hb & Hmax & Hatt & Hval).
    assert (Hc : b0 <= (if - r >? b0 then - r else b0)
                 /\ - r <= (if - r >? b0 then - r else b0)).
    { destruct (- r >? b0) eqn:Hg; [apply Z.gtb_lt in Hg; lia|].
      destruct (Z.gtb_spec (- r) b0); [discriminate|lia]. }
    rewrite fmap_cons. simpl. rewrite Hm, Hlen.
    repeat split; try reflexivity; try lia.
    + intros e' [<-|Hin]; [simpl; lia|auto].
    + destruct Hatt as [Heq|(e' & Hin & He')].
      * destruct (- r >? b0) eqn:Hg.
        -- right. exists (mkExtMove (move e) (- r)). split; [left; reflexivity|].
           simpl. lia.
        -- left. exact Heq.
      * right. exists e'. split; [right; exact Hin|exact He'].
    + intros e' [<-|Hin]; [|auto]. exists st, st1, r. simpl.
      split; [exact Hw|]. split; [apply Z.eqb_neq; exact Hs|reflexivity].
Qed.

(** C10. After [TB_root_probe_wdl] returned 1 (WDL tables storing values
    up to 2), the first [*num_moves] cells hold, in their original order,
    exactly the moves whose negated child WDL value is the maximum over
    all root moves, and [*num_moves] is positive for a non-empty list. *)
Theorem TB_root_probe_wdl_keeps_best (pos : Pos) (rm : list ExtMove)
  (st st' : St TB) (res : RootProbe) :
  (forall p s, fst (probe_wdl_table p s) <= 2) ->
  TB_root_probe_wdl pos rm st = Some (res, st') ->
  ret res = 1 ->
  exists (rm1 : list ExtMove) (best : Z),
    move <$> rm1 = move <$> rm
    /\ value <$> rm_out res = value <$> rm1
    /\ (forall e, In e rm1 ->
          exists s s' r, TB_probe_wdl (do_move pos (move e)) s = Some (r, s')
                         /\ success s' <> 0 /\ value e = - r)
    /\ (forall e, In e rm1 -> value e <= best)
    /\ (rm <> [] -> exists e, In e rm1 /\ value e = best)
    /\ move <$> take (num_moves res) (rm_out res)
       = move <$> filter (fun e => value e = best) rm1
    /\ num_moves res = length (filter (fun e => value e = best) rm1)
    /\ (rm <> [] -> (0 < num_moves res)%nat).
Proof.
  intros Htab. unfold TB_root_probe_wdl.
  destruct (TB_probe_wdl pos st) as [[wdl st1]|]; [|discriminate].
  destruct (success st1 =? 0).
  { intros H Hr. injection H as <- <-. discriminate. }
  destruct (root_moves_wdl pos rm (-2) st1) as [[[[[|] rm1] best] st2]|] eqn:Hl;
    [| |discriminate].
  2:{ intros H Hr. injection H as <- <-. discriminate. }
  destruct (root_moves_wdl_spec _ _ _ _ _ _ _ Hl)
    as (Hm & Hlen & Hb & Hmax & Hatt & Hval).
  rewrite <- Hlen.
  destruct (keep_moves _ _ _ _ _) as [rm2 j] eqn:Hk.
  apply keep_moves_spec in Hk. destruct Hk as (_ & Hv & Hmv & Hj).
  assert (Hf : filter (fun e => (value e =? best) = true) rm1
               = filter (fun e => value e = best) rm1)
    by (apply list_filter_iff; intros e; apply Z.eqb_eq).
  rewrite Hf in Hmv, Hj.
  intros H _. injection H as <- <-. simpl.
  assert (Hex : rm <> [] -> exists e, In e rm1 /\ value e = best).
  { intros Hne. destruct Hatt as [->|Hex]; [|exact Hex].
    destruct rm1 as [|e1 rm1']; [destruct rm; [congruence|discriminate]|].
    exists e1. split; [left; reflexivity|].
    specialize (Hmax e1 (or_introl eq_refl)).
    destruct (Hval e1 (or_introl eq_refl)) as (s & s' & r & Hw & _ & Her).
    apply TB_probe_wdl_le2 in Hw; [|exact Htab]. lia. }
  exists rm1, best. repeat split; auto.
  intros Hne. destruct (Hex Hne) as (e & Hin & He).
  rewrite Hj.
  assert (Hin' : e ∈ filter (fun e => value e = best) rm1).
  { apply list_elem_of_filter. split; [exact He|]. apply list_elem_of_In. exact Hin. }
  destruct (filter (fun e => value e = best) rm1); [|simpl; lia].
  apply elem_of_nil in Hin'. destruct Hin'.
Qed.

End RootWdl.

(** * The [success] cell on exit from [TB_probe_dtz] *)

Section DtzSuccess.
Context {E : Engine} {T : Tablebase E}.

(** What the table readers do to [*success]: [probe_wdl_table] leaves it
    or writes 0; [probe_dtz_table] leaves it or writes 0 or -1. *)
Hypothesis wdl_frame : forall p st,
  success (snd (probe_wdl_table p st)) = success st
  \/ success (snd (probe_wdl_table p st)) = 0.
Hypothesis dtz_frame : forall p w st,
  success (snd (probe_dtz_table p w st)) = success st
  \/ success (snd (probe_dtz_table p w st)) = 0
  \/ success (snd (probe_dtz_table p w st)) = -1.

Lemma probe_ab_fuel_frame (fuel : nat) :
  forall (pos : Pos) (alpha beta r : Z) (st st' : St TB),
  probe_ab_fuel fuel pos alpha beta st = Some (r, st') ->
  success st' = success st \/ success st' = 0.
Proof.
  induction fuel as [|fuel IHf]; [discriminate|].
  intros pos alpha beta r st st'. simpl.
  generalize (capture_moves pos) as ms. intros ms. revert alpha st.
  induction ms as [|m ms IH]; intros alpha st H; simpl in H.
  - pose proof (wdl_frame pos st) as Hf.
    destruct (probe_wdl_table pos st) as [v st1]. injection H as <- <-. exact Hf.
  - destruct (negb (is_capture pos m) || negb (is_legal pos m)); [eauto|].
    destruct (probe_ab_fuel fuel (do_move pos m) (- beta) (- alpha) st)
      as [[r1 st1]|] eqn:Hab; [|discriminate].
    apply IHf in Hab. cbv zeta in H.
    destruct (success st1 =? 0) eqn:Hs.
    { injection H as <- <-. right. lia. }
    assert (Hst : success st1 = success st) by lia.
    destruct (- r1 >? alpha).
    + destruct (- r1 >=? beta).
      * injection H as <- <-. left. exact Hst.
      * apply IH in H. rewrite <- Hst. exact H.
    + apply IH in H. rewrite <- Hst. exact H.
Qed.

Lemma wdl_captures_frame (pos : Pos) (ms : list Move) :
  forall (best_cap best_ep : Z) (fl : Flow Z (Z * Z)) (st st' : St TB),
  wdl_captures pos ms best_cap best_ep st = Some (fl, st') ->
  match fl with
  | Return _ => success st' = 0 \/ success st' = 2
  | Continue _ => success st' = success st
  end.
Proof.
  induction ms as [|m ms IH]; intros best_cap best_ep fl st st' H.
  - injection H as <- <-. reflexivity.
  - rewrite wdl_captures_cons in H.
    destruct (negb (is_capture pos m) || negb (is_legal pos m));
      [exact (IH _ _ _ _ _ H)|].
    destruct (probe_ab (do_move pos m) (-2) (- best_cap) st) as [[r st1]|] eqn:Hab;
      [|discriminate H].
    apply probe_ab_fuel_frame in Hab. cbv zeta in H.
    destruct (success st1 =? 0) eqn:Hs.
    { injection H as <- <-. left. lia. }
    assert (Hst : success st1 = success st) by lia.
    assert (Hgo : forall bc be, wdl_captures pos ms bc be st1 = Some (fl, st') ->
                  match fl with
                  | Return _ => success st' = 0 \/ success st' = 2
                  | Continue _ => success st' = success st
                  end).
    { intros bc be Hr. apply IH in Hr. destruct fl; [exact Hr|congruence]. }
    destruct (- r >? best_cap); [|exact (Hgo _ _ H)].
    destruct (- r =? 2).
    { injection H as <- <-. right. reflexivity. }
    destruct (negb (MoveType_eqb (type_of_m m) ENPASSANT)); [exact (Hgo _ _ H)|].
    destruct (- r >? best_ep); exact (Hgo _ _ H).
Qed.

(** [TB_probe_wdl] exits with [success] 0, 1 or 2. *)
Lemma TB_probe_wdl_success (pos : Pos) (st st' : St TB) (r : Z) :
  TB_probe_wdl pos st = Some (r, st') ->
  success st' = 0 \/ success st' = 1 \/ success st' = 2.
Proof.
  unfold TB_probe_wdl.
  destruct (wdl_captures _ _ _ _ _) as [[[r1|[bc be]] st1]|] eqn:Hl; [| |discriminate].
  - intros H. injection H as <- <-. apply wdl_captures_frame in Hl. lia.
  - apply wdl_captures_frame in Hl. simpl in Hl. unfold wdl_resolve.
    pose proof (wdl_frame pos st1) as Hf.
    destruct (probe_wdl_table pos st1) as [v st2]. simpl in Hf.
    intros H. injection H as H. apply (f_equal (fun x => success (snd x))) in H.
    simpl in H. rewrite <- H. clear H. unfold wdl_after_ep.
    destruct (success st2 =? 0) eqn:Hs; [simpl; lia|].
    destruct (be >? bc).
    + destruct (be >? v); [simpl; lia|].
      destruct (be >=? v); [destruct (be >? 0); simpl; lia|].
      destruct ((be >? -3) && (v =? 0) && no_move_but_ep pos (capture_moves pos));
        simpl; lia.
    + destruct (bc >=? v); [destruct (bc >? 0); simpl; lia|].
      destruct ((be >? -3) && (v =? 0) && no_move_but_ep pos (capture_moves pos));
        simpl; lia.
Qed.

Lemma dtz_pawn_moves_frame (pos : Pos) (wdl : Z) (ms : list Move) :
  forall (fl : Flow Z unit) (st st' : St TB),
  dtz_pawn_moves pos wdl ms st = Some (fl, st') ->
  success st' = success st
  \/ success st' = 0 \/ success st' = 1 \/ success st' = 2.
Proof.
  induction ms as [|m ms IH]; intros fl st st' H; simpl in H.
  - injection H as <- <-. auto.
  - destruct (negb (type_of_p (moved_piece pos m) =? PAWN) || is_capture pos m
              || negb (is_legal pos m)); [eauto|].
    destruct (TB_probe_wdl (do_move pos m) st) as [[r st1]|] eqn:Hw; [|discriminate].
    apply TB_probe_wdl_success in Hw. cbv zeta in H.
    destruct (success st1 =? 0).
    { injection H as <- <-. auto. }
    destruct (- r =? wdl).
    { injection H as <- <-. auto. }
    apply IH in H. lia.
Qed.

Lemma dtz_pawn_search_frame (pos : Pos) (wdl : Z) (fl : Flow Z unit)
  (st st' : St TB) :
  dtz_pawn_search pos wdl st = Some (fl, st') ->
  success st' = success st
  \/ success st' = 0 \/ success st' = 1 \/ success st' = 2.
Proof.
  unfold dtz_pawn_search. destruct (wdl >? 0).
  - apply dtz_pawn_moves_frame.
  - intros H. assert (st' = st) by congruence. subst st'. auto.
Qed.

(** The second loop of [TB_probe_dtz]: either it probed nothing and the
    cell is as it was, or the cell is what the probes left. *)
Lemma dtz_moves_success (rec : Pos -> St TB -> option (Z * St TB))
  (pos : Pos) (wdl r : Z) (st' : St TB) :
  (forall p s r1 s1, rec p s = Some (r1, s1) ->
     success s1 = -1 \/ success s1 = 0 \/ success s1 = 1 \/ success s1 = 2) ->
  forall (ms : list Move) (best : Z) (st : St TB),
  dtz_moves rec pos wdl ms best st = Some (r, st') ->
  (success st' = success st /\ r = best
   /\ forall m, In m ms -> dtz_skips pos m = true)
  \/ ((success st' = -1 \/ success st' = 0 \/ success st' = 1 \/ success st' = 2)
      /\ (success st' = -1 ->
          exists m s r1 s1,
            In m ms /\ dtz_skips pos m = false
            /\ rec (do_move pos m) s = Some (r1, s1) /\ success s1 = -1)).
Proof.
  intros Hrec. induction ms as [|m ms IH]; intros best st H; simpl in H.
  - injection H as <- <-. left. split; [reflexivity|]. split; [reflexivity|].
    intros m [].
  - destruct (dtz_skips pos m) eqn:Hsk.
    + apply IH in H. destruct H as [(Hs & Hr & Hall)|(Hs & Hneg)].
      * left. split; [exact Hs|]. split; [exact Hr|].
        intros m' [<-|Hin]; auto.
      * right. split; [exact Hs|]. intros H1.
        destruct (Hneg H1) as (m' & s & r1 & s1 & Hin & Hrest).
        exists m', s, r1, s1. split; [right; exact Hin|exact Hrest].
    + destruct (rec (do_move pos m) st) as [[r1 s1]|] eqn:Hch; [|discriminate].
      pose proof (Hrec _ _ _ _ Hch) as Hc. cbv zeta in H.
      destruct (success s1 =? 0) eqn:Hz.
      { injection H as <- <-. right. split; [lia|]. intros; lia. }
      apply IH in H. right.
      destruct H as [(Hs & Hr & Hall)|(Hs & Hneg)].
      * split; [lia|]. intros H1. exists m, st, r1, s1.
        split; [left; reflexivity|]. split; [exact Hsk|]. split; [exact Hch|lia].
      * split; [exact Hs|]. intros H1.
        destruct (Hneg H1) as (m' & s & r2 & s2 & Hin & Hrest).
        exists m', s, r2, s2. split; [right; exact Hin|exact Hrest].
Qed.

(** C8, as the code has it. [TB_probe_dtz] exits with [success] in
    {-1, 0, 1, 2}. It exits with -1 only if [probe_dtz_table] wrote -1 for
    this very position, and then either the loop found no legal move of a
    piece that is not a capture, so that no recursive probe overwrote the
    cell and the initial [best] is returned, or a recursive probe itself
    exited with -1. *)
Theorem TB_probe_dtz_success_on_exit (fuel : nat) :
  forall (pos : Pos) (st st' : St TB) (r : Z),
  TB_probe_dtz fuel pos st = Some (r, st') ->
  (success st' = -1 \/ success st' = 0 \/ success st' = 1 \/ success st' = 2)
  /\ (success st' = -1 ->
      (exists wdl st2 dtz st3,
         probe_dtz_table pos wdl st2 = (dtz, st3) /\ success st3 = -1)
      /\ ((forall m, In m (all_moves pos) -> dtz_skips pos m = true)
          \/ exists m s r1 s1 fuel',
               In m (all_moves pos) /\ dtz_skips pos m = false
               /\ TB_probe_dtz fuel' (do_move pos m) s = Some (r1, s1)
               /\ success s1 = -1)).
Proof.
  induction fuel as [|fuel IHf]; [discriminate|].
  intros pos st st' r. simpl.
  destruct (TB_probe_wdl pos st) as [[wdl st1]|] eqn:Hw; [|discriminate].
  apply TB_probe_wdl_success in Hw.
  destruct (success st1 =? 0) eqn:Hs0.
  { intros H. injection H as <- <-. split; [lia|]. intros; lia. }
  destruct (wdl =? 0).
  { intros H. injection H as <- <-. split; [lia|]. intros; lia. }
  destruct (success st1 =? 2) eqn:Hs2.
  { intros H. injection H as <- <-. split; [lia|]. intros; lia. }
  destruct (dtz_pawn_search pos wdl st1) as [[[r1|u] st2]|] eqn:Hp; [| |discriminate].
  { intros H. injection H as <- <-. apply dtz_pawn_search_frame in Hp.
    split; [lia|]. intros; lia. }
  apply dtz_pawn_search_frame in Hp.
  pose proof (dtz_frame pos wdl st2) as Hdf.
  destruct (probe_dtz_table pos wdl st2) as [dtz st3] eqn:Hdt. simpl in Hdf.
  destruct (success st3 >=? 0) eqn:Hge.
  { intros H. injection H as <- <-. apply Z.geb_le in Hge.
    split; [lia|]. intros; lia. }
  assert (Hm1 : success st3 = -1).
  { destruct (Z.geb_spec (success st3) 0); [discriminate|]. lia. }
  intros H. apply dtz_moves_success in H.
  2:{ intros p s r1 s1 Hr. apply (IHf _ _ _ _ Hr). }
  assert (Hread : exists wdl st2 dtz st3,
            probe_dtz_table pos wdl st2 = (dtz, st3) /\ success st3 = -1)
    by (exists wdl, st2, dtz, st3; auto).
  destruct H as [(Hs & _ & Hall)|(Hs & Hneg)].
  - split; [lia|]. intros _. split; [exact Hread|]. left. exact Hall.
  - split; [exact Hs|]. intros H1. split; [exact Hread|]. right.
    destruct (Hneg H1) as (m & s & r1 & s1 & Hrest).
    exists m, s, r1, s1, fuel. exact Hrest.
Qed.

End DtzSuccess.

(** * The probes return *)

Section Fuel.
Context {E : Engine} {T : Tablebase E}.

(** More fuel does not change a result. *)
Lemma ab_captures_mono
  (rec rec' : Pos -> Z -> Z -> St TB -> option (Z * St TB)) (pos : Pos) :
  (forall p a b st r, rec p a b st = Some r -> rec' p a b st = Some r) ->
  forall ms alpha beta st r,
  ab_captures rec pos ms alpha beta st = Some r ->
  ab_captures rec' pos ms alpha beta st = Some r.
Proof.
  intros Hrec. induction ms as [|m ms IH]; intros alpha beta st r H; simpl in *.
  - exact H.
  - destruct (negb (is_capture pos m) || negb (is_legal pos m)); [auto|].
    destruct (rec (do_move pos m) (- beta) (- alpha) st) as [[r1 st1]|] eqn:Hr;
      [|discriminate H].
    rewrite (Hrec _ _ _ _ _ Hr). cbv zeta in *.
    destruct (success st1 =? 0); [exact H|].
    destruct (- r1 >? alpha); [|auto].
    destruct (- r1 >=? beta); [exact H|auto].
Qed.

Lemma probe_ab_fuel_mono (fuel : nat) :
  forall pos alpha beta st r,
  probe_ab_fuel fuel pos alpha beta st = Some r ->
  probe_ab_fuel (S fuel) pos alpha beta st = Some r.
Proof.
  induction fuel as [|fuel IH]; intros pos alpha beta st r H; [discriminate H|].
  simpl in H. change (probe_ab_fuel (S (S fuel)) pos alpha beta st)
    with (ab_captures (probe_ab_fuel (S fuel)) pos (capture_moves pos) alpha beta st).
  apply (ab_captures_mono (probe_ab_fuel fuel)); [exact IH|exact H].
Qed.

Lemma dtz_moves_mono (rec rec' : Pos -> St TB -> option (Z * St TB))
  (pos : Pos) (wdl : Z) :
  (forall p st r, rec p st = Some r -> rec' p st = Some r) ->
  forall ms best st r,
  dtz_moves rec pos wdl ms best st = Some r ->
  dtz_moves rec' pos wdl ms best st = Some r.
Proof.
  intros Hrec. induction ms as [|m ms IH]; intros best st r H; simpl in *.
  - exact H.
  - destruct (dtz_skips pos m); [auto|].
    destruct (rec (do_move pos m) st) as [[r1 st1]|] eqn:Hr; [|discriminate H].
    rewrite (Hrec _ _ _ Hr). cbv zeta in *.
    destruct (success st1 =? 0); [exact H|auto].
Qed.

Lemma TB_probe_dtz_mono (fuel : nat) :
  forall pos st r,
  TB_probe_dtz fuel pos st = Some r -> TB_probe_dtz (S fuel) pos st = Some r.
Proof.
  induction fuel as [|fuel IH]; intros pos st r H; [discriminate H|].
  simpl in H |- *.
  destruct (TB_probe_wdl pos st) as [[wdl st1]|]; [|discriminate H].
  destruct (success st1 =? 0); [exact H|].
  destruct (wdl =? 0); [exact H|].
  destruct (success st1 =? 2); [exact H|].
  destruct (dtz_pawn_search pos wdl st1) as [[[r1|u] st2]|]; [exact H| |discriminate H].
  destruct (probe_dtz_table pos wdl st2) as [dtz st3].
  destruct (success st3 >=? 0); [exact H|].
  apply (dtz_moves_mono (TB_probe_dtz fuel)); [exact IH|exact H].
Qed.

(** [Inv] holds of the positions that can come up: it is kept by legal
    moves, and on such positions a capture takes a piece off the board. *)
Variable Inv : Pos -> Prop.
Hypothesis inv_move : forall p m,
  Inv p -> is_legal p m = true -> Inv (do_move p m).
Hypothesis capture_takes_a_piece : forall p m,
  Inv p -> is_capture p m = true -> is_legal p m = true ->
  (popcount (pieces (do_move p m)) < popcount (pieces p))%nat.

Lemma ab_captures_total (rec : Pos -> Z -> Z -> St TB -> option (Z * St TB))
  (pos : Pos) :
  (forall m a b st, is_capture pos m = true -> is_legal pos m = true ->
     exists r, rec (do_move pos m) a b st = Some r) ->
  forall ms alpha beta st, exists r, ab_captures rec pos ms alpha beta st = Some r.
Proof.
  intros Hrec. induction ms as [|m ms IH]; intros alpha beta st; simpl.
  - destruct (probe_wdl_table pos st) as [v st1]. eauto.
  - destruct (is_capture pos m) eqn:Hc; [|apply IH].
    destruct (is_legal pos m) eqn:Hl; [|apply IH]. simpl.
    destruct (Hrec m (- beta) (- alpha) st Hc Hl) as [[r st1] ->]. cbv zeta.
    destruct (success st1 =? 0); [eauto|].
    destruct (- r >? alpha); [|apply IH].
    destruct (- r >=? beta); [eauto|apply IH].
Qed.

Lemma probe_ab_fuel_total (fuel : nat) :
  forall pos alpha beta st,
  Inv pos ->
  (popcount (pieces pos) < fuel)%nat ->
  exists r, probe_ab_fuel fuel pos alpha beta st = Some r.
Proof.
  induction fuel as [|fuel IH]; intros pos alpha beta st Hinv Hlt; [lia|].
  simpl. apply ab_captures_total. intros m a b s Hc Hl. apply IH.
  - apply inv_move; assumption.
  - specialize (capture_takes_a_piece pos m Hinv Hc Hl). lia.
Qed.

Lemma probe_ab_total (pos : Pos) (alpha beta : Z) (st : St TB) :
  Inv pos -> exists r, probe_ab pos alpha beta st = Some r.
Proof. intros Hinv. apply probe_ab_fuel_total; [exact Hinv|lia]. Qed.

Lemma wdl_captures_total (pos : Pos) (ms : list Move) :
  Inv pos ->
  forall best_cap best_ep st,
  exists r, wdl_captures pos ms best_cap best_ep st = Some r.
Proof.
  intros Hinv. induction ms as [|m ms IH]; intros best_cap best_ep st.
  - simpl. eauto.
  - rewrite wdl_captures_cons.
    destruct (is_legal pos m) eqn:Hl; [|rewrite orb_true_r; apply IH].
    destruct (negb (is_capture pos m) || negb true); [apply IH|].
    destruct (probe_ab_total (do_move pos m) (-2) (- best_cap) st
                (inv_move _ _ Hinv Hl)) as [[r st1] ->].
    cbv zeta. destruct (success st1 =? 0); [eauto|].
    destruct (- r >? best_cap); [|apply IH].
    destruct (- r =? 2); [eauto|].
    destruct (negb (MoveType_eqb (type_of_m m) ENPASSANT)); [apply IH|].
    destruct (- r >? best_ep); apply IH.
Qed.

(** [TB_probe_wdl] returns. *)
Lemma TB_probe_wdl_total (pos : Pos) (st : St TB) :
  Inv pos -> exists r, TB_probe_wdl pos st = Some r.
Proof.
  intros Hinv. unfold TB_probe_wdl.
  destruct (wdl_captures_total pos (capture_moves pos) Hinv (-3) (-3)
              (set_success 1 st)) as [[[r|[bc be]] st1] ->]; eauto.
Qed.

Lemma dtz_pawn_moves_total (pos : Pos) (wdl : Z) (ms : list Move) :
  Inv pos ->
  forall st, exists r, dtz_pawn_moves pos wdl ms st = Some r.
Proof.
  intros Hinv. induction ms as [|m ms IH]; intros st; simpl; [eauto|].
  destruct (is_legal pos m) eqn:Hl; [|rewrite orb_true_r; apply IH].
  destruct (negb (type_of_p (moved_piece pos m) =? PAWN) || is_capture pos m
            || negb true); [apply IH|].
  destruct (TB_probe_wdl_total (do_move pos m) st (inv_move _ _ Hinv Hl))
    as [[r st1] ->].
  cbv zeta. destruct (success st1 =? 0); [eauto|].
  destruct (- r =? wdl); [eauto|apply IH].
Qed.

Lemma dtz_pawn_search_total (pos : Pos) (wdl : Z) (st : St TB) :
  Inv pos -> exists r, dtz_pawn_search pos wdl st = Some r.
Proof.
  intros Hinv. unfold dtz_pawn_search.
  destruct (wdl >? 0); [apply dtz_pawn_moves_total; exact Hinv|eauto].
Qed.

Lemma dtz_moves_total (rec : Pos -> St TB -> option (Z * St TB))
  (pos : Pos) (wdl : Z) :
  (forall m st, dtz_skips pos m = false -> exists r, rec (do_move pos m) st = Some r) ->
  forall ms best st, exists r, dtz_moves rec pos wdl ms best st = Some r.
Proof.
  intros Hrec. induction ms as [|m ms IH]; intros best st; simpl; [eauto|].
  destruct (dtz_skips pos m) eqn:Hsk; [apply IH|].
  destruct (Hrec m st Hsk) as [[r st1] ->]. cbv zeta.
  destruct (success st1 =? 0); [eauto|apply IH].
Qed.

Lemma dtz_skips_legal (pos : Pos) (m : Move) :
  dtz_skips pos m = false -> is_legal pos m = true.
Proof.
  unfold dtz_skips. intros H. apply orb_false_iff in H. destruct H as [_ H].
  destruct (is_legal pos m); [reflexivity|discriminate H].
Qed.

(** [probe_wdl_table] leaves [*success] or writes 0. *)
Hypothesis wdl_frame : forall p st,
  success (snd (probe_wdl_table p st)) = success st
  \/ success (snd (probe_wdl_table p st)) = 0.

(** On a position whose DTZ table is stored for the side to move, one
    level of [TB_probe_dtz] is enough. *)
Lemma TB_probe_dtz_right_side (fuel : nat) (pos : Pos) (st : St TB) :
  Inv pos ->
  (forall w s, 0 <= success s -> 0 <= success (snd (probe_dtz_table pos w s))) ->
  exists r, TB_probe_dtz (S fuel) pos st = Some r.
Proof.
  intros Hinv Hside. simpl.
  destruct (TB_probe_wdl_total pos st Hinv) as [[wdl st1] Hw]. rewrite Hw.
  apply (TB_probe_wdl_success wdl_frame) in Hw.
  destruct (success st1 =? 0); [eauto|].
  destruct (wdl =? 0); [eauto|].
  destruct (success st1 =? 2); [eauto|].
  destruct (dtz_pawn_search_total pos wdl st1 Hinv) as [[[r|u] st2] Hp]; rewrite Hp;
    [eauto|].
  apply (dtz_pawn_search_frame wdl_frame) in Hp.
  specialize (Hside wdl st2 ltac:(lia)).
  destruct (probe_dtz_table pos wdl st2) as [dtz st3]. simpl in Hside.
  replace (success st3 >=? 0) with true by (symmetry; apply Z.geb_le; lia).
  eauto.
Qed.

(** The table of a position is stored for one side: where the reader
    reports the wrong perspective, it does not after a move of a piece
    that is not a capture. *)
Hypothesis other_side_after_move : forall p m w st w' st',
  Inv p ->
  dtz_skips p m = false ->
  success (snd (probe_dtz_table p w st)) < 0 ->
  0 <= success st' ->
  0 <= success (snd (probe_dtz_table (do_move p m) w' st')).

(** [TB_probe_dtz] returns with two levels of recursion, and with more. *)
Lemma TB_probe_dtz_total (fuel : nat) (pos : Pos) (st : St TB) :
  Inv pos -> exists r, TB_probe_dtz (S (S fuel)) pos st = Some r.
Proof.
  intros Hinv.
  change (TB_probe_dtz (S (S fuel)) pos st) with
    (match TB_probe_wdl pos st with
     | None => None
     | Some (wdl, st1) =>
       if success st1 =? 0 then Some (0, st1)
       else if wdl =? 0 then Some (0, st1)
       else if success st1 =? 2 then Some (wdl_to_dtz_at (wdl + 2), st1)
       else
         match dtz_pawn_search pos wdl st1 with
         | None => None
         | Some (Return r, st2) => Some (r, st2)
         | Some (Continue _, st2) =>
           let '(dtz, st3) := probe_dtz_table pos wdl st2 in
           if success st3 >=? 0
           then Some (wdl_to_dtz_at (wdl + 2) + (if wdl >? 0 then dtz else - dtz), st3)
           else
             dtz_moves (TB_probe_dtz (S fuel)) pos wdl (all_moves pos)
               (if wdl >? 0 then INT32_MAX else wdl_to_dtz_at (wdl + 2)) st3
         end
     end).
  destruct (TB_probe_wdl_total pos st Hinv) as [[wdl st1] ->].
  destruct (success st1 =? 0); [eauto|].
  destruct (wdl =? 0); [eauto|].
  destruct (success st1 =? 2); [eauto|].
  destruct (dtz_pawn_search_total pos wdl st1 Hinv) as [[[r|u] st2] ->]; [eauto|].
  pose proof (other_side_after_move pos) as Hother.
  destruct (probe_dtz_table pos wdl st2) as [dtz st3] eqn:Hd.
  destruct (success st3 >=? 0) eqn:Hge; [eauto|].
  apply dtz_moves_total. intros m s Hsk. apply TB_probe_dtz_right_side.
  - apply inv_move; [exact Hinv|apply dtz_skips_legal; exact Hsk].
  - intros w' s'. apply (Hother m wdl st2 w' s' Hinv Hsk). rewrite Hd. simpl.
    destruct (Z.geb_spec (success st3) 0); [discriminate|lia].
Qed.

Lemma root_moves_dtz_total (fuel : nat) (pos : Pos) (dtz : Z) (rm : list ExtMove) :
  Inv pos ->
  (forall e, In e rm -> is_legal pos (move e) = true) ->
  forall st, exists r, root_moves_dtz (S (S fuel)) pos dtz rm st = Some r.
Proof.
  intros Hinv. induction rm as [|e rm IH]; intros Hleg st; [simpl; eauto|].
  change (root_moves_dtz (S (S fuel)) pos dtz (e :: rm) st) with
    (match root_move_dtz (S (S fuel)) pos dtz (move e) st with
     | None => None
     | Some (v, st1) =>
       if success st1 =? 0 then Some (false, e :: rm, st1)
       else
         match root_moves_dtz (S (S fuel)) pos dtz rm st1 with
         | None => None
         | Some (ok, rm'', st2) => Some (ok, mkExtMove (move e) v :: rm'', st2)
         end
     end).
  assert (Hch : Inv (do_move pos (move e)))
    by (apply inv_move; [exact Hinv|apply Hleg; left; reflexivity]).
  assert (Hm : exists r, root_move_dtz (S (S fuel)) pos dtz (move e) st = Some r).
  { unfold root_move_dtz.
    destruct (negb (pos_checkers (do_move pos (move e)) =? 0) && (dtz >? 0)
              && bool_decide (generate_legal (do_move pos (move e)) = [])); [eauto|].
    destruct (negb (pos_rule50_count (do_move pos (move e)) =? 0)).
    - destruct (TB_probe_dtz_total fuel (do_move pos (move e)) st Hch) as [[r st1] ->].
      eauto.
    - destruct (TB_probe_wdl_total (do_move pos (move e)) st Hch) as [[r st1] ->].
      eauto. }
  destruct Hm as [[v st1] ->].
  destruct (success st1 =? 0); [eauto|].
  destruct (IH (fun e' He' => Hleg e' (or_intror He')) st1) as [[[ok rm''] st2] ->].
  eauto.
Qed.

(** [TB_root_probe] returns on a list of legal root moves. *)
Lemma TB_root_probe_total (fuel : nat) (pos : Pos) (rm : list ExtMove) (st : St TB) :
  Inv pos ->
  (forall e, In e rm -> is_legal pos (move e) = true) ->
  exists r, TB_root_probe (S (S fuel)) pos rm st = Some r.
Proof.
  intros Hinv Hleg. unfold TB_root_probe.
  destruct (TB_probe_dtz_total fuel pos st Hinv) as [[dtz st1] ->].
  destruct (success st1 =? 0); [eauto|].
  destruct (root_moves_dtz_total fuel pos dtz rm Hinv Hleg st1)
    as [[[[|] rm1] st2] ->]; [|eauto].
  destruct (root_filter pos dtz (pos_rule50_count pos) rm1). eauto.
Qed.

Lemma root_moves_wdl_total (pos : Pos) (rm : list ExtMove) :
  Inv pos ->
  (forall e, In e rm -> is_legal pos (move e) = true) ->
  forall best st, exists r, root_moves_wdl pos rm best st = Some r.
Proof.
  intros Hinv. induction rm as [|e rm IH]; intros Hleg best st; simpl; [eauto|].
  destruct (TB_probe_wdl_total (do_move pos (move e)) st
              (inv_move _ _ Hinv (Hleg e (or_introl eq_refl)))) as [[r st1] ->].
  cbv zeta. destruct (success st1 =? 0); [eauto|].
  destruct (IH (fun e' He' => Hleg e' (or_intror He'))
               (if - r >? best then - r else best) st1) as [[[[ok rm''] b] st2] ->].
  eauto.
Qed.

(** [TB_root_probe_wdl] returns on a list of legal root moves. *)
Lemma TB_root_probe_wdl_total (pos : Pos) (rm : list ExtMove) (st : St TB) :
  Inv pos ->
  (forall e, In e rm -> is_legal pos (move e) = true) ->
  exists r, TB_root_probe_wdl pos rm st = Some r.
Proof.
  intros Hinv Hleg. unfold TB_root_probe_wdl.
  destruct (TB_probe_wdl_total pos st Hinv) as [[wdl st1] ->].
  destruct (success st1 =? 0); [eauto|].
  destruct (root_moves_wdl_total pos rm Hinv Hleg (-2) st1)
    as [[[[[|] rm1] best] st2] ->]; [|eauto].
  destruct (keep_moves _ _ _ _ _). eauto.
Qed.

End Fuel.

(** * Colour mirrors: the probes follow the table readers *)

Section Mirror.
Context {E : Engine} {T : Tablebase E}.
Variables (I : TB -> Prop) (R : Pos -> Pos -> Prop) (mm : Move -> Move).
Hypothesis moves : MirrorSim R mm.

(** What the probes need of the two table readers: a read that ends
    with [success <> 0] gives the same on the mirror. *)
Hypothesis wdl_reader : forall p q st, R p q -> I (tb st) ->
  success (snd (probe_wdl_table p st)) <> 0 ->
  probe_wdl_table q st = probe_wdl_table p st
  /\ I (tb (snd (probe_wdl_table p st))).
Hypothesis dtz_reader : forall p q w st, R p q -> I (tb st) ->
  success (snd (probe_dtz_table p w st)) <> 0 ->
  probe_dtz_table q w st = probe_dtz_table p w st
  /\ I (tb (snd (probe_dtz_table p w st))).

Lemma incl_tail {A : Type} (x : A) (l l' : list A) :
  (forall y, In y (x :: l) -> In y l') -> (forall y, In y l -> In y l').
Proof. intros H y Hy. apply H. right. exact Hy. Qed.

Lemma ab_captures_follows
  (rec_p rec_q : Pos -> Z -> Z -> St TB -> option (Z * St TB)) (p q : Pos) :
  R p q ->
  (forall m a b, In m (probed_moves p) -> is_legal p m = true ->
     follows I (rec_q (do_move q (mm m)) a b) (rec_p (do_move p m) a b)) ->
  forall ms, (forall m, In m ms -> In m (probed_moves p)) ->
  forall alpha beta,
    follows I (ab_captures rec_q q (mm <$> ms) alpha beta)
              (ab_captures rec_p p ms alpha beta).
Proof.
  intros HR Hrec. induction ms as [|m ms IH]; intros Hin alpha beta st r st' HI Hp Hs.
  - simpl in Hp |- *.
    destruct (probe_wdl_table p st) as [v st1] eqn:Hv. injection Hp as <- <-.
    destruct (wdl_reader p q st HR HI) as [Hq Hinv]; [rewrite Hv; exact Hs|].
    rewrite Hq, Hv. rewrite Hv in Hinv. split; [reflexivity|exact Hinv].
  - rewrite fmap_cons. simpl in Hp |- *.
    destruct (sim_move _ _ moves p q m HR (Hin m (or_introl eq_refl)))
      as (_ & -> & -> & _ & _).
    specialize (IH (incl_tail _ _ _ Hin)).
    destruct (negb (is_capture p m) || negb (is_legal p m)) eqn:Hskip;
      [apply IH; assumption|].
    assert (Hleg : is_legal p m = true)
      by (destruct (is_capture p m), (is_legal p m); simpl in Hskip; congruence).
    destruct (rec_p (do_move p m) (- beta) (- alpha) st) as [[r1 st1]|] eqn:Hr;
      [|discriminate Hp].
    cbv zeta in Hp. destruct (Z.eqb_spec (success st1) 0) as [Hz|Hnz].
    { injection Hp as <- <-. contradiction. }
    destruct (Hrec m (- beta) (- alpha) (Hin m (or_introl eq_refl)) Hleg
                st r1 st1 HI Hr Hnz) as [-> Hinv].
    cbv zeta. replace (success st1 =? 0) with false
      by (symmetry; apply Z.eqb_neq; exact Hnz).
    destruct (- r1 >? alpha); [|apply IH; assumption].
    destruct (- r1 >=? beta); [|apply IH; assumption].
    injection Hp as <- <-. split; [reflexivity|exact Hinv].
Qed.

Lemma probe_ab_fuel_follows (fuel : nat) :
  forall (p q : Pos) (alpha beta : Z), R p q ->
  follows I (probe_ab_fuel fuel q alpha beta) (probe_ab_fuel fuel p alpha beta).
Proof.
  induction fuel as [|fuel IHf]; intros p q alpha beta HR.
  - intros st r st' _ Hp. discriminate Hp.
  - simpl. rewrite (sim_captures _ _ moves p q HR).
    apply ab_captures_follows; [exact HR| |].
    + intros m a b Hin Hleg. apply IHf.
      apply (sim_move _ _ moves p q m HR Hin). exact Hleg.
    + intros m Hin. unfold probed_moves. apply in_or_app. left. exact Hin.
Qed.

Lemma probe_ab_follows (p q : Pos) (alpha beta : Z) :
  R p q -> follows I (probe_ab q alpha beta) (probe_ab p alpha beta).
Proof.
  intros HR. unfold probe_ab. rewrite (sim_pieces _ _ moves p q HR).
  apply probe_ab_fuel_follows. exact HR.
Qed.

(** The capture loop of [TB_probe_wdl] is followed whenever it ends with
    [success <> 0], by a [return] or by falling through. *)
Lemma wdl_captures_follows (p q : Pos) :
  R p q ->
  forall ms, (forall m, In m ms -> In m (probed_moves p)) ->
  forall best_cap best_ep,
    follows I (wdl_captures q (mm <$> ms) best_cap best_ep)
              (wdl_captures p ms best_cap best_ep).
Proof.
  intros HR. induction ms as [|m ms IH]; intros Hin best_cap best_ep st r st' HI Hp Hs.
  - simpl in Hp |- *. injection Hp as <- <-. split; [reflexivity|exact HI].
  - rewrite fmap_cons. rewrite wdl_captures_cons in Hp. rewrite wdl_captures_cons.
    destruct (sim_move _ _ moves p q m HR (Hin m (or_introl eq_refl)))
      as (-> & -> & -> & _ & Hch).
    specialize (IH (incl_tail _ _ _ Hin)).
    destruct (negb (is_capture p m) || negb (is_legal p m)) eqn:Hskip;
      [apply IH; assumption|].
    assert (Hleg : is_legal p m = true)
      by (destruct (is_capture p m), (is_legal p m); simpl in Hskip; congruence).
    destruct (probe_ab (do_move p m) (-2) (- best_cap) st) as [[r1 st1]|] eqn:Hr;
      [|discriminate Hp].
    cbv zeta in Hp. destruct (Z.eqb_spec (success st1) 0) as [Hz|Hnz].
    { injection Hp as <- <-. contradiction. }
    destruct (probe_ab_follows _ _ (-2) (- best_cap) (Hch Hleg) st r1 st1 HI Hr Hnz)
      as [-> Hinv].
    cbv zeta. replace (success st1 =? 0) with false
      by (symmetry; apply Z.eqb_neq; exact Hnz).
    destruct (- r1 >? best_cap); [|apply IH; assumption].
    destruct (- r1 =? 2).
    { injection Hp as <- <-. split; [reflexivity|exact Hinv]. }
    destruct (negb (MoveType_eqb (type_of_m m) ENPASSANT)); [apply IH; assumption|].
    destruct (- r1 >? best_ep); apply IH; assumption.
Qed.

(** Falling out of the capture loop leaves [success] as the last probe
    left it, which is not 0. *)
Lemma wdl_captures_continue (p : Pos) (ms : list Move) :
  forall best_cap best_ep st x st',
  wdl_captures p ms best_cap best_ep st = Some (Continue x, st') ->
  success st <> 0 -> success st' <> 0.
Proof.
  induction ms as [|m ms IH]; intros best_cap best_ep st x st' Hp Hs.
  - simpl in Hp. injection Hp as _ <-. exact Hs.
  - rewrite wdl_captures_cons in Hp.
    destruct (negb (is_capture p m) || negb (is_legal p m)); [eapply IH; eassumption|].
    destruct (probe_ab (do_move p m) (-2) (- best_cap) st) as [[r1 st1]|];
      [|discriminate Hp].
    cbv zeta in Hp. destruct (Z.eqb_spec (success st1) 0) as [Hz|Hnz];
      [discriminate Hp|].
    destruct (- r1 >? best_cap); [|eapply IH; eassumption].
    destruct (- r1 =? 2); [discriminate Hp|].
    destruct (negb (MoveType_eqb (type_of_m m) ENPASSANT)); [eapply IH; eassumption|].
    destruct (- r1 >? best_ep); eapply IH; eassumption.
Qed.

Lemma existsb_mirror (fq fp : Move -> bool) (ms : list Move) :
  (forall m, In m ms -> fq (mm m) = fp m) ->
  existsb fq (mm <$> ms) = existsb fp ms.
Proof.
  induction ms as [|m ms IH]; intros H; [reflexivity|].
  rewrite fmap_cons. simpl. rewrite (H m (or_introl eq_refl)), IH; [reflexivity|].
  intros m' Hm'. apply H. right. exact Hm'.
Qed.

Lemma no_move_but_ep_mirror (p q : Pos) :
  R p q ->
  no_move_but_ep q (capture_moves q) = no_move_but_ep p (capture_moves p).
Proof.
  intros HR. unfold no_move_but_ep.
  destruct (sim_quiets _ _ moves p q HR) as [-> ->].
  rewrite (sim_captures _ _ moves p q HR).
  rewrite (existsb_mirror
             (fun m => negb (MoveType_eqb (type_of_m m) ENPASSANT) && is_legal q m)
             (fun m => negb (MoveType_eqb (type_of_m m) ENPASSANT) && is_legal p m)).
  2:{ intros m Hin.
      destruct (sim_move _ _ moves p q m HR) as (-> & _ & -> & _); [|reflexivity].
      unfold probed_moves. apply in_or_app. left. exact Hin. }
  rewrite (existsb_mirror (is_legal q) (is_legal p)); [reflexivity|].
  intros m Hin.
  destruct (sim_move _ _ moves p q m HR) as (_ & _ & -> & _); [|reflexivity].
  unfold probed_moves. apply in_or_app. right. apply in_or_app. left. exact Hin.
Qed.

(** Lines 398-449 write to [*success] only after the table was read, and
    never 0 unless the read did. *)
Lemma wdl_resolve_success (p : Pos) (ms : list Move) (bc be : Z) (st : St TB) :
  success (snd (wdl_resolve p ms bc be st)) <> 0 ->
  success (snd (probe_wdl_table p st)) <> 0.
Proof.
  unfold wdl_resolve. destruct (probe_wdl_table p st) as [v st1]. cbn [snd].
  destruct (Z.eqb_spec (success st1) 0) as [Hz|Hnz]; [|intros _; exact Hnz].
  cbn [snd]. intros H. exact H.
Qed.

Lemma TB_probe_wdl_follows (p q : Pos) :
  R p q -> follows I (TB_probe_wdl q) (TB_probe_wdl p).
Proof.
  intros HR st r st' HI Hp Hs. unfold TB_probe_wdl in Hp |- *.
  rewrite (sim_captures _ _ moves p q HR).
  assert (Hin : forall m, In m (capture_moves p) -> In m (probed_moves p)).
  { intros m Hm. unfold probed_moves. apply in_or_app. left. exact Hm. }
  destruct (wdl_captures p (capture_moves p) (-3) (-3) (set_success 1 st))
    as [[[r1|[bc be]] st1]|] eqn:Hc; [| |discriminate Hp].
  - injection Hp as <- <-.
    destruct (wdl_captures_follows p q HR _ Hin (-3) (-3) (set_success 1 st)
                (Return r1) st1 HI Hc Hs) as [-> Hinv].
    split; [reflexivity|exact Hinv].
  - assert (Hs1 : success st1 <> 0).
    { apply (wdl_captures_continue p _ _ _ _ _ _ Hc). simpl. lia. }
    destruct (wdl_captures_follows p q HR _ Hin (-3) (-3) (set_success 1 st)
                (Continue (bc, be)) st1 HI Hc Hs1) as [-> Hinv].
    injection Hp as Hp.
    assert (Hrd : success (snd (probe_wdl_table p st1)) <> 0).
    { apply (wdl_resolve_success p (capture_moves p) bc be).
      rewrite Hp. exact Hs. }
    destruct (wdl_reader p q st1 HR Hinv Hrd) as [Hq Hinv2].
    assert (Heq : wdl_resolve q (mm <$> capture_moves p) bc be st1
                  = wdl_resolve p (capture_moves p) bc be st1).
    { unfold wdl_resolve, wdl_after_ep.
      rewrite <- (sim_captures _ _ moves p q HR).
      rewrite (no_move_but_ep_mirror p q HR), Hq. reflexivity. }
    rewrite Heq, Hp. split; [reflexivity|].
    assert (Htb : tb st' = tb (snd (probe_wdl_table p st1))).
    { replace st' with (snd (wdl_resolve p (capture_moves p) bc be st1))
        by (rewrite Hp; reflexivity).
      unfold wdl_resolve, wdl_after_ep.
      destruct (probe_wdl_table p st1) as [v st2]. cbn [snd].
      destruct (success st2 =? 0); [reflexivity|].
      destruct (be >? bc).
      - destruct (be >? v); [reflexivity|].
        destruct (be >=? v); [reflexivity|].
        destruct ((be >? -3) && (v =? 0) && no_move_but_ep p (capture_moves p));
          reflexivity.
      - destruct (bc >=? v); [reflexivity|].
        destruct ((be >? -3) && (v =? 0) && no_move_but_ep p (capture_moves p));
          reflexivity. }
    rewrite Htb. exact Hinv2.
Qed.

Lemma dtz_pawn_moves_follows (p q : Pos) (wdl : Z) :
  R p q ->
  forall ms, (forall m, In m ms -> In m (probed_moves p)) ->
  follows I (dtz_pawn_moves q wdl (mm <$> ms)) (dtz_pawn_moves p wdl ms).
Proof.
  intros HR. induction ms as [|m ms IH]; intros Hin st r st' HI Hp Hs.
  - simpl in Hp |- *. injection Hp as <- <-. split; [reflexivity|exact HI].
  - rewrite fmap_cons. simpl in Hp |- *.
    destruct (sim_move _ _ moves p q m HR (Hin m (or_introl eq_refl)))
      as (_ & -> & -> & -> & Hch).
    specialize (IH (incl_tail _ _ _ Hin)).
    destruct (negb (type_of_p (moved_piece p m) =? PAWN) || is_capture p m
              || negb (is_legal p m)) eqn:Hskip; [apply IH; assumption|].
    assert (Hleg : is_legal p m = true).
    { destruct (is_legal p m); [reflexivity|].
      rewrite orb_true_r in Hskip. discriminate Hskip. }
    destruct (TB_probe_wdl (do_move p m) st) as [[r1 st1]|] eqn:Hr; [|discriminate Hp].
    cbv zeta in Hp. destruct (Z.eqb_spec (success st1) 0) as [Hz|Hnz].
    { injection Hp as <- <-. contradiction. }
    destruct (TB_probe_wdl_follows _ _ (Hch Hleg) st r1 st1 HI Hr Hnz) as [-> Hinv].
    cbv zeta. replace (success st1 =? 0) with false
      by (symmetry; apply Z.eqb_neq; exact Hnz).
    destruct (- r1 =? wdl); [|apply IH; assumption].
    injection Hp as <- <-. split; [reflexivity|exact Hinv].
Qed.

Lemma dtz_pawn_moves_continue (p : Pos) (wdl : Z) (ms : list Move) :
  forall st x st',
  dtz_pawn_moves p wdl ms st = Some (Continue x, st') ->
  success st <> 0 -> success st' <> 0.
Proof.
  induction ms as [|m ms IH]; intros st x st' Hp Hs.
  - simpl in Hp. injection Hp as _ <-. exact Hs.
  - simpl in Hp.
    destruct (negb (type_of_p (moved_piece p m) =? PAWN) || is_capture p m
              || negb (is_legal p m)); [eapply IH; eassumption|].
    destruct (TB_probe_wdl (do_move p m) st) as [[r1 st1]|]; [|discriminate Hp].
    cbv zeta in Hp. destruct (Z.eqb_spec (success st1) 0) as [Hz|Hnz];
      [discriminate Hp|].
    destruct (- r1 =? wdl); [discriminate Hp|]. eapply IH; eassumption.
Qed.

Lemma dtz_moves_follows (rec_p rec_q : Pos -> St TB -> option (Z * St TB))
  (p q : Pos) (wdl : Z) :
  R p q ->
  (forall m, In m (probed_moves p) -> is_legal p m = true ->
     follows I (rec_q (do_move q (mm m))) (rec_p (do_move p m))) ->
  forall ms, (forall m, In m ms -> In m (probed_moves p)) ->
  forall best, follows I (dtz_moves rec_q q wdl (mm <$> ms) best)
                         (dtz_moves rec_p p wdl ms best).
Proof.
  intros HR Hrec. induction ms as [|m ms IH]; intros Hin best st r st' HI Hp Hs.
  - simpl in Hp |- *. injection Hp as <- <-. split; [reflexivity|exact HI].
  - rewrite fmap_cons. simpl in Hp |- *. unfold dtz_skips in Hp |- *.
    destruct (sim_move _ _ moves p q m HR (Hin m (or_introl eq_refl)))
      as (_ & -> & -> & -> & _).
    specialize (IH (incl_tail _ _ _ Hin)).
    destruct (is_capture p m || (type_of_p (moved_piece p m) =? PAWN)
              || negb (is_legal p m)) eqn:Hskip; [apply IH; assumption|].
    assert (Hleg : is_legal p m = true).
    { destruct (is_legal p m); [reflexivity|].
      rewrite orb_true_r in Hskip. discriminate Hskip. }
    destruct (rec_p (do_move p m) st) as [[r1 st1]|] eqn:Hr; [|discriminate Hp].
    cbv zeta in Hp. destruct (Z.eqb_spec (success st1) 0) as [Hz|Hnz].
    { injection Hp as <- <-. contradiction. }
    destruct (Hrec m (Hin m (or_introl eq_refl)) Hleg st r1 st1 HI Hr Hnz)
      as [-> Hinv].
    cbv zeta. replace (success st1 =? 0) with false
      by (symmetry; apply Z.eqb_neq; exact Hnz).
    apply IH; assumption.
Qed.

Lemma TB_probe_dtz_follows (fuel : nat) :
  forall (p q : Pos), R p q -> follows I (TB_probe_dtz fuel q) (TB_probe_dtz fuel p).
Proof.
  induction fuel as [|fuel IHf]; intros p q HR st r st' HI Hp Hs.
  - discriminate Hp.
  - simpl in Hp |- *.
    destruct (TB_probe_wdl p st) as [[wdl st1]|] eqn:Hw; [|discriminate Hp].
    destruct (Z.eqb_spec (success st1) 0) as [Hz|Hnz].
    { injection Hp as <- <-. contradiction. }
    destruct (TB_probe_wdl_follows p q HR st wdl st1 HI Hw Hnz) as [-> Hinv].
    replace (success st1 =? 0) with false by (symmetry; apply Z.eqb_neq; exact Hnz).
    destruct (wdl =? 0).
    { injection Hp as <- <-. split; [reflexivity|exact Hinv]. }
    destruct (success st1 =? 2).
    { injection Hp as <- <-. split; [reflexivity|exact Hinv]. }
    assert (Hall : forall m, In m (all_moves p) -> In m (probed_moves p)).
    { intros m Hin. unfold probed_moves. apply in_or_app. right.
      apply in_or_app. right. exact Hin. }
    destruct (dtz_pawn_search p wdl st1) as [[[r1|u] st2]|] eqn:Hps;
      [| |discriminate Hp].
    + injection Hp as <- <-.
      assert (Hq : dtz_pawn_search q wdl st1 = Some (Return r1, st2) /\ I (tb st2)).
      { unfold dtz_pawn_search in Hps |- *. destruct (wdl >? 0); [|discriminate Hps].
        rewrite (sim_all _ _ moves p q HR).
        apply (dtz_pawn_moves_follows p q wdl HR _ Hall st1 _ _ Hinv Hps Hs). }
      destruct Hq as [-> Hinv2]. split; [reflexivity|exact Hinv2].
    + assert (Hq : dtz_pawn_search q wdl st1 = Some (Continue u, st2)
                   /\ I (tb st2) /\ success st2 <> 0).
      { unfold dtz_pawn_search in Hps |- *. destruct (wdl >? 0).
        - assert (Hs2 : success st2 <> 0)
            by (apply (dtz_pawn_moves_continue p wdl _ _ _ _ Hps Hnz)).
          rewrite (sim_all _ _ moves p q HR).
          destruct (dtz_pawn_moves_follows p q wdl HR _ Hall st1 _ _ Hinv Hps Hs2)
            as [-> Hinv2].
          auto.
        - injection Hps as <- <-. auto. }
      destruct Hq as (-> & Hinv2 & Hs2).
      destruct (probe_dtz_table p wdl st2) as [dtz st3] eqn:Hd.
      assert (Hs3 : success st3 <> 0).
      { destruct (Z.geb_spec (success st3) 0) as [Hge|Hlt]; [|lia].
        injection Hp as <- <-. exact Hs. }
      destruct (dtz_reader p q wdl st2 HR Hinv2) as [-> Hinv3];
        [rewrite Hd; exact Hs3|].
      rewrite Hd. rewrite Hd in Hinv3. cbn [snd] in Hinv3.
      destruct (success st3 >=? 0).
      { injection Hp as <- <-. split; [reflexivity|exact Hinv3]. }
      rewrite (sim_all _ _ moves p q HR).
      refine (dtz_moves_follows (TB_probe_dtz fuel) (TB_probe_dtz fuel) p q wdl HR _
                _ Hall _ st3 r st' Hinv3 Hp Hs).
      intros m Hin Hleg. apply IHf.
      apply (sim_move _ _ moves p q m HR Hin). exact Hleg.
Qed.

End Mirror.

(** * The table readers of [tbprobe.c] *)

Section SyzygyFacts.
Context {E : Engine} {C : Syzygy.TBCore}.

(** Lines 94, 108: [probe_wdl_table] writes nothing but 0 to [*success]. *)
Lemma probe_wdl_table_frame (pos : Pos) (st : St (Syzygy.Registry Syzygy.PairsData)) :
  success (snd (Syzygy.probe_wdl_table pos st)) = success st
  \/ success (snd (Syzygy.probe_wdl_table pos st)) = 0.
Proof.
  unfold Syzygy.probe_wdl_table.
  destruct (pos_material_key pos =? 2); [left; reflexivity|].
  destruct (Syzygy.find_slot _ _ _ _) as [[i h]|]; [|right; reflexivity].
  match goal with
  | |- context [match ?x with Some _ => _ | None => _ end] => destruct x as [ptr|]
  end; [|right; reflexivity].
  destruct (Syzygy.probe_side _ _ _ _) as [[bside mirror] cmirror].
  left. reflexivity.
Qed.

(** Lines 196, 213, 236, 264: [probe_dtz_table] writes nothing but 0 and
    -1 to [*success]. *)
Lemma probe_dtz_table_frame (pos : Pos) (wdl : Z)
  (st : St (Syzygy.Registry Syzygy.PairsData)) :
  success (snd (Syzygy.probe_dtz_table pos wdl st)) = success st
  \/ success (snd (Syzygy.probe_dtz_table pos wdl st)) = 0
  \/ success (snd (Syzygy.probe_dtz_table pos wdl st)) = -1.
Proof.
  unfold Syzygy.probe_dtz_table.
  destruct (Syzygy.dtz_to_front _ _ _) as [reg|]; [|right; left; reflexivity].
  destruct (Syzygy.DTZ_table reg !! 0%nat) as [[k1 k2 [ptr|]]|];
    [|right; left; reflexivity|right; left; reflexivity].
  destruct (Syzygy.probe_side _ _ _ _) as [[bside mirror] cmirror].
  destruct (Syzygy.dtz_payload ptr) as [d flags map_idx|file flags map_idx].
  - destruct (negb (Z.land flags 1 =? bside) && negb (Syzygy.dtz_symmetric ptr));
      [right; right; reflexivity|left; reflexivity].
  - destruct (Syzygy.pawn_file _ _) as [f p0].
    destruct (negb (Z.land (flags f) 1 =? bside));
      [right; right; reflexivity|left; reflexivity].
Qed.

(** X24. Lines 117-131. A position and its colour mirror have the two
    keys of one table and opposite sides to move: they get the same
    [bside], and [mirror] and [cmirror] differ by 0x38 and 8. For a table
    that is not symmetric the keys [k] and [k'] differ and the entry
    carries one of them; for a symmetric one they are the same. *)
Lemma probe_side_mirror (ptr_key k k' : Key) (symmetric : bool) (stm : Z) :
  stm = WHITE \/ stm = BLACK ->
  (if symmetric then k' = k else k' <> k /\ (ptr_key = k \/ ptr_key = k')) ->
  Syzygy.probe_side ptr_key symmetric k' (Z.lxor stm 1)
  = (fst (fst (Syzygy.probe_side ptr_key symmetric k stm)),
     Z.lxor (snd (fst (Syzygy.probe_side ptr_key symmetric k stm))) 56,
     Z.lxor (snd (Syzygy.probe_side ptr_key symmetric k stm)) 8).
Proof.
  intros Hstm Hkeys. unfold Syzygy.probe_side.
  destruct symmetric; simpl.
  - subst k'. destruct Hstm as [-> | ->]; reflexivity.
  - destruct Hkeys as [Hne Hptr].
    destruct (Z.eqb_spec k' ptr_key) as [Hk'|Hk'];
      destruct (Z.eqb_spec k ptr_key) as [Hk|Hk]; simpl.
    + congruence.
    + destruct Hstm as [-> | ->]; reflexivity.
    + destruct Hstm as [-> | ->]; reflexivity.
    + destruct Hptr; congruence.
Qed.

End SyzygyFacts.

(** * The theorems at work on the game trees *)

Module Scenarios.
Import Tree.

(** [has_repeated] on the two histories of the won root. *)
Example has_repeated_fresh : has_repeated won_root = false.
Proof. reflexivity. Qed.

Example has_repeated_second_visit : has_repeated won_root_repeated = true.
Proof. reflexivity. Qed.

(** A capture into a position without a table fails the whole probe,
    whatever the later captures are worth. *)
Example capture_without_table_fails :
  TB_probe_wdl capture_without_table st0 = Some (0, mkSt [ReadWDL 10] 0).
Proof. reflexivity. Qed.


Lemma read_wdl_frame (p : Node) (st : St (list Read)) :
  success (snd (read_wdl p st)) = success st \/ success (snd (read_wdl p st)) = 0.
Proof. unfold read_wdl. destruct (node_wdl p); simpl; auto. Qed.

Lemma read_dtz_frame (p : Node) (w : Z) (st : St (list Read)) :
  success (snd (read_dtz p w st)) = success st
  \/ success (snd (read_dtz p w st)) = 0
  \/ success (snd (read_dtz p w st)) = -1.
Proof. unfold read_dtz. destruct (node_dtz p); simpl; auto. Qed.

Lemma read_wdl_le2 (p : Node) (st : St (list Read)) : fst (read_wdl p st) <= 2.
Proof. unfold read_wdl. destruct (node_wdl p) as [[]|]; simpl; lia. Qed.

Lemma is_legal_in (n : Node) (m : Move) :
  is_legal n m = true -> In m (node_legal n).
Proof.
  intros H. apply existsb_exists in H. destruct H as (x & Hin & Heq).
  apply Z.eqb_eq in Heq. subst x. exact Hin.
Qed.

(** Where the DTZ table is stored for the other side and there are moves
    to recurse on, the -1 is consumed: the probe answers with
    [success = 1]. *)
Example other_side_consumed :
  TB_probe_dtz 2 lost_other_side st0
  = Some (-7, mkSt [ReadWDL 13; ReadDTZ 13; ReadWDL 14; ReadDTZ 14;
                    ReadWDL 15; ReadDTZ 15] 1).
Proof. reflexivity. Qed.

(** The probes return on that tree, whatever the state and the fuel
    from 2 on. *)
Lemma lost_other_side_returns (fuel : nat) (st : St (list Read)) :
  exists r, TB_probe_dtz (S (S fuel)) lost_other_side st = Some r.
Proof.
  apply (@TB_probe_dtz_total engine tables lost_other_side_tree).
  - intros p m Hp Hl. apply is_legal_in in Hl.
    destruct Hp as [-> | [-> | ->]]; vm_compute in Hl.
    + destruct Hl as [<-|[<-|[]]]; vm_compute; auto.
    + destruct Hl.
    + destruct Hl.
  - intros p m Hp Hc Hl. apply is_legal_in in Hl.
    destruct Hp as [-> | [-> | ->]]; vm_compute in Hl.
    + destruct Hl as [<-|[<-|[]]]; vm_compute in Hc; discriminate Hc.
    + destruct Hl.
    + destruct Hl.
  - apply read_wdl_frame.
  - intros p m w s w' s' Hp Hsk Hneg Hs'. apply dtz_skips_legal in Hsk.
    apply is_legal_in in Hsk.
    destruct Hp as [-> | [-> | ->]]; vm_compute in Hsk.
    + destruct Hsk as [<-|[<-|[]]]; simpl; exact Hs'.
    + destruct Hsk.
    + destruct Hsk.
  - left. reflexivity.
Qed.

(** C2 on KQ v KR: the WDL probe finds the winning capture, and the DTZ
    probe answers 1 under the node's DTZ reader and under one that finds
    no table. *)
Lemma TB_probe_dtz_draw_or_capture_witness :
  TB_probe_wdl queen_takes_rook st0 = Some (2, mkSt [ReadWDL 2] 2)
  /\ @TB_probe_dtz engine tables 3 queen_takes_rook st0
     = Some (1, mkSt [ReadWDL 2] 2)
  /\ @TB_probe_dtz engine (Build_Tablebase engine (list Read) read_wdl no_dtz)
       3 queen_takes_rook st0
     = Some (1, mkSt [ReadWDL 2] 2).
Proof.
  assert (H : TB_probe_wdl queen_takes_rook st0 = Some (2, mkSt [ReadWDL 2] 2))
    by reflexivity.
  split; [exact H|].
  destruct (TB_probe_dtz_draw_or_capture engine (list Read) read_wdl read_dtz no_dtz
              2 queen_takes_rook st0 (mkSt [ReadWDL 2] 2) 2 H) as (_ & Hcap & _).
  apply Hcap; [lia|reflexivity].
Defined.


(** C3 where the ep capture is strictly best. *)
Lemma TB_probe_wdl_ep_reconcile_witness :
  wdl_captures ep_only_win (capture_moves ep_only_win) (-3) (-3) (set_success 1 st0)
    = Some (Continue (-3, 1), mkSt [ReadWDL 4] 1)
  /\ probe_wdl_table ep_only_win (mkSt [ReadWDL 4] 1)
     = (0, mkSt [ReadWDL 4; ReadWDL 3] 1)
  /\ TB_probe_wdl ep_only_win st0 = Some (1, mkSt [ReadWDL 4; ReadWDL 3] 2).
Proof.
  assert (H1 : wdl_captures ep_only_win (capture_moves ep_only_win) (-3) (-3)
                 (set_success 1 st0)
               = Some (Continue (-3, 1), mkSt [ReadWDL 4] 1)) by reflexivity.
  assert (H2 : probe_wdl_table ep_only_win (mkSt [ReadWDL 4] 1)
               = (0, mkSt [ReadWDL 4; ReadWDL 3] 1)) by reflexivity.
  split; [exact H1|]. split; [exact H2|].
  destruct (@TB_probe_wdl_ep_reconcile engine tables ep_only_win st0 _ _ _ _ _ H1 H2) as [Hgt _];
    [simpl; lia|lia|].
  apply Hgt. lia.
Defined.

(** C4 fails where the only move, an ep capture, leads to a draw: every
    premise holds, the probe returns [best_ep = 0], and [success] is 1. *)
Lemma TB_probe_wdl_stalemate_ep_draw_success_1 :
  wdl_captures stalemate_ep_draw (capture_moves stalemate_ep_draw) (-3) (-3)
    (set_success 1 st0)
    = Some (Continue (-3, 0), mkSt [ReadWDL 6] 1)
  /\ probe_wdl_table stalemate_ep_draw (mkSt [ReadWDL 6] 1)
     = (0, mkSt [ReadWDL 6; ReadWDL 5] 1)
  /\ 0 > -3
  /\ forallb (fun m => MoveType_eqb (type_of_m m) ENPASSANT
                       || negb (is_legal stalemate_ep_draw m))
             (capture_moves stalemate_ep_draw) = true
  /\ forallb (fun m => negb (is_legal stalemate_ep_draw m))
             (generate_quiets stalemate_ep_draw) = true
  /\ TB_probe_wdl stalemate_ep_draw st0 = Some (0, mkSt [ReadWDL 6; ReadWDL 5] 1)
  /\ TB_probe_wdl stalemate_ep_draw st0
     <> Some (0, set_success 2 (mkSt [ReadWDL 6; ReadWDL 5] 1)).
Proof.
  repeat split; try reflexivity; try lia. discriminate.
Qed.

(** C4 as amended, where the ep capture loses: [success] is 2. *)
Lemma TB_probe_wdl_stalemate_ep_witness :
  wdl_captures stalemate_ep_loss (capture_moves stalemate_ep_loss) (-3) (-3)
    (set_success 1 st0)
    = Some (Continue (-3, -2), mkSt [ReadWDL 8] 1)
  /\ probe_wdl_table stalemate_ep_loss (mkSt [ReadWDL 8] 1)
     = (0, mkSt [ReadWDL 8; ReadWDL 7] 1)
  /\ TB_probe_wdl stalemate_ep_loss st0 = Some (-2, mkSt [ReadWDL 8; ReadWDL 7] 2).
Proof.
  assert (H1 : wdl_captures stalemate_ep_loss (capture_moves stalemate_ep_loss)
                 (-3) (-3) (set_success 1 st0)
               = Some (Continue (-3, -2), mkSt [ReadWDL 8] 1)) by reflexivity.
  assert (H2 : probe_wdl_table stalemate_ep_loss (mkSt [ReadWDL 8] 1)
               = (0, mkSt [ReadWDL 8; ReadWDL 7] 1)) by reflexivity.
  split; [exact H1|]. split; [exact H2|].
  apply (@TB_probe_wdl_stalemate_ep engine tables stalemate_ep_loss st0 _ _ _ _ H1 H2).
  - simpl. lia.
  - lia.
  - intros m Hin Hne. vm_compute in Hin.
    destruct Hin as [<-|[<-|[]]]; [exfalso; apply Hne|]; reflexivity.
  - intros m Hin. vm_compute in Hin. destruct Hin as [<-|[]]. reflexivity.
Defined.

(** C8 fails on a mated position whose DTZ table is stored for the other
    side: there is no move to recurse on, so -1 is returned with
    [success = -1]. *)
Lemma TB_probe_dtz_mated_success_minus_1 :
  TB_probe_dtz 3 mated st0 = Some (-1, mkSt [ReadWDL 9; ReadDTZ 9] (-1))
  /\ ~ (success (mkSt [ReadWDL 9; ReadDTZ 9] (-1)) = 0
        \/ success (mkSt [ReadWDL 9; ReadDTZ 9] (-1)) = 1
        \/ success (mkSt [ReadWDL 9; ReadDTZ 9] (-1)) = 2).
Proof.
  split; [reflexivity|]. simpl. lia.
Qed.

(** C8 as amended, on the same position. *)
Lemma TB_probe_dtz_success_on_exit_witness :
  TB_probe_dtz 3 mated st0 = Some (-1, mkSt [ReadWDL 9; ReadDTZ 9] (-1))
  /\ (exists wdl st2 dtz st3,
        probe_dtz_table mated wdl st2 = (dtz, st3) /\ success st3 = -1)
  /\ ((forall m, In m (all_moves mated) -> dtz_skips mated m = true)
      \/ exists m s r1 s1 fuel',
           In m (all_moves mated) /\ dtz_skips mated m = false
           /\ TB_probe_dtz fuel' (do_move mated m) s = Some (r1, s1)
           /\ success s1 = -1).
Proof.
  assert (H : TB_probe_dtz 3 mated st0 = Some (-1, mkSt [ReadWDL 9; ReadDTZ 9] (-1)))
    by reflexivity.
  split; [exact H|].
  apply (@TB_probe_dtz_success_on_exit engine tables read_wdl_frame read_dtz_frame
           3 mated st0 _ _ H).
  reflexivity.
Defined.

(** C5 on the won root: without a repetition both winning moves stay,
    after one only the faster. *)
Lemma TB_root_probe_winning_witness :
  TB_probe_dtz 3 won_root_repeated st0
    = Some (5, mkSt [ReadWDL 20; ReadDTZ 20] 1)
  /\ root_moves_dtz 3 won_root_repeated 5 won_root_moves
       (mkSt [ReadWDL 20; ReadDTZ 20] 1)
     = Some (true,
             [mkExtMove (mv 0 48) 4; mkExtMove (mv 0 1) 8; mkExtMove (mv 0 7) 0],
             mkSt [ReadWDL 20; ReadDTZ 20; ReadWDL 21; ReadDTZ 21; ReadWDL 22;
                   ReadDTZ 22; ReadWDL 23] 1)
  /\ exists res st2,
       TB_root_probe 3 won_root_repeated won_root_moves st0 = Some (res, st2)
       /\ ret res = 1
       /\ move <$> take (num_moves res) (rm_out res) = [mv 0 48]
       /\ num_moves res = 1%nat.
Proof.
  set (rm1 := [mkExtMove (mv 0 48) 4; mkExtMove (mv 0 1) 8; mkExtMove (mv 0 7) 0]).
  set (st1 := mkSt [ReadWDL 20; ReadDTZ 20] 1).
  set (st2 := mkSt [ReadWDL 20; ReadDTZ 20; ReadWDL 21; ReadDTZ 21; ReadWDL 22;
                    ReadDTZ 22; ReadWDL 23] 1).
  assert (H1 : TB_probe_dtz 3 won_root_repeated st0 = Some (5, st1)) by reflexivity.
  assert (H2 : root_moves_dtz 3 won_root_repeated 5 won_root_moves st1
               = Some (true, rm1, st2)) by reflexivity.
  split; [exact H1|]. split; [exact H2|].
  destruct (@TB_root_probe_winning engine tables 3 won_root_repeated won_root_moves
              rm1 st0 st1 st2 5 H1) as (res & Hres & Hret & _ & Hkeep & _);
    [simpl; lia|lia|exact H2| |].
  { intros e He. vm_compute in He. destruct He as [<-|[<-|[<-|[]]]]; simpl; lia. }
  exists res, st2. split; [exact Hres|]. split; [exact Hret|].
  destruct (Hkeep 4 4) as [Hm Hn].
  - lia.
  - exists (mkExtMove (mv 0 48) 4). split; [left; reflexivity|reflexivity].
  - intros e He Hp. vm_compute in He.
    destruct He as [<-|[<-|[<-|[]]]]; simpl in *; lia.
  - intros [Hrep _]. discriminate Hrep.
  - reflexivity.
  - rewrite Hm, Hn. split; reflexivity.
Defined.

(** C6 on the drawn root: the two moves that hold the draw stay. *)
Lemma TB_root_probe_draw_witness :
  TB_probe_dtz 3 drawn_root st0 = Some (0, mkSt [ReadWDL 30] 1)
  /\ exists res st2,
       TB_root_probe 3 drawn_root drawn_root_moves st0 = Some (res, st2)
       /\ ret res = 1
       /\ move <$> take (num_moves res) (rm_out res) = [mv 63 62; mv 63 55]
       /\ num_moves res = 2%nat.
Proof.
  set (rm1 := [mkExtMove (mv 63 62) 0; mkExtMove (mv 0 1) 5; mkExtMove (mv 63 55) 0]).
  set (st1 := mkSt [ReadWDL 30] 1).
  set (st2 := mkSt [ReadWDL 30; ReadWDL 32; ReadWDL 31; ReadDTZ 31; ReadWDL 33] 1).
  assert (H1 : TB_probe_dtz 3 drawn_root st0 = Some (0, st1)) by reflexivity.
  assert (H2 : root_moves_dtz 3 drawn_root 0 drawn_root_moves st1
               = Some (true, rm1, st2)) by reflexivity.
  split; [exact H1|].
  destruct (@TB_root_probe_draw engine tables 3 drawn_root drawn_root_moves rm1 st0 st1 st2 H1)
    as (res & Hres & Hret & _ & Hm & Hn); [simpl; lia|exact H2|].
  exists res, st2. split; [exact Hres|]. split; [exact Hret|]. split.
  - rewrite Hm. reflexivity.
  - rewrite Hn. reflexivity.
Defined.

(** C7 on a root whose second move leads out of the tables, and on a root
    without a table. *)
Lemma TB_root_probe_failure_witness :
  (TB_root_probe 3 half_tabled_root half_tabled_moves st0
   = Some (mkRootProbe 0 [mkExtMove (mv 0 8) 4; mkExtMove (mv 0 1) 0] 2 None,
           mkSt [ReadWDL 40; ReadDTZ 40; ReadWDL 42; ReadDTZ 42; ReadWDL 43] 0)
   /\ move <$> [mkExtMove (mv 0 8) 4; mkExtMove (mv 0 1) 0]
      = move <$> half_tabled_moves)
  /\ TB_root_probe 3 untabled_root half_tabled_moves st0
     = Some (mkRootProbe 0 half_tabled_moves 2 None, mkSt [ReadWDL 50] 0).
Proof.
  split.
  - destruct (@TB_root_probe_failure engine tables 3 half_tabled_root half_tabled_moves st0)
      as (_ & _ & Hchild).
    apply (Hchild 5 (mkSt [ReadWDL 40; ReadDTZ 40] 1)
                  [mkExtMove (mv 0 8) 0] (mkExtMove (mv 0 1) 0) []
                  [mkExtMove (mv 0 8) 4]
                  (mkSt [ReadWDL 40; ReadDTZ 40; ReadWDL 42; ReadDTZ 42] 1) 0);
      try reflexivity.
    simpl. lia.
  - destruct (@TB_root_probe_failure engine tables 3 untabled_root half_tabled_moves st0)
      as (_ & Hroot & _).
    apply (Hroot 0 (mkSt [ReadWDL 50] 0)); reflexivity.
Defined.

(** C10 on the won root: the two winning moves attain the best value. *)
Lemma TB_root_probe_wdl_keeps_best_witness :
  exists res st',
    @TB_root_probe_wdl engine tables won_root won_root_moves st0 = Some (res, st')
    /\ ret res = 1
    /\ exists rm1 best,
         move <$> rm1 = move <$> won_root_moves
         /\ (forall e, In e rm1 -> value e <= best)
         /\ move <$> take (num_moves res) (rm_out res)
            = move <$> filter (fun e => value e = best) rm1
         /\ (0 < num_moves res)%nat.
Proof.
  destruct (@TB_root_probe_wdl engine tables won_root won_root_moves st0)
    as [[res st']|] eqn:H;
    [|vm_compute in H; discriminate H].
  exists res, st'. split; [reflexivity|].
  assert (Hret : ret res = 1).
  { vm_compute in H. injection H as <- _. reflexivity. }
  split; [exact Hret|].
  destruct (@TB_root_probe_wdl_keeps_best engine tables won_root won_root_moves st0 st' res
              read_wdl_le2 H Hret)
    as (rm1 & best & Hm & _ & _ & Hmax & _ & Hkeep & _ & Hpos).
  exists rm1, best. split; [exact Hm|]. split; [exact Hmax|]. split; [exact Hkeep|].
  apply Hpos. discriminate.
Defined.

End Scenarios.


(** * Capture resolution computes the negamax value *)

Section AlphaBeta.
Context {E : Engine} {T : Tablebase E}.
Variable tv : Pos -> Z.
Variable Inv : Pos -> Prop.

Hypothesis inv_move : forall p m,
  Inv p -> is_legal p m = true -> Inv (do_move p m).
Hypothesis capture_takes_a_piece : forall p m,
  Inv p -> is_capture p m = true -> is_legal p m = true ->
  (popcount (pieces (do_move p m)) < popcount (pieces p))%nat.
Hypothesis stored : forall p st,
  Inv p ->
  fst (probe_wdl_table p st) = tv p
  /\ success (snd (probe_wdl_table p st)) = success st.

Lemma ab_captures_exact (rec : Pos -> Z -> Z -> St TB -> option (Z * St TB))
  (cv : Pos -> Z) (pos : Pos) (beta : Z) :
  Inv pos ->
  (forall m a b st r st',
     is_capture pos m = true -> is_legal pos m = true ->
     a < b -> success st <> 0 ->
     rec (do_move pos m) a b st = Some (r, st') ->
     success st' = success st /\ window_result a b (cv (do_move pos m)) r) ->
  forall ms alpha st r st',
  alpha < beta -> success st <> 0 ->
  ab_captures rec pos ms alpha beta st = Some (r, st') ->
  success st' = success st
  /\ window_result alpha beta
       (fold_right (fun m best => if is_capture pos m && is_legal pos m
                                  then Z.max (- cv (do_move pos m)) best else best)
                   (tv pos) ms) r.
Proof.
  intros HI Hrec. induction ms as [|m ms IH]; intros alpha st r st' Hab Hs H.
  - simpl in H. destruct (probe_wdl_table pos st) as [v st1] eqn:Hp.
    destruct (stored pos st HI) as [Hv Hs1]. rewrite Hp in Hv, Hs1. simpl in Hv, Hs1.
    injection H as <- <-. split; [exact Hs1|]. subst v. simpl.
    rewrite Z.geb_leb. unfold window_result.
    destruct (Z.leb_spec (tv pos) alpha); lia.
  - simpl in H. simpl fold_right.
    destruct (is_capture pos m) eqn:Hc; [destruct (is_legal pos m) eqn:Hl|]; simpl in H |- *.
    2,3: apply IH; assumption.
    destruct (rec (do_move pos m) (- beta) (- alpha) st) as [[r1 st1]|] eqn:Hr;
      [|discriminate].
    destruct (Hrec m (- beta) (- alpha) st r1 st1 Hc Hl ltac:(lia) Hs Hr) as [Hs1 Hw].
    cbv zeta in H.
    replace (success st1 =? 0) with false in H
      by (symmetry; apply Z.eqb_neq; congruence).
    rewrite Z.gtb_ltb, Z.geb_leb in H. unfold window_result in Hw.
    destruct (Z.ltb_spec alpha (- r1)) as [Hgt|Hle].
    + destruct (Z.leb_spec beta (- r1)) as [Hcut|Hin].
      * injection H as <- <-. split; [exact Hs1|]. unfold window_result. lia.
      * apply IH in H; [|lia|congruence]. destruct H as [Hs2 Hw2].
        split; [congruence|]. unfold window_result in *. lia.
    + apply IH in H; [|lia|congruence]. destruct H as [Hs2 Hw2].
      split; [congruence|]. unfold window_result in *. lia.
Qed.

Lemma probe_ab_fuel_exact (fuel : nat) :
  forall pos alpha beta st r st',
  Inv pos -> alpha < beta -> success st <> 0 ->
  probe_ab_fuel fuel pos alpha beta st = Some (r, st') ->
  success st' = success st
  /\ window_result alpha beta (capture_value tv fuel pos) r.
Proof.
  induction fuel as [|fuel IH]; intros pos alpha beta st r st' HI Hab Hs H;
    [discriminate|].
  simpl in H. simpl capture_value.
  apply (ab_captures_exact (probe_ab_fuel fuel) (capture_value tv fuel) pos beta HI);
    try assumption.
  intros m a b s r1 s1 Hc Hl Hlt Hs0 Hr.
  apply (IH _ _ _ _ _ _ (inv_move _ _ HI Hl) Hlt Hs0 Hr).
Qed.

(** The value does not depend on the fuel once it exceeds the number of
    pieces. *)
Lemma capture_value_stable (f1 : nat) :
  forall f2 pos, Inv pos ->
  (popcount (pieces pos) < f1)%nat -> (popcount (pieces pos) < f2)%nat ->
  capture_value tv f1 pos = capture_value tv f2 pos.
Proof.
  induction f1 as [|f1 IH]; intros f2 pos HI H1 H2; [lia|].
  destruct f2 as [|f2]; [lia|]. simpl.
  induction (capture_moves pos) as [|m ms IHms]; [reflexivity|].
  simpl. rewrite IHms.
  destruct (is_capture pos m) eqn:Hc; [destruct (is_legal pos m) eqn:Hl|]; simpl;
    try reflexivity.
  pose proof (capture_takes_a_piece _ _ HI Hc Hl).
  rewrite (IH f2 (do_move pos m)); [reflexivity|apply inv_move; assumption|lia|lia].
Qed.

Lemma resolved_value_unfold (pos : Pos) :
  Inv pos ->
  resolved_value tv pos
  = fold_right (fun m best => if is_capture pos m && is_legal pos m
                              then Z.max (- resolved_value tv (do_move pos m)) best
                              else best)
               (tv pos) (capture_moves pos).
Proof.
  intros HI. unfold resolved_value at 1. simpl.
  induction (capture_moves pos) as [|m ms IHms]; [reflexivity|].
  simpl. rewrite IHms.
  destruct (is_capture pos m) eqn:Hc; [destruct (is_legal pos m) eqn:Hl|]; simpl;
    try reflexivity.
  pose proof (capture_takes_a_piece _ _ HI Hc Hl).
  unfold resolved_value.
  rewrite (capture_value_stable (popcount (pieces pos))
             (S (popcount (pieces (do_move pos m)))) (do_move pos m));
    [reflexivity|apply inv_move; assumption|lia|lia].
Qed.

(** X1. [probe_ab] returns, leaves [success] as it is, and answers within
    its window with the capture-resolved value: [alpha] if the value is at
    most [alpha], the value itself if it lies inside the window, and
    otherwise a number from [beta] up to the value. *)
Theorem probe_ab_window (pos : Pos) (alpha beta : Z) (st : St TB) :
  Inv pos -> alpha < beta -> success st <> 0 ->
  exists r st',
    probe_ab pos alpha beta st = Some (r, st')
    /\ success st' = success st
    /\ window_result alpha beta (resolved_value tv pos) r.
Proof.
  intros HI Hab Hs.
  destruct (probe_ab_total Inv inv_move capture_takes_a_piece pos alpha beta st HI)
    as [[r st'] H].
  exists r, st'. split; [exact H|].
  apply (probe_ab_fuel_exact _ _ _ _ _ _ _ HI Hab Hs H).
Qed.

Hypothesis stored_range : forall p, Inv p -> -2 <= tv p <= 2.

Lemma capture_value_range (fuel : nat) :
  forall pos, Inv pos -> -2 <= capture_value tv fuel pos <= 2.
Proof.
  induction fuel as [|fuel IH]; intros pos HI; simpl; [apply stored_range; exact HI|].
  induction (capture_moves pos) as [|m ms IHms]; simpl; [apply stored_range; exact HI|].
  destruct (is_capture pos m) eqn:Hc; [destruct (is_legal pos m) eqn:Hl|]; simpl;
    try exact IHms.
  pose proof (IH (do_move pos m) (inv_move _ _ HI Hl)). lia.
Qed.

Lemma best_of_max (pos : Pos) (a b : Z) (ms : list Move) :
  best_of tv pos (Z.max a b) ms = Z.max a (best_of tv pos b ms).
Proof.
  induction ms as [|m ms IH]; simpl; [reflexivity|].
  fold (best_of tv pos (Z.max a b) ms). fold (best_of tv pos b ms). rewrite IH.
  destruct (is_capture pos m && is_legal pos m); lia.
Qed.

Lemma best_of_bounds (pos : Pos) (b : Z) (ms : list Move) :
  Inv pos -> b <= 2 ->
  b <= best_of tv pos b ms <= 2
  /\ (forall m, In m ms -> is_capture pos m = true -> is_legal pos m = true ->
        - resolved_value tv (do_move pos m) <= best_of tv pos b ms)
  /\ (best_of tv pos b ms = b
      \/ exists m, In m ms /\ is_capture pos m = true /\ is_legal pos m = true
                   /\ - resolved_value tv (do_move pos m) = best_of tv pos b ms).
Proof.
  intros HI Hb. induction ms as [|m ms IH]; simpl.
  - split; [lia|]. split; [intros m []|left; reflexivity].
  - fold (best_of tv pos b ms). destruct IH as (Hr & Hge & Hat).
    destruct (is_capture pos m) eqn:Hc; [destruct (is_legal pos m) eqn:Hl|]; simpl.
    + pose proof (capture_value_range (S (popcount (pieces (do_move pos m))))
                    (do_move pos m) (inv_move _ _ HI Hl)) as Hcr.
      fold (resolved_value tv (do_move pos m)) in Hcr.
      split; [lia|]. split.
      * intros m' [<-|Hin] Hc' Hl'; [lia|]. specialize (Hge m' Hin Hc' Hl'). lia.
      * destruct (Z.max_spec (- resolved_value tv (do_move pos m)) (best_of tv pos b ms))
          as [[_ ->]|[_ ->]].
        -- destruct Hat as [Heq|(m' & Hin & Hc' & Hl' & Heq)]; [left; exact Heq|].
           right. exists m'. auto.
        -- right. exists m. auto.
    + split; [exact Hr|]. split.
      * intros m' [<-|Hin] Hc' Hl'; [congruence|]. apply Hge; assumption.
      * destruct Hat as [Heq|(m' & Hin & Hc' & Hl' & Heq)]; [left; exact Heq|].
        right. exists m'. auto.
    + split; [exact Hr|]. split.
      * intros m' [<-|Hin] Hc' Hl'; [congruence|]. apply Hge; assumption.
      * destruct Hat as [Heq|(m' & Hin & Hc' & Hl' & Heq)]; [left; exact Heq|].
        right. exists m'. auto.
Qed.

(** The capture loop of [TB_probe_wdl] on a list without legal ep
    captures: it leaves with 2 when a capture is worth 2, and otherwise
    falls out with [best_cap] the best capture value and [best_ep]
    untouched. *)
Lemma wdl_captures_value (pos : Pos) (ms : list Move) :
  Inv pos ->
  (forall m, In m ms -> is_capture pos m = true -> is_legal pos m = true ->
     type_of_m m <> ENPASSANT) ->
  forall bc st, -3 <= bc <= 1 -> success st <> 0 ->
  exists fl st',
    wdl_captures pos ms bc (-3) st = Some (fl, st')
    /\ match fl with
       | Return r => r = 2 /\ success st' = 2 /\ best_of tv pos bc ms = 2
       | Continue (bc', be') =>
         bc' = best_of tv pos bc ms /\ be' = -3 /\ success st' = success st /\ bc' <= 1
       end.
Proof.
  intros HI. induction ms as [|m ms IH]; intros Hep bc st Hbc Hs.
  - exists (Continue (bc, -3)), st. simpl. split; [reflexivity|]. lia.
  - assert (Hep' : forall m', In m' ms -> is_capture pos m' = true ->
                     is_legal pos m' = true -> type_of_m m' <> ENPASSANT)
      by (intros m' Hin; apply Hep; right; exact Hin).
    rewrite wdl_captures_cons. simpl best_of. fold (best_of tv pos bc ms).
    destruct (is_capture pos m) eqn:Hc; [destruct (is_legal pos m) eqn:Hl|]; simpl.
    2,3: apply IH; assumption.
    assert (HIc : Inv (do_move pos m)) by (apply inv_move; assumption).
    destruct (probe_ab_total Inv inv_move capture_takes_a_piece (do_move pos m)
                (-2) (- bc) st HIc) as [[r1 st1] Hab].
    rewrite Hab. cbv zeta.
    assert (Hwin : -2 < - bc) by lia.
    destruct (probe_ab_fuel_exact _ _ _ _ _ _ _ HIc Hwin Hs Hab) as [Hs1 Hw].
    fold (resolved_value tv (do_move pos m)) in Hw.
    pose proof (capture_value_range (S (popcount (pieces (do_move pos m))))
                  (do_move pos m) HIc) as Hcr.
    fold (resolved_value tv (do_move pos m)) in Hcr.
    replace (success st1 =? 0) with false by (symmetry; apply Z.eqb_neq; congruence).
    unfold window_result in Hw. rewrite Z.gtb_ltb.
    destruct (best_of_bounds pos bc ms HI ltac:(lia)) as (Hbr & _ & _).
    destruct (Z.ltb_spec bc (- r1)) as [Hgt|Hle].
    + assert (Hv : - r1 = - resolved_value tv (do_move pos m)) by lia.
      destruct (Z.eqb_spec (- r1) 2) as [H2|H2].
      * exists (Return 2), (set_success 2 st1). split; [reflexivity|].
        split; [reflexivity|]. split; [reflexivity|]. lia.
      * assert (Hne : MoveType_eqb (type_of_m m) ENPASSANT = false).
        { specialize (Hep m (or_introl eq_refl) Hc Hl).
          destruct (type_of_m m); simpl; congruence. }
        rewrite Hne. simpl negb. cbv iota.
        destruct (IH Hep' (- r1) st1 ltac:(lia) ltac:(congruence))
          as (fl & st' & Hrun & Hfl).
        exists fl, st'. split; [exact Hrun|].
        assert (Hbo : Z.max (- resolved_value tv (do_move pos m)) (best_of tv pos bc ms)
                      = best_of tv pos (- r1) ms).
        { rewrite <- Hv. rewrite <- best_of_max. f_equal. lia. }
        rewrite Hbo. destruct fl as [r|[bc' be']].
        -- exact Hfl.
        -- destruct Hfl as (? & ? & ? & ?). repeat split; try assumption. congruence.
    + destruct (IH Hep' bc st1 Hbc ltac:(congruence)) as (fl & st' & Hrun & Hfl).
      exists fl, st'. split; [exact Hrun|].
      replace (Z.max (- resolved_value tv (do_move pos m)) (best_of tv pos bc ms))
        with (best_of tv pos bc ms) by lia.
      destruct fl as [r|[bc' be']].
      -- exact Hfl.
      -- destruct Hfl as (? & ? & ? & ?). repeat split; try assumption. congruence.
Qed.

(** X2. On a position without a legal en-passant capture [TB_probe_wdl]
    returns the capture-resolved value: the best of the stored value and
    of minus the resolved value after each legal capture. It ends with
    [success] 1 or 2, and with 2 exactly when that value is positive and
    is reached by a capture. *)
Theorem TB_probe_wdl_resolved (pos : Pos) (st : St TB) :
  Inv pos ->
  (forall m, In m (capture_moves pos) ->
     is_capture pos m = true -> is_legal pos m = true -> type_of_m m <> ENPASSANT) ->
  exists st',
    TB_probe_wdl pos st = Some (resolved_value tv pos, st')
    /\ (success st' = 1 \/ success st' = 2)
    /\ (success st' = 2 <->
        0 < resolved_value tv pos
        /\ exists m, In m (capture_moves pos)
                     /\ is_capture pos m = true /\ is_legal pos m = true
                     /\ - resolved_value tv (do_move pos m) = resolved_value tv pos).
Proof.
  intros HI Hep.
  assert (Hx : resolved_value tv pos
               = Z.max (tv pos) (best_of tv pos (-3) (capture_moves pos))).
  { rewrite (resolved_value_unfold pos HI). fold (best_of tv pos (tv pos) (capture_moves pos)).
    rewrite <- best_of_max. f_equal. pose proof (stored_range pos HI). lia. }
  destruct (best_of_bounds pos (-3) (capture_moves pos) HI ltac:(lia))
    as (Hbr & Hge & Hat).
  pose proof (stored_range pos HI) as Htv.
  destruct (wdl_captures_value pos (capture_moves pos) HI Hep (-3) (set_success 1 st)
              ltac:(lia) ltac:(simpl; lia)) as (fl & st1 & Hrun & Hfl).
  unfold TB_probe_wdl. rewrite Hrun. destruct fl as [r|[bc be]].
  - destruct Hfl as (-> & Hs & Hb). exists st1.
    assert (Hr : resolved_value tv pos = 2) by lia.
    rewrite Hr. split; [reflexivity|]. split; [right; exact Hs|].
    split; [|intros _; exact Hs]. intros _. split; [lia|].
    destruct Hat as [Heq|(m & Hin & Hc & Hl & Heq)]; [lia|].
    exists m. repeat split; try assumption. lia.
  - destruct Hfl as (-> & -> & Hs & Hle). simpl in Hs.
    unfold wdl_resolve.
    destruct (probe_wdl_table pos st1) as [v st2] eqn:Hp.
    destruct (stored pos st1 HI) as [Hv Hs2]. rewrite Hp in Hv, Hs2. simpl in Hv, Hs2.
    subst v.
    replace (success st2 =? 0) with false by (symmetry; apply Z.eqb_neq; lia).
    replace (-3 >? best_of tv pos (-3) (capture_moves pos)) with false
      by (symmetry; rewrite Z.gtb_ltb; apply Z.ltb_ge; lia).
    unfold wdl_after_ep. rewrite Z.geb_leb.
    destruct (Z.leb_spec (tv pos) (best_of tv pos (-3) (capture_moves pos))) as [Hcap|Htab].
    + eexists. split; [f_equal; f_equal; lia|]. simpl. rewrite Z.gtb_ltb.
      destruct (Z.ltb_spec 0 (best_of tv pos (-3) (capture_moves pos))) as [Hp0|Hp0].
      * split; [right; reflexivity|]. split; [|intros _; reflexivity].
        intros _. split; [lia|].
        destruct Hat as [Heq|(m & Hin & Hc & Hl & Heq)]; [lia|].
        exists m. repeat split; try assumption. lia.
      * split; [left; reflexivity|]. split; [discriminate|]. intros [Hpos _]. lia.
    + replace (-3 >? -3) with false by reflexivity. simpl andb. cbv iota.
      exists st2. split; [f_equal; f_equal; lia|].
      split; [left; lia|]. split; [lia|].
      intros [_ (m & Hin & Hc & Hl & Heq)]. specialize (Hge m Hin Hc Hl). lia.
Qed.

End AlphaBeta.

(** * Ranges and signs of the probes *)

Section ProbeRanges.
Context {E : Engine} {T : Tablebase E}.

Lemma wdl_captures_ok (pos : Pos) (ms : list Move) :
  forall (best_cap best_ep bc be : Z) (st st' : St TB),
  success st <> 0 ->
  wdl_captures pos ms best_cap best_ep st = Some (Continue (bc, be), st') ->
  success st' <> 0.
Proof.
  induction ms as [|m ms IH]; intros best_cap best_ep bc be st st' Hs H.
  - simpl in H. injection H as <- <- <-. exact Hs.
  - rewrite wdl_captures_cons in H.
    destruct (negb (is_capture pos m) || negb (is_legal pos m)); [eapply IH; eauto|].
    destruct (probe_ab _ _ _ _) as [[r st1]|]; [|discriminate]. cbv zeta in H.
    destruct (Z.eqb_spec (success st1) 0) as [|Hs1]; [discriminate|].
    destruct (- r >? best_cap).
    + destruct (- r =? 2); [discriminate|].
      destruct (negb (MoveType_eqb (type_of_m m) ENPASSANT)); [eapply IH; eauto|].
      destruct (- r >? best_ep); eapply IH; eauto.
    + eapply IH; eauto.
Qed.

Lemma TB_probe_wdl_in_range (pos : Pos) (st st' : St TB) (r : Z) :
  (forall s, -2 <= fst (probe_wdl_table pos s) <= 2) ->
  TB_probe_wdl pos st = Some (r, st') ->
  -2 <= r <= 2 /\ (success st' = 0 -> r = 0).
Proof.
  intros wdl_range H. unfold TB_probe_wdl in H.
  destruct (wdl_captures pos (capture_moves pos) (-3) (-3) (set_success 1 st))
    as [[[r0|[bc be]] st1]|] eqn:Hl; [| |discriminate].
  - injection H as <- <-. apply wdl_captures_return in Hl.
    destruct Hl as [[-> Hs]|[-> Hs]]; split; lia.
  - pose proof (wdl_captures_mono _ _ _ _ _ _ _ _ Hl) as [Hbc Hbe].
    pose proof (wdl_captures_le1 _ _ (-3) (-3) _ _ _ _ ltac:(lia) ltac:(lia) Hl) as [Hbc1 Hbe1].
    pose proof (wdl_captures_ok _ _ _ _ _ _ (set_success 1 st) _ ltac:(simpl; lia) Hl) as Hs1.
    unfold wdl_resolve in H.
    pose proof (wdl_range st1) as Hv.
    destruct (probe_wdl_table pos st1) as [v st2]. simpl in Hv.
    destruct (Z.eqb_spec (success st2) 0) as [Hz|Hnz].
    { injection H as <- <-. split; [lia|reflexivity]. }
    assert (Hae : forall b, -3 <= b <= 1 ->
              let res := wdl_after_ep pos (capture_moves pos) b be v st2 in
              -2 <= fst res <= 2 /\ (success (snd res) = 0 -> fst res = 0)).
    { intros b Hb. unfold wdl_after_ep. rewrite Z.geb_leb.
      destruct (Z.leb_spec v b).
      - simpl. split; [lia|]. destruct (b >? 0); simpl; lia.
      - destruct ((be >? -3) && (v =? 0) && no_move_but_ep pos (capture_moves pos)) eqn:Hc.
        + simpl. apply andb_prop in Hc. destruct Hc as [Hc _].
          apply andb_prop in Hc. destruct Hc as [Hc _]. apply Z.gtb_lt in Hc.
          split; [lia|]. lia.
        + simpl. split; [lia|]. intros; contradiction. }
    rewrite Z.gtb_ltb in H. destruct (Z.ltb_spec bc be) as [Hgt|Hle].
    + rewrite Z.gtb_ltb in H. destruct (Z.ltb_spec v be).
      * injection H as <- <-. simpl. split; lia.
      * specialize (Hae be ltac:(lia)). cbv zeta in Hae.
        destruct (wdl_after_ep _ _ _ _ _ _) as [r1 s1]. injection H as <- <-. exact Hae.
    + specialize (Hae bc ltac:(lia)). cbv zeta in Hae.
      destruct (wdl_after_ep _ _ _ _ _ _) as [r1 s1]. injection H as <- <-. exact Hae.
Qed.

(** X3. If the WDL table of a position stores values from -2 to 2,
    [TB_probe_wdl] answers with a value from -2 to 2, whatever the tables
    of the positions after captures hold: [wdl_to_dtz[wdl + 2]] and
    [wdl_to_Value[wdl + 2]] are read inside their five cells. It answers 0
    whenever it ends with [success = 0]. *)
Theorem TB_probe_wdl_range (pos : Pos) (st st' : St TB) (r : Z) :
  (forall s, -2 <= fst (probe_wdl_table pos s) <= 2) ->
  TB_probe_wdl pos st = Some (r, st') ->
  0 <= r + 2 < Z.of_nat (length wdl_to_dtz)
  /\ (success st' = 0 -> r = 0).
Proof.
  intros Hr H. apply (TB_probe_wdl_in_range _ _ _ _ Hr) in H. simpl. lia.
Qed.

Lemma dtz_pawn_moves_return (pos : Pos) (wdl : Z) (ms : list Move) :
  forall (r : Z) (st st' : St TB),
  dtz_pawn_moves pos wdl ms st = Some (Return r, st') ->
  (r = 0 /\ success st' = 0) \/ r = wdl_to_dtz_at (wdl + 2).
Proof.
  induction ms as [|m ms IH]; intros r st st' H; simpl in H; [discriminate|].
  destruct (negb (type_of_p (moved_piece pos m) =? PAWN) || is_capture pos m
            || negb (is_legal pos m)); [eapply IH; eauto|].
  destruct (TB_probe_wdl (do_move pos m) st) as [[r1 st1]|]; [|discriminate].
  cbv zeta in H. destruct (Z.eqb_spec (success st1) 0).
  { injection H as <- <-. left. auto. }
  destruct (- r1 =? wdl); [injection H as <- <-; right; reflexivity|].
  eapply IH; eauto.
Qed.

Lemma dtz_moves_sign (rec : Pos -> St TB -> option (Z * St TB))
  (pos : Pos) (wdl : Z) (ms : list Move) :
  forall (best r : Z) (st st' : St TB),
  dtz_moves rec pos wdl ms best st = Some (r, st') ->
  (if wdl >? 0 then 0 < best else best < 0) ->
  (r = 0 /\ success st' = 0) \/ (if wdl >? 0 then 0 < r else r < 0).
Proof.
  induction ms as [|m ms IH]; intros best r st st' H Hb; simpl in H.
  - injection H as <- <-. right. exact Hb.
  - destruct (dtz_skips pos m); [eapply IH; eauto|].
    destruct (rec (do_move pos m) st) as [[r1 st1]|]; [|discriminate].
    cbv zeta in H. destruct (Z.eqb_spec (success st1) 0).
    { injection H as <- <-. left. auto. }
    eapply IH; [exact H|]. unfold dtz_better.
    destruct (wdl >? 0).
    + destruct ((- r1 >? 0) && (- r1 + 1 <? best)) eqn:Hc; [|exact Hb].
      apply andb_prop in Hc. destruct Hc as [Hc _]. apply Z.gtb_lt in Hc. lia.
    + destruct (Z.ltb_spec (- r1 - 1) best); lia.
Qed.

(** X4. If the tables of a position store WDL values from -2 to 2 and
    DTZ values that are not negative, then whenever [TB_probe_dtz] ends
    with [success <> 0] its value has the sign of the WDL value of the
    position: positive for a (cursed) win, negative for a (blessed) loss,
    0 for a draw. *)
Theorem TB_probe_dtz_sign (fuel : nat) (pos : Pos) (st st' : St TB) (r : Z) :
  (forall s, -2 <= fst (probe_wdl_table pos s) <= 2) ->
  (forall w s, 0 <= fst (probe_dtz_table pos w s)) ->
  TB_probe_dtz fuel pos st = Some (r, st') ->
  success st' <> 0 ->
  exists w st1,
    TB_probe_wdl pos st = Some (w, st1)
    /\ (0 < w -> 0 < r) /\ (w < 0 -> r < 0) /\ (w = 0 -> r = 0).
Proof.
  intros wdl_range dtz_nonneg.
  destruct fuel as [|fuel]; [discriminate|]. simpl. intros H Hs.
  destruct (TB_probe_wdl pos st) as [[w st1]|] eqn:Hw; [|discriminate].
  exists w, st1. split; [reflexivity|].
  apply (TB_probe_wdl_in_range _ _ _ _ wdl_range) in Hw. destruct Hw as [Hr _].
  assert (Hsign : (0 < w -> 0 < wdl_to_dtz_at (w + 2))
                  /\ (w < 0 -> wdl_to_dtz_at (w + 2) < 0)).
  { assert (Hc : w = -2 \/ w = -1 \/ w = 0 \/ w = 1 \/ w = 2) by lia.
    destruct Hc as [H1|[H1|[H1|[H1|H1]]]]; subst w; vm_compute;
      split; intros; first [reflexivity | discriminate]. }
  destruct Hsign as [Hpos Hneg].
  destruct (Z.eqb_spec (success st1) 0).
  { injection H as <- <-. congruence. }
  destruct (Z.eqb_spec w 0) as [->|Hw0].
  { injection H as <- <-. lia. }
  destruct (success st1 =? 2).
  { injection H as <- <-. lia. }
  destruct (dtz_pawn_search pos w st1) as [[[r0|u] st2]|] eqn:Hp; [| |discriminate].
  { injection H as <- <-. unfold dtz_pawn_search in Hp.
    destruct (w >? 0) eqn:Hg; [|discriminate].
    apply dtz_pawn_moves_return in Hp. apply Z.gtb_lt in Hg.
    destruct Hp as [[_ Hz]| ->]; [congruence|]. lia. }
  pose proof (dtz_nonneg w st2) as Hd.
  destruct (probe_dtz_table pos w st2) as [dtz st3]. simpl in Hd.
  destruct (success st3 >=? 0).
  { injection H as <- <-. rewrite Z.gtb_ltb. destruct (Z.ltb_spec 0 w); lia. }
  apply dtz_moves_sign in H.
  - rewrite Z.gtb_ltb in H. destruct H as [[_ Hz]|H]; [congruence|].
    destruct (Z.ltb_spec 0 w); lia.
  - rewrite Z.gtb_ltb. destruct (Z.ltb_spec 0 w); [vm_compute; reflexivity|].
    apply Hneg. lia.
Qed.

End ProbeRanges.

Section PawnMoves.
Context {E : Engine} {T : Tablebase E}.

Lemma dtz_pawn_moves_app (pos : Pos) (wdl : Z) (pre post : list Move) :
  forall (st : St TB),
  dtz_pawn_moves pos wdl (pre ++ post) st =
    match dtz_pawn_moves pos wdl pre st with
    | Some (Continue _, st1) => dtz_pawn_moves pos wdl post st1
    | other => other
    end.
Proof.
  induction pre as [|m pre IH]; intros st; simpl; [reflexivity|].
  destruct (negb (type_of_p (moved_piece pos m) =? PAWN) || is_capture pos m
            || negb (is_legal pos m)); [apply IH|].
  destruct (TB_probe_wdl (do_move pos m) st) as [[r st1]|]; [|reflexivity].
  cbv zeta. destruct (success st1 =? 0); [reflexivity|].
  destruct (- r =? wdl); [reflexivity|]. apply IH.
Qed.

(** X5. In a won position whose WDL probe found no winning capture, when
    the loop over the pawn moves comes to a legal pawn move that is no
    capture and keeps the WDL value, [TB_probe_dtz] answers
    [wdl_to_dtz[wdl + 2]] (1 for a win, 101 for a cursed win) in the state
    the WDL probe of that move left: no DTZ table is read. *)
Theorem TB_probe_dtz_pawn_move (fuel : nat) (pos : Pos) (st st1 st2 st3 : St TB)
  (pre post : list Move) (m : Move) (wdl r : Z) :
  TB_probe_wdl pos st = Some (wdl, st1) ->
  success st1 = 1 ->
  wdl > 0 ->
  all_moves pos = pre ++ m :: post ->
  dtz_pawn_moves pos wdl pre st1 = Some (Continue (), st2) ->
  type_of_p (moved_piece pos m) = PAWN ->
  is_capture pos m = false ->
  is_legal pos m = true ->
  TB_probe_wdl (do_move pos m) st2 = Some (r, st3) ->
  success st3 <> 0 ->
  - r = wdl ->
  TB_probe_dtz (S fuel) pos st = Some (wdl_to_dtz_at (wdl + 2), st3)
  /\ (wdl = 2 -> wdl_to_dtz_at (wdl + 2) = 1)
  /\ (wdl = 1 -> wdl_to_dtz_at (wdl + 2) = 101).
Proof.
  intros Hw Hs Hpos Hms Hpre Hp Hc Hl Hch Hs3 Hr.
  split; [|split; intros ->; reflexivity].
  simpl. rewrite Hw, Hs. simpl.
  replace (wdl =? 0) with false by (symmetry; apply Z.eqb_neq; lia).
  unfold dtz_pawn_search.
  replace (wdl >? 0) with true by (symmetry; apply Z.gtb_lt; lia).
  rewrite Hms, dtz_pawn_moves_app, Hpre. simpl.
  rewrite Hp, Hc, Hl, Z.eqb_refl. simpl. rewrite Hch. cbv zeta.
  replace (success st3 =? 0) with false by (symmetry; apply Z.eqb_neq; exact Hs3).
  rewrite Hr, Z.eqb_refl. reflexivity.
Qed.

End PawnMoves.

(** * What [has_repeated] finds *)

Section Repetition.

Lemma has_repeated_inner (st : Stack) (older : list Stack) :
  existsb (fun j : nat =>
             match older !! (3 + 2 * j)%nat with
             | Some stp => Stack_key stp =? Stack_key st
             | None => false
             end)
          (seq 0 (Z.to_nat (pliesFromNull st / 2 - 1))) = true
  <-> exists (d : nat) (stp : Stack),
        (st :: older) !! d = Some stp /\ Stack_key stp = Stack_key st
        /\ (4 <= d)%nat /\ Z.of_nat d <= pliesFromNull st /\ Nat.Even d.
Proof.
  rewrite existsb_exists. split.
  - intros (j & Hin & Hm). apply in_seq in Hin.
    destruct (older !! (3 + 2 * j)%nat) as [stp|] eqn:Hl; [|discriminate].
    apply Z.eqb_eq in Hm. exists (4 + 2 * j)%nat, stp.
    split; [exact Hl|]. split; [exact Hm|]. split; [lia|]. split.
    + Z.div_mod_to_equations. lia.
    + exists (2 + j)%nat. lia.
  - intros (d & stp & Hl & Hk & Hd & He & [k Hk2]).
    exists (k - 2)%nat. split.
    + apply in_seq. Z.div_mod_to_equations. lia.
    + replace d with (S (3 + 2 * (k - 2)))%nat in Hl by lia. simpl in Hl.
      simpl. rewrite Hl. apply Z.eqb_eq. exact Hk.
Qed.

(** X6. [has_repeated] answers 1 exactly when some state [st - i] of the
    stack has the key of a state an even number [d >= 4] of plies below
    it, with [d] at most the [pliesFromNull] of [st - i], and every state
    above [st - i] has [pliesFromNull >= 4]: the scan stops for good at
    the first state with fewer than 4 plies since a null move. *)
Theorem has_repeated_from_iff (sts : list Stack) :
  has_repeated_from sts = true
  <-> exists (i d : nat) (st stp : Stack),
        sts !! i = Some st /\ sts !! (i + d)%nat = Some stp
        /\ Stack_key stp = Stack_key st
        /\ (4 <= d)%nat /\ Z.of_nat d <= pliesFromNull st /\ Nat.Even d
        /\ forall (i' : nat) (st' : Stack),
             (i' < i)%nat -> sts !! i' = Some st' -> 4 <= pliesFromNull st'.
Proof.
  induction sts as [|st older IH].
  - simpl. split; [discriminate|]. intros (i & d & st & stp & H & _). discriminate.
  - cbn [has_repeated_from]. cbv zeta.
    destruct (Z.ltb_spec (pliesFromNull st) 4) as [Hlt|Hge].
    + split; [discriminate|].
      intros (i & d & s & stp & Hi & Hd & Hk & H4 & Hp & He & Hpre).
      destruct i as [|i].
      * simpl in Hi. injection Hi as <-. lia.
      * specialize (Hpre 0%nat st ltac:(lia) eq_refl). lia.
    + destruct (existsb _ _) eqn:Hex.
      * split; [intros _|reflexivity].
        apply has_repeated_inner in Hex. destruct Hex as (d & stp & Hl & Hk & Hd & Hp & He).
        exists 0%nat, d, st, stp. repeat split; try assumption. intros i' st' Hi'. lia.
      * rewrite IH. split.
        -- intros (i & d & s & stp & Hi & Hd & Hk & H4 & Hp & He & Hpre).
           exists (S i), d, s, stp. repeat split; try assumption.
           intros [|i'] st' Hlt Hl.
           ++ simpl in Hl. injection Hl as <-. exact Hge.
           ++ apply (Hpre i' st'); [lia|exact Hl].
        -- intros (i & d & s & stp & Hi & Hd & Hk & H4 & Hp & He & Hpre).
           destruct i as [|i].
           ++ simpl in Hi. injection Hi as <-. exfalso.
              assert (Ht : existsb (fun j : nat =>
                             match older !! (3 + 2 * j)%nat with
                             | Some stp => Stack_key stp =? Stack_key st
                             | None => false
                             end)
                             (seq 0 (Z.to_nat (pliesFromNull st / 2 - 1))) = true).
              { apply has_repeated_inner. exists d, stp. auto. }
              congruence.
           ++ exists i, d, s, stp. repeat split; try assumption.
              intros i' st' Hlt Hl. apply (Hpre (S i') st'); [lia|exact Hl].
Qed.

End Repetition.

(** * More on the root probes *)

Section RootMore.
Context {E : Engine} {T : Tablebase E}.

Lemma best_losing_fold (rm : list ExtMove) :
  forall (b0 : Z),
  let b := fold_left (fun best e => if best <? value e then value e else best) rm b0 in
  b0 <= b
  /\ (forall e, In e rm -> value e <= b)
  /\ (b = b0 \/ exists e, In e rm /\ value e = b).
Proof.
  induction rm as [|x l IH]; intros b0; simpl.
  - split; [lia|]. split; [intros e []|left; reflexivity].
  - destruct (IH (if b0 <? value x then value x else b0)) as (Hle & Hmax & Hat).
    cbv zeta in *. destruct (Z.ltb_spec b0 (value x)) as [Hlt|Hge].
    + split; [lia|]. split.
      * intros e [<-|Hin]; [lia|apply Hmax; exact Hin].
      * destruct Hat as [Heq|(e & Hin & Heq)].
        -- right. exists x. split; [left; reflexivity|lia].
        -- right. exists e. split; [right; exact Hin|exact Heq].
    + split; [lia|]. split.
      * intros e [<-|Hin]; [lia|apply Hmax; exact Hin].
      * destruct Hat as [Heq|(e & Hin & Heq)]; [left; exact Heq|].
        right. exists e. split; [right; exact Hin|exact Heq].
Qed.

(** X7. With root dtz < 0 and every probe successful, [TB_root_probe]
    returns 1. For [best] the largest move value, or 0 if none is
    positive: while [-2 * best + cnt50 < 100] nothing is filtered; from
    then on exactly the moves of value [best] are kept. So when every move
    value is negative, as after moves into positions won for the
    opponent, all moves stay while [cnt50 < 100] and none stays after. *)
Theorem TB_root_probe_losing (fuel : nat) (pos : Pos) (rm rm1 : list ExtMove)
  (st st1 st2 : St TB) (dtz : Z) :
  TB_probe_dtz fuel pos st = Some (dtz, st1) ->
  success st1 <> 0 ->
  dtz < 0 ->
  root_moves_dtz fuel pos dtz rm st1 = Some (true, rm1, st2) ->
  exists res,
    TB_root_probe fuel pos rm st = Some (res, st2)
    /\ ret res = 1
    /\ move <$> rm1 = move <$> rm
    /\ (forall best : Z,
          0 <= best ->
          (best = 0 \/ exists e, In e rm1 /\ value e = best) ->
          (forall e, In e rm1 -> value e <= best) ->
          (- best * 2 + pos_rule50_count pos < 100 ->
           rm_out res = rm1 /\ num_moves res = length rm)
          /\ (100 <= - best * 2 + pos_rule50_count pos ->
              move <$> take (num_moves res) (rm_out res)
                = move <$> filter (fun e => value e = best) rm1
              /\ num_moves res = length (filter (fun e => value e = best) rm1)))
    /\ ((forall e, In e rm1 -> value e < 0) ->
        if pos_rule50_count pos <? 100
        then rm_out res = rm1 /\ num_moves res = length rm
        else num_moves res = 0%nat).
Proof.
  intros Hd Hs Hneg Hl.
  destruct (root_moves_dtz_moves _ _ _ _ _ _ _ _ Hl) as [Hmv Hlen].
  destruct (best_losing_fold rm1 0) as (H0 & Hmax & Hat). cbv zeta in *.
  fold (best_losing rm1) in H0, Hmax, Hat.
  unfold TB_root_probe. rewrite Hd.
  replace (success st1 =? 0) with false by (symmetry; apply Z.eqb_neq; exact Hs).
  rewrite Hl. unfold root_filter.
  replace (dtz >? 0) with false by (symmetry; rewrite Z.gtb_ltb; apply Z.ltb_ge; lia).
  replace (dtz <? 0) with true by (symmetry; apply Z.ltb_lt; lia).
  cbv zeta. rewrite Hlen.
  assert (Huniq : forall best, 0 <= best ->
            (best = 0 \/ exists e, In e rm1 /\ value e = best) ->
            (forall e, In e rm1 -> value e <= best) -> best = best_losing rm1).
  { intros best Hb0 Hbat Hbmax.
    destruct Hat as [Hz|(e & Hin & He)]; destruct Hbat as [Hbz|(e' & Hin' & He')].
    - lia.
    - specialize (Hmax e' Hin'). lia.
    - specialize (Hbmax e Hin). lia.
    - specialize (Hmax e' Hin'). specialize (Hbmax e Hin). lia. }
  assert (Hzero : (forall e, In e rm1 -> value e < 0) -> best_losing rm1 = 0).
  { intros Hall_neg. destruct Hat as [Hz|(e & Hin & He)]; [exact Hz|].
    specialize (Hall_neg e Hin). lia. }
  destruct (Z.ltb_spec (- best_losing rm1 * 2 + pos_rule50_count pos) 100) as [Hall|Hopt].
  - eexists. split; [reflexivity|]. simpl.
    split; [reflexivity|]. split; [exact Hmv|]. split.
    + intros best Hb0 Hbat Hbmax. rewrite (Huniq best Hb0 Hbat Hbmax).
      split; [intros _; split; reflexivity|lia].
    + intros Hall_neg. rewrite (Hzero Hall_neg) in Hall.
      replace (pos_rule50_count pos <? 100) with true
        by (symmetry; apply Z.ltb_lt; lia).
      split; reflexivity.
  - destruct (keep_moves _ _ _ _ _) as [rm2 j] eqn:Hk.
    rewrite <- Hlen in Hk. apply keep_moves_spec in Hk.
    destruct Hk as (_ & _ & Hm & Hj).
    assert (Hf : filter (fun e => (value e =? best_losing rm1) = true) rm1
                 = filter (fun e => value e = best_losing rm1) rm1)
      by (apply list_filter_iff; intros e; apply Z.eqb_eq).
    rewrite Hf in Hm, Hj.
    eexists. split; [reflexivity|]. simpl.
    split; [reflexivity|]. split; [exact Hmv|]. split.
    + intros best Hb0 Hbat Hbmax. rewrite (Huniq best Hb0 Hbat Hbmax).
      split; [lia|]. intros _. split; [exact Hm|exact Hj].
    + intros Hall_neg. rewrite (Hzero Hall_neg) in Hopt, Hj.
      replace (pos_rule50_count pos <? 100) with false
        by (symmetry; apply Z.ltb_ge; lia).
      rewrite Hj.
      assert (Hnil : filter (fun e => value e = 0) rm1 = []).
      { clear -Hall_neg. induction rm1 as [|x l IH]; [reflexivity|].
        rewrite filter_cons_False.
        - apply IH. intros e He. apply Hall_neg. right. exact He.
        - specialize (Hall_neg x (or_introl eq_refl)). lia. }
      rewrite Hnil. reflexivity.
Qed.

Lemma root_moves_dtz_values (fuel : nat) (pos : Pos) (dtz : Z) (rm : list ExtMove) :
  forall (st st' : St TB) (rm1 : list ExtMove),
  root_moves_dtz fuel pos dtz rm st = Some (true, rm1, st') ->
  Forall2 (fun e e1 =>
             move e1 = move e
             /\ exists s s', root_move_dtz fuel pos dtz (move e) s = Some (value e1, s')
                             /\ success s' <> 0) rm rm1.
Proof.
  induction rm as [|e rm IH]; intros st st' rm1 H; simpl in H.
  - injection H as <- <-. constructor.
  - destruct (root_move_dtz fuel pos dtz (move e) st) as [[v s1]|] eqn:Hv; [|discriminate].
    destruct (Z.eqb_spec (success s1) 0) as [|Hs]; [discriminate|].
    destruct (root_moves_dtz fuel pos dtz rm s1) as [[[ok rm'] s2]|] eqn:Hr; [|discriminate].
    injection H as -> <- <-. constructor.
    + simpl. split; [reflexivity|]. exists st, s1. auto.
    + apply (IH _ _ _ Hr).
Qed.

(** X8. With root dtz > 0 and every probe successful, a root move that
    gives checkmate (the opponent is in check and has no legal move) gets
    the value 1 and is among the moves [TB_root_probe] keeps. *)
Theorem TB_root_probe_keeps_mate (fuel : nat) (pos : Pos) (rm rm1 : list ExtMove)
  (st st1 st2 : St TB) (dtz : Z) (m : Move) :
  TB_probe_dtz fuel pos st = Some (dtz, st1) ->
  success st1 <> 0 ->
  dtz > 0 ->
  root_moves_dtz fuel pos dtz rm st1 = Some (true, rm1, st2) ->
  In m (move <$> rm) ->
  pos_checkers (do_move pos m) <> 0 ->
  generate_legal (do_move pos m) = [] ->
  exists res,
    TB_root_probe fuel pos rm st = Some (res, st2)
    /\ ret res = 1
    /\ In (mkExtMove m 1) rm1
    /\ In m (move <$> take (num_moves res) (rm_out res)).
Proof.
  intros Hd Hs Hpos Hl Hin Hchk Hnone.
  assert (Hone : In (mkExtMove m 1) rm1).
  { apply root_moves_dtz_values in Hl. clear -Hl Hin Hchk Hnone Hpos.
    induction Hl as [|e e1 l l1 [Hm (s & s' & Hv & _)] _ IH]; [destruct Hin|].
    rewrite fmap_cons in Hin. destruct Hin as [Heq|Hin]; [|right; apply IH; exact Hin].
    left. subst m. unfold root_move_dtz in Hv.
    replace (pos_checkers (do_move pos (move e)) =? 0) with false in Hv
      by (symmetry; apply Z.eqb_neq; exact Hchk).
    replace (dtz >? 0) with true in Hv by (symmetry; apply Z.gtb_lt; lia).
    rewrite Hnone in Hv. rewrite bool_decide_eq_true_2 in Hv by reflexivity.
    simpl in Hv. injection Hv as Hv _. destruct e1 as [m1 v1]. simpl in *. congruence. }
  unfold TB_root_probe. rewrite Hd.
  replace (success st1 =? 0) with false by (symmetry; apply Z.eqb_neq; exact Hs).
  rewrite Hl. unfold root_filter.
  replace (dtz >? 0) with true by (symmetry; apply Z.gtb_lt; lia).
  cbv zeta.
  destruct (keep_moves _ _ _ _ _) as [rm2 j] eqn:Hk.
  apply keep_moves_spec in Hk. destruct Hk as (_ & _ & Hm & _).
  eexists. split; [reflexivity|]. simpl. split; [reflexivity|]. split; [exact Hone|].
  rewrite Hm.
  destruct (best_winning_fold rm1 65535) as (Hle & Hmin & Hat). cbv zeta in *.
  fold (best_winning rm1) in Hle, Hmin, Hat.
  assert (Hbest : best_winning rm1 = 1).
  { specialize (Hmin _ Hone ltac:(simpl; lia)). simpl in Hmin.
    destruct Hat as [Heq|[Hp _]]; lia. }
  apply list_elem_of_In. apply (list_elem_of_fmap_2 move _ (mkExtMove m 1)).
  apply list_elem_of_filter. split; [|apply list_elem_of_In; exact Hone].
  simpl. rewrite Hbest. unfold max_dtz_allowed.
  destruct (negb (has_repeated pos) && (1 + pos_rule50_count pos <=? 99)) eqn:Hc.
  - apply andb_prop in Hc. destruct Hc as [_ Hc]. apply Z.leb_le in Hc.
    replace (1 <=? 99 - pos_rule50_count pos) with true
      by (symmetry; apply Z.leb_le; lia).
    reflexivity.
  - reflexivity.
Qed.

(** X12. Whatever the root value, a [TB_root_probe] that returns 1 never
    adds or reorders moves: the moves it keeps are a sublist of the moves
    it was given, the array keeps its length, and the values written by
    the probes stay in the cells they were written to. *)
Theorem TB_root_probe_sublist (fuel : nat) (pos : Pos) (rm : list ExtMove)
  (st st' : St TB) (res : RootProbe) :
  TB_root_probe fuel pos rm st = Some (res, st') ->
  ret res = 1 ->
  sublist (move <$> take (num_moves res) (rm_out res)) (move <$> rm)
  /\ (num_moves res <= length rm)%nat
  /\ length (rm_out res) = length rm
  /\ exists dtz st1 rm1,
       root_moves_dtz fuel pos dtz rm st1 = Some (true, rm1, st')
       /\ value <$> rm_out res = value <$> rm1.
Proof.
  unfold TB_root_probe.
  destruct (TB_probe_dtz fuel pos st) as [[dtz st1]|]; [|discriminate].
  destruct (success st1 =? 0); [intros H; injection H as <- <-; discriminate|].
  destruct (root_moves_dtz fuel pos dtz rm st1) as [[[[|] rm1] st2]|] eqn:Hl;
    [|intros H; injection H as <- <-; discriminate|discriminate].
  destruct (root_filter pos dtz (pos_rule50_count pos) rm1) as [rm2 j] eqn:Hf.
  intros H _. injection H as <- <-. simpl.
  destruct (root_moves_dtz_moves _ _ _ _ _ _ _ _ Hl) as [Hmv Hlen].
  destruct (root_filter_moves _ _ _ _ _ _ Hf) as [Hlen2 Hval].
  assert (Hsub : sublist (move <$> take j rm2) (move <$> rm1) /\ (j <= length rm1)%nat).
  { unfold root_filter in Hf.
    assert (Hkeep : forall keep rm3 j3,
              keep_moves keep (length rm1) 0 0 rm1 = (rm3, j3) ->
              sublist (move <$> take j3 rm3) (move <$> rm1) /\ (j3 <= length rm1)%nat).
    { intros keep rm3 j3 Hk. apply keep_moves_spec in Hk.
      destruct Hk as (_ & _ & Hm & Hj). rewrite Hm, Hj. split.
      - apply fmap_sublist. apply sublist_filter.
      - apply length_filter. }
    destruct (dtz >? 0); [apply (Hkeep _ _ _ Hf)|].
    destruct (dtz <? 0); [|apply (Hkeep _ _ _ Hf)].
    destruct (_ <? 100); [|apply (Hkeep _ _ _ Hf)].
    injection Hf as <- <-. rewrite firstn_all. split; [reflexivity|lia]. }
  destruct Hsub as [Hsub Hj]. rewrite <- Hmv, <- Hlen.
  split; [exact Hsub|]. split; [exact Hj|]. split; [exact Hlen2|].
  exists dtz, st1, rm1. auto.
Qed.

Lemma root_moves_wdl_moves (pos : Pos) (rm : list ExtMove) :
  forall (b b' : Z) (st st' : St TB) (ok : bool) (rm1 : list ExtMove),
  root_moves_wdl pos rm b st = Some (ok, rm1, b', st') ->
  move <$> rm1 = move <$> rm /\ length rm1 = length rm
  /\ (ok = false -> success st' = 0)
  /\ (ok = true -> success st <> 0 -> success st' <> 0).
Proof.
  induction rm as [|e rm IH]; intros b b' st st' ok rm1 H; simpl in H.
  - injection H as <- <- <- <-. repeat split; auto. discriminate.
  - destruct (TB_probe_wdl (do_move pos (move e)) st) as [[r s1]|]; [|discriminate].
    cbv zeta in H. destruct (Z.eqb_spec (success s1) 0) as [Hz|Hnz].
    + injection H as <- <- <- <-. repeat split; auto; try discriminate.
    + destruct (root_moves_wdl pos rm _ s1) as [[[[ok' rm'] b1] s2]|] eqn:Hr;
        [|discriminate].
      injection H as <- <- <- <-.
      destruct (IH _ _ _ _ _ _ Hr) as (Hm & Hlen & Hf & Ht).
      rewrite !fmap_cons. simpl. rewrite Hm, Hlen. repeat split; auto.
Qed.

(** X9. [TB_root_probe_wdl] returns 0 exactly when it ends with
    [success = 0], and then no move has been dropped or moved and
    [*num_moves] is as it was. If the probe of the root itself fails,
    [*score] is not written; otherwise it holds
    [wdl_to_Value[wdl + 2]] even when the probe of a move fails later. *)
Theorem TB_root_probe_wdl_failure (pos : Pos) (rm : list ExtMove) (st : St TB) :
  (forall res st',
     TB_root_probe_wdl pos rm st = Some (res, st') ->
     (ret res = 0 \/ ret res = 1)
     /\ (ret res = 0 <-> success st' = 0)
     /\ (ret res = 0 ->
         move <$> rm_out res = move <$> rm /\ num_moves res = length rm
         /\ length (rm_out res) = length rm))
  /\ (forall wdl st1,
        TB_probe_wdl pos st = Some (wdl, st1) ->
        (success st1 = 0 ->
         TB_root_probe_wdl pos rm st = Some (mkRootProbe 0 rm (length rm) None, st1))
        /\ (success st1 <> 0 ->
            forall res st',
            TB_root_probe_wdl pos rm st = Some (res, st') ->
            score res = Some (wdl_to_Value (wdl + 2)))).
Proof.
  split.
  - intros res st'. unfold TB_root_probe_wdl.
    destruct (TB_probe_wdl pos st) as [[wdl st1]|]; [|discriminate].
    destruct (Z.eqb_spec (success st1) 0) as [Hz|Hnz].
    { intros H. injection H as <- <-. simpl. split; [left; reflexivity|].
      split; [tauto|auto]. }
    destruct (root_moves_wdl pos rm (-2) st1) as [[[[[|] rm1] best] st2]|] eqn:Hl;
      [| |discriminate].
    + destruct (keep_moves _ _ _ _ _) as [rm2 j]. intros H. injection H as <- <-. simpl.
      destruct (root_moves_wdl_moves _ _ _ _ _ _ _ _ Hl) as (_ & _ & _ & Ht).
      specialize (Ht eq_refl Hnz).
      split; [right; reflexivity|]. split; [split; [discriminate|contradiction]|discriminate].
    + intros H. injection H as <- <-. simpl.
      destruct (root_moves_wdl_moves _ _ _ _ _ _ _ _ Hl) as (Hm & Hlen & Hf & _).
      split; [left; reflexivity|]. split; [split; auto|]. intros _. auto.
  - intros wdl st1 Hw. unfold TB_root_probe_wdl. rewrite Hw. split.
    + intros ->. reflexivity.
    + intros Hnz res st'.
      replace (success st1 =? 0) with false by (symmetry; apply Z.eqb_neq; exact Hnz).
      destruct (root_moves_wdl pos rm (-2) st1) as [[[[[|] rm1] best] st2]|];
        [| |discriminate].
      * destruct (keep_moves _ _ _ _ _) as [rm2 j]. intros H. injection H as <- <-.
        reflexivity.
      * intros H. injection H as <- <-. reflexivity.
Qed.

(** X10. With [VALUE_DRAW = 0] the reported score is odd in the root
    value: for an [int] [dtz] other than [INT32_MIN], the score of
    [- dtz] is minus the score of [dtz], at every 50-move counter, also
    where the sum of line 648 or 650 wraps around. *)
Theorem root_score_odd (dtz cnt50 : Z) :
  VALUE_DRAW = 0 ->
  - 2 ^ 31 < dtz < 2 ^ 31 ->
  root_score (- dtz) cnt50 = - root_score dtz cnt50.
Proof.
  intros Hd Hr. unfold root_score, wdl_to_Value. rewrite !Z.gtb_ltb.
  assert (Hi : forall z, - 2 ^ 31 <= z < 2 ^ 31 -> to_int z = z).
  { intros z Hz. unfold to_int. rewrite Z.mod_small; lia. }
  destruct (Z.ltb_spec 0 dtz) as [Hp|Hp].
  - replace (0 <? - dtz) with false by (symmetry; apply Z.ltb_ge; lia).
    replace (- dtz <? 0) with true by (symmetry; apply Z.ltb_lt; lia).
    rewrite Z.opp_involutive, (Hi dtz) by lia.
    destruct (Z.leb_spec (to_int (dtz + cnt50)) 100); simpl.
    + try rewrite Hd; lia.
    + rewrite Z.geb_leb.
      replace (-100 <=? - dtz) with (dtz <=? 100)
        by (destruct (Z.leb_spec dtz 100), (Z.leb_spec (-100) (- dtz)); lia).
      destruct (dtz <=? 100).
      * f_equal; f_equal; lia.
      * simpl. try rewrite Hd; lia.
  - destruct (Z.ltb_spec dtz 0) as [Hn|Hn].
    + replace (0 <? - dtz) with true by (symmetry; apply Z.ltb_lt; lia).
      rewrite (Hi (- dtz)) by lia.
      destruct (Z.leb_spec (to_int (- dtz + cnt50)) 100); simpl.
      * try rewrite Hd; lia.
      * rewrite Z.geb_leb.
        replace (- dtz <=? 100) with (-100 <=? dtz)
          by (destruct (Z.leb_spec (- dtz) 100), (Z.leb_spec (-100) dtz); lia).
        destruct (-100 <=? dtz).
        -- rewrite Z.opp_involutive. f_equal; lia.
        -- simpl. try rewrite Hd; lia.
    + assert (dtz = 0) by lia. subst dtz. simpl. rewrite Hd. reflexivity.
Qed.

(** X11. A win that the 50-move counter has turned into a draw
    ([0 < dtz <= 100 < dtz + cnt50], [cnt50 <= 100]) is reported with a
    score from 0 to half of [PawnValueEg], and the score does not grow
    with the counter. *)
Theorem root_score_cursed (dtz cnt50 : Z) :
  0 <= PawnValueEg ->
  0 < dtz <= 100 -> 100 < dtz + cnt50 -> cnt50 <= 100 ->
  root_score dtz cnt50 = Z.quot ((200 - dtz - cnt50) * PawnValueEg) 200
  /\ 0 <= root_score dtz cnt50
  /\ 2 * root_score dtz cnt50 <= PawnValueEg
  /\ (cnt50 < 100 -> root_score dtz (cnt50 + 1) <= root_score dtz cnt50).
Proof.
  intros Hp Hd Hc Hc100.
  assert (Hs : forall c, 100 < dtz + c -> c <= 101 ->
            root_score dtz c = Z.quot ((200 - dtz - c) * PawnValueEg) 200).
  { intros c Hcc Hc1. unfold root_score, to_int.
    replace (dtz >? 0) with true by (symmetry; apply Z.gtb_lt; lia).
    rewrite (Z.mod_small (dtz + c + 2 ^ 31)) by lia.
    replace (dtz + c + 2 ^ 31 - 2 ^ 31 <=? 100) with false
      by (symmetry; apply Z.leb_gt; lia).
    replace (dtz <=? 100) with true by (symmetry; apply Z.leb_le; lia).
    reflexivity. }
  rewrite (Hs cnt50 Hc) by lia. split; [reflexivity|].
  assert (Hq : forall a, 0 <= a -> Z.quot a 200 = a / 200)
    by (intros a Ha; apply Z.quot_div_nonneg; lia).
  rewrite Hq by nia. split; [apply Z.div_pos; nia|]. split.
  - assert (200 * ((200 - dtz - cnt50) * PawnValueEg / 200)
            <= (200 - dtz - cnt50) * PawnValueEg)
      by (apply Z.mul_div_le; lia).
    nia.
  - intros Hlt. rewrite (Hs (cnt50 + 1)) by lia. rewrite Hq by nia.
    apply Z.div_le_mono; nia.
Qed.

End RootMore.

(** * The statistics tables stay in range *)

Section Stats.

Lemma stat_step_bounded (d x v : Z) :
  0 < d -> Z.abs v <= d -> - (32 * d) <= x <= 32 * d ->
  - (32 * d) <= x - Z.quot (x * Z.abs v) d + v * 32 <= 32 * d.
Proof.
  intros Hd Hv Hx. set (w := Z.abs v) in *.
  assert (Hw : 0 <= w) by (unfold w; lia).
  assert (Hvw : - w <= v <= w) by (unfold w; lia).
  destruct (Z.le_gt_cases 0 x) as [Hpos|Hneg].
  - rewrite Z.quot_div_nonneg by nia.
    pose proof (Z.mul_div_le (x * w) d Hd) as Hlo.
    pose proof (Z.mul_succ_div_gt (x * w) d Hd) as Hhi.
    set (q := x * w / d) in *.
    assert (0 <= q) by (apply Z.div_pos; nia).
    assert (q <= x) by nia.
    assert (x - q <= 32 * (d - w)) by nia.
    lia.
  - replace (x * w) with (- (- x * w)) by lia.
    rewrite Z.quot_opp_l by lia. rewrite Z.quot_div_nonneg by nia.
    pose proof (Z.mul_div_le (- x * w) d Hd) as Hlo.
    pose proof (Z.mul_succ_div_gt (- x * w) d Hd) as Hhi.
    set (q := - x * w / d) in *.
    assert (0 <= q) by (apply Z.div_pos; nia).
    assert (q <= - x) by nia.
    assert (- x - q <= 32 * (d - w)) by nia.
    lia.
Qed.

Lemma stat_set_within (B : Z) (f : Value -> Value) (s : Stats) (i j : Z) :
  (forall x, - B <= x <= B -> - B <= f x <= B) ->
  stats_within B s -> stats_within B (stat_set f s i j).
Proof.
  intros Hf Hs. unfold stat_set. destruct ((i <? 0) || (j <? 0)); [exact Hs|].
  apply Forall_alter; [exact Hs|]. intros row _ Hrow.
  apply Forall_alter; [exact Hrow|]. intros x _ Hx. apply Hf. exact Hx.
Qed.

Lemma stat_set_set (f g : Value -> Value) (s : Stats) (i j : Z) :
  stat_set g (stat_set f s i j) i j = stat_set (fun x => g (f x)) s i j.
Proof.
  unfold stat_set. destruct ((i <? 0) || (j <? 0)); [reflexivity|].
  cbv iota. unfold Stats, Value in *. rewrite list_alter_alter_eq.
  apply list_alter_ext; [|reflexivity].
  intros row _. simpl. rewrite list_alter_alter_eq. reflexivity.
Qed.

Lemma stat_get_within (B : Z) (s : Stats) (i j : Z) :
  0 <= B -> stats_within B s -> - B <= stat_get s i j <= B.
Proof.
  intros HB Hs. unfold stat_get. destruct ((i <? 0) || (j <? 0)); [lia|].
  destruct (s !! Z.to_nat i) as [row|] eqn:Hr; [|lia].
  destruct (row !! Z.to_nat j) as [x|] eqn:Hx; simpl; [|lia].
  unfold stats_within in Hs. rewrite Forall_lookup in Hs.
  specialize (Hs _ _ Hr). rewrite Forall_lookup in Hs. apply (Hs _ _ Hx).
Qed.

Lemma abs_as_code (v : Z) : (if v >=? 0 then v else - v) = Z.abs v.
Proof. rewrite Z.geb_leb. destruct (Z.leb_spec 0 v); lia. Qed.

Lemma stat_update_within (d : Z) (s : Stats) (i j v : Z) :
  324 <= d ->
  stats_within (32 * d) s ->
  Z.abs v < 324 ->
  stats_within (32 * d)
    (stat_set (fun x => x + v * 32)
       (stat_set (fun x => x - Z.quot (x * Z.abs v) d) s i j) i j).
Proof.
  intros Hd Hs Hv. rewrite stat_set_set. apply stat_set_within; [|exact Hs].
  intros x Hx. apply stat_step_bounded; lia.
Qed.

(** X13. [hs_update] and [ft_update] keep every cell of their table
    between -10368 and 10368 (324 * 32), whatever bonus they are given;
    within these bounds the product [hs[pc][to] * w] they compute is far
    below 2^31. *)
Theorem hs_update_within (hs : Stats) (pc : Z) (to : Square) (v : Value) :
  stats_within 10368 hs ->
  stats_within 10368 (hs_update hs pc to v)
  /\ stats_within 10368 (ft_update hs pc to v)
  /\ (Z.abs v < 324 -> Z.abs (stat_get hs pc to * Z.abs v) < 2 ^ 31).
Proof.
  intros Hs. split; [|split].
  - unfold hs_update. rewrite abs_as_code. cbv zeta. rewrite Z.geb_leb.
    destruct (Z.leb_spec 324 (Z.abs v)); [exact Hs|].
    apply (stat_update_within 324); [lia|exact Hs|lia].
  - unfold ft_update. rewrite abs_as_code. cbv zeta. rewrite Z.geb_leb.
    destruct (Z.leb_spec 324 (Z.abs v)); [exact Hs|].
    apply (stat_update_within 324); [lia|exact Hs|lia].
  - intros Hv. pose proof (stat_get_within 10368 hs pc to ltac:(lia) Hs). nia.
Qed.

(** X14. [cms_update], which divides by 936, keeps every cell of a
    counter-move table between -29952 and 29952 (936 * 32); within these
    bounds the product [cms[pc][to] * w] it computes is far below 2^31. *)
Theorem cms_update_within (cms : Stats) (pc : Z) (to : Square) (v : Value) :
  stats_within 29952 cms ->
  stats_within 29952 (cms_update cms pc to v)
  /\ (Z.abs v < 324 -> Z.abs (stat_get cms pc to * Z.abs v) < 2 ^ 31).
Proof.
  intros Hs. split.
  - unfold cms_update. rewrite abs_as_code. cbv zeta. rewrite Z.geb_leb.
    destruct (Z.leb_spec 324 (Z.abs v)); [exact Hs|].
    apply (stat_update_within 936); [lia|exact Hs|lia].
  - intros Hv. pose proof (stat_get_within 29952 cms pc to ltac:(lia) Hs). nia.
Qed.

Lemma stat_get_set (f : Value -> Value) (s : Stats) (i j i' j' : Z) :
  0 <= i -> 0 <= j ->
  (exists row, s !! Z.to_nat i = Some row /\ (Z.to_nat j < length row)%nat) ->
  stat_get (stat_set f s i j) i' j'
  = if (i' =? i) && (j' =? j) then f (stat_get s i j) else stat_get s i' j'.
Proof.
  intros Hi Hj (row & Hrow & Hlen).
  destruct (lookup_lt_is_Some_2 row (Z.to_nat j) Hlen) as [x Hx].
  unfold stat_set, stat_get, Stats, Value in *.
  replace ((i <? 0) || (j <? 0)) with false
    by (symmetry; apply orb_false_intro; apply Z.ltb_ge; lia).
  destruct (Z.ltb_spec i' 0) as [Hi'|Hi']; simpl.
  { replace (i' =? i) with false by (symmetry; apply Z.eqb_neq; lia). reflexivity. }
  destruct (Z.ltb_spec j' 0) as [Hj'|Hj']; simpl.
  { replace (j' =? j) with false by (symmetry; apply Z.eqb_neq; lia).
    rewrite andb_false_r. reflexivity. }
  destruct (Z.eqb_spec i' i) as [->|Hne]; simpl.
  - rewrite list_lookup_alter_eq, Hrow. simpl.
    destruct (Z.eqb_spec j' j) as [->|Hnej].
    + rewrite list_lookup_alter_eq, Hx. reflexivity.
    + rewrite list_lookup_alter_ne by lia. reflexivity.
  - rewrite list_lookup_alter_ne by lia. reflexivity.
Qed.

(** X15. Reading after writing in the from-to table: [ft_get] after
    [ft_update ft c m v] gives the updated value
    [x - x * |v| / 324 + 32 * v] at colour [c] for every move with the
    from and to squares of [m] (the low 12 bits), and the old value
    everywhere else; with [|v| >= 324] nothing changes. The row of [c]
    has 4096 cells, and the cell index [m & 4095] is always inside it. *)
Theorem ft_update_get (ft : Stats) (c c' : Z) (m m' : Move) (v : Value) :
  0 <= c ->
  (exists row, ft !! Z.to_nat c = Some row /\ length row = 4096%nat) ->
  ft_get (ft_update ft c m v) c' m'
  = (if (c' =? c) && (Z.land m' 4095 =? Z.land m 4095) && (Z.abs v <? 324)
     then ft_get ft c m - Z.quot (ft_get ft c m * Z.abs v) 324 + v * 32
     else ft_get ft c' m')
  /\ 0 <= Z.land m 4095 < 4096.
Proof.
  intros Hc (row & Hrow & Hlen).
  assert (Hm : 0 <= Z.land m 4095 < 4096).
  { split; [apply Z.land_nonneg; lia|].
    change 4095 with (Z.ones 12). rewrite Z.land_ones by lia.
    apply Z.mod_pos_bound. lia. }
  split; [|exact Hm].
  unfold ft_update, ft_get. rewrite abs_as_code. cbv zeta. rewrite Z.geb_leb.
  destruct (Z.leb_spec 324 (Z.abs v)) as [Hbig|Hsmall].
  - replace (Z.abs v <? 324) with false by (symmetry; apply Z.ltb_ge; lia).
    rewrite andb_false_r. reflexivity.
  - replace (Z.abs v <? 324) with true by (symmetry; apply Z.ltb_lt; lia).
    rewrite andb_true_r, stat_set_set.
    rewrite stat_get_set; [reflexivity|lia|lia|].
    exists row. split; [exact Hrow|lia].
Qed.

(** X16. Inside the bounds a bonus never lowers a history cell and a
    malus never raises it. *)
Theorem hs_update_direction (hs : Stats) (pc : Z) (to : Square) (v : Value) :
  stats_within 10368 hs ->
  (0 <= v -> stat_get hs pc to <= stat_get (hs_update hs pc to v) pc to)
  /\ (v <= 0 -> stat_get (hs_update hs pc to v) pc to <= stat_get hs pc to).
Proof.
  intros Hs.
  pose proof (stat_get_within 10368 hs pc to ltac:(lia) Hs) as Hx.
  unfold hs_update. rewrite abs_as_code. cbv zeta. rewrite Z.geb_leb.
  destruct (Z.leb_spec 324 (Z.abs v)) as [Hbig|Hsmall]; [lia|].
  rewrite stat_set_set.
  assert (Hcell : stat_get (stat_set (fun x => x - Z.quot (x * Z.abs v) 324 + v * 32)
                                     hs pc to) pc to
                  = stat_get hs pc to
                    \/ stat_get (stat_set (fun x => x - Z.quot (x * Z.abs v) 324 + v * 32)
                                          hs pc to) pc to
                       = stat_get hs pc to
                         - Z.quot (stat_get hs pc to * Z.abs v) 324 + v * 32).
  { unfold stat_set, stat_get, Stats, Value in *.
    destruct ((pc <? 0) || (to <? 0)); [left; reflexivity|].
    rewrite list_lookup_alter_eq.
    destruct (hs !! Z.to_nat pc) as [row|]; simpl; [|left; reflexivity].
    rewrite list_lookup_alter_eq.
    destruct (row !! Z.to_nat to) as [x|]; simpl; [right|left]; reflexivity. }
  destruct Hcell as [-> | ->]; [lia|].
  set (x := stat_get hs pc to) in *.
  assert (Hq : - (32 * Z.abs v) <= Z.quot (x * Z.abs v) 324 <= 32 * Z.abs v).
  { destruct (Z.le_gt_cases 0 x).
    - rewrite Z.quot_div_nonneg by nia. split; [apply Z.le_trans with 0; [lia|]|].
      + apply Z.div_pos; nia.
      + apply Z.div_le_upper_bound; nia.
    - replace (x * Z.abs v) with (- (- x * Z.abs v)) by lia.
      rewrite Z.quot_opp_l by lia. rewrite Z.quot_div_nonneg by nia.
      assert (0 <= - x * Z.abs v / 324) by (apply Z.div_pos; nia).
      assert (- x * Z.abs v / 324 <= 32 * Z.abs v)
        by (apply Z.div_le_upper_bound; nia).
      lia. }
  lia.
Qed.

End Stats.

(** * Move kinds, material keys and table names *)

Section MoveKinds.
Context {E : Engine}.

(** X17. [is_capture_or_promotion] holds exactly of the captures in the
    sense of [is_capture] and of the promotions. Castling, encoded as
    "king captures the rook", is neither, whatever stands on the square
    it goes to; an en-passant capture is both a capture and a capture or
    promotion even when that square is empty. *)
Theorem is_capture_or_promotion_spec (pos : Pos) (m : Move) :
  is_capture_or_promotion pos m
  = is_capture pos m || MoveType_eqb (type_of_m m) PROMOTION
  /\ (type_of_m m = CASTLING ->
      is_capture_or_promotion pos m = false /\ is_capture pos m = false)
  /\ (type_of_m m = ENPASSANT ->
      is_capture_or_promotion pos m = true /\ is_capture pos m = true).
Proof.
  unfold is_capture_or_promotion, is_capture.
  destruct (type_of_m m) eqn:Ht; simpl;
    destruct (piece_on pos (to_sq m) =? 0);
    repeat split; intros; try discriminate; reflexivity.
Qed.

Lemma move_fields (x : Z) :
  Z.land x 4095 = x mod 4096
  /\ Z.land (Z.shiftr x 12) 3 = (x / 4096) mod 4
  /\ Z.shiftr x 14 = x / 16384.
Proof.
  change 4095 with (Z.ones 12). change 3 with (Z.ones 2).
  rewrite !Z.land_ones, !Z.shiftr_div_pow2 by lia. auto.
Qed.

Lemma underprom_fields (m k : Z) :
  Z.land (Z.shiftr m 12) 3 = 3 -> 1 <= k <= 3 ->
  Z.land (m - k * 4096) 4095 = Z.land m 4095
  /\ Z.land (Z.shiftr (m - k * 4096) 12) 3 = 3 - k
  /\ Z.shiftr (m - k * 4096) 14 = Z.shiftr m 14.
Proof.
  intros Hq Hk.
  destruct (move_fields m) as (Hlo & Hpr & Hhi). rewrite Hpr in Hq.
  destruct (move_fields (m - k * 4096)) as (-> & -> & ->). rewrite Hlo, Hhi.
  repeat split; Z.div_mod_to_equations; lia.
Qed.

Lemma move_of_fields (m m' : Z) :
  Z.land m' 4095 = Z.land m 4095 ->
  Z.shiftr m' 14 = Z.shiftr m 14 ->
  m' = m - (Z.land (Z.shiftr m 12) 3 - Z.land (Z.shiftr m' 12) 3) * 4096.
Proof.
  intros Hlo Hhi.
  destruct (move_fields m) as (E1 & E2 & E3).
  destruct (move_fields m') as (E1' & E2' & E3').
  rewrite E1, E1' in Hlo. rewrite E3, E3' in Hhi. rewrite E2, E2'.
  Z.div_mod_to_equations. lia.
Qed.

(** X27. [add_underprom_caps] leaves the moves it is given where they
    are and appends three moves for each capturing promotion among them,
    and nothing else. Where the capturing promotions given are queen
    promotions (3 in bits 12-13), the appended moves are exactly the
    moves that agree with one of them in the squares (bits 0-11) and in
    the bits from 14 up and hold 0, 1 or 2 in bits 12-13: the three
    under-promotions of each. *)
Theorem add_underprom_caps_spec (pos : Pos) (ms : list Move) :
  (forall m, In m ms -> type_of_m m = PROMOTION -> piece_on pos (to_sq m) <> 0 ->
     Z.land (Z.shiftr m 12) 3 = 3) ->
  take (length ms) (add_underprom_caps pos ms) = ms
  /\ length (add_underprom_caps pos ms)
     = (length ms
        + 3 * length (filter (fun m => MoveType_eqb (type_of_m m) PROMOTION
                                       && negb (piece_on pos (to_sq m) =? 0)%Z) ms))%nat
  /\ forall m',
       In m' (drop (length ms) (add_underprom_caps pos ms))
       <-> exists m,
             In m ms /\ type_of_m m = PROMOTION /\ piece_on pos (to_sq m) <> 0
             /\ Z.land m' 4095 = Z.land m 4095
             /\ Z.shiftr m' 14 = Z.shiftr m 14
             /\ 0 <= Z.land (Z.shiftr m' 12) 3 < 3.
Proof.
  intros Hq. unfold add_underprom_caps.
  split; [apply take_app_length|]. split.
  - rewrite length_app. f_equal.
    clear Hq. induction ms as [|m ms IH]; [reflexivity|].
    cbn [flat_map]. rewrite length_app, IH, filter_cons. unfold underprom_caps.
    destruct (MoveType_eqb (type_of_m m) PROMOTION
              && negb (piece_on pos (to_sq m) =? 0)); simpl; lia.
  - intros m'. rewrite drop_app_length, in_flat_map. split.
    + intros (m & Hin & Hm'). exists m. unfold underprom_caps in Hm'.
      destruct (MoveType_eqb (type_of_m m) PROMOTION) eqn:Ht; [|destruct Hm'].
      destruct (piece_on pos (to_sq m) =? 0) eqn:Hp; [destruct Hm'|].
      apply Z.eqb_neq in Hp.
      assert (Htm : type_of_m m = PROMOTION) by (destruct (type_of_m m); auto; discriminate).
      specialize (Hq m Hin Htm Hp).
      split; [exact Hin|]. split; [exact Htm|]. split; [exact Hp|].
      simpl in Hm'. change (Z.shiftl 1 12) with (1 * 4096) in Hm'.
      change (Z.shiftl 2 12) with (2 * 4096) in Hm'.
      change (Z.shiftl 3 12) with (3 * 4096) in Hm'.
      destruct Hm' as [<-|[<-|[<-|[]]]].
      * destruct (underprom_fields m 1 Hq ltac:(lia)) as (-> & -> & ->). lia.
      * destruct (underprom_fields m 2 Hq ltac:(lia)) as (-> & -> & ->). lia.
      * destruct (underprom_fields m 3 Hq ltac:(lia)) as (-> & -> & ->). lia.
    + intros (m & Hin & Htm & Hp & Hlo & Hhi & Hk). exists m. split; [exact Hin|].
      unfold underprom_caps. rewrite Htm. simpl MoveType_eqb.
      replace (piece_on pos (to_sq m) =? 0) with false
        by (symmetry; apply Z.eqb_neq; exact Hp).
      simpl. rewrite (move_of_fields m m' Hlo Hhi), (Hq m Hin Htm Hp).
      assert (Hc : Z.land (Z.shiftr m' 12) 3 = 2 \/ Z.land (Z.shiftr m' 12) 3 = 1
                   \/ Z.land (Z.shiftr m' 12) 3 = 0) by lia.
      destruct Hc as [-> | [-> | ->]]; simpl; auto.
Qed.

End MoveKinds.

Section KeyFacts.
Context {E : Engine} {C : Syzygy.TBCore}.

Lemma calc_key_from_counts (cnt : Z -> Z -> nat) (mirror : bool) :
  fold_left
    (fun key i =>
       (key + Syzygy.mat_key i
              * nth (Z.to_nat (Z.lxor i (if negb mirror then 0 else 8)))
                    ((fun pc => if (Z.land pc 7 =? 0) || (Z.land pc 7 =? 7) then 0
                                else Z.of_nat (cnt (Z.shiftr pc 3) (Z.land pc 7)))
                       <$> seqZ 0 16) 0) mod Syzygy.two64)
    (seqZ 1 14) 0
  = fold_left (fun k pt =>
                 (k + Syzygy.mat_key (pt + 8)
                      * Z.of_nat (cnt (Z.lxor (if negb mirror then WHITE else BLACK) 1) pt))
                 mod Syzygy.two64)
              [1; 2; 3; 4; 5; 6]
      (fold_left (fun k pt => (k + Syzygy.mat_key (pt + 0)
                                   * Z.of_nat (cnt (if negb mirror then WHITE else BLACK) pt))
                              mod Syzygy.two64)
                 [1; 2; 3; 4; 5; 6] 0).
Proof.
  assert (H14 : seqZ 1 14 = [1; 2; 3; 4; 5; 6; 7; 8; 9; 10; 11; 12; 13; 14])
    by reflexivity.
  assert (H16 : seqZ 0 16 = [0; 1; 2; 3; 4; 5; 6; 7; 8; 9; 10; 11; 12; 13; 14; 15])
    by reflexivity.
  rewrite H14, H16. clear H14 H16.
  destruct mirror; cbn [fold_left fmap list_fmap negb];
    repeat match goal with
           | |- context [nth ?i ?l 0] =>
             let v := eval cbv - [Z.of_nat] in (nth i l 0) in
             change (nth i l 0) with v
           | |- context [Syzygy.mat_key (?a + ?b)] =>
             let v := eval vm_compute in (a + b) in change (a + b) with v
           end;
    change (Z.lxor BLACK 1) with 0; change (Z.lxor WHITE 1) with 1;
    change BLACK with 1; change WHITE with 0;
    rewrite !Z.mul_0_r, !Z.add_0_r, !Z.mod_mod by (unfold Syzygy.two64; lia);
    reflexivity.
Qed.

(** X18. The two ways to a material key agree: [calc_key] of a position
    is [calc_key_from_pcs] of its piece counts, mirrored or not. *)
Theorem calc_key_from_pcs_of_pos (pos : Pos) (mirror : bool) :
  calc_key_from_pcs (pcs_of_pos pos) mirror = Syzygy.calc_key pos mirror.
Proof.
  exact (calc_key_from_counts (fun c pt => popcount (pieces_cp pos c pt)) mirror).
Qed.

(** X19. [prt_str] writes one letter for every piece of the two sides and
    the letter v between them, whichever side comes first: with the
    closing 0 the name of a position of up to 14 pieces fits the 16 bytes
    of [str]. *)
Theorem prt_str_length (pos : Pos) (mirror : bool) :
  length (Syzygy.prt_str pos mirror)
  = S (count_side pos WHITE + count_side pos BLACK)
  /\ ((count_side pos WHITE + count_side pos BLACK <= 14)%nat ->
      (S (length (Syzygy.prt_str pos mirror)) <= 16)%nat).
Proof.
  assert (Hside : forall c, length (Syzygy.prt_side pos c) = count_side pos c).
  { intros c. unfold Syzygy.prt_side, count_side. simpl.
    rewrite !length_app, !repeat_length. simpl. reflexivity. }
  assert (Hlen : length (Syzygy.prt_str pos mirror)
                 = S (count_side pos WHITE + count_side pos BLACK)).
  { unfold Syzygy.prt_str. rewrite !length_app, !Hside.
    destruct mirror; cbn [negb length];
      change (Z.lxor BLACK 1) with WHITE; change (Z.lxor WHITE 1) with BLACK;
      generalize (count_side pos WHITE), (count_side pos BLACK); intros a b; lia. }
  split; [exact Hlen|]. rewrite Hlen. lia.
Qed.

End KeyFacts.

(** * The registry under the table readers *)

Section RegistryFacts.
Context {E : Engine} {C : Syzygy.TBCore}.

(** What a successful [probe_wdl_table] of a position with more than the
    kings leaves behind: the slot it found, and behind it a loaded entry. *)
Lemma probe_wdl_table_loaded (pos : Pos) (st : St (Syzygy.Registry Syzygy.PairsData)) :
  success (snd (Syzygy.probe_wdl_table pos st)) <> 0 ->
  pos_material_key pos <> 2 ->
  exists i h ptr,
    Syzygy.find_slot Syzygy.HSHMAX 0 (Syzygy.bucket (tb st) (pos_material_key pos))
                     (pos_material_key pos) = Some (i, h)
    /\ Syzygy.entry_ready ptr = true
    /\ Syzygy.probe_wdl_table pos st
       = (let '(bside, mirror, cmirror) :=
            Syzygy.probe_side (Syzygy.entry_key ptr) (Syzygy.entry_symmetric ptr)
                              (pos_material_key pos) (pos_stm pos) in
          (Syzygy.wdl_lookup pos ptr bside mirror cmirror,
           mkSt (Syzygy.set_store (tb st) (Syzygy.hash_ptr h) ptr) (success st))).
Proof.
  intros Hs Hk. unfold Syzygy.probe_wdl_table in *.
  replace (pos_material_key pos =? 2) with false in *
    by (symmetry; apply Z.eqb_neq; exact Hk).
  destruct (Syzygy.find_slot _ _ _ _) as [[i h]|]; [|simpl in Hs; congruence].
  exists i, h.
  destruct (Syzygy.entry_ready (Syzygy.TB_store (tb st) (Syzygy.hash_ptr h))) eqn:Hr;
    cbn [negb] in *.
  - exists (Syzygy.TB_store (tb st) (Syzygy.hash_ptr h)). auto.
  - destruct (Syzygy.init_table_wdl _ _) as [ptr'|]; [|simpl in Hs; congruence].
    eexists. split; [reflexivity|]. split; [|reflexivity]. reflexivity.
Qed.


(** A probe that finds a loaded entry reads it. *)
Lemma probe_wdl_table_ready (pos : Pos) (st : St (Syzygy.Registry Syzygy.PairsData))
  (i : nat) (h : Syzygy.TBHashEntry) :
  pos_material_key pos <> 2 ->
  Syzygy.find_slot Syzygy.HSHMAX 0 (Syzygy.bucket (tb st) (pos_material_key pos))
                   (pos_material_key pos) = Some (i, h) ->
  Syzygy.entry_ready (Syzygy.TB_store (tb st) (Syzygy.hash_ptr h)) = true ->
  Syzygy.probe_wdl_table pos st
  = (let ptr := Syzygy.TB_store (tb st) (Syzygy.hash_ptr h) in
     let '(bside, mirror, cmirror) :=
       Syzygy.probe_side (Syzygy.entry_key ptr) (Syzygy.entry_symmetric ptr)
                         (pos_material_key pos) (pos_stm pos) in
     (Syzygy.wdl_lookup pos ptr bside mirror cmirror,
      mkSt (Syzygy.set_store (tb st) (Syzygy.hash_ptr h) ptr) (success st))).
Proof.
  intros Hk Hf Hr. unfold Syzygy.probe_wdl_table.
  replace (pos_material_key pos =? 2) with false
    by (symmetry; apply Z.eqb_neq; exact Hk).
  rewrite Hf. cbv zeta. rewrite Hr. reflexivity.
Qed.

End RegistryFacts.

Section LoadOnce.
Context {E : Engine} {C : Syzygy.TBCore}.

(** X20. A WDL table is loaded at most once. After a probe that ended
    with [success <> 0], probing any position of the same material reads
    the loaded entry: the answer is the same if [init_table_wdl] would
    fail from now on, and a second probe of the position itself gives the
    value of the first and leaves the slots and the DTZ cache alone. *)
Theorem probe_wdl_table_loads_once (pos pos' : Pos)
  (st : St (Syzygy.Registry Syzygy.PairsData)) :
  success (snd (Syzygy.probe_wdl_table pos st)) <> 0 ->
  pos_material_key pos' = pos_material_key pos ->
  let st1 := snd (Syzygy.probe_wdl_table pos st) in
  @Syzygy.probe_wdl_table E (without_files C) pos' st1
  = @Syzygy.probe_wdl_table E C pos' st1
  /\ fst (Syzygy.probe_wdl_table pos st1) = fst (Syzygy.probe_wdl_table pos st)
  /\ success (snd (Syzygy.probe_wdl_table pos st1)) = success st1
  /\ Syzygy.TB_hash (tb (snd (Syzygy.probe_wdl_table pos st1))) = Syzygy.TB_hash (tb st1)
  /\ Syzygy.DTZ_table (tb (snd (Syzygy.probe_wdl_table pos st1)))
     = Syzygy.DTZ_table (tb st1).
Proof.
  intros Hs Hk. cbv zeta.
  destruct (Z.eq_dec (pos_material_key pos) 2) as [H2|H2].
  { unfold Syzygy.probe_wdl_table. rewrite Hk, H2. simpl. auto. }
  destruct (probe_wdl_table_loaded pos st Hs H2) as (i & h & ptr & Hf & Hr & Hp).
  rewrite Hp.
  destruct (Syzygy.probe_side _ _ _ _) as [[bside mirror] cmirror] eqn:Hside.
  cbn [snd fst].
  set (st1 := mkSt (Syzygy.set_store (tb st) (Syzygy.hash_ptr h) ptr) (success st)).
  assert (Hf1 : Syzygy.find_slot Syzygy.HSHMAX 0
                  (Syzygy.bucket (tb st1) (pos_material_key pos))
                  (pos_material_key pos) = Some (i, h)) by exact Hf.
  assert (Hr1 : Syzygy.entry_ready (Syzygy.TB_store (tb st1) (Syzygy.hash_ptr h)) = true).
  { unfold st1, Syzygy.set_store. cbn [tb Syzygy.TB_store]. rewrite Nat.eqb_refl.
    exact Hr. }
  assert (Hptr : Syzygy.TB_store (tb st1) (Syzygy.hash_ptr h) = ptr).
  { unfold st1, Syzygy.set_store. cbn [tb Syzygy.TB_store]. rewrite Nat.eqb_refl.
    reflexivity. }
  split.
  - rewrite <- Hk in Hf1, H2.
    rewrite (@probe_wdl_table_ready E (without_files C) pos' st1 i h H2 Hf1 Hr1).
    rewrite (@probe_wdl_table_ready E C pos' st1 i h H2 Hf1 Hr1).
    reflexivity.
  - rewrite (@probe_wdl_table_ready E C pos st1 i h H2 Hf1 Hr1). cbv zeta.
    rewrite Hptr, Hside. cbn [fst snd tb success Syzygy.TB_hash Syzygy.DTZ_table].
    auto.
Qed.

End LoadOnce.

Section RegistryMore.
Context {E : Engine} {C : Syzygy.TBCore}.

Lemma find_slot_cleared (key : Key) (i0 : nat) (l : list Syzygy.TBHashEntry) :
  key <> 0 ->
  (forall j h', j <> i0 -> l !! j = Some h' -> Syzygy.hash_key h' <> key) ->
  forall n i,
  Syzygy.find_slot n i
    (alter (fun h => Syzygy.mkTBHashEntry 0 (Syzygy.hash_ptr h)) i0 l) key = None.
Proof.
  intros Hk Hother. induction n as [|n IH]; intros i; simpl; [reflexivity|].
  destruct (decide (i = i0)) as [->|Hne].
  - rewrite list_lookup_alter_eq.
    destruct (l !! i0) as [h|]; cbn [fmap option_fmap option_map Syzygy.hash_key];
      [|reflexivity].
    replace (0 =? key) with false by (symmetry; apply Z.eqb_neq; lia). apply IH.
  - rewrite list_lookup_alter_ne by congruence.
    destruct (l !! i) as [h|] eqn:Hl; [|reflexivity].
    replace (Syzygy.hash_key h =? key) with false
      by (symmetry; apply Z.eqb_neq; apply (Hother i h Hne Hl)).
    apply IH.
Qed.

(** X21. A table whose file cannot be loaded is taken out of the hash:
    when the entry found for a key (not that of K v K and not 0) is not
    ready and [init_table_wdl] fails, [probe_wdl_table] answers 0 with
    [success = 0] and zeroes the key of the slot it found; if no other
    slot of the bucket holds the key, every later probe of that material
    fails at the lookup and leaves the registry as it is. *)
Theorem probe_wdl_table_init_failure (pos : Pos)
  (st : St (Syzygy.Registry Syzygy.PairsData)) (i : nat) (h : Syzygy.TBHashEntry) :
  pos_material_key pos <> 2 ->
  pos_material_key pos <> 0 ->
  Syzygy.find_slot Syzygy.HSHMAX 0 (Syzygy.bucket (tb st) (pos_material_key pos))
                   (pos_material_key pos) = Some (i, h) ->
  Syzygy.entry_ready (Syzygy.TB_store (tb st) (Syzygy.hash_ptr h)) = false ->
  Syzygy.init_table_wdl (Syzygy.TB_store (tb st) (Syzygy.hash_ptr h))
    (Syzygy.prt_str pos
       (negb (Syzygy.entry_key (Syzygy.TB_store (tb st) (Syzygy.hash_ptr h))
              =? pos_material_key pos))) = None ->
  (forall j h', j <> i ->
     Syzygy.bucket (tb st) (pos_material_key pos) !! j = Some h' ->
     Syzygy.hash_key h' <> pos_material_key pos) ->
  Syzygy.probe_wdl_table pos st
  = (0, mkSt (Syzygy.clear_slot (tb st) (pos_material_key pos) i) 0)
  /\ forall s pos',
       pos_material_key pos' = pos_material_key pos ->
       Syzygy.probe_wdl_table pos'
         (mkSt (Syzygy.clear_slot (tb st) (pos_material_key pos) i) s)
       = (0, mkSt (Syzygy.clear_slot (tb st) (pos_material_key pos) i) 0).
Proof.
  intros H2 H0 Hf Hr Hinit Hother. split.
  - unfold Syzygy.probe_wdl_table.
    replace (pos_material_key pos =? 2) with false
      by (symmetry; apply Z.eqb_neq; exact H2).
    rewrite Hf. cbv zeta. rewrite Hr. cbn [negb]. rewrite Hinit. reflexivity.
  - intros s pos' Hk. unfold Syzygy.probe_wdl_table. rewrite Hk.
    replace (pos_material_key pos =? 2) with false
      by (symmetry; apply Z.eqb_neq; exact H2).
    assert (Hb : Syzygy.bucket
                   (tb (mkSt (Syzygy.clear_slot (tb st) (pos_material_key pos) i) s))
                   (pos_material_key pos)
                 = alter (fun h => Syzygy.mkTBHashEntry 0 (Syzygy.hash_ptr h)) i
                         (Syzygy.bucket (tb st) (pos_material_key pos))).
    { unfold Syzygy.bucket, Syzygy.clear_slot. cbn [tb Syzygy.TB_hash].
      rewrite Z.eqb_refl. reflexivity. }
    rewrite Hb, (find_slot_cleared _ _ _ H0 Hother). reflexivity.
Qed.

Lemma find_dtz_spec (tbl : list (Syzygy.DTZTableEntry Syzygy.PairsData)) (key : Key) :
  forall n i,
  match Syzygy.find_dtz n i tbl key with
  | Some k =>
    exists t, tbl !! k = Some t
              /\ (Syzygy.key1 t = key \/ Syzygy.key2 t = key)
  | None =>
    forall j t, (i <= j < i + n)%nat -> tbl !! j = Some t ->
                Syzygy.key1 t <> key /\ Syzygy.key2 t <> key
  end.
Proof.
  induction n as [|n IH]; intros i; simpl.
  - intros j t Hj. lia.
  - destruct (tbl !! i) as [t|] eqn:Hl.
    + destruct (Z.eqb_spec (Syzygy.key1 t) key) as [H1|H1]; simpl.
      { exists t. auto. }
      destruct (Z.eqb_spec (Syzygy.key2 t) key) as [Hk2|Hk2].
      { exists t. auto. }
      specialize (IH (S i)). destruct (Syzygy.find_dtz n (S i) tbl key); [exact IH|].
      intros j t' Hj Hl'. destruct (decide (j = i)) as [->|Hne].
      * rewrite Hl in Hl'. injection Hl' as <-. auto.
      * apply (IH j t'); [lia|exact Hl'].
    + intros j t Hj Hl'. apply lookup_lt_Some in Hl'. apply lookup_ge_None in Hl. lia.
Qed.


End RegistryMore.

Section ReaderFrames.
Context {E : Engine} {C : Syzygy.TBCore}.

Lemma dtz_to_front_frame (pos : Pos) (key : Key)
  (reg reg' : Syzygy.Registry Syzygy.PairsData) :
  Syzygy.dtz_to_front pos key reg = Some reg' ->
  Syzygy.TB_hash reg' = Syzygy.TB_hash reg
  /\ Syzygy.TB_store reg' = Syzygy.TB_store reg.
Proof.
  unfold Syzygy.dtz_to_front.
  destruct (Syzygy.DTZ_table reg !! 0%nat) as [t0|]; [|intros H; injection H as <-; auto].
  destruct (negb (Syzygy.key1 t0 =? key) && negb (Syzygy.key2 t0 =? key));
    [|intros H; injection H as <-; auto].
  destruct (Syzygy.find_dtz _ _ _ _) as [i|].
  - destruct (Syzygy.DTZ_table reg !! i); intros H; injection H as <-; auto.
  - destruct (Syzygy.find_slot _ _ _ _) as [[i h]|]; [|discriminate].
    intros H. injection H as <-. auto.
Qed.

(** X28. The two table readers keep to their own part of the registry
    and fail with 0: [probe_wdl_table] never touches [DTZ_table], and
    either leaves [success] as it is or sets it to 0 and answers 0;
    [probe_dtz_table] never touches [TB_hash] or the entries behind it,
    and either leaves [success] as it is or sets it to 0 or to -1 and
    answers 0. *)
Theorem table_readers_frame (pos : Pos) (wdl : Z)
  (st : St (Syzygy.Registry Syzygy.PairsData)) :
  (success (snd (Syzygy.probe_wdl_table pos st)) = success st
   \/ (success (snd (Syzygy.probe_wdl_table pos st)) = 0
       /\ fst (Syzygy.probe_wdl_table pos st) = 0))
  /\ Syzygy.DTZ_table (tb (snd (Syzygy.probe_wdl_table pos st)))
     = Syzygy.DTZ_table (tb st)
  /\ (success (snd (Syzygy.probe_dtz_table pos wdl st)) = success st
      \/ (success (snd (Syzygy.probe_dtz_table pos wdl st)) = 0
          /\ fst (Syzygy.probe_dtz_table pos wdl st) = 0)
      \/ (success (snd (Syzygy.probe_dtz_table pos wdl st)) = -1
          /\ fst (Syzygy.probe_dtz_table pos wdl st) = 0))
  /\ Syzygy.TB_hash (tb (snd (Syzygy.probe_dtz_table pos wdl st)))
     = Syzygy.TB_hash (tb st)
  /\ Syzygy.TB_store (tb (snd (Syzygy.probe_dtz_table pos wdl st)))
     = Syzygy.TB_store (tb st).
Proof.
  assert (Hw : (success (snd (Syzygy.probe_wdl_table pos st)) = success st
                \/ (success (snd (Syzygy.probe_wdl_table pos st)) = 0
                    /\ fst (Syzygy.probe_wdl_table pos st) = 0))
               /\ Syzygy.DTZ_table (tb (snd (Syzygy.probe_wdl_table pos st)))
                  = Syzygy.DTZ_table (tb st)).
  { unfold Syzygy.probe_wdl_table.
    destruct (pos_material_key pos =? 2); [cbn [fst snd success tb]; auto|].
    destruct (Syzygy.find_slot _ _ _ _) as [[i h]|];
      [|cbn [fst snd success tb set_success]; auto].
    destruct (negb (Syzygy.entry_ready _)).
    - destruct (Syzygy.init_table_wdl _ _) as [ptr'|].
      + destruct (Syzygy.probe_side _ _ _ _) as [[b m] c].
        cbn [fst snd success tb Syzygy.set_store Syzygy.DTZ_table]. auto.
      + cbn [fst snd success tb Syzygy.clear_slot Syzygy.DTZ_table]. auto.
    - destruct (Syzygy.probe_side _ _ _ _) as [[b m] c].
      cbn [fst snd success tb Syzygy.set_store Syzygy.DTZ_table]. auto. }
  destruct Hw as [Hw1 Hw2]. split; [exact Hw1|]. split; [exact Hw2|].
  unfold Syzygy.probe_dtz_table.
  destruct (Syzygy.dtz_to_front pos (pos_material_key pos) (tb st)) as [reg|] eqn:Hf;
    [|cbn [fst snd success tb set_success]; auto].
  destruct (dtz_to_front_frame _ _ _ _ Hf) as [Hh Hs].
  destruct (Syzygy.DTZ_table reg !! 0%nat) as [[k1 k2 [ptr|]]|];
    [|cbn [fst snd success tb]; auto|cbn [fst snd success tb]; auto].
  destruct (Syzygy.probe_side _ _ _ _) as [[b m] c].
  destruct (Syzygy.dtz_payload ptr) as [d flags map_idx|file flags map_idx].
  - destruct (negb (Z.land flags 1 =? b) && negb (Syzygy.dtz_symmetric ptr));
      cbn [fst snd success tb]; auto.
  - destruct (Syzygy.pawn_file _ _) as [f p0].
    destruct (negb (Z.land (flags f) 1 =? b)); cbn [fst snd success tb]; auto.
Qed.

End ReaderFrames.

(** * Walking over the squares of a bitboard *)

Section Bits.

Lemma pos_odd_part (p : positive) :
  exists k q, 0 <= k /\ 0 <= q /\ Z.pos p = (2 * q + 1) * 2 ^ k.
Proof.
  induction p as [p _|p (k & q & Hk & Hq & IH)|].
  - exists 0, (Z.pos p). repeat split; lia.
  - exists (k + 1), q. repeat split; try lia.
    rewrite Z.pow_add_r by lia. rewrite Pos2Z.inj_xO, IH. lia.
  - exists 0, 0. repeat split; lia.
Qed.

Lemma pred_bits (k q n : Z) :
  0 <= k -> 0 <= q -> 0 <= n ->
  Z.testbit ((2 * q + 1) * 2 ^ k - 1) n
  = if n <? k then true
    else if n =? k then false
         else Z.testbit ((2 * q + 1) * 2 ^ k) n.
Proof.
  intros Hk Hq Hn.
  assert (Hp : 0 < 2 ^ k) by (apply Z.pow_pos_nonneg; lia).
  replace ((2 * q + 1) * 2 ^ k - 1) with (2 * q * 2 ^ k + Z.ones k)
    by (rewrite Z.ones_equiv; lia).
  assert (Hones : 0 <= Z.ones k < 2 ^ k) by (rewrite Z.ones_equiv; lia).
  destruct (Z.ltb_spec n k) as [Hlt|Hge].
  - rewrite <- (Z.mod_pow2_bits_low _ k n) by lia.
    rewrite Z.add_comm, Z.mod_add by lia. rewrite Z.mod_small by lia.
    apply Z.ones_spec_low. lia.
  - replace n with (n - k + k) at 1 by lia.
    rewrite <- Z.div_pow2_bits by lia.
    rewrite Z.add_comm, Z.div_add by lia. rewrite Z.div_small by lia. simpl.
    destruct (Z.eqb_spec n k) as [->|Hne].
    + rewrite Z.sub_diag, Z.add_0_l. apply Z.testbit_even_0.
    + replace n with (k + (n - k)) at 2 by lia. rewrite Z.mul_pow2_bits_add by lia.
      replace (n - k) with (Z.succ (n - k - 1)) by lia. rewrite Z.add_0_l.
      rewrite Z.testbit_even_succ, Z.testbit_odd_succ by lia. reflexivity.
Qed.

Lemma lsb_spec (b : Bitboard) :
  0 < b ->
  0 <= Syzygy.lsb b
  /\ Z.testbit b (Syzygy.lsb b) = true
  /\ (forall j, 0 <= j < Syzygy.lsb b -> Z.testbit b j = false)
  /\ (forall n, 0 <= n ->
        Z.testbit (Z.land b (b - 1)) n = Z.testbit b n && negb (n =? Syzygy.lsb b)).
Proof.
  intros Hb. destruct b as [|p|p]; try lia.
  destruct (pos_odd_part p) as (k & q & Hk & Hq & ->).
  set (b := (2 * q + 1) * 2 ^ k).
  assert (Hlow : forall j, 0 <= j < k -> Z.testbit b j = false).
  { intros j Hj. unfold b. apply Z.mul_pow2_bits_low. lia. }
  assert (Hset : Z.testbit b k = true).
  { unfold b. replace k with (k + 0) at 2 by lia.
    rewrite Z.mul_pow2_bits_add by lia. apply Z.testbit_odd_0. }
  assert (Hlsb : Syzygy.lsb b = k).
  { unfold Syzygy.lsb.
    assert (Hl : Z.land b (- b) = 2 ^ k).
    { apply Z.bits_inj'. intros n Hn.
      rewrite Z.land_spec, Z.bits_opp, Z.pow2_bits_eqb by lia.
      replace (Z.pred b) with (b - 1) by lia. unfold b at 2.
      rewrite pred_bits by lia. fold b.
      destruct (Z.ltb_spec n k) as [Hlt|Hge].
      - rewrite Hlow by lia. destruct (Z.eqb_spec k n); [lia|reflexivity].
      - destruct (Z.eqb_spec n k) as [->|Hne].
        + rewrite Hset, Z.eqb_refl. reflexivity.
        + destruct (Z.eqb_spec k n); [lia|]. destruct (Z.testbit b n); reflexivity. }
    rewrite Hl. apply Z.log2_pow2. exact Hk. }
  rewrite Hlsb. split; [exact Hk|]. split; [exact Hset|]. split; [exact Hlow|].
  intros n Hn. rewrite Z.land_spec. unfold b at 2. rewrite pred_bits by lia. fold b.
  destruct (Z.ltb_spec n k) as [Hlt|Hge].
  - rewrite Hlow by lia. reflexivity.
  - destruct (Z.eqb_spec n k) as [->|Hne]; simpl.
    + rewrite andb_false_r. reflexivity.
    + rewrite andb_true_r. apply andb_diag.
Qed.

Lemma filter_none {A : Type} (P : A -> Prop) `{forall x, Decision (P x)} (l : list A) :
  Forall (fun x => ~ P x) l -> filter P l = [].
Proof.
  induction 1 as [|x l Hx _ IH]; [reflexivity|].
  rewrite filter_cons_False by exact Hx. exact IH.
Qed.

Lemma filter_ext_Forall {A : Type} (P Q : A -> Prop)
  `{forall x, Decision (P x)} `{forall x, Decision (Q x)} (l : list A) :
  Forall (fun x => P x <-> Q x) l -> filter P l = filter Q l.
Proof.
  induction 1 as [|x l Hx _ IH]; [reflexivity|].
  destruct (decide (P x)) as [HP|HP].
  - rewrite !filter_cons_True by tauto. f_equal. exact IH.
  - rewrite !filter_cons_False by tauto. exact IH.
Qed.

(** The squares of the set bits of [b] from [lo] up to 63. *)
Lemma bits_from_lsb (b : Bitboard) (lo : Z) :
  0 < b < 2 ^ 64 -> 0 <= lo ->
  (forall j, 0 <= j < lo -> Z.testbit b j = false) ->
  lo <= Syzygy.lsb b < 64
  /\ filter (fun i => Z.testbit b i = true) (seqZ lo (64 - lo))
     = Syzygy.lsb b
       :: filter (fun i => Z.testbit (Z.land b (b - 1)) i = true)
                 (seqZ (Syzygy.lsb b + 1) (64 - (Syzygy.lsb b + 1))).
Proof.
  intros Hb Hlo Hlow.
  destruct (lsb_spec b ltac:(lia)) as (Hk & Hset & Hmin & Hpop).
  set (k := Syzygy.lsb b) in *.
  assert (Hk64 : k < 64).
  { destruct (Z.lt_ge_cases k 64) as [|Hge]; [assumption|].
    rewrite Z.bits_above_log2 in Hset; [discriminate|lia|].
    apply Z.log2_lt_pow2; [lia|].
    apply Z.lt_le_trans with (2 ^ 64); [lia|]. apply Z.pow_le_mono_r; lia. }
  assert (Hlk : lo <= k).
  { destruct (Z.le_gt_cases lo k) as [|Hgt]; [assumption|].
    rewrite Hlow in Hset by lia. discriminate. }
  split; [lia|].
  replace (64 - lo) with ((k - lo) + (1 + (64 - (k + 1)))) by lia.
  rewrite seqZ_app by lia. rewrite list.filter_app.
  rewrite (filter_none _ (seqZ lo (k - lo))).
  2:{ apply Forall_seqZ. intros j Hj. rewrite Hmin by lia. discriminate. }
  replace (lo + (k - lo)) with k by lia.
  rewrite seqZ_app by lia. rewrite list.filter_app.
  change (seqZ k 1) with [k].
  rewrite filter_cons_True by exact Hset. rewrite filter_nil. simpl. f_equal.
  apply filter_ext_Forall. apply Forall_seqZ. intros j Hj.
  rewrite Hpop by lia. destruct (Z.eqb_spec j k); [lia|].
  rewrite andb_true_r. reflexivity.
Qed.

Lemma pop_squares_bits (mirror : Z) (fuel : nat) :
  forall (b : Bitboard) (lo : Z),
  0 < b < 2 ^ 64 -> 0 <= lo ->
  (forall j, 0 <= j < lo -> Z.testbit b j = false) ->
  (length (filter (fun i => Z.testbit b i = true) (seqZ lo (64 - lo))) <= fuel)%nat ->
  Syzygy.pop_squares fuel b mirror
  = (fun s => Z.lxor s mirror)
      <$> filter (fun i => Z.testbit b i = true) (seqZ lo (64 - lo)).
Proof.
  induction fuel as [|fuel IH]; intros b lo Hb Hlo Hlow Hlen.
  - destruct (bits_from_lsb b lo Hb Hlo Hlow) as [_ Heq]. rewrite Heq in Hlen.
    simpl in Hlen. lia.
  - destruct (bits_from_lsb b lo Hb Hlo Hlow) as [Hk Heq].
    destruct (lsb_spec b ltac:(lia)) as (_ & Hset & Hmin & Hpop).
    rewrite Heq in Hlen |- *. simpl in Hlen.
    cbn [Syzygy.pop_squares Syzygy.pop_lsb]. rewrite fmap_cons. f_equal.
    destruct (Z.eqb_spec (Z.land b (b - 1)) 0) as [Hz|Hnz].
    + rewrite Hz. rewrite filter_none; [reflexivity|].
      apply Forall_seqZ. intros j Hj. rewrite Z.bits_0. discriminate.
    + assert (Hnn : 0 <= Z.land b (b - 1)) by (apply Z.land_nonneg; lia).
      assert (Hle : Z.land b (b - 1) < 2 ^ 64).
      { destruct (Z.eq_dec (Z.land b (b - 1)) 0) as [|Hne]; [lia|].
        apply Z.log2_lt_pow2; [lia|].
        pose proof (Z.log2_land b (b - 1) ltac:(lia) ltac:(lia)) as Hl.
        assert (Z.log2 b < 64) by (apply Z.log2_lt_pow2; lia).
        lia. }
      rewrite (IH (Z.land b (b - 1)) (Syzygy.lsb b + 1)); [reflexivity|lia|lia| |lia].
      intros j Hj. rewrite Hpop by lia.
      destruct (Z.eqb_spec j (Syzygy.lsb b)) as [->|Hne].
      * rewrite andb_false_r. reflexivity.
      * rewrite Hmin by lia. reflexivity.
Qed.

(** X23. For a bitboard with at least one piece the loop
    [do { p[i++] = pop_lsb(&bb) ^ mirror; } while (bb);] writes the
    squares of the set bits in ascending order, each xor [mirror]: as
    many squares as [popcount] counts. *)
Theorem pop_squares_spec (bb : Bitboard) (mirror : Z) :
  0 < bb < 2 ^ 64 ->
  Syzygy.pop_squares 64 bb mirror
  = (fun s => Z.lxor s mirror)
      <$> filter (fun i => Z.testbit bb i = true) (seqZ 0 64)
  /\ length (Syzygy.pop_squares 64 bb mirror) = popcount bb.
Proof.
  intros Hb.
  assert (H : Syzygy.pop_squares 64 bb mirror
              = (fun s => Z.lxor s mirror)
                  <$> filter (fun i => Z.testbit bb i = true) (seqZ 0 (64 - 0))).
  { apply pop_squares_bits; [exact Hb|lia|intros j Hj; lia|].
    etransitivity; [apply length_filter|]. rewrite length_seqZ. lia. }
  split; [exact H|]. rewrite H, length_fmap. reflexivity.
Qed.

End Bits.

(** * The probes return *)

Section Returns.
Context {E : Engine} {T : Tablebase E}.
Variable Inv : Pos -> Prop.

Hypothesis inv_move : forall p m,
  Inv p -> is_legal p m = true -> Inv (do_move p m).
Hypothesis capture_takes_a_piece : forall p m,
  Inv p -> is_capture p m = true -> is_legal p m = true ->
  (popcount (pieces (do_move p m)) < popcount (pieces p))%nat.

(** X25. Where every legal capture takes a piece off the board, the
    capture searches end: [probe_ab], [TB_probe_wdl] and
    [TB_root_probe_wdl] return a result, the depth of the recursion of
    [probe_ab] being at most the number of pieces. *)
Theorem wdl_probes_return (pos : Pos) (alpha beta : Z) (rm : list ExtMove)
  (st : St TB) :
  Inv pos ->
  (forall e, In e rm -> is_legal pos (move e) = true) ->
  (exists r, probe_ab_fuel (S (popcount (pieces pos))) pos alpha beta st = Some r)
  /\ (exists r, probe_ab pos alpha beta st = Some r)
  /\ (exists r, TB_probe_wdl pos st = Some r)
  /\ (exists r, TB_root_probe_wdl pos rm st = Some r).
Proof.
  intros HI Hrm.
  split; [apply (probe_ab_total Inv inv_move capture_takes_a_piece); exact HI|].
  split; [apply (probe_ab_total Inv inv_move capture_takes_a_piece); exact HI|].
  split; [apply (TB_probe_wdl_total Inv inv_move capture_takes_a_piece); exact HI|].
  apply (TB_root_probe_wdl_total Inv inv_move capture_takes_a_piece); assumption.
Qed.

Hypothesis wdl_frame : forall p st,
  success (snd (probe_wdl_table p st)) = success st
  \/ success (snd (probe_wdl_table p st)) = 0.
Hypothesis other_side_after_move : forall p m w st w' st',
  Inv p ->
  dtz_skips p m = false ->
  success (snd (probe_dtz_table p w st)) < 0 ->
  0 <= success st' ->
  0 <= success (snd (probe_dtz_table (do_move p m) w' st')).

(** X26. Where, besides, [probe_wdl_table] leaves [success] as it is or
    sets it to 0, and a position whose DTZ table is stored for the other
    side ([success < 0]) is followed after every quiet move of a piece by
    positions whose table is stored for the side to move,
    [TB_probe_dtz] calls itself at most one level deep: with room for two
    levels it returns, more room does not change its answer, and
    [TB_root_probe] returns. *)
Theorem dtz_probes_return (pos : Pos) (rm : list ExtMove) (st : St TB) :
  Inv pos ->
  (forall e, In e rm -> is_legal pos (move e) = true) ->
  (exists r, TB_probe_dtz 2 pos st = Some r
             /\ forall fuel, TB_probe_dtz (2 + fuel) pos st = Some r)
  /\ (exists r, TB_root_probe 2 pos rm st = Some r).
Proof.
  intros HI Hrm. split.
  - destruct (TB_probe_dtz_total Inv inv_move capture_takes_a_piece wdl_frame
                other_side_after_move 0 pos st HI) as [r Hr].
    exists r. split; [exact Hr|].
    induction fuel as [|fuel IH]; [exact Hr|].
    replace (2 + S fuel)%nat with (S (2 + fuel)) by lia.
    apply TB_probe_dtz_mono. exact IH.
  - apply (TB_root_probe_total Inv inv_move capture_takes_a_piece wdl_frame
             other_side_after_move 0); assumption.
Qed.

End Returns.

(** * Reflected bitboards *)

Section FlipBits.

Lemma flip_term_testbit (b : Bitboard) (r i : Z) :
  0 <= r < 8 -> 0 <= i ->
  Z.testbit (Z.shiftl (Z.land (Z.shiftr b (8 * r)) 255) (8 * (7 - r))) i
  = (8 * (7 - r) <=? i) && (i <? 8 * (7 - r) + 8)
    && Z.testbit b (i - 8 * (7 - r) + 8 * r).
Proof.
  intros Hr Hi. rewrite Z.shiftl_spec by exact Hi.
  rewrite Z.land_spec. change 255 with (Z.ones 8). rewrite Z.testbit_ones by lia.
  destruct (Z.leb_spec (8 * (7 - r)) i) as [Hle|Hlt].
  - rewrite Z.shiftr_spec by lia.
    replace (0 <=? i - 8 * (7 - r)) with true by (symmetry; apply Z.leb_le; lia).
    replace (i - 8 * (7 - r) <? 8) with (i <? 8 * (7 - r) + 8)
      by (destruct (Z.ltb_spec i (8 * (7 - r) + 8)),
                   (Z.ltb_spec (i - 8 * (7 - r)) 8); lia).
    cbn [andb]. apply andb_comm.
  - replace (0 <=? i - 8 * (7 - r)) with false by (symmetry; apply Z.leb_gt; lia).
    cbn [andb]. apply andb_false_r.
Qed.

(** Bit [i] of the reflected board is bit [i ^ 0x38] of the board. *)
Lemma flip_vertical_testbit (b : Bitboard) (i : Z) :
  0 <= i < 64 ->
  Z.testbit (flip_vertical b) i = Z.testbit b (Z.lxor i 56).
Proof.
  intros Hi. unfold flip_vertical. cbn [fold_left].
  rewrite !Z.lor_spec, Z.bits_0.
  rewrite (flip_term_testbit b 0), (flip_term_testbit b 1), (flip_term_testbit b 2),
    (flip_term_testbit b 3), (flip_term_testbit b 4), (flip_term_testbit b 5),
    (flip_term_testbit b 6), (flip_term_testbit b 7) by lia.
  assert (Hin : In i (seqZ 0 64)).
  { apply list_elem_of_In, elem_of_seqZ. lia. }
  clear Hi. vm_compute in Hin.
  repeat (destruct Hin as [<-|Hin];
          [cbv - [Z.testbit orb andb]; cbn [andb orb]; rewrite ?orb_false_r;
           reflexivity|]).
  destruct Hin.
Qed.


Lemma popcount_squares (b : Bitboard) : popcount b = length (squares b).
Proof. reflexivity. Qed.

Lemma filter_fmap_comm {A B : Type} (f : A -> B) (P : B -> Prop)
  `{forall x, Decision (P x)} (l : list A) :
  f <$> filter (fun x => P (f x)) l = filter P (f <$> l).
Proof.
  induction l as [|x l IH]; [reflexivity|].
  rewrite fmap_cons, !filter_cons. destruct (decide (P (f x))).
  - rewrite fmap_cons, IH. reflexivity.
  - exact IH.
Qed.

Lemma lxor56_board (i : Z) :
  0 <= i < 64 ->
  0 <= Z.lxor i 56 < 64 /\ Z.shiftr (Z.lxor i 56) 3 = 7 - Z.shiftr i 3
  /\ 0 <= Z.shiftr i 3 < 8.
Proof.
  intros Hi. assert (Hin : In i (seqZ 0 64)).
  { apply list_elem_of_In, elem_of_seqZ. lia. }
  clear Hi. vm_compute in Hin.
  repeat (destruct Hin as [<-|Hin]; [vm_compute; repeat split; congruence|]).
  destruct Hin.
Qed.

Lemma lxor56_involutive (s : Z) : Z.lxor (Z.lxor s 56) 56 = s.
Proof. rewrite Z.lxor_assoc, Z.lxor_nilpotent, Z.lxor_0_r. reflexivity. Qed.

Lemma reflect_involutive (p : list Z) : reflect (reflect p) = p.
Proof.
  unfold reflect. rewrite <- list_fmap_compose. rewrite <- (list_fmap_id p) at 2.
  apply list_fmap_ext. intros i x _. apply lxor56_involutive.
Qed.

Lemma reflect_board_perm : reflect (seqZ 0 64) ≡ₚ seqZ 0 64.
Proof. refine (bool_decide_unpack _ _). vm_compute. exact I. Qed.

Lemma squares_on_board (b : Bitboard) : Forall (fun s => 0 <= s < 64) (squares b).
Proof.
  apply Forall_forall. intros s Hs. apply list_elem_of_In in Hs.
  apply list_elem_of_filter in Hs. destruct Hs as [_ Hs].
  apply elem_of_seqZ in Hs. lia.
Qed.

(** The squares of the reflected board, reflected back, are the squares
    of the board taken from the board in reflected order. *)
Lemma reflect_squares_flip (b : Bitboard) :
  reflect (squares (flip_vertical b))
  = filter (fun i => Z.testbit b i = true) (reflect (seqZ 0 64)).
Proof.
  unfold squares, reflect. rewrite <- filter_fmap_comm. f_equal.
  apply filter_ext_Forall. apply Forall_seqZ. intros i Hi.
  rewrite flip_vertical_testbit by lia. reflexivity.
Qed.

Lemma reflect_squares_flip_perm (b : Bitboard) :
  reflect (squares (flip_vertical b)) ≡ₚ squares b.
Proof.
  rewrite reflect_squares_flip. unfold squares.
  apply filter_Permutation. apply reflect_board_perm.
Qed.

Lemma squares_flip_perm (b : Bitboard) :
  squares (flip_vertical b) ≡ₚ reflect (squares b).
Proof.
  rewrite <- (reflect_involutive (squares (flip_vertical b))).
  unfold reflect at 1 3. apply fmap_Permutation. apply reflect_squares_flip_perm.
Qed.

Lemma popcount_flip_vertical (b : Bitboard) : popcount (flip_vertical b) = popcount b.
Proof.
  rewrite !popcount_squares.
  rewrite <- (Permutation_length (reflect_squares_flip_perm b)).
  unfold reflect. rewrite length_fmap. reflexivity.
Qed.

Lemma rank_filter_board (r : Z) :
  filter (fun s => Z.shiftr s 3 = r) (reflect (seqZ 0 64))
  = filter (fun s => Z.shiftr s 3 = r) (seqZ 0 64).
Proof.
  destruct (decide (0 <= r < 8)) as [Hr|Hr].
  - assert (Hin : In r (seqZ 0 8)).
    { apply list_elem_of_In, elem_of_seqZ. lia. }
    clear Hr. vm_compute in Hin.
    repeat (destruct Hin as [<-|Hin]; [vm_compute; reflexivity|]).
    destruct Hin.
  - rewrite !filter_none; [reflexivity| |].
    + apply Forall_seqZ. intros s Hs.
      destruct (lxor56_board s ltac:(lia)) as (_ & _ & Hk). lia.
    + unfold reflect. apply Forall_fmap, Forall_seqZ. intros s Hs. simpl.
      destruct (lxor56_board s ltac:(lia)) as (_ & Hk & Hk'). lia.
Qed.

Lemma filter_filter_comm {A : Type} (P Q : A -> Prop)
  `{forall x, Decision (P x)} `{forall x, Decision (Q x)} (l : list A) :
  filter P (filter Q l) = filter Q (filter P l).
Proof.
  rewrite !list_filter_filter. apply filter_ext_Forall.
  apply Forall_forall. intros x _. tauto.
Qed.

(** The squares of a rank come in the same order from the board and from
    the reflected board. *)
Lemma rank_filter_flip (b : Bitboard) (r : Z) :
  filter (fun s => Z.shiftr s 3 = r) (reflect (squares (flip_vertical b)))
  = filter (fun s => Z.shiftr s 3 = r) (squares b).
Proof.
  rewrite reflect_squares_flip. unfold squares.
  rewrite (filter_filter_comm (fun s => Z.shiftr s 3 = r)).
  rewrite rank_filter_board.
  apply (filter_filter_comm (fun i => Z.testbit b i = true)).
Qed.

Lemma lor_below (a b n : Z) :
  0 < n -> 0 <= a < 2 ^ n -> 0 <= b < 2 ^ n -> 0 <= Z.lor a b < 2 ^ n.
Proof.
  intros Hn Ha Hb.
  assert (H0 : 0 <= Z.lor a b) by (apply Z.lor_nonneg; lia).
  split; [exact H0|].
  destruct (Z.eq_dec (Z.lor a b) 0) as [->|Hne]; [lia|].
  apply Z.log2_lt_pow2; [lia|]. rewrite Z.log2_lor by lia.
  assert (Hl : forall x, 0 <= x < 2 ^ n -> Z.log2 x < n).
  { intros x Hx. destruct (Z.eq_dec x 0) as [->|Hx0]; [simpl; lia|].
    apply Z.log2_lt_pow2; lia. }
  pose proof (Hl a Ha). pose proof (Hl b Hb). lia.
Qed.

Lemma flip_vertical_range (b : Bitboard) : 0 <= flip_vertical b < 2 ^ 64.
Proof.
  unfold flip_vertical. cbn [fold_left].
  assert (Ht : forall r, 0 <= r < 8 ->
            0 <= Z.shiftl (Z.land (Z.shiftr b (8 * r)) 255) (8 * (7 - r)) < 2 ^ 64).
  { intros r Hr.
    assert (Hl : 0 <= Z.land (Z.shiftr b (8 * r)) 255 < 2 ^ 8).
    { split; [apply Z.land_nonneg; lia|].
      change 255 with (Z.ones 8). rewrite Z.land_ones by lia.
      apply Z.mod_pos_bound. lia. }
    rewrite Z.shiftl_mul_pow2 by lia. split; [apply Z.mul_nonneg_nonneg; lia|].
    apply Z.lt_le_trans with (2 ^ 8 * 2 ^ (8 * (7 - r))).
    - apply Z.mul_lt_mono_pos_r; [apply Z.pow_pos_nonneg; lia|lia].
    - rewrite <- Z.pow_add_r by lia. apply Z.pow_le_mono_r; lia. }
  repeat (apply lor_below; [lia| |apply Ht; lia]). lia.
Qed.

Lemma flip_vertical_pos (b : Bitboard) :
  0 < b < 2 ^ 64 -> 0 < flip_vertical b < 2 ^ 64.
Proof.
  intros Hb. pose proof (flip_vertical_range b) as Hr.
  assert (Hne : flip_vertical b <> 0); [|lia].
  intros Hz.
  assert (Hl : 0 <= Z.log2 b < 64).
  { split; [apply Z.log2_nonneg|]. apply Z.log2_lt_pow2; lia. }
  destruct (lxor56_board (Z.log2 b) Hl) as (Hx & _ & _).
  pose proof (flip_vertical_testbit b (Z.lxor (Z.log2 b) 56) Hx) as Ht.
  rewrite lxor56_involutive, Hz, Z.bits_0, Z.bit_log2 in Ht by lia.
  discriminate Ht.
Qed.

Lemma pop_squares_squares (b : Bitboard) (mirror : Z) :
  0 < b < 2 ^ 64 ->
  Syzygy.pop_squares 64 b mirror = (fun s => Z.lxor s mirror) <$> squares b.
Proof.
  intros Hb. unfold squares.
  change (seqZ 0 64) with (seqZ 0 (64 - 0)).
  apply pop_squares_bits; [exact Hb|lia|intros j Hj; lia|].
  etransitivity; [apply length_filter|]. rewrite length_seqZ. lia.
Qed.

(** The two lists of lines 156-162 for a board and its reflection, read
    with [mirror] and [mirror ^ 0x38]. *)
Lemma pop_squares_flip (b : Bitboard) (mirror : Z) :
  0 < b < 2 ^ 64 ->
  Syzygy.pop_squares 64 (flip_vertical b) (Z.lxor mirror 56)
  = (fun s => Z.lxor s mirror) <$> reflect (squares (flip_vertical b)).
Proof.
  intros Hb. rewrite pop_squares_squares by (apply flip_vertical_pos; exact Hb).
  unfold reflect. rewrite <- list_fmap_compose. apply list_fmap_ext.
  intros i s _. simpl. rewrite (Z.lxor_comm mirror 56), Z.lxor_assoc. reflexivity.
Qed.

End FlipBits.

(** * The boards and names of mirrored positions *)

Section MirroredBoards.
Context {E : Engine} {C : Syzygy.TBCore}.

Lemma mirrored_stm (p q : Pos) :
  color_mirrored p q = true -> pos_stm q = Z.lxor (pos_stm p) 1.
Proof.
  unfold color_mirrored. intros H. apply andb_true_iff in H. destruct H as [H _].
  apply Z.eqb_eq in H. exact H.
Qed.

Lemma mirrored_pieces (p q : Pos) (c pt : Z) :
  color_mirrored p q = true -> In c [0; 1] -> In pt [1; 2; 3; 4; 5; 6] ->
  pieces_cp q c pt = flip_vertical (pieces_cp p (Z.lxor c 1) pt).
Proof.
  unfold color_mirrored. intros H Hc Hpt. apply andb_true_iff in H. destruct H as [_ H].
  rewrite forallb_forall in H. specialize (H c Hc).
  rewrite forallb_forall in H. specialize (H pt Hpt).
  apply Z.eqb_eq in H. exact H.
Qed.

Lemma mirrored_popcount (p q : Pos) (c pt : Z) :
  color_mirrored p q = true -> In c [0; 1] -> In pt [1; 2; 3; 4; 5; 6] ->
  popcount (pieces_cp q c pt) = popcount (pieces_cp p (Z.lxor c 1) pt).
Proof.
  intros H Hc Hpt. rewrite (mirrored_pieces p q c pt H Hc Hpt).
  apply popcount_flip_vertical.
Qed.

Lemma mirrored_calc_key (p q : Pos) (mirror : bool) :
  color_mirrored p q = true ->
  Syzygy.calc_key q mirror = Syzygy.calc_key p (negb mirror).
Proof.
  intros H. unfold Syzygy.calc_key. cbn [fold_left].
  destruct mirror; cbn [negb]; unfold WHITE, BLACK;
    change (Z.lxor 1 1) with 0; change (Z.lxor 0 1) with 1;
    rewrite !(mirrored_popcount p q) by (exact H || (simpl; tauto));
    change (Z.lxor 1 1) with 0; change (Z.lxor 0 1) with 1; reflexivity.
Qed.

Lemma mirrored_prt_str (p q : Pos) (mirror : bool) :
  color_mirrored p q = true ->
  Syzygy.prt_str q mirror = Syzygy.prt_str p (negb mirror).
Proof.
  intros H. unfold Syzygy.prt_str, Syzygy.prt_side. cbn [flat_map].
  destruct mirror; cbn [negb]; unfold WHITE, BLACK;
    change (Z.lxor 1 1) with 0; change (Z.lxor 0 1) with 1;
    rewrite !(mirrored_popcount p q) by (exact H || (simpl; tauto));
    change (Z.lxor 1 1) with 0; change (Z.lxor 0 1) with 1; reflexivity.
Qed.

Lemma piece_code_cases (c : Z) :
  piece_code c -> In c [1; 2; 3; 4; 5; 6; 9; 10; 11; 12; 13; 14].
Proof.
  intros [Hc Ht]. remember (Z.land c 7) as t eqn:Et.
  assert (Hin : In c (seqZ 0 16)).
  { apply list_elem_of_In, elem_of_seqZ. lia. }
  clear Hc. vm_compute in Hin.
  repeat (destruct Hin as [<-|Hin];
          [vm_compute in Et; first [exfalso; lia | simpl; auto 20]|]).
  destruct Hin.
Qed.

(** [(pc ^ cmirror ^ 8) >> 3] is the other colour. *)
Lemma code_colour (c cm : Z) :
  piece_code c -> cm = 0 \/ cm = 8 ->
  In (Z.shiftr (Z.lxor c (Z.lxor cm 8)) 3) [0; 1]
  /\ In (Z.land c 7) [1; 2; 3; 4; 5; 6]
  /\ Z.lxor (Z.shiftr (Z.lxor c (Z.lxor cm 8)) 3) 1 = Z.shiftr (Z.lxor c cm) 3
  /\ In (Z.shiftr (Z.lxor c cm) 3) [0; 1]
  /\ Z.land (Z.lxor c cm) 7 = Z.land c 7.
Proof.
  intros Hc Hcm. apply piece_code_cases in Hc.
  destruct Hcm as [-> | ->];
    repeat (destruct Hc as [<-|Hc]; [vm_compute; auto 10|]); destruct Hc.
Qed.

Lemma mirrored_code_bb (p q : Pos) (cm c : Z) :
  color_mirrored p q = true -> piece_code c -> cm = 0 \/ cm = 8 ->
  code_bb q (Z.lxor cm 8) c = flip_vertical (code_bb p cm c).
Proof.
  intros H Hc Hcm. unfold code_bb.
  destruct (code_colour c cm Hc Hcm) as (Hq & Hpt & Hx & _ & _).
  rewrite (mirrored_pieces p q _ _ H Hq Hpt), Hx. reflexivity.
Qed.

End MirroredBoards.

(** * The square lists of lines 139-144 and 150-162 *)

Section FillSquares.
Context {E : Engine} {C : Syzygy.TBCore}.

Lemma pop_squares_length_pos (fuel : nat) (bb : Bitboard) (m : Z) :
  (0 < length (Syzygy.pop_squares (S fuel) bb m))%nat.
Proof.
  cbn [Syzygy.pop_squares]. destruct (Syzygy.pop_lsb bb). cbn [length]. lia.
Qed.

Lemma popcount_pos (bb : Bitboard) : 0 < bb < 2 ^ 64 -> (0 < popcount bb)%nat.
Proof.
  intros Hb. rewrite popcount_squares, <- (length_fmap (fun s => Z.lxor s 0)).
  rewrite <- pop_squares_squares by exact Hb.
  apply (pop_squares_length_pos 63).
Qed.

Lemma fill_squares_done (fuel : nat) (pos : Pos) (pc : list Z) (cm m : Z)
  (num : nat) (p : list Z) :
  (num <= length p)%nat ->
  Syzygy.fill_squares fuel pos pc cm m num p = p.
Proof.
  intros Hle. destruct fuel; [reflexivity|]. cbn [Syzygy.fill_squares].
  replace (length p <? num)%nat with false; [reflexivity|].
  symmetry. apply Nat.ltb_ge. exact Hle.
Qed.

(** Where the piece list from the cell [length p0] on is made of the runs
    of [codes], the loop appends the squares of each code. *)
Lemma fill_squares_runs (pos : Pos) (cm m : Z) (codes : list Z) :
  forall (fuel : nat) (pre p0 : list Z),
  length p0 = length pre ->
  (length codes <= fuel)%nat ->
  Forall (fun c => 0 < code_bb pos cm c < 2 ^ 64) codes ->
  Syzygy.fill_squares fuel pos (pre ++ piece_runs pos cm codes) cm m
    (length (pre ++ piece_runs pos cm codes)) p0
  = p0 ++ flat_map (fun c => Syzygy.pop_squares 64 (code_bb pos cm c) m) codes.
Proof.
  induction codes as [|c codes IH]; intros fuel pre p0 Hlen Hfuel Hok.
  - cbn [piece_runs flat_map]. rewrite !app_nil_r.
    apply fill_squares_done. lia.
  - destruct fuel as [|fuel]; [simpl in Hfuel; lia|].
    apply Forall_cons_1 in Hok. destruct Hok as [Hc Hok].
    assert (Hn : length (Syzygy.pop_squares 64 (code_bb pos cm c) m)
                 = popcount (code_bb pos cm c)).
    { rewrite pop_squares_squares by exact Hc. rewrite length_fmap. reflexivity. }
    assert (Hpos : (0 < popcount (code_bb pos cm c))%nat)
      by (apply popcount_pos; exact Hc).
    cbn [Syzygy.fill_squares piece_runs flat_map].
    fold (piece_runs pos cm codes).
    replace (length p0 <? length (pre ++ replicate (popcount (code_bb pos cm c)) c
                                      ++ piece_runs pos cm codes))%nat with true.
    2:{ symmetry. apply Nat.ltb_lt. rewrite !length_app, length_replicate. lia. }
    assert (Hnth : nth (length p0)
                     (pre ++ replicate (popcount (code_bb pos cm c)) c
                          ++ piece_runs pos cm codes) 0 = c).
    { rewrite Hlen, app_nth2 by lia. rewrite Nat.sub_diag.
      destruct (popcount (code_bb pos cm c)); [lia|reflexivity]. }
    rewrite Hnth. fold (code_bb pos cm c).
    rewrite (app_assoc pre).
    rewrite (IH fuel (pre ++ replicate (popcount (code_bb pos cm c)) c)
               (p0 ++ Syzygy.pop_squares 64 (code_bb pos cm c) m)).
    + rewrite <- app_assoc. reflexivity.
    + rewrite !length_app, length_replicate. lia.
    + simpl in Hfuel. lia.
    + exact Hok.
Qed.

Lemma piece_runs_length (pos : Pos) (cm : Z) (codes : list Z) :
  Forall (fun c => 0 < code_bb pos cm c < 2 ^ 64) codes ->
  (length codes <= length (piece_runs pos cm codes))%nat.
Proof.
  induction 1 as [|c codes Hc _ IH]; [simpl; lia|].
  cbn [piece_runs flat_map]. fold (piece_runs pos cm codes).
  rewrite length_app, length_replicate.
  pose proof (popcount_pos _ Hc). simpl. lia.
Qed.

End FillSquares.

(** * The square lists of a position and of its mirror *)

Section ZipRuns.

Lemma fmap_flat_map {A B D : Type} (f : B -> D) (G : A -> list B) (l : list A) :
  f <$> flat_map G l = flat_map (fun c => f <$> G c) l.
Proof.
  induction l as [|x l IH]; [reflexivity|].
  cbn [flat_map]. rewrite fmap_app, IH. reflexivity.
Qed.

Lemma length_flat_map_eq {A B D : Type} (G : A -> list B) (G' : A -> list D)
  (l : list A) :
  Forall (fun c => length (G' c) = length (G c)) l ->
  length (flat_map G' l) = length (flat_map G l).
Proof.
  induction 1 as [|x l Hx _ IH]; [reflexivity|].
  cbn [flat_map]. rewrite !length_app, Hx, IH. reflexivity.
Qed.

(** Listing the squares of each code in another order permutes the pairs
    of code and square. *)
Lemma zip_runs_perm (n : Z -> nat) (G G' : Z -> list Z) (codes : list Z) :
  Forall (fun c => length (G c) = n c /\ G' c ≡ₚ G c) codes ->
  zip (flat_map (fun c => replicate (n c) c) codes) (flat_map G' codes)
  ≡ₚ zip (flat_map (fun c => replicate (n c) c) codes) (flat_map G codes).
Proof.
  induction 1 as [|c codes [Hn Hp] _ IH]; [reflexivity|].
  cbn [flat_map].
  rewrite zip_with_app by (rewrite length_replicate, (Permutation_length Hp); lia).
  rewrite (zip_with_app _ _ _ (G c)) by (rewrite length_replicate; lia).
  apply Permutation_app; [|exact IH].
  rewrite zip_with_replicate_l by (rewrite (Permutation_length Hp); lia).
  rewrite (zip_with_replicate_l _ _ _ (G c)) by lia.
  apply fmap_Permutation. exact Hp.
Qed.

Lemma fmap_lxor_0 (l : list Z) : (fun s => Z.lxor s 0) <$> l = l.
Proof.
  induction l as [|x l IH]; [reflexivity|].
  rewrite fmap_cons, IH, Z.lxor_0_r. reflexivity.
Qed.

Lemma zip_lead_perm (n0 : nat) (c0 : Z) (runs p0 p0' X X' : list Z) :
  length p0 = n0 -> p0' ≡ₚ p0 ->
  zip runs X' ≡ₚ zip runs X ->
  zip (replicate n0 c0 ++ runs) (p0' ++ X') ≡ₚ zip (replicate n0 c0 ++ runs) (p0 ++ X).
Proof.
  intros Hn Hp HX.
  rewrite zip_with_app by (rewrite length_replicate, (Permutation_length Hp); lia).
  rewrite (zip_with_app _ _ _ p0) by (rewrite length_replicate; lia).
  apply Permutation_app; [|exact HX].
  rewrite zip_with_replicate_l by (rewrite (Permutation_length Hp); lia).
  rewrite (zip_with_replicate_l _ _ _ p0) by lia.
  apply fmap_Permutation. exact Hp.
Qed.

End ZipRuns.

Section SquareLists.
Context {E : Engine} {C : Syzygy.TBCore}.
Variables (p q : Pos).
Hypothesis mirrored : color_mirrored p q = true.
Hypothesis boards : forall c pt, In c [0; 1] -> In pt [1; 2; 3; 4; 5; 6] ->
  0 <= pieces_cp p c pt < 2 ^ 64.

Lemma code_bb_range (cm c : Z) :
  piece_code c -> cm = 0 \/ cm = 8 -> 0 <= code_bb p cm c < 2 ^ 64.
Proof.
  intros Hc Hcm. destruct (code_colour c cm Hc Hcm) as (_ & Hpt & _ & Hx & _).
  apply boards; assumption.
Qed.

Lemma codes_on_board (cm : Z) (codes : list Z) :
  cm = 0 \/ cm = 8 ->
  Forall (fun c => piece_code c /\ code_bb p cm c <> 0) codes ->
  Forall (fun c => 0 < code_bb p cm c < 2 ^ 64) codes
  /\ Forall (fun c => 0 < code_bb q (Z.lxor cm 8) c < 2 ^ 64) codes
  /\ piece_runs q (Z.lxor cm 8) codes = piece_runs p cm codes.
Proof.
  intros Hcm. induction 1 as [|c codes [Hc Hne] _ (IH1 & IH2 & IH3)].
  - repeat split; constructor.
  - pose proof (code_bb_range cm c Hc Hcm) as Hr.
    assert (Hpos : 0 < code_bb p cm c < 2 ^ 64) by lia.
    split; [constructor; assumption|].
    split.
    + constructor; [|exact IH2].
      rewrite (mirrored_code_bb p q cm c mirrored Hc Hcm).
      apply flip_vertical_pos. exact Hpos.
    + cbn [piece_runs flat_map]. fold (piece_runs q (Z.lxor cm 8) codes).
      fold (piece_runs p cm codes). rewrite IH3. f_equal. f_equal.
      rewrite (mirrored_code_bb p q cm c mirrored Hc Hcm).
      apply popcount_flip_vertical.
Qed.

Lemma lxor_on_board (m : Z) (l : list Z) :
  m = 0 \/ m = 56 -> on_board l -> on_board ((fun s => Z.lxor s m) <$> l).
Proof.
  intros Hm Hl. unfold on_board in *. apply Forall_fmap.
  eapply Forall_impl; [|exact Hl]. intros s Hs. simpl.
  destruct Hm as [-> | ->]; [rewrite Z.lxor_0_r; exact Hs|].
  apply lxor56_board. exact Hs.
Qed.

Lemma pop_squares_on_board (bb : Bitboard) (m : Z) :
  0 < bb < 2 ^ 64 -> m = 0 \/ m = 56 -> on_board (Syzygy.pop_squares 64 bb m).
Proof.
  intros Hb Hm. rewrite pop_squares_squares by exact Hb.
  apply lxor_on_board; [exact Hm|]. apply squares_on_board.
Qed.

(** A table with pawns ([mirror] and [mirror ^ 0x38]): the mirror's
    squares of a piece code are those of the position, the ranks in the
    other order. *)
Lemma pop_squares_pawn_perm (bb : Bitboard) (m : Z) :
  0 < bb < 2 ^ 64 ->
  Syzygy.pop_squares 64 (flip_vertical bb) (Z.lxor m 56)
  ≡ₚ Syzygy.pop_squares 64 bb m.
Proof.
  intros Hb. rewrite pop_squares_flip, pop_squares_squares by exact Hb.
  apply fmap_Permutation. apply reflect_squares_flip_perm.
Qed.

Lemma pop_squares_pawn_ranks (bb : Bitboard) (m : Z) :
  0 < bb < 2 ^ 64 -> m = 0 \/ m = 56 ->
  same_rank_order (Syzygy.pop_squares 64 bb m)
                  (Syzygy.pop_squares 64 (flip_vertical bb) (Z.lxor m 56)).
Proof.
  intros Hb Hm r. rewrite pop_squares_flip, pop_squares_squares by exact Hb.
  destruct Hm as [-> | ->].
  - rewrite !fmap_lxor_0. apply rank_filter_flip.
  - fold (reflect (reflect (squares (flip_vertical bb)))).
    fold (reflect (squares bb)). unfold reflect at 1 3.
    rewrite <- !filter_fmap_comm. f_equal.
    rewrite (filter_ext_Forall (fun s => Z.shiftr (Z.lxor s 56) 3 = r)
                               (fun s => Z.shiftr s 3 = 7 - r)
                               (reflect (squares (flip_vertical bb)))).
    2:{ pose proof (lxor_on_board 56 _ (or_intror eq_refl)
                      (squares_on_board (flip_vertical bb))) as Hon.
        eapply Forall_impl; [|exact Hon]. intros s Hs. simpl in Hs.
        destruct (lxor56_board s Hs) as (_ & -> & _). lia. }
    rewrite (filter_ext_Forall (fun s => Z.shiftr (Z.lxor s 56) 3 = r)
                               (fun s => Z.shiftr s 3 = 7 - r) (squares bb)).
    2:{ eapply Forall_impl; [|apply squares_on_board]. intros s Hs. simpl in Hs.
        destruct (lxor56_board s Hs) as (_ & -> & _). lia. }
    apply rank_filter_flip.
Qed.

(** A pawnless table (no [mirror]): the mirror's squares of a piece code
    are the reflected squares of the position in another order. *)
Lemma pop_squares_piece_perm (bb : Bitboard) :
  0 < bb < 2 ^ 64 ->
  Syzygy.pop_squares 64 (flip_vertical bb) 0
  ≡ₚ reflect (Syzygy.pop_squares 64 bb 0).
Proof.
  intros Hb.
  rewrite !pop_squares_squares by (exact Hb || (apply flip_vertical_pos; exact Hb)).
  rewrite !fmap_lxor_0. apply squares_flip_perm.
Qed.

End SquareLists.

(** * The table readers on a position and its mirror *)

Section IndexMirror.
Context {E : Engine} {C : Syzygy.TBCore}.
Variables (p q : Pos).
Hypothesis mirrored : color_mirrored p q = true.
Hypothesis boards : forall c pt, In c [0; 1] -> In pt [1; 2; 3; 4; 5; 6] ->
  0 <= pieces_cp p c pt < 2 ^ 64.

(** Lines 139-146 (and 244-248): the index of a pawnless table. *)
Lemma piece_fill_mirror (cm : Z) (ptr : Syzygy.EntryPtr Syzygy.PairsData)
  (pcs norm factor : list Z) (num : nat) :
  cm = 0 \/ cm = 8 ->
  length pcs = num ->
  lists_pieces p cm [] pcs ->
  piece_index_symmetric ptr pcs norm factor ->
  Syzygy.encode_piece ptr norm
    (Syzygy.fill_squares num q pcs (Z.lxor cm 8) 0 num []) factor
  = Syzygy.encode_piece ptr norm (Syzygy.fill_squares num p pcs cm 0 num []) factor.
Proof.
  intros Hcm Hlen (codes & Hpcs & Hok) Hsym. cbn [app] in Hpcs. subst pcs num.
  destruct (codes_on_board p q mirrored boards cm codes Hcm Hok) as (Hp & Hq & Hruns).
  pose proof (fill_squares_runs p cm 0 codes (length (piece_runs p cm codes)) [] []
                eq_refl (piece_runs_length p cm codes Hp) Hp) as Fp.
  pose proof (fill_squares_runs q (Z.lxor cm 8) 0 codes
                (length (piece_runs q (Z.lxor cm 8) codes)) [] []
                eq_refl (piece_runs_length q _ codes Hq) Hq) as Fq.
  cbn [app] in Fp, Fq. rewrite Hruns in Fq. rewrite Fp, Fq. clear Fp Fq.
  assert (Hgroups : Forall (fun c =>
            length (reflect (Syzygy.pop_squares 64 (code_bb p cm c) 0))
              = popcount (code_bb p cm c)
            /\ Syzygy.pop_squares 64 (code_bb q (Z.lxor cm 8) c) 0
               ≡ₚ reflect (Syzygy.pop_squares 64 (code_bb p cm c) 0)) codes).
  { apply Forall_forall. intros c Hin.
    rewrite Forall_forall in Hok, Hp. destruct (Hok c Hin) as [Hc _].
    specialize (Hp c Hin). split.
    - unfold reflect. rewrite length_fmap, pop_squares_squares, length_fmap by exact Hp.
      reflexivity.
    - rewrite (mirrored_code_bb p q cm c mirrored Hc Hcm).
      apply pop_squares_piece_perm. exact Hp. }
  apply Hsym.
  - unfold on_board. apply Forall_forall. intros s Hs. apply in_flat_map in Hs.
    destruct Hs as (c & Hin & Hs). rewrite Forall_forall in Hp.
    pose proof (pop_squares_on_board (code_bb p cm c) 0 (Hp c Hin) (or_introl eq_refl))
      as Hon.
    unfold on_board in Hon. rewrite Forall_forall in Hon. apply Hon. exact Hs.
  - unfold piece_runs. apply length_flat_map_eq.
    eapply Forall_impl; [|exact Hgroups]. intros c [Hn _]. cbv beta.
    rewrite length_replicate, <- Hn. unfold reflect. rewrite length_fmap. reflexivity.
  - unfold piece_runs. apply length_flat_map_eq.
    eapply Forall_impl; [|exact Hgroups]. intros c [Hn Hperm]. cbv beta.
    rewrite length_replicate, (Permutation_length Hperm). exact Hn.
  - unfold reflect at 1. rewrite fmap_flat_map.
    apply (zip_runs_perm (fun c => popcount (code_bb p cm c))
             (fun c => reflect (Syzygy.pop_squares 64 (code_bb p cm c) 0))
             (fun c => Syzygy.pop_squares 64 (code_bb q (Z.lxor cm 8) c) 0)).
    exact Hgroups.
Qed.

(** Lines 150-166 (and 256-276): the file and the index of a table with
    pawns. [c0] is [file[0].pieces[0][0]]. *)
Lemma pawn_fill_mirror (m cm c0 : Z) (ptr : Syzygy.EntryPtr Syzygy.PairsData)
  (n0 : nat) :
  (m = 0 /\ cm = 0) \/ (m = 56 /\ cm = 8) ->
  piece_code c0 ->
  code_bb p cm c0 <> 0 ->
  popcount (code_bb p cm c0) = n0 ->
  pawn_file_symmetric ptr n0 ->
  let k := Z.lxor c0 cm in
  let l := Syzygy.pop_squares 64 (pieces_cp p (Z.shiftr k 3) (Z.land k 7)) m in
  let k' := Z.lxor c0 (Z.lxor cm 8) in
  let l' := Syzygy.pop_squares 64 (pieces_cp q (Z.shiftr k' 3) (Z.land k' 7))
                               (Z.lxor m 56) in
  fst (Syzygy.pawn_file ptr l') = fst (Syzygy.pawn_file ptr l)
  /\ forall (pcs norm factor : list Z) (num : nat) (c : Z),
       length pcs = num ->
       lists_pieces p cm (replicate n0 c) pcs ->
       pawn_index_symmetric ptr pcs norm factor ->
       Syzygy.encode_pawn ptr norm
         (Syzygy.fill_squares num q pcs (Z.lxor cm 8) (Z.lxor m 56) num
            (snd (Syzygy.pawn_file ptr l'))) factor
       = Syzygy.encode_pawn ptr norm
           (Syzygy.fill_squares num p pcs cm m num (snd (Syzygy.pawn_file ptr l)))
           factor.
Proof.
  intros Hside Hc0 Hne Hn0 Hfile. cbv zeta.
  assert (Hcm : cm = 0 \/ cm = 8) by (destruct Hside as [[_ ->]|[_ ->]]; auto).
  assert (Hm : m = 0 \/ m = 56) by (destruct Hside as [[-> _]|[-> _]]; auto).
  assert (Hcm' : Z.lxor cm 8 = 0 \/ Z.lxor cm 8 = 8)
    by (destruct Hcm as [-> | ->]; auto).
  destruct (code_colour c0 cm Hc0 Hcm) as (_ & _ & _ & _ & Ht).
  destruct (code_colour c0 (Z.lxor cm 8) Hc0 Hcm') as (_ & _ & _ & _ & Ht').
  rewrite Ht, Ht'. fold (code_bb p cm c0). fold (code_bb q (Z.lxor cm 8) c0).
  rewrite (mirrored_code_bb p q cm c0 mirrored Hc0 Hcm).
  pose proof (code_bb_range p boards cm c0 Hc0 Hcm) as Hr.
  assert (Hb : 0 < code_bb p cm c0 < 2 ^ 64) by lia.
  set (l := Syzygy.pop_squares 64 (code_bb p cm c0) m).
  set (l' := Syzygy.pop_squares 64 (flip_vertical (code_bb p cm c0)) (Z.lxor m 56)).
  assert (Hl : length l = n0).
  { unfold l. rewrite pop_squares_squares, length_fmap by exact Hb. exact Hn0. }
  destruct (Hfile l l' (pop_squares_on_board _ _ Hb Hm) Hl
              (pop_squares_pawn_perm _ m Hb) (pop_squares_pawn_ranks _ m Hb Hm))
    as (Hf & Hhd & Hp0' & Hp0).
  split; [exact Hf|].
  intros pcs norm factor num c Hlen (codes & Hpcs & Hok) Hsym. subst pcs num.
  destruct (codes_on_board p q mirrored boards cm codes Hcm Hok) as (Hp & Hq & Hruns).
  set (p0 := snd (Syzygy.pawn_file ptr l)) in *.
  set (p0' := snd (Syzygy.pawn_file ptr l')) in *.
  assert (Hlp0 : length p0 = n0) by (rewrite (Permutation_length Hp0); exact Hl).
  assert (Hlp0' : length p0' = n0).
  { rewrite (Permutation_length Hp0'). unfold l'.
    rewrite (Permutation_length (pop_squares_pawn_perm _ m Hb)). exact Hl. }
  assert (Hfuel : forall pos cm', Forall (fun c => 0 < code_bb pos cm' c < 2 ^ 64) codes ->
            (length codes <= length (replicate n0 c ++ piece_runs pos cm' codes))%nat).
  { intros pos cm' H. rewrite length_app. pose proof (piece_runs_length pos cm' codes H).
    lia. }
  pose proof (fill_squares_runs p cm m codes _ (replicate n0 c) p0
                ltac:(rewrite length_replicate; exact Hlp0) (Hfuel p cm Hp) Hp) as Fp.
  pose proof (fill_squares_runs q (Z.lxor cm 8) (Z.lxor m 56) codes _ (replicate n0 c) p0'
                ltac:(rewrite length_replicate; exact Hlp0')
                (Hfuel q (Z.lxor cm 8) Hq) Hq) as Fq.
  rewrite Hruns in Fq. rewrite Fp, Fq. clear Fp Fq.
  assert (Hgroups : Forall (fun c =>
            length (Syzygy.pop_squares 64 (code_bb p cm c) m)
              = popcount (code_bb p cm c)
            /\ Syzygy.pop_squares 64 (code_bb q (Z.lxor cm 8) c) (Z.lxor m 56)
               ≡ₚ Syzygy.pop_squares 64 (code_bb p cm c) m) codes).
  { apply Forall_forall. intros c' Hin.
    rewrite Forall_forall in Hok, Hp. destruct (Hok c' Hin) as [Hc _].
    specialize (Hp c' Hin). split.
    - rewrite pop_squares_squares, length_fmap by exact Hp. reflexivity.
    - rewrite (mirrored_code_bb p q cm c' mirrored Hc Hcm).
      apply pop_squares_pawn_perm. exact Hp. }
  assert (Hlen : length (flat_map (fun c => Syzygy.pop_squares 64 (code_bb p cm c) m) codes)
                 = length (piece_runs p cm codes)).
  { unfold piece_runs. apply length_flat_map_eq.
    eapply Forall_impl; [|exact Hgroups]. intros c' [Hn _]. cbv beta.
    rewrite length_replicate. exact Hn. }
  assert (Hlen' : length (flat_map (fun c => Syzygy.pop_squares 64
                                     (code_bb q (Z.lxor cm 8) c) (Z.lxor m 56)) codes)
                  = length (piece_runs p cm codes)).
  { rewrite <- Hlen. apply length_flat_map_eq.
    eapply Forall_impl; [|exact Hgroups]. intros c' [_ Hperm]. cbv beta.
    apply Permutation_length. exact Hperm. }
  apply Hsym.
  - unfold on_board. apply Forall_app. split.
    + rewrite Hp0. apply (pop_squares_on_board _ _ Hb Hm).
    + apply Forall_forall. intros s Hs. apply in_flat_map in Hs.
      destruct Hs as (c' & Hin & Hs). rewrite Forall_forall in Hp.
      pose proof (pop_squares_on_board (code_bb p cm c') m (Hp c' Hin) Hm) as Hon.
      unfold on_board in Hon. rewrite Forall_forall in Hon. apply Hon. exact Hs.
  - rewrite !length_app, length_replicate, Hlp0, Hlen. reflexivity.
  - rewrite !length_app, length_replicate, Hlp0', Hlen'. reflexivity.
  - rewrite (head_app p0'), (head_app p0), Hhd.
    destruct (head p0) as [s0|] eqn:Hh0; [reflexivity|].
    exfalso. apply head_None in Hh0. rewrite Hh0 in Hlp0.
    pose proof (popcount_pos _ Hb). cbn [length] in Hlp0. lia.
  - apply zip_lead_perm; [exact Hlp0|rewrite Hp0', Hp0; apply pop_squares_pawn_perm; exact Hb|].
    apply (zip_runs_perm (fun c => popcount (code_bb p cm c))
             (fun c => Syzygy.pop_squares 64 (code_bb p cm c) m)
             (fun c => Syzygy.pop_squares 64 (code_bb q (Z.lxor cm 8) c) (Z.lxor m 56))).
    exact Hgroups.
Qed.

End IndexMirror.

Section SideMirror.
Context {E : Engine} {C : Syzygy.TBCore}.

(** Lines 117-131 give [mirror] and [cmirror] together. *)
Lemma probe_side_values (ptr_key : Key) (symmetric : bool) (k : Key) (stm : Z) :
  let side := Syzygy.probe_side ptr_key symmetric k stm in
  (snd (fst side) = 0 /\ snd side = 0) \/ (snd (fst side) = 56 /\ snd side = 8).
Proof.
  unfold Syzygy.probe_side.
  destruct symmetric; cbn [negb]; [destruct (stm =? WHITE); cbn; auto|].
  destruct (k =? ptr_key); cbn; auto.
Qed.

(** The side chosen for the mirror: the same [bside], the other
    [mirror] and [cmirror]. *)
Lemma probe_side_swap (ptr_key k k' : Key) (symmetric : bool) (stm : Z) :
  stm = WHITE \/ stm = BLACK ->
  table_keys symmetric ptr_key k k' ->
  Syzygy.probe_side ptr_key symmetric k' (Z.lxor stm 1)
  = (fst (fst (Syzygy.probe_side ptr_key symmetric k stm)),
     Z.lxor (snd (fst (Syzygy.probe_side ptr_key symmetric k stm))) 56,
     Z.lxor (snd (Syzygy.probe_side ptr_key symmetric k stm)) 8).
Proof.
  intros Hstm Hkeys. unfold Syzygy.probe_side, table_keys in *.
  destruct symmetric; cbn [negb].
  - subst k'. destruct Hstm as [-> | ->]; reflexivity.
  - destruct Hkeys as [Hne Hptr].
    destruct (Z.eqb_spec k' ptr_key) as [Hk'|Hk'];
      destruct (Z.eqb_spec k ptr_key) as [Hk|Hk]; cbn [negb].
    + congruence.
    + destruct Hstm as [-> | ->]; reflexivity.
    + destruct Hstm as [-> | ->]; reflexivity.
    + destruct Hptr; congruence.
Qed.

(** The name and the keys lines 104 and 203-207 compute for a position
    and for its mirror are the same. *)
Lemma names_mirror (p q : Pos) (symmetric : bool) (ptr_key : Key) :
  color_mirrored p q = true ->
  pos_material_key p = Syzygy.calc_key p false ->
  pos_material_key q = Syzygy.calc_key q false ->
  (pos_material_key q = pos_material_key p ->
   Syzygy.prt_str p true = Syzygy.prt_str p false) ->
  table_keys symmetric ptr_key (pos_material_key p) (pos_material_key q) ->
  let mp := negb (ptr_key =? pos_material_key p) in
  let mq := negb (ptr_key =? pos_material_key q) in
  Syzygy.prt_str q mq = Syzygy.prt_str p mp
  /\ Syzygy.calc_key q mq = Syzygy.calc_key p mp
  /\ Syzygy.calc_key q (negb mq) = Syzygy.calc_key p (negb mp).
Proof.
  intros Hm Hkp Hkq Hname Hkeys. cbv zeta.
  pose proof (mirrored_prt_str p q true Hm) as Hs1.
  pose proof (mirrored_prt_str p q false Hm) as Hs0.
  pose proof (mirrored_calc_key p q true Hm) as Hc1.
  pose proof (mirrored_calc_key p q false Hm) as Hc0.
  cbn [negb] in Hs1, Hs0, Hc1, Hc0.
  unfold table_keys in Hkeys. destruct symmetric.
  - rewrite Hkeys. specialize (Hname Hkeys).
    assert (Hc : Syzygy.calc_key p true = Syzygy.calc_key p false) by congruence.
    destruct (ptr_key =? pos_material_key p); cbn [negb];
      (split; [|split]); congruence.
  - destruct Hkeys as [Hne [Hk|Hk]].
    + replace (ptr_key =? pos_material_key p) with true
        by (symmetry; apply Z.eqb_eq; exact Hk).
      replace (ptr_key =? pos_material_key q) with false
        by (symmetry; apply Z.eqb_neq; congruence).
      cbn [negb]. split; [|split]; assumption.
    + replace (ptr_key =? pos_material_key p) with false
        by (symmetry; apply Z.eqb_neq; congruence).
      replace (ptr_key =? pos_material_key q) with true
        by (symmetry; apply Z.eqb_eq; exact Hk).
      cbn [negb]. split; [|split]; assumption.
Qed.

(** [probe_wdl_table] in terms of [loaded_entry]. *)
Lemma probe_wdl_table_unfold (pos : Pos) (st : St (Syzygy.Registry Syzygy.PairsData)) :
  Syzygy.probe_wdl_table pos st
  = (let key := pos_material_key pos in
     if key =? 2 then (0, st)
     else
       match Syzygy.find_slot Syzygy.HSHMAX 0 (Syzygy.bucket (tb st) key) key with
       | None => (0, set_success 0 st)
       | Some (i, h) =>
         match loaded_entry pos key (Syzygy.TB_store (tb st) (Syzygy.hash_ptr h)) with
         | None => (0, mkSt (Syzygy.clear_slot (tb st) key i) 0)
         | Some ptr =>
           let side := Syzygy.probe_side (Syzygy.entry_key ptr)
                         (Syzygy.entry_symmetric ptr) key (pos_stm pos) in
           (Syzygy.wdl_lookup pos ptr (fst (fst side)) (snd (fst side)) (snd side),
            mkSt (Syzygy.set_store (tb st) (Syzygy.hash_ptr h) ptr) (success st))
         end
       end).
Proof.
  unfold Syzygy.probe_wdl_table, loaded_entry. cbv zeta.
  destruct (pos_material_key pos =? 2); [reflexivity|].
  destruct (Syzygy.find_slot _ _ _ _) as [[i h]|]; [|reflexivity].
  destruct (negb (Syzygy.entry_ready (Syzygy.TB_store (tb st) (Syzygy.hash_ptr h)))).
  - destruct (Syzygy.init_table_wdl _ _) as [ptr'|]; [|reflexivity].
    destruct (Syzygy.probe_side _ _ _ _) as [[bside mirror] cmirror]. reflexivity.
  - destruct (Syzygy.probe_side _ _ _ _) as [[bside mirror] cmirror]. reflexivity.
Qed.

Lemma loaded_entry_ready (pos : Pos) (key : Key)
  (e e' : Syzygy.TBEntry Syzygy.PairsData) :
  loaded_entry pos key e = Some e' -> Syzygy.entry_ready e' = true.
Proof.
  unfold loaded_entry. destruct (Syzygy.entry_ready e) eqn:Hr; cbn [negb].
  - intros H. injection H as <-. exact Hr.
  - destruct (Syzygy.init_table_wdl _ _); [|discriminate]. intros H.
    injection H as <-. reflexivity.
Qed.

End SideMirror.

Section LookupMirror.
Context {E : Engine} {C : Syzygy.TBCore}.
Variables (p q : Pos).
Hypothesis mirrored : color_mirrored p q = true.
Hypothesis boards : forall c pt, In c [0; 1] -> In pt [1; 2; 3; 4; 5; 6] ->
  0 <= pieces_cp p c pt < 2 ^ 64.

(** Lines 136-168: the mirror reads the cell the position reads. *)
Lemma wdl_lookup_mirror (e : Syzygy.TBEntry Syzygy.PairsData) (bside m cm : Z) :
  (m = 0 /\ cm = 0) \/ (m = 56 /\ cm = 8) ->
  wdl_index_symmetric e ->
  wdl_lists_pieces p e bside cm ->
  Syzygy.wdl_lookup q e bside (Z.lxor m 56) (Z.lxor cm 8)
  = Syzygy.wdl_lookup p e bside m cm.
Proof.
  intros Hside Hsym Hlists.
  unfold Syzygy.wdl_lookup, wdl_index_symmetric, wdl_lists_pieces in *.
  assert (Hcm : cm = 0 \/ cm = 8) by (destruct Hside as [[_ ->]|[_ ->]]; auto).
  destruct (Syzygy.entry_payload e) as [d|file].
  - destruct Hlists as [Hlen Hl]. f_equal. f_equal.
    apply (piece_fill_mirror p q mirrored boards cm); auto.
  - cbv zeta in Hlists |- *. destruct Hlists as (Hc0 & Hne & Hn0 & Hfiles).
    destruct Hsym as [Hfile Hidx].
    destruct (pawn_fill_mirror p q mirrored boards m cm _ (Syzygy.wdl_entry e) _
                Hside Hc0 Hne Hn0 Hfile) as [Hf Henc].
    cbv zeta in Hf, Henc.
    destruct (Syzygy.pawn_file (Syzygy.wdl_entry e)
                (Syzygy.pop_squares 64 (pieces_cp p _ _) m)) as [f p0].
    destruct (Syzygy.pawn_file (Syzygy.wdl_entry e)
                (Syzygy.pop_squares 64 (pieces_cp q _ _) (Z.lxor m 56))) as [f' p0'].
    cbn [fst snd] in Hf, Henc. subst f'.
    destruct (Hfiles f) as [Hlen [c Hl]]. f_equal. f_equal.
    apply (Henc _ _ _ _ c Hlen Hl). apply Hidx.
Qed.

End LookupMirror.

Section ReadersMirror.
Context {E : Engine} {C : Syzygy.TBCore}.
Variables (I : Syzygy.Registry Syzygy.PairsData -> Prop)
          (R : Pos -> Pos -> Prop) (mm : Move -> Move).
Hypothesis moves : MirrorSim R mm.
Hypothesis tables : MirrorTables I R.

Lemma set_store_lookup (reg : Syzygy.Registry Syzygy.PairsData) (ptr : nat)
  (e : Syzygy.TBEntry Syzygy.PairsData) (key : Key) :
  Syzygy.bucket (Syzygy.set_store reg ptr e) key = Syzygy.bucket reg key
  /\ Syzygy.TB_store (Syzygy.set_store reg ptr e) ptr = e.
Proof.
  unfold Syzygy.bucket, Syzygy.set_store. cbn [Syzygy.TB_hash Syzygy.TB_store].
  rewrite Nat.eqb_refl. auto.
Qed.

(** [probe_wdl_table], lines 74-169: a read that ends with
    [success <> 0] gives the same value and leaves the same registry on
    the mirror. *)
Lemma probe_wdl_table_mirror (p q : Pos) (st : St (Syzygy.Registry Syzygy.PairsData)) :
  R p q -> I (tb st) ->
  success (snd (Syzygy.probe_wdl_table p st)) <> 0 ->
  Syzygy.probe_wdl_table q st = Syzygy.probe_wdl_table p st
  /\ I (tb (snd (Syzygy.probe_wdl_table p st))).
Proof.
  intros HR HI. rewrite !probe_wdl_table_unfold. cbv zeta.
  pose proof (sim_mirrored _ _ moves p q HR) as Hm.
  pose proof (sim_stm _ _ moves p q HR) as Hstm.
  assert (Hb : forall c pt, In c [0; 1] -> In pt [1; 2; 3; 4; 5; 6] ->
             0 <= pieces_cp p c pt < 2 ^ 64).
  { intros c pt Hc Hpt. exact (sim_boards _ _ moves p q c pt HR Hc Hpt). }
  destruct (mt_key _ _ tables p q HR) as [Hkp Hkq].
  pose proof (mt_kvk _ _ tables p q HR) as Hkvk.
  destruct (Z.eqb_spec (pos_material_key p) 2) as [H2|H2].
  { replace (pos_material_key q =? 2) with true
      by (symmetry; apply Z.eqb_eq; tauto).
    intros _. split; [reflexivity|exact HI]. }
  replace (pos_material_key q =? 2) with false
    by (symmetry; apply Z.eqb_neq; tauto).
  destruct (Syzygy.find_slot Syzygy.HSHMAX 0 (Syzygy.bucket (tb st) (pos_material_key p))
              (pos_material_key p)) as [[i h]|] eqn:Hfind;
    [|cbn [snd success set_success]; intros Hs; exfalso; apply Hs; reflexivity].
  destruct (mt_slot _ _ tables (tb st) p q i h HI HR Hfind)
    as [(i' & h' & Hfq & Hptr) Hkeys].
  rewrite Hfq, Hptr.
  set (e := Syzygy.TB_store (tb st) (Syzygy.hash_ptr h)) in *.
  assert (Hload : loaded_entry q (pos_material_key q) e
                  = loaded_entry p (pos_material_key p) e).
  { unfold loaded_entry.
    destruct (names_mirror p q _ (Syzygy.entry_key e) Hm Hkp Hkq
                (mt_name _ _ tables p q HR) Hkeys) as (Hname & _).
    cbv zeta in Hname. rewrite Hname. reflexivity. }
  rewrite Hload.
  destruct (loaded_entry p (pos_material_key p) e) as [e'|] eqn:Hle;
    [|cbn [snd success]; intros Hs; exfalso; apply Hs; reflexivity].
  intros _. cbn [snd tb].
  pose proof (mt_loaded _ _ tables (tb st) p q i h e' HI HR Hfind Hle) as HI'.
  set (reg' := Syzygy.set_store (tb st) (Syzygy.hash_ptr h) e') in *.
  destruct (set_store_lookup (tb st) (Syzygy.hash_ptr h) e' (pos_material_key p))
    as [Hbk Hst].
  fold reg' in Hbk, Hst.
  assert (Hfind' : Syzygy.find_slot Syzygy.HSHMAX 0
                     (Syzygy.bucket reg' (pos_material_key p)) (pos_material_key p)
                   = Some (i, h)) by (rewrite Hbk; exact Hfind).
  destruct (mt_slot _ _ tables reg' p q i h HI' HR Hfind') as [_ Hkeys'].
  pose proof (mt_table _ _ tables reg' p q i h HI' HR Hfind') as Htab.
  rewrite Hst in Hkeys', Htab.
  specialize (Htab (loaded_entry_ready _ _ _ _ Hle)). cbv zeta in Htab.
  destruct Htab as [Hsym Hlists].
  split; [|exact HI'].
  rewrite (mirrored_stm p q Hm).
  rewrite (probe_side_swap _ _ _ _ _ Hstm Hkeys'). cbn [fst snd].
  f_equal.
  apply (wdl_lookup_mirror p q Hm Hb); [|exact Hsym|exact Hlists].
  apply (probe_side_values (Syzygy.entry_key e') (Syzygy.entry_symmetric e')
           (pos_material_key p) (pos_stm p)).
Qed.

Lemma find_dtz_mirror (tbl : list (Syzygy.DTZTableEntry Syzygy.PairsData))
  (k k' : Key) :
  Forall (fun t => (Syzygy.key1 t =? k') || (Syzygy.key2 t =? k')
                   = (Syzygy.key1 t =? k) || (Syzygy.key2 t =? k)) tbl ->
  forall n i, Syzygy.find_dtz n i tbl k' = Syzygy.find_dtz n i tbl k.
Proof.
  intros Hall. induction n as [|n IH]; intros i; [reflexivity|].
  cbn [Syzygy.find_dtz]. destruct (tbl !! i) as [t|] eqn:Ht; [|reflexivity].
  rewrite Forall_forall in Hall.
  rewrite (Hall t (proj1 (list_elem_of_In _ _) (list_elem_of_lookup_2 _ _ _ Ht))).
  rewrite IH. reflexivity.
Qed.

(** Lines 183-209: the cache is searched and filled alike for a position
    and its mirror. *)
Lemma dtz_to_front_mirror (p q : Pos) (reg reg' : Syzygy.Registry Syzygy.PairsData) :
  R p q -> I reg ->
  Syzygy.dtz_to_front p (pos_material_key p) reg = Some reg' ->
  Syzygy.dtz_to_front q (pos_material_key q) reg = Some reg'.
Proof.
  intros HR HI. unfold Syzygy.dtz_to_front. cbv zeta.
  pose proof (sim_mirrored _ _ moves p q HR) as Hm.
  destruct (mt_key _ _ tables p q HR) as [Hkp Hkq].
  pose proof (mt_cache _ _ tables reg p q HI HR) as Hcache.
  destruct (Syzygy.DTZ_table reg !! 0%nat) as [t0|] eqn:Ht0; [|auto].
  assert (Hc0 : negb (Syzygy.key1 t0 =? pos_material_key q)
                && negb (Syzygy.key2 t0 =? pos_material_key q)
                = negb (Syzygy.key1 t0 =? pos_material_key p)
                  && negb (Syzygy.key2 t0 =? pos_material_key p)).
  { rewrite <- !negb_orb. f_equal. rewrite Forall_forall in Hcache.
    apply Hcache. apply list_elem_of_In. eapply list_elem_of_lookup_2. exact Ht0. }
  rewrite Hc0.
  destruct (negb (Syzygy.key1 t0 =? pos_material_key p)
            && negb (Syzygy.key2 t0 =? pos_material_key p)); [|auto].
  rewrite (find_dtz_mirror _ _ _ Hcache).
  destruct (Syzygy.find_dtz _ _ _ _) as [j|]; [auto|].
  destruct (Syzygy.find_slot Syzygy.HSHMAX 0 (Syzygy.bucket reg (pos_material_key p))
              (pos_material_key p)) as [[i h]|] eqn:Hfind; [|discriminate].
  destruct (mt_slot _ _ tables reg p q i h HI HR Hfind)
    as [(i' & h' & Hfq & Hptr) Hkeys].
  rewrite Hfq, Hptr.
  destruct (names_mirror p q _ _ Hm Hkp Hkq (mt_name _ _ tables p q HR) Hkeys)
    as (Hname & Hk1 & Hk2).
  cbv zeta in Hname, Hk1, Hk2. rewrite Hname, Hk1, Hk2. auto.
Qed.

(** [probe_dtz_table], lines 173-286. *)
Lemma probe_dtz_table_mirror (p q : Pos) (w : Z)
  (st : St (Syzygy.Registry Syzygy.PairsData)) :
  R p q -> I (tb st) ->
  success (snd (Syzygy.probe_dtz_table p w st)) <> 0 ->
  Syzygy.probe_dtz_table q w st = Syzygy.probe_dtz_table p w st
  /\ I (tb (snd (Syzygy.probe_dtz_table p w st))).
Proof.
  intros HR HI. unfold Syzygy.probe_dtz_table. cbv zeta.
  pose proof (sim_mirrored _ _ moves p q HR) as Hm.
  pose proof (sim_stm _ _ moves p q HR) as Hstm.
  assert (Hb : forall c pt, In c [0; 1] -> In pt [1; 2; 3; 4; 5; 6] ->
             0 <= pieces_cp p c pt < 2 ^ 64).
  { intros c pt Hc Hpt. exact (sim_boards _ _ moves p q c pt HR Hc Hpt). }
  destruct (Syzygy.dtz_to_front p (pos_material_key p) (tb st)) as [reg'|] eqn:Hfront;
    [|cbn [snd success set_success]; intros Hs; exfalso; apply Hs; reflexivity].
  rewrite (dtz_to_front_mirror p q (tb st) reg' HR HI Hfront).
  pose proof (mt_front _ _ tables (tb st) p q reg' HI HR Hfront) as HI'.
  destruct (Syzygy.DTZ_table reg' !! 0%nat) as [[k1 k2 [e|]]|] eqn:Hcell;
    try (cbn [snd success]; intros Hs; exfalso; apply Hs; reflexivity).
  intros _.
  pose proof (mt_dtz_table _ _ tables (tb st) p q reg' k1 k2 e HI HR Hfront Hcell)
    as Htab.
  cbv zeta in Htab. destruct Htab as (Hkeys & Hsym & Hlists).
  rewrite (mirrored_stm p q Hm).
  rewrite (probe_side_swap _ _ _ _ _ Hstm Hkeys).
  pose proof (probe_side_values (Syzygy.dtz_key e) (Syzygy.dtz_symmetric e)
                (pos_material_key p) (pos_stm p)) as Hside.
  cbv zeta in Hside.
  destruct (Syzygy.probe_side (Syzygy.dtz_key e) (Syzygy.dtz_symmetric e)
              (pos_material_key p) (pos_stm p)) as [[bside m] cm].
  cbn [fst snd] in Hside, Hlists |- *.
  assert (Hcm : cm = 0 \/ cm = 8) by (destruct Hside as [[_ ->]|[_ ->]]; auto).
  unfold dtz_index_symmetric, dtz_lists_pieces in Hsym, Hlists.
  destruct (Syzygy.dtz_payload e) as [d flags map_idx|file flags map_idx].
  - destruct (negb (Z.land flags 1 =? bside) && negb (Syzygy.dtz_symmetric e));
      [split; [reflexivity|exact HI']|].
    destruct Hlists as [Hlen Hl].
    rewrite (piece_fill_mirror p q Hm Hb cm (Syzygy.dtz_entry e) _ _ _ _
               Hcm Hlen Hl Hsym).
    split; [reflexivity|exact HI'].
  - cbv zeta in Hlists. destruct Hlists as (Hc0 & Hne & Hn0 & Hfiles).
    destruct Hsym as [Hfile Hidx].
    destruct (pawn_fill_mirror p q Hm Hb m cm _ (Syzygy.dtz_entry e) _
                Hside Hc0 Hne Hn0 Hfile) as [Hf Henc].
    cbv zeta in Hf, Henc.
    destruct (Syzygy.pawn_file (Syzygy.dtz_entry e)
                (Syzygy.pop_squares 64 (pieces_cp p _ _) m)) as [f p0].
    destruct (Syzygy.pawn_file (Syzygy.dtz_entry e)
                (Syzygy.pop_squares 64 (pieces_cp q _ _) (Z.lxor m 56))) as [f' p0'].
    cbn [fst snd] in Hf, Henc. subst f'.
    destruct (negb (Z.land (flags f) 1 =? bside)); [split; [reflexivity|exact HI']|].
    destruct (Hfiles f) as [Hlen [c Hl]].
    rewrite (Henc _ _ _ _ c Hlen Hl (Hidx f)).
    split; [reflexivity|exact HI'].
Qed.

End ReadersMirror.

Section MirrorProbes.
Context {E : Engine} {C : Syzygy.TBCore}.
Variables (I : Syzygy.Registry Syzygy.PairsData -> Prop)
          (R : Pos -> Pos -> Prop) (mm : Move -> Move).
Hypothesis moves : MirrorSim R mm.
Hypothesis tables : MirrorTables I R.


End MirrorProbes.

(** * The KP v K registry respects colour mirrors *)

Module KPKFacts.
Import KPK.

Ltac open_registry reg HI :=
  let h := fresh "h" in let store := fresh "store" in let dt := fresh "dt" in
  destruct reg as [h store dt];
  unfold registry_ok in HI;
  cbn [tb Syzygy.TB_hash Syzygy.TB_store Syzygy.DTZ_table] in HI;
  destruct HI as (Hh & Hk & Hn & Hs & Hp & Hd);
  destruct (store 0%nat) as [k r n sy pl] eqn:He;
  cbn in Hk, Hn, Hs, Hp; subst k n sy pl.

Ltac pair_keys :=
  cbn [pos_material_key Tree.engine Tree.node_material_key white_pawn black_pawn
       king_takes_pawn king_takes_pawn_mirror bare_kings bare_kings_mirror] in *.

Ltac find_slots :=
  change (@Syzygy.PairsData core) with (Z -> Z) in *;
  change (Z.shiftr key_KvKP (64 - Syzygy.TBHASHBITS)) with 0 in *;
  change (Z.shiftr key_KPvK (64 - Syzygy.TBHASHBITS)) with 0 in *;
  change (Z.shiftr 2 (64 - Syzygy.TBHASHBITS)) with 0 in *;
  cbn [tb Syzygy.TB_hash Syzygy.TB_store Syzygy.DTZ_table] in *;
  match goal with Hh : _ 0 = [_; _] |- _ => rewrite ?Hh in * end;
  change (Syzygy.find_slot Syzygy.HSHMAX 0
            [Syzygy.mkTBHashEntry key_KPvK 0; Syzygy.mkTBHashEntry key_KvKP 0]
            key_KvKP) with (Some (1%nat, Syzygy.mkTBHashEntry key_KvKP 0)) in *;
  change (Syzygy.find_slot Syzygy.HSHMAX 0
            [Syzygy.mkTBHashEntry key_KPvK 0; Syzygy.mkTBHashEntry key_KvKP 0]
            key_KPvK) with (Some (0%nat, Syzygy.mkTBHashEntry key_KPvK 0)) in *;
  change (Syzygy.find_slot Syzygy.HSHMAX 0
            [Syzygy.mkTBHashEntry key_KPvK 0; Syzygy.mkTBHashEntry key_KvKP 0]
            2) with (@None (nat * Syzygy.TBHashEntry)) in *;
  cbv beta iota in *; cbn [Syzygy.hash_ptr] in *.

Ltac registry_still_ok :=
  unfold registry_ok, Syzygy.set_store;
  cbn [snd tb Syzygy.TB_hash Syzygy.TB_store Syzygy.DTZ_table Nat.eqb
       Syzygy.entry_key Syzygy.entry_num Syzygy.entry_symmetric
       Syzygy.entry_payload];
  repeat match goal with He : _ 0%nat = Syzygy.mkTBEntry _ _ _ _ _ |- _ => rewrite He end;
  repeat split; try assumption; try reflexivity;
  try (left; reflexivity); try (right; reflexivity).

Lemma registry_ok_initial : registry_ok (tb st0).
Proof. repeat split. left. reflexivity. Qed.

(** The engine on the three pairs of [mirror_pair]. *)
Lemma mirror_sim : @MirrorSim Tree.engine mirror_pair mirror_move.
Proof.
  constructor.
  - intros p q []; vm_compute; reflexivity.
  - intros p q []; vm_compute; auto.
  - intros p q c pt HR Hc Hpt. cbn [In] in Hc, Hpt.
    destruct HR;
      destruct Hc as [<-|[<-|[]]];
      destruct Hpt as [<-|[<-|[<-|[<-|[<-|[<-|[]]]]]]];
      (split; [apply Z.leb_le|apply Z.ltb_lt]); vm_compute; reflexivity.
  - intros p q []; vm_compute; reflexivity.
  - intros p q []; vm_compute; reflexivity.
  - intros p q []; split; vm_compute; reflexivity.
  - intros p q []; vm_compute; reflexivity.
  - intros p q m HR Hin. destruct HR; vm_compute in Hin.
    + destruct Hin.
    + destruct Hin as [<-|[<-|[<-|[<-|[]]]]];
        (repeat split; try (vm_compute; reflexivity)); intros _.
      all: first [exact mirror_bare | exact mirror_takes].
    + destruct Hin.
Qed.

Lemma kpk_keys (p q : Tree.Node) :
  mirror_pair p q ->
  @pos_material_key Tree.engine p = Syzygy.calc_key (E := Tree.engine) p false
  /\ @pos_material_key Tree.engine q = Syzygy.calc_key (E := Tree.engine) q false.
Proof. intros []; split; vm_compute; reflexivity. Qed.

Lemma kpk_slot (reg : Syzygy.Registry (Z -> Z)) (p q : Tree.Node) (i : nat)
  (h : Syzygy.TBHashEntry) :
  registry_ok reg -> mirror_pair p q ->
  Syzygy.find_slot Syzygy.HSHMAX 0 (Syzygy.bucket reg (@pos_material_key Tree.engine p))
                   (@pos_material_key Tree.engine p) = Some (i, h) ->
  h = Syzygy.mkTBHashEntry key_KPvK 0
  /\ @pos_material_key Tree.engine p = key_KPvK
  /\ @pos_material_key Tree.engine q = key_KvKP
  /\ Syzygy.find_slot Syzygy.HSHMAX 0 (Syzygy.bucket reg (@pos_material_key Tree.engine q))
                      (@pos_material_key Tree.engine q)
     = Some (1%nat, Syzygy.mkTBHashEntry key_KvKP 0).
Proof.
  intros HI HR Hfind. open_registry reg HI. unfold Syzygy.bucket in *.
  destruct HR; pair_keys; find_slots; try discriminate.
  all: injection Hfind as <- <-; auto.
Qed.

(** One leading pawn: nothing to reorder. *)
Lemma kpk_pawn_file (ptr : Syzygy.EntryPtr (Z -> Z)) :
  pawn_file_symmetric (C := core) ptr 1.
Proof.
  intros l l' _ Hlen Hperm _.
  destruct l as [|x [|y l]]; try discriminate.
  apply Permutation_singleton_r in Hperm. subst l'.
  cbn [Syzygy.pawn_file core fst snd]. auto.
Qed.

(** Three pieces of three kinds: nothing to permute. *)
Lemma kpk_pawn_index (ptr : Syzygy.EntryPtr (Z -> Z)) (norm factor : list Z) :
  pawn_index_symmetric (C := core) ptr [1; 6; 14] norm factor.
Proof.
  intros P Q _ HP HQ _ Hperm.
  destruct P as [|a [|b [|c [|d P]]]]; try discriminate.
  destruct Q as [|a' [|b' [|c' [|d' Q]]]]; try discriminate.
  cbn in Hperm.
  assert (Ha : In (1, a') [(1, a); (6, b); (14, c)])
    by (apply (Permutation_in _ Hperm); cbn; auto).
  assert (Hb : In (6, b') [(1, a); (6, b); (14, c)])
    by (apply (Permutation_in _ Hperm); cbn; auto).
  assert (Hc : In (14, c') [(1, a); (6, b); (14, c)])
    by (apply (Permutation_in _ Hperm); cbn; auto).
  cbn in Ha, Hb, Hc.
  destruct Ha as [Ha|[Ha|[Ha|[]]]]; try discriminate Ha.
  destruct Hb as [Hb|[Hb|[Hb|[]]]]; try discriminate Hb.
  destruct Hc as [Hc|[Hc|[Hc|[]]]]; try discriminate Hc.
  congruence.
Qed.

Lemma piece_code_bool (c : Z) :
  (0 <=? c) && (c <? 16) && (1 <=? Z.land c 7) && (Z.land c 7 <=? 6) = true ->
  piece_code c.
Proof. unfold piece_code. intros H. repeat apply andb_prop in H as [H ?]. lia. Qed.

Lemma kpk_loaded (reg : Syzygy.Registry (Z -> Z)) (p q : Tree.Node) (i : nat)
  (h : Syzygy.TBHashEntry) (e : Syzygy.TBEntry (Z -> Z)) :
  registry_ok reg -> mirror_pair p q ->
  Syzygy.find_slot Syzygy.HSHMAX 0 (Syzygy.bucket reg (@pos_material_key Tree.engine p))
                   (@pos_material_key Tree.engine p) = Some (i, h) ->
  loaded_entry (E := Tree.engine) p (@pos_material_key Tree.engine p)
               (Syzygy.TB_store reg (Syzygy.hash_ptr h)) = Some e ->
  registry_ok (Syzygy.set_store reg (Syzygy.hash_ptr h) e).
Proof.
  intros HI HR Hfind Hle.
  destruct (kpk_slot reg p q i h HI HR Hfind) as (-> & _).
  cbn [Syzygy.hash_ptr] in *. unfold loaded_entry in Hle.
  destruct HI as (Hh & Hk & Hn & Hs & Hp & Hd).
  change (@Syzygy.PairsData core) with (Z -> Z) in *.
  destruct (Syzygy.entry_ready (Syzygy.TB_store reg 0)); cbn [negb] in Hle;
    cbv [Syzygy.init_table_wdl core] in Hle; injection Hle as <-;
    unfold registry_ok, Syzygy.set_store;
    cbn [Syzygy.TB_hash Syzygy.TB_store Syzygy.DTZ_table Nat.eqb
         Syzygy.entry_key Syzygy.entry_num Syzygy.entry_symmetric
         Syzygy.entry_payload]; auto 10.
Qed.

Lemma kpk_table (reg : Syzygy.Registry (Z -> Z)) (p q : Tree.Node) (i : nat)
  (h : Syzygy.TBHashEntry) :
  registry_ok reg -> mirror_pair p q ->
  Syzygy.find_slot Syzygy.HSHMAX 0 (Syzygy.bucket reg (@pos_material_key Tree.engine p))
                   (@pos_material_key Tree.engine p) = Some (i, h) ->
  let e := Syzygy.TB_store reg (Syzygy.hash_ptr h) in
  let side := Syzygy.probe_side (Syzygy.entry_key e) (Syzygy.entry_symmetric e)
                                (@pos_material_key Tree.engine p)
                                (@pos_stm Tree.engine p) in
  wdl_index_symmetric e
  /\ wdl_lists_pieces (E := Tree.engine) p e (fst (fst side)) (snd side).
Proof.
  intros HI HR Hfind.
  destruct (kpk_slot reg p q i h HI HR Hfind) as (-> & Hkp & _).
  cbn [Syzygy.hash_ptr] in *.
  destruct HI as (Hh & Hk & Hn & Hs & Hp & Hd).
  cbv zeta. change (@Syzygy.PairsData core) with (Z -> Z) in *.
  rewrite Hk, Hs, Hkp. split.
  - unfold wdl_index_symmetric.
    change (@Syzygy.PairsData core) with (Z -> Z) in *. rewrite Hp. split.
    + apply kpk_pawn_file.
    + intros f b. apply kpk_pawn_index.
  - unfold wdl_lists_pieces.
    change (@Syzygy.PairsData core) with (Z -> Z) in *. rewrite Hp, Hn. cbv zeta.
    cbn [Syzygy.data_pieces kpk_data nth].
    change (lead_pawns [1; 6; 14]) with 1%nat.
    destruct HR; try discriminate Hkp.
    all: split; [apply piece_code_bool; reflexivity|].
    all: split; [vm_compute; discriminate|].
    all: split; [vm_compute; reflexivity|].
    all: intros _; split; [reflexivity|].
    all: exists 1, [6; 14]; split; [vm_compute; reflexivity|].
    all: repeat constructor; try (apply piece_code_bool; reflexivity);
      vm_compute; discriminate.
Qed.

Lemma kpk_front (reg reg' : Syzygy.Registry (Z -> Z)) (p q : Tree.Node) :
  registry_ok reg -> mirror_pair p q ->
  Syzygy.dtz_to_front (E := Tree.engine) p (@pos_material_key Tree.engine p) reg
    = Some reg' ->
  registry_ok reg'
  /\ exists k1 k2, Syzygy.DTZ_table reg' !! 0%nat = Some (Syzygy.mkDTZTableEntry k1 k2 None).
Proof.
  intros HI HR Hf. open_registry reg HI.
  unfold Syzygy.dtz_to_front, Syzygy.bucket in Hf.
  destruct HR; pair_keys; find_slots; rewrite ?He in Hf; cbn [Syzygy.entry_key] in Hf;
    destruct Hd as [-> | ->]; vm_compute in Hf; try discriminate Hf;
    injection Hf as <-.
  all: split; [registry_still_ok; try (right; vm_compute; reflexivity)
              |eexists _, _; reflexivity].
Qed.

(** The registry and the stand-in for [tbcore.c] on the three pairs. *)
Lemma mirror_tables : @MirrorTables Tree.engine core registry_ok mirror_pair.
Proof.
  constructor.
  - exact kpk_keys.
  - intros p q []; vm_compute; split; intros H; first [reflexivity|discriminate H].
  - intros p q [] H; first [discriminate H|vm_compute; reflexivity].
  - intros reg p q i h HI HR Hfind.
    destruct (kpk_slot reg p q i h HI HR Hfind) as (-> & Hkp & Hkq & Hfq).
    split; [eexists _, _; split; [exact Hfq|reflexivity]|].
    cbn [Syzygy.hash_ptr]. destruct HI as (Hh & Hk & Hn & Hs & Hp & Hd).
    change (@Syzygy.PairsData core) with (Z -> Z) in *.
    rewrite Hk, Hs, Hkp, Hkq. cbn. split; [discriminate|auto].
  - exact kpk_loaded.
  - intros reg p q i h HI HR Hfind _. exact (kpk_table reg p q i h HI HR Hfind).
  - intros reg p q HI HR. destruct HI as (_ & _ & _ & _ & _ & Hd).
    change (@Syzygy.PairsData core) with (Z -> Z) in *.
    destruct Hd as [-> | ->]; destruct HR; repeat constructor.
  - intros reg p q reg' HI HR Hf. exact (proj1 (kpk_front reg reg' p q HI HR Hf)).
  - intros reg p q reg' k1 k2 e HI HR Hf Hcell.
    destruct (kpk_front reg reg' p q HI HR Hf) as (_ & k1' & k2' & Hnone).
    change (@Syzygy.PairsData core) with (Z -> Z) in *.
    rewrite Hnone in Hcell. discriminate Hcell.
Qed.

End KPKFacts.


(** * The further theorems at work *)

Module MoreScenarios.
Import Tree MoreTrees.

(** ** The exchange of rooks *)

Lemma exchange_inv_move (p : Node) (m : Move) :
  exchange_tree p -> is_legal p m = true -> exchange_tree (do_move p m).
Proof.
  intros Hp Hl. apply Scenarios.is_legal_in in Hl. unfold exchange_tree.
  destruct Hp as [-> | [-> | ->]]; vm_compute in Hl.
  - destruct Hl as [<-|[<-|[]]]; vm_compute; auto.
  - destruct Hl as [<-|[<-|[]]]; vm_compute; auto.
  - destruct Hl as [<-|[]]; vm_compute; auto.
Qed.

Lemma exchange_capture (p : Node) (m : Move) :
  exchange_tree p -> is_capture p m = true -> is_legal p m = true ->
  (popcount (pieces (do_move p m)) < popcount (pieces p))%nat.
Proof.
  intros Hp Hc Hl. apply Scenarios.is_legal_in in Hl.
  destruct Hp as [-> | [-> | ->]]; vm_compute in Hl.
  - destruct Hl as [<-|[<-|[]]]; [vm_compute; lia|vm_compute in Hc; discriminate Hc].
  - destruct Hl as [<-|[<-|[]]]; [vm_compute; lia|vm_compute in Hc; discriminate Hc].
  - destruct Hl as [<-|[]]. vm_compute in Hc. discriminate Hc.
Qed.

Lemma exchange_stored (p : Node) (st : St (list Read)) :
  exchange_tree p ->
  fst (read_wdl p st) = stored_wdl p /\ success (snd (read_wdl p st)) = success st.
Proof. intros [-> | [-> | ->]]; split; reflexivity. Qed.

Lemma exchange_range (p : Node) : exchange_tree p -> -2 <= stored_wdl p <= 2.
Proof. intros [-> | [-> | ->]]; vm_compute; split; discriminate. Qed.

(** X1 on the exchange: with the full window the answer is the resolved
    value 0 of the root. *)
Lemma probe_ab_window_witness :
  exists r st',
    probe_ab rook_takes_knight (-2) 3 st0 = Some (r, st')
    /\ success st' = success st0
    /\ window_result (-2) 3 (resolved_value stored_wdl rook_takes_knight) r.
Proof.
  apply (@probe_ab_window engine tables stored_wdl exchange_tree
           exchange_inv_move exchange_capture exchange_stored
           rook_takes_knight (-2) 3 st0).
  - left. reflexivity.
  - lia.
  - simpl. lia.
Defined.

(** X2 on the exchange: taking the knight loses the rook, so the stored
    draw is the value, with [success = 1]. *)
Lemma TB_probe_wdl_resolved_witness :
  resolved_value stored_wdl rook_takes_knight = 0
  /\ exists st',
       TB_probe_wdl rook_takes_knight st0
       = Some (resolved_value stored_wdl rook_takes_knight, st')
       /\ (success st' = 1 \/ success st' = 2)
       /\ (success st' = 2 <->
           0 < resolved_value stored_wdl rook_takes_knight
           /\ exists m, In m (capture_moves rook_takes_knight)
                        /\ is_capture rook_takes_knight m = true
                        /\ is_legal rook_takes_knight m = true
                        /\ - resolved_value stored_wdl (do_move rook_takes_knight m)
                           = resolved_value stored_wdl rook_takes_knight).
Proof.
  split; [reflexivity|].
  apply (@TB_probe_wdl_resolved engine tables stored_wdl exchange_tree
           exchange_inv_move exchange_capture exchange_stored exchange_range
           rook_takes_knight st0).
  - left. reflexivity.
  - intros m Hin _ _. vm_compute in Hin. destruct Hin as [<-|[]]. discriminate.
Defined.

(** X25 on the exchange. *)
Lemma wdl_probes_return_witness :
  (exists r, probe_ab_fuel (S (popcount (pieces rook_takes_knight)))
               rook_takes_knight (-2) 2 st0 = Some r)
  /\ (exists r, probe_ab rook_takes_knight (-2) 2 st0 = Some r)
  /\ (exists r, TB_probe_wdl rook_takes_knight st0 = Some r)
  /\ (exists r, TB_root_probe_wdl rook_takes_knight
                  [mkExtMove (mv 3 27) 0; mkExtMove (mv 6 7) 0] st0 = Some r).
Proof.
  apply (@wdl_probes_return engine tables exchange_tree
           exchange_inv_move exchange_capture).
  - left. reflexivity.
  - intros e He. destruct He as [<-|[<-|[]]]; reflexivity.
Defined.

(** ** Ranges and signs *)

Lemma read_wdl_range (p : Node) (st : St (list Read)) : -2 <= fst (read_wdl p st) <= 2.
Proof. unfold read_wdl. destruct (node_wdl p) as [[]|]; simpl; lia. Qed.

(** X3 on KQ v KR. *)
Lemma TB_probe_wdl_range_witness :
  TB_probe_wdl queen_takes_rook st0 = Some (2, mkSt [ReadWDL 2] 2)
  /\ 0 <= 2 + 2 < Z.of_nat (length wdl_to_dtz)
  /\ (success (mkSt [ReadWDL 2] 2) = 0 -> 2 = 0).
Proof.
  assert (H : TB_probe_wdl queen_takes_rook st0 = Some (2, mkSt [ReadWDL 2] 2))
    by reflexivity.
  split; [exact H|].
  apply (@TB_probe_wdl_range engine tables queen_takes_rook st0
           (mkSt [ReadWDL 2] 2) 2 (read_wdl_range queen_takes_rook) H).
Defined.

(** X4 on the lost position whose DTZ table is stored for the other
    side: the loss comes back as -7. *)
Lemma TB_probe_dtz_sign_witness :
  TB_probe_dtz 2 lost_other_side st0
  = Some (-7, mkSt [ReadWDL 13; ReadDTZ 13; ReadWDL 14; ReadDTZ 14;
                    ReadWDL 15; ReadDTZ 15] 1)
  /\ exists w st1,
       TB_probe_wdl lost_other_side st0 = Some (w, st1)
       /\ (0 < w -> 0 < -7) /\ (w < 0 -> -7 < 0) /\ (w = 0 -> -7 = 0).
Proof.
  assert (H : TB_probe_dtz 2 lost_other_side st0
              = Some (-7, mkSt [ReadWDL 13; ReadDTZ 13; ReadWDL 14; ReadDTZ 14;
                                ReadWDL 15; ReadDTZ 15] 1)) by reflexivity.
  split; [exact H|].
  apply (@TB_probe_dtz_sign engine tables 2 lost_other_side st0
           (mkSt [ReadWDL 13; ReadDTZ 13; ReadWDL 14; ReadDTZ 14;
                  ReadWDL 15; ReadDTZ 15] 1) (-7)
           (read_wdl_range lost_other_side)).
  - intros w s. simpl. lia.
  - exact H.
  - simpl. lia.
Defined.

(** X5 on KP v K: the king move is passed over, e7 keeps the win. *)
Lemma TB_probe_dtz_pawn_move_witness :
  all_moves pawn_keeps_win = [mv 43 42] ++ mv 44 52 :: []
  /\ TB_probe_dtz 1 pawn_keeps_win st0
     = Some (wdl_to_dtz_at (2 + 2), mkSt [ReadWDL 80; ReadWDL 81] 1)
  /\ wdl_to_dtz_at (2 + 2) = 1.
Proof.
  assert (Hms : all_moves pawn_keeps_win = [mv 43 42] ++ mv 44 52 :: [])
    by reflexivity.
  split; [exact Hms|].
  destruct (@TB_probe_dtz_pawn_move engine tables 0 pawn_keeps_win st0
              (mkSt [ReadWDL 80] 1) (mkSt [ReadWDL 80] 1)
              (mkSt [ReadWDL 80; ReadWDL 81] 1)
              [mv 43 42] [] (mv 44 52) 2 (-2)) as (Hrun & Hwin & _);
    try reflexivity; try exact Hms; try (simpl; lia).
  split; [exact Hrun|]. apply Hwin. reflexivity.
Defined.

(** ** The root probes *)

(** X7 on the lost root: both moves lead to positions won for the
    opponent, their values are negative, and both stay. *)
Lemma TB_root_probe_losing_witness :
  exists res st2,
    TB_root_probe 3 lost_other_side lost_root_moves st0 = Some (res, st2)
    /\ ret res = 1
    /\ rm_out res = [mkExtMove (mv 63 62) (-5); mkExtMove (mv 63 55) (-7)]
    /\ num_moves res = 2%nat.
Proof.
  set (st1 := mkSt [ReadWDL 13; ReadDTZ 13; ReadWDL 14; ReadDTZ 14;
                    ReadWDL 15; ReadDTZ 15] 1).
  set (st2 := mkSt [ReadWDL 13; ReadDTZ 13; ReadWDL 14; ReadDTZ 14;
                    ReadWDL 15; ReadDTZ 15; ReadWDL 14; ReadDTZ 14;
                    ReadWDL 15; ReadDTZ 15] 1).
  set (rm1 := [mkExtMove (mv 63 62) (-5); mkExtMove (mv 63 55) (-7)]).
  assert (H1 : TB_probe_dtz 3 lost_other_side st0 = Some (-7, st1)) by reflexivity.
  assert (H2 : root_moves_dtz 3 lost_other_side (-7) lost_root_moves st1
               = Some (true, rm1, st2)) by reflexivity.
  destruct (@TB_root_probe_losing engine tables 3 lost_other_side lost_root_moves
              rm1 st0 st1 st2 (-7) H1) as (res & Hres & Hret & _ & _ & Hneg);
    [simpl; lia|lia|exact H2|].
  exists res, st2. split; [exact Hres|]. split; [exact Hret|].
  apply Hneg. intros e He. destruct He as [<-|[<-|[]]]; simpl; lia.
Defined.

(** X8 on the mate in one: Qg7 gets the value 1 and stays. *)
Lemma TB_root_probe_keeps_mate_witness :
  exists res st2,
    TB_root_probe 3 mate_in_one mate_in_one_moves st0 = Some (res, st2)
    /\ ret res = 1
    /\ In (mv 48 54) (move <$> take (num_moves res) (rm_out res)).
Proof.
  set (st1 := mkSt [ReadWDL 90; ReadDTZ 90] 1).
  set (st2 := mkSt [ReadWDL 90; ReadDTZ 90; ReadWDL 91; ReadDTZ 91] 1).
  set (rm1 := [mkExtMove (mv 48 54) 1; mkExtMove (mv 48 49) 4]).
  assert (H1 : TB_probe_dtz 3 mate_in_one st0 = Some (2, st1)) by reflexivity.
  assert (H2 : root_moves_dtz 3 mate_in_one 2 mate_in_one_moves st1
               = Some (true, rm1, st2)) by reflexivity.
  destruct (@TB_root_probe_keeps_mate engine tables 3 mate_in_one mate_in_one_moves
              rm1 st0 st1 st2 2 (mv 48 54) H1) as (res & Hres & Hret & _ & Hin);
    [simpl; lia|lia|exact H2|left; reflexivity|vm_compute; discriminate|reflexivity|].
  exists res, st2. auto.
Defined.

(** X12 on the drawn root: the two moves that stay are a sublist of the
    three. *)
Lemma TB_root_probe_sublist_witness :
  exists res st',
    @TB_root_probe engine tables 3 drawn_root drawn_root_moves st0 = Some (res, st')
    /\ ret res = 1
    /\ sublist (move <$> take (num_moves res) (rm_out res)) (move <$> drawn_root_moves)
    /\ (num_moves res <= length drawn_root_moves)%nat
    /\ length (rm_out res) = length drawn_root_moves.
Proof.
  destruct (@TB_root_probe engine tables 3 drawn_root drawn_root_moves st0)
    as [[res st']|] eqn:H;
    [|vm_compute in H; discriminate H].
  exists res, st'. split; [reflexivity|].
  assert (Hret : ret res = 1).
  { vm_compute in H. injection H as <- _. reflexivity. }
  split; [exact Hret|].
  destruct (@TB_root_probe_sublist engine tables 3 drawn_root drawn_root_moves
              st0 st' res H Hret) as (Hs & Hn & Hl & _).
  auto.
Defined.

(** X10 and X11 with the values of the tree engine. *)
Lemma root_score_odd_witness :
  @root_score engine (- INT32_MAX) 1 = - @root_score engine INT32_MAX 1
  /\ @root_score engine INT32_MAX 1 = 31871.
Proof.
  split; [|reflexivity].
  apply (@root_score_odd engine INT32_MAX 1); [reflexivity|].
  unfold INT32_MAX. lia.
Defined.

Lemma root_score_cursed_witness :
  @root_score engine 60 50 = Z.quot ((200 - 60 - 50) * @PawnValueEg engine) 200
  /\ 0 <= @root_score engine 60 50
  /\ 2 * @root_score engine 60 50 <= @PawnValueEg engine
  /\ (50 < 100 -> @root_score engine 60 (50 + 1) <= @root_score engine 60 50).
Proof.
  apply (@root_score_cursed engine 60 50); [simpl; lia|lia|lia|lia].
Defined.

(** X27 where a pawn can promote on e8 or take on f8: the three
    under-promotions of the capture are appended, none for e8=Q. *)
Lemma add_underprom_caps_spec_witness :
  generate_captures pawn_promotes = [e8Q; exf8Q]
  /\ add_underprom_caps pawn_promotes (generate_captures pawn_promotes)
     = [e8Q; exf8Q; exf8Q - 4096; exf8Q - 8192; exf8Q - 12288]
  /\ (In (exf8Q - 8192)
         (drop 2 (add_underprom_caps pawn_promotes (generate_captures pawn_promotes)))
      <-> exists m,
            In m [e8Q; exf8Q] /\ type_of_m m = PROMOTION
            /\ piece_on pawn_promotes (to_sq m) <> 0
            /\ Z.land (exf8Q - 8192) 4095 = Z.land m 4095
            /\ Z.shiftr (exf8Q - 8192) 14 = Z.shiftr m 14
            /\ 0 <= Z.land (Z.shiftr (exf8Q - 8192) 12) 3 < 3).
Proof.
  split; [reflexivity|]. split; [reflexivity|].
  apply (@add_underprom_caps_spec engine pawn_promotes [e8Q; exf8Q]).
  intros m Hin _ Hp. destruct Hin as [<-|[<-|[]]]; [|reflexivity].
  exfalso. apply Hp. reflexivity.
Defined.

(** ** The DTZ recursion *)

Lemma lost_tree_inv_move (p : Node) (m : Move) :
  lost_other_side_tree p -> is_legal p m = true -> lost_other_side_tree (do_move p m).
Proof.
  intros Hp Hl. apply Scenarios.is_legal_in in Hl.
  destruct Hp as [-> | [-> | ->]]; vm_compute in Hl.
  - destruct Hl as [<-|[<-|[]]]; vm_compute; auto.
  - destruct Hl.
  - destruct Hl.
Qed.

Lemma lost_tree_capture (p : Node) (m : Move) :
  lost_other_side_tree p -> is_capture p m = true -> is_legal p m = true ->
  (popcount (pieces (do_move p m)) < popcount (pieces p))%nat.
Proof.
  intros Hp Hc Hl. apply Scenarios.is_legal_in in Hl.
  destruct Hp as [-> | [-> | ->]]; vm_compute in Hl.
  - destruct Hl as [<-|[<-|[]]]; vm_compute in Hc; discriminate Hc.
  - destruct Hl.
  - destruct Hl.
Qed.

Lemma lost_tree_other_side (p : Node) (m : Move) (w : Z) (st : St (list Read))
  (w' : Z) (st' : St (list Read)) :
  lost_other_side_tree p ->
  dtz_skips p m = false ->
  success (snd (read_dtz p w st)) < 0 ->
  0 <= success st' ->
  0 <= success (snd (read_dtz (do_move p m) w' st')).
Proof.
  intros Hp Hsk Hneg Hs'. apply dtz_skips_legal in Hsk.
  apply Scenarios.is_legal_in in Hsk.
  destruct Hp as [-> | [-> | ->]]; vm_compute in Hsk.
  - destruct Hsk as [<-|[<-|[]]]; simpl; exact Hs'.
  - destruct Hsk.
  - destruct Hsk.
Qed.

(** X26 on the lost position whose DTZ table is stored for the other
    side. *)
Lemma dtz_probes_return_witness :
  (exists r, TB_probe_dtz 2 lost_other_side st0 = Some r
             /\ forall fuel, TB_probe_dtz (2 + fuel) lost_other_side st0 = Some r)
  /\ (exists r, TB_root_probe 2 lost_other_side lost_root_moves st0 = Some r).
Proof.
  apply (@dtz_probes_return engine tables lost_other_side_tree
           lost_tree_inv_move lost_tree_capture Scenarios.read_wdl_frame
           lost_tree_other_side).
  - left. reflexivity.
  - intros e He. destruct He as [<-|[<-|[]]]; reflexivity.
Defined.

End MoreScenarios.

Module StatsWitnesses.
Import StatsExamples.

Ltac within_bounds :=
  unfold stats_within;
  repeat first [ apply Forall_nil | apply Forall_cons; [|] | lia ].

Lemma hs0_within : stats_within 10368 hs0.
Proof. unfold hs0. within_bounds. Qed.

Lemma cms0_within : stats_within 29952 cms0.
Proof. unfold cms0. within_bounds. Qed.

(** X13 at a cell that sits on the upper bound. *)
Lemma hs_update_within_witness :
  stats_within 10368 (hs_update hs0 0 1 323)
  /\ stat_get (hs_update hs0 0 1 323) 0 1 = 10368.
Proof.
  destruct (hs_update_within hs0 0 1 323 hs0_within) as (H & _ & _).
  split; [exact H|reflexivity].
Defined.

(** X14 at a cell that sits on the lower bound. *)
Lemma cms_update_within_witness :
  stats_within 29952 (cms_update cms0 0 2 (-323))
  /\ stat_get (cms_update cms0 0 2 (-323)) 0 2 = -29952.
Proof.
  destruct (cms_update_within cms0 0 2 (-323) cms0_within) as [H _].
  split; [exact H|reflexivity].
Defined.

(** X16 on the same table. *)
Lemma hs_update_direction_witness :
  stat_get hs0 1 0 <= stat_get (hs_update hs0 1 0 20) 1 0
  /\ stat_get (hs_update hs0 1 0 (-20)) 1 0 <= stat_get hs0 1 0.
Proof.
  split.
  - apply (hs_update_direction hs0 1 0 20 hs0_within). lia.
  - apply (hs_update_direction hs0 1 0 (-20) hs0_within). lia.
Defined.

(** X15: a move with bits above the low twelve set writes the cell of its
    from and to squares; another cell keeps its value. *)
Lemma ft_update_get_witness :
  ft_get (ft_update ft0 1 (77 + 3 * 4096) 10) 1 77 = 1290
  /\ ft_get (ft_update ft0 1 (77 + 3 * 4096) 10) 1 78 = 0.
Proof.
  assert (Hrow : exists row, ft0 !! Z.to_nat 1 = Some row /\ length row = 4096%nat).
  { eexists. split; [reflexivity|]. rewrite length_insert, length_replicate.
    reflexivity. }
  split.
  - destruct (ft_update_get ft0 1 1 (77 + 3 * 4096) 77 10 ltac:(lia) Hrow) as [H _].
    rewrite H. reflexivity.
  - destruct (ft_update_get ft0 1 1 (77 + 3 * 4096) 78 10 ltac:(lia) Hrow) as [H _].
    rewrite H. reflexivity.
Defined.

End StatsWitnesses.

(** X23 on the four corners of the board, reflected. *)
Lemma pop_squares_spec_witness :
  Syzygy.pop_squares 64 9295429630892703873 56 = [56; 63; 0; 7]
  /\ length (Syzygy.pop_squares 64 9295429630892703873 56)
     = popcount 9295429630892703873.
Proof.
  destruct (pop_squares_spec 9295429630892703873 56 ltac:(lia)) as [H1 H2].
  split; [|exact H2]. rewrite H1. reflexivity.
Defined.

(** X24 on the two keys of KP v K. *)
Lemma probe_side_mirror_witness :
  Syzygy.probe_side KPK.key_KPvK false KPK.key_KvKP (Z.lxor WHITE 1)
  = (fst (fst (Syzygy.probe_side KPK.key_KPvK false KPK.key_KPvK WHITE)),
     Z.lxor (snd (fst (Syzygy.probe_side KPK.key_KPvK false KPK.key_KPvK WHITE))) 56,
     Z.lxor (snd (Syzygy.probe_side KPK.key_KPvK false KPK.key_KPvK WHITE)) 8).
Proof.
  apply (probe_side_mirror KPK.key_KPvK KPK.key_KPvK KPK.key_KvKP false WHITE).
  - left. reflexivity.
  - split; [discriminate|]. left. reflexivity.
Defined.

(** X20 on KP v K: the first probe loads the table. *)
Lemma probe_wdl_table_loads_once_witness :
  let st1 := snd (@Syzygy.probe_wdl_table Tree.engine KPK.core KPK.white_pawn KPK.st0) in
  success st1 <> 0
  /\ @Syzygy.probe_wdl_table Tree.engine (without_files KPK.core) KPK.white_pawn st1
     = @Syzygy.probe_wdl_table Tree.engine KPK.core KPK.white_pawn st1
  /\ fst (@Syzygy.probe_wdl_table Tree.engine KPK.core KPK.white_pawn st1)
     = fst (@Syzygy.probe_wdl_table Tree.engine KPK.core KPK.white_pawn KPK.st0).
Proof.
  cbv zeta.
  assert (Hs : success (snd (@Syzygy.probe_wdl_table Tree.engine KPK.core
                               KPK.white_pawn KPK.st0)) <> 0)
    by (vm_compute; discriminate).
  split; [exact Hs|].
  destruct (@probe_wdl_table_loads_once Tree.engine KPK.core KPK.white_pawn
              KPK.white_pawn KPK.st0 Hs eq_refl) as (H1 & H2 & _).
  split; [exact H1|exact H2].
Defined.

(** X21 on KP v K with the files gone: the slot of the key is cleared
    and the next probe fails at the lookup. *)
Lemma probe_wdl_table_init_failure_witness :
  @Syzygy.probe_wdl_table Tree.engine (without_files KPK.core) KPK.white_pawn KPK.st0
  = (0, mkSt (@Syzygy.clear_slot KPK.core KPK.registry KPK.key_KPvK 0) 0)
  /\ @Syzygy.probe_wdl_table Tree.engine (without_files KPK.core) KPK.white_pawn
       (mkSt (@Syzygy.clear_slot KPK.core KPK.registry KPK.key_KPvK 0) 7)
     = (0, mkSt (@Syzygy.clear_slot KPK.core KPK.registry KPK.key_KPvK 0) 0).
Proof.
  destruct (@probe_wdl_table_init_failure Tree.engine (without_files KPK.core)
              KPK.white_pawn KPK.st0 0 (Syzygy.mkTBHashEntry KPK.key_KPvK 0))
    as [H1 H2]; try reflexivity; try discriminate.
  - intros j h' Hj Hl. destruct j as [|[|j]].
    + contradiction.
    + vm_compute in Hl. injection Hl as <-. discriminate.
    + vm_compute in Hl. discriminate Hl.
  - split; [exact H1|]. apply (H2 7 KPK.white_pawn). reflexivity.
Defined.

